(* ===== verification/_CoqProject ===== *)
-Q . S2P
Prelude.v
Keys.v
KVList.v
Node.v
NodeOps.v
Tree.v
TreeRep.v
TreeInsert.v
TreeDelete.v
TreeSpec.v
Iter.v
NodeSearch.v
Overflow.v
Encoding.v
Meta.v
PageMgr.v
FreeList.v
KV.v
Protocol.v
Storage.v
Tx.v
Shard.v
Pool.v
Relational.v
RelSpec.v
TreeStore.v
Ast.v
Parser.v
ParserSpec.v
StmtSpec.v
Executor.v
SqlSpec.v
SqlTree.v
Server.v
ServerLoop.v
Client.v
SrvMain.v
