(* ===== verification/Prelude.v ===== *)
(** * Verification of svacara-db

    svacara-db is a relational database server in Go: a B+tree over a
    memory-mapped file, a key-value store with rollback on top of it, tables
    with an order-preserving row encoding, an SQL parser and executor,
    transactions, sharding, a connection pool, and a TCP server with a
    command-line client.

    ** How Go code is modelled

    A function that can panic returns [res]: [Ok], [Panic] (slice bounds, nil
    maps, explicit panics, faults of the memory map) or [OutOfFuel], which
    stands for a loop that was cut short and never for a result of the program.
    State is passed explicitly; a Go error is a value of a sum or option type.
    Bytes are [Z]; integers are [Z] with the wrap-around of their width written
    out ([u16], [u32], [u64], [i64]). What the code reaches through callbacks or
    interfaces is a class of operations with a second class of laws, and
    theorems about the client are proved for every instance: [PageStore] and
    [PageStoreOK] (the tree over its pages), [FLStore] and [FLStoreOK] (the free
    list), [OvStoreOK] (overflow chains), [Storage] with [StorageOK] and
    [ScanOK] (everything above the key-value store). Each class of laws has an
    instance: pages in memory for the tree and the overflow chains, the page
    manager for the free list, maps in memory, the tree and shards for the
    storage. What the laws ask and kv.go does not do is stated beside them: a
    page cannot be read there before it is flushed, so a second write and an
    overflow chain of two pages fault ([second_set_faults],
    [overflow_chain_faults]). [StorageOK] counts: a store that represents a map has room for a
    number of further operations and takes the pairs that fit, so that a tree
    with bounded keys keeps the contract as well as a map in memory. Values the
    model does not compute are arguments: the outcome of a system call
    ([pm_faults]), the clock, the listing of a directory, what arrives on a
    connection, the text of a float and of an error. A slice expression is
    checked against the length of the slice; Go allows it up to the capacity,
    which differs only on pages that no operation writes and on pairs that do
    not fit their page.

    ** The parts and their files

    - src/internal/btree: [Keys] (cmp), [KVList] (sorted lists and the map they
      stand for), [Node] (node.go), [NodeOps] (the page builders of insert.go
      and delete.go), [Tree] (treeInsert, Insert, Get, treeDelete, Delete),
      [TreeRep], [TreeInsert], [TreeDelete] (representation of a map by pages,
      and its preservation), [TreeSpec] (the tree as a map), [NodeSearch] (the
      binary search against a linear one), [Iter] (iterator.go), [Overflow]
      (overflow.go), [FreeList] (freelist.go).
    - src/internal/storage: [Meta] (the meta page and its checksum), [PageMgr]
      (page.go and Recover).
    - src/internal/kvstore: [Encoding] (encoding.go, types.go), [KV] (kv.go),
      [Storage] (interface.go).
    - src/internal/transaction: [Tx]; src/internal/shard: [Shard];
      src/internal/pool: [Pool].
    - src/internal/relational: [Relational] (the code), [RelSpec] (its theorems).
    - src/internal/sql: [Ast] (ast.go, planner.go), [Parser] (parser.go),
      [ParserSpec] and [StmtSpec] (printers and round trips), [Executor]
      (executor.go).
    - The layers together: [TreeStore], the tables over the tree; [SqlSpec], SQL
      from text to rows over every store; [SqlTree], SQL over the tree.
    - src/internal/protocol: [Protocol], with the printing of results by the
      client; src/internal/server: [Server] (a session) and [ServerLoop]
      (starting, the accept loop, all sessions and the shutdown as interleaved
      steps).
    - src/cmd/svacara-cli: [Client]; src/cmd/svacara-server: [SrvMain].

    Definitions carry the names of the source; a loop of a function [f] is
    [f_loop] or named after what it does, and a method whose name is taken gets
    a prefix or a final underscore ([Set_], [Tx_Get], [ConnBegin]).

    ** What the theorems show

    - The tree is a map: over every page store with its laws each sequence of
      insertions, deletions and lookups gives the answers of a finite map
      ([btree_refines_map]), with [Insert_correct], [Delete_correct] and
      [Get_correct] for single operations. This holds for keys of 10 to 400
      bytes in pairs of at most 1000, as long as the page store has room: the
      split does not count the 10 bytes of pointer and offset of each entry, so
      shorter keys can make it panic. Sequences with deletions use keys of one
      length, because a longer separator cannot be split on that path. The binary search equals
      a linear one. The iterator walks the pairs in order on trees of one and
      two levels, and goes wrong on three. A chain of overflow pages gives its
      value back and frees its pages, over a store with [OvStoreOK].
    - Storage: pages of 4096 bytes are read after a flush as they were written,
      and a longer one, as the tree allocates them, shifts those after it
      ([long_page_shifts]); the meta page is read back and every change of one
      byte is detected; a commit that fails before the meta page is written, on
      a store without an earlier failure, rolls the store back and leaves the old
      meta page on disk, so that reopening gives the old state; on a closed file
      nothing is committed; the first write to a new store, of a pair of at most
      4078 bytes, survives reopening, and the second one faults. The free list
      gives pages out in the order they were pushed, within its first page.
    - Encoding: comparing encoded keys compares the values, for floats other than
      -0.0 and NaN, and decoding gives the values back.
    - Tables without indexes whose names hash to different prefixes refine maps
      from primary keys to rows over every store that keeps its contract, and a sharded store keeps it as well, with every key routed
      to an existing shard. The tree keeps the contract over every page store
      with its laws, so the rows of tables with an integer key behave as maps in
      its pages ([tables_over_btree]). The store of the program itself does not
      keep it, because of the fault of the second write. Records are completed to
      typed rows; unknown tables and columns are errors that change nothing.
    - Transactions: an invariant of all interleavings of calls, with the versions
      in the order of [Begin]; the effect of a commit, what it keeps of the
      history, exactness of the conflict test on what the history records, and
      an update lost because of what it does not record.
    - The pool: an invariant of all interleavings of clients that use only
      connections they hold, the outcomes of [Acquire], and that a released
      connection can be acquired. [MaxConns] bounds the list [conns]; more
      connections can be in use ([pool_overcommits]).
    - SQL: parsing always returns, and every statement is read back from its text
      ([Parse_statement_roundtrip]); SELECT returns the rows of a scan in key
      order with offset and limit, aggregates (SUM wraps at 64 bits), and the index
      chosen for a filter is the one with the longest prefix of compared columns.
      Rows selected by UPDATE or DELETE make the program panic.
    - All layers: after a script of CREATE TABLE and INSERT statements, as text, a
      SELECT, as text, returns one record for each key in the order of the keys,
      over every store that keeps its contract ([sql_script_rows]) and, up to 151
      rows with an integer key, over the pages of a tree ([sql_over_btree]): so
      many rows leave the tree at two levels, where its iterator is right. The
      names in PRIMARY KEY are the first columns of the table, as the code
      assumes without looking, and the records lack the values of the key.
    - Server: in every state that the accept loop, the sessions and the signal
      can reach, the connections in use are those of the running sessions, no two
      share one, each read was answered by one message and nobody was served
      without the token ([server_invariant]); with a listener the accept loop can
      always come to its return, and no session gets a connection once the pool
      is closed ([shutdown_drains]). [handleConn] run alone is a run of this
      system. [message_framing] tells which messages the reads of 4096 bytes
      make of what a client sends; [start_cases] gives the ways to start.
    - The programs: the client shows for each line of at most 4091 bytes what the
      statement gives on the database, as long as no statement makes the server
      panic ([client_shows_results]); the server program turns its flags, in all
      their spellings, into a configuration or an exit code ([server_program]).

    ** Fuel

    The descent of a tree uses one unit per level: the theorems ask for the
    height, and [KV_FUEL] is 64, above the height of any tree of 2^64 pages with
    two children per node. [Parse] uses [parse_fuel], ten units per byte and
    twenty more, and [Parse_terminates] shows that it is enough. [Acquire] uses
    one unit per connection it can visit. Scans, reading and freeing a chain use
    one unit per row or page. Loops over a list recurse on the list.

    ** Not modelled

    Races between goroutines inside one operation: each operation of the pool
    and of the transaction manager holds its lock and is one step; the handling
    of a message is one step too, although the code does not keep two queries
    apart. The end of the process: the sessions of [ServerLoop] can go on after
    the accept loop has returned, while svacara-server ends there. Deadlines of connections appear as failed reads, logs not at all. The
    TLS handshake and the wording of error messages, prompts and printed floats. *)
From Stdlib Require Export ZArith Lia.
From stdpp Require Export base numbers list gmap sets.

#[local] Open Scope Z_scope.

(** * Results of Go code

    A Go function either returns, panics (an out-of-range index or slice
    expression, an explicit [panic], a memory fault), or, when the model bounds
    an unbounded loop or recursion by fuel, runs out of that fuel. *)

Inductive res (A : Type) : Type :=
| Ok (a : A)
| Panic
| OutOfFuel.
Arguments Ok {_} _.
Arguments Panic {_}.
Arguments OutOfFuel {_}.

#[global] Instance res_ret : MRet res := fun A a => Ok a.
#[global] Instance res_bind : MBind res := fun A B f m =>
  match m with Ok a => f a | Panic => Panic | OutOfFuel => OutOfFuel end.
#[global] Instance res_fmap : FMap res := fun A B f m =>
  match m with Ok a => Ok (f a) | Panic => Panic | OutOfFuel => OutOfFuel end.

#[global] Instance res_eq_dec {A} `{EqDecision A} : EqDecision (res A).
Proof. solve_decision. Defined.

(** [of_option o]: a partial read whose absence is a panic. *)
Definition of_option {A} (o : option A) : res A :=
  match o with Some a => Ok a | None => Panic end.

(** * Machine integers *)

Definition u8 (x : Z) : Z := x mod 256.
Definition u16 (x : Z) : Z := x mod 65536.
Definition u32 (x : Z) : Z := x mod 4294967296.
Definition u64 (x : Z) : Z := x mod 18446744073709551616.

(** Two's complement reading of a 64-bit pattern: Go's [int64(u)]. *)
Definition i64 (x : Z) : Z :=
  let y := u64 x in
  if y <? 9223372036854775808 then y else y - 18446744073709551616.

(** * Byte buffers

    A Go [[]byte] is the list of its bytes, each a [Z] in [0, 256). *)

Abbreviation bytes := (list Z).

Definition is_byte (x : Z) : Prop := 0 <= x < 256.
Abbreviation bytes_ok := (Forall is_byte).

#[global] Instance is_byte_dec x : Decision (is_byte x).
Proof. unfold is_byte. apply _. Defined.

Definition len {A} (l : list A) : Z := Z.of_nat (length l).

(** [make([]byte, n)] *)
Definition make (n : Z) : bytes := replicate (Z.to_nat n) 0.

(** Overwrite the bytes of [b] from [pos] on with [l] (in range). *)
Definition blit (b : bytes) (pos : Z) (l : bytes) : bytes :=
  take (Z.to_nat pos) b ++ l ++ drop (Z.to_nat pos + length l) b.

(** [b[pos:]], [b[:n]] and [b[lo:hi]]; out of range they panic. *)
Definition slice_from {A} (b : list A) (pos : Z) : res (list A) :=
  if (0 <=? pos) && (pos <=? len b) then Ok (drop (Z.to_nat pos) b) else Panic.

Definition slice_to {A} (b : list A) (n : Z) : res (list A) :=
  if (0 <=? n) && (n <=? len b) then Ok (take (Z.to_nat n) b) else Panic.

Definition slice {A} (b : list A) (lo hi : Z) : res (list A) :=
  if (0 <=? lo) && (lo <=? hi) && (hi <=? len b)
  then Ok (take (Z.to_nat (hi - lo)) (drop (Z.to_nat lo) b)) else Panic.

(** [b[i]] *)
Definition index {A} (b : list A) (i : Z) : res A :=
  if 0 <=? i then of_option (b !! Z.to_nat i) else Panic.

(** [encoding/binary]: the [n] bytes of a value, and back. *)
Fixpoint le_bytes (n : nat) (v : Z) : bytes :=
  match n with
  | O => []
  | S n => v mod 256 :: le_bytes n (v / 256)
  end.

Fixpoint le_val (l : bytes) : Z :=
  match l with
  | [] => 0
  | b :: l => b + 256 * le_val l
  end.

Definition be_bytes (n : nat) (v : Z) : bytes := rev (le_bytes n v).
Definition be_val (l : bytes) : Z := le_val (rev l).

(** [binary.LittleEndian.UintN(b)] and [binary.BigEndian.UintN(b)]. *)
Definition le_uint (n : nat) (b : bytes) : res Z :=
  if Z.of_nat n <=? len b then Ok (le_val (take n b)) else Panic.

Definition be_uint (n : nat) (b : bytes) : res Z :=
  if Z.of_nat n <=? len b then Ok (be_val (take n b)) else Panic.

(** [binary.LittleEndian.PutUintN(b[pos:], v)]: the buffer after the store. *)
Definition put_le (n : nat) (b : bytes) (pos v : Z) : res bytes :=
  if (0 <=? pos) && (pos + Z.of_nat n <=? len b)
  then Ok (blit b pos (le_bytes n v)) else Panic.

Definition put_be (n : nat) (b : bytes) (pos v : Z) : res bytes :=
  if (0 <=? pos) && (pos + Z.of_nat n <=? len b)
  then Ok (blit b pos (be_bytes n v)) else Panic.

(** [copy(b[pos:], src)]: copies what fits, panics only when [pos] is out of range. *)
Definition copy_at (b : bytes) (pos : Z) (src : bytes) : res bytes :=
  if (0 <=? pos) && (pos <=? len b)
  then Ok (blit b pos (take (Z.to_nat (len b - pos)) src)) else Panic.

Arguments make : simpl never.
Arguments blit : simpl never.
Arguments len : simpl never.
Arguments le_bytes : simpl never.
Arguments le_val : simpl never.
Arguments be_bytes : simpl never.
Arguments be_val : simpl never.
Arguments u8 : simpl never.
Arguments u16 : simpl never.
Arguments u32 : simpl never.
Arguments u64 : simpl never.
Arguments i64 : simpl never.

(** * Reasoning about results *)

Section results.
Context {A B : Type}.
Implicit Types (m : res A) (f : A -> res B).

Lemma bind_ok (a : A) f : (Ok a ≫= f) = f a.
Proof. reflexivity. Qed.

Lemma bind_ok_inv m f b : (m ≫= f) = Ok b -> exists a, m = Ok a /\ f a = Ok b.
Proof. destruct m; simpl; try discriminate. eauto. Qed.

End results.

(** * Lengths *)

Lemma len_nonneg {A} (l : list A) : 0 <= len l.
Proof. unfold len. lia. Qed.

Lemma len_nil {A} : len (@nil A) = 0.
Proof. reflexivity. Qed.

Lemma len_cons {A} (x : A) l : len (x :: l) = 1 + len l.
Proof. unfold len. simpl length. lia. Qed.

Lemma len_app {A} (l k : list A) : len (l ++ k) = len l + len k.
Proof. unfold len. rewrite length_app. lia. Qed.

Lemma len_snoc {A} (l : list A) x : len (l ++ [x]) = len l + 1.
Proof. rewrite len_app. reflexivity. Qed.

Lemma len_take {A} (l : list A) n : 0 <= n <= len l -> len (take (Z.to_nat n) l) = n.
Proof. unfold len. rewrite length_take. lia. Qed.

Lemma len_drop {A} (l : list A) n : 0 <= n <= len l -> len (drop (Z.to_nat n) l) = len l - n.
Proof. unfold len. rewrite length_drop. lia. Qed.

Lemma len_make n : 0 <= n -> len (make n) = n.
Proof. intros. unfold len, make. rewrite length_replicate. lia. Qed.

Lemma len_zero_nil {A} (l : list A) : len l = 0 -> l = [].
Proof. destruct l; [done|]. rewrite len_cons. pose proof (len_nonneg l). lia. Qed.

Lemma len_le_bytes n v : len (le_bytes n v) = Z.of_nat n.
Proof.
  unfold len. revert v. induction n as [|n IH]; intros v; [done|].
  change (le_bytes (S n) v) with (v mod 256 :: le_bytes n (v / 256)).
  simpl length. specialize (IH (v / 256)). lia.
Qed.

Lemma len_be_bytes n v : len (be_bytes n v) = Z.of_nat n.
Proof. unfold be_bytes, len. rewrite length_rev. apply len_le_bytes. Qed.

Create Rewrite HintDb len.
#[export] Hint Rewrite @len_nil @len_cons @len_app len_le_bytes len_be_bytes : len.

(** [len_lia]: linear arithmetic about lengths. *)
Ltac len_nonneg_all :=
  repeat match goal with
  | |- context [len ?l] =>
      lazymatch goal with
      | _ : 0 <= len l |- _ => fail
      | _ => pose proof (len_nonneg l)
      end
  | H : context [len ?l] |- _ =>
      lazymatch goal with
      | _ : 0 <= len l |- _ => fail
      | _ => pose proof (len_nonneg l)
      end
  end.
Ltac len_lia := autorewrite with len in *; len_nonneg_all; lia.

(** * Machine integers in range *)

Lemma u16_id x : 0 <= x < 65536 -> u16 x = x.
Proof. apply Z.mod_small. Qed.

Lemma u32_id x : 0 <= x < 4294967296 -> u32 x = x.
Proof. apply Z.mod_small. Qed.

Lemma u64_id x : 0 <= x < 18446744073709551616 -> u64 x = x.
Proof. apply Z.mod_small. Qed.

Lemma u16_range x : 0 <= u16 x < 65536.
Proof. apply Z.mod_pos_bound. lia. Qed.

Lemma u64_range x : 0 <= u64 x < 18446744073709551616.
Proof. apply Z.mod_pos_bound. lia. Qed.

Lemma i64_id x : -9223372036854775808 <= x < 9223372036854775808 -> i64 x = x.
Proof.
  intros. unfold i64, u64. destruct (Z.ltb_spec (x mod 18446744073709551616) 9223372036854775808).
  - destruct (Z.leb_spec 0 x); [apply Z.mod_small; lia|].
    assert (x mod 18446744073709551616 = x + 18446744073709551616); [|lia].
    rewrite <-(Z.mod_add x 1) by lia. rewrite Z.mod_small; lia.
  - destruct (Z.leb_spec 0 x); [rewrite Z.mod_small in * by lia; lia|].
    rewrite <-(Z.mod_add x 1) by lia. rewrite Z.mod_small; lia.
Qed.

(** * Little- and big-endian integers *)

Lemma le_bytes_S n v : le_bytes (S n) v = v mod 256 :: le_bytes n (v / 256).
Proof. reflexivity. Qed.

Lemma le_val_cons b l : le_val (b :: l) = b + 256 * le_val l.
Proof. reflexivity. Qed.

Lemma le_val_bytes n v : 0 <= v < 256 ^ Z.of_nat n -> le_val (le_bytes n v) = v.
Proof.
  revert v. induction n as [|n IH]; intros v Hv.
  - change (256 ^ Z.of_nat 0) with 1 in Hv. change (0 = v). lia.
  - rewrite Nat2Z.inj_succ, Z.pow_succ_r in Hv by lia.
    rewrite le_bytes_S, le_val_cons, IH.
    + pose proof (Z.div_mod v 256). lia.
    + split; [apply Z.div_pos; lia|apply Z.div_lt_upper_bound; lia].
Qed.

Lemma be_val_bytes n v : 0 <= v < 256 ^ Z.of_nat n -> be_val (be_bytes n v) = v.
Proof. intros. unfold be_val, be_bytes. rewrite rev_involutive. by apply le_val_bytes. Qed.

Lemma le_bytes_ok n v : bytes_ok (le_bytes n v).
Proof.
  revert v. induction n as [|n IH]; intros v; [constructor|].
  rewrite le_bytes_S. constructor; [apply Z.mod_pos_bound; lia|apply IH].
Qed.

Lemma be_bytes_ok n v : bytes_ok (be_bytes n v).
Proof.
  unfold be_bytes. apply Forall_forall. intros x Hx.
  rewrite list_elem_of_In, <-in_rev, <-list_elem_of_In in Hx.
  revert x Hx. apply Forall_forall, le_bytes_ok.
Qed.

(** * Contents of a buffer

    [has b pos l]: the bytes of [b] from [pos] on are [l]. Stores are
    described by the [has] facts they establish and the ones they keep. *)

Definition has (b : bytes) (pos : Z) (l : bytes) : Prop :=
  0 <= pos /\ pos + len l <= len b /\
  forall i x, l !! i = Some x -> b !! (Z.to_nat pos + i)%nat = Some x.

Lemma has_take_drop b pos l :
  has b pos l -> take (length l) (drop (Z.to_nat pos) b) = l.
Proof.
  intros (H1 & H2 & H3). unfold len in *. apply list_eq. intros i.
  destruct (decide (i < length l)%nat) as [Hi|Hi].
  - rewrite lookup_take_lt by done. rewrite lookup_drop.
    destruct (lookup_lt_is_Some_2 l i Hi) as [x Hx]. rewrite Hx. by apply H3.
  - rewrite lookup_take_ge by lia. symmetry. apply lookup_ge_None. lia.
Qed.

Lemma has_at b p q l : has b p l -> p = q -> has b q l.
Proof. by intros ? <-. Qed.

Lemma has_app b pos l k : has b pos (l ++ k) <-> has b pos l /\ has b (pos + len l) k.
Proof.
  unfold has. rewrite len_app. pose proof (len_nonneg l). pose proof (len_nonneg k).
  unfold len in *. split.
  - intros (H1 & H2 & H3). repeat split; try lia.
    + intros i x Hx. apply H3. by apply lookup_app_l_Some.
    + intros i x Hx.
      replace (Z.to_nat (pos + Z.of_nat (length l)) + i)%nat
        with (Z.to_nat pos + (length l + i))%nat by lia.
      apply H3. rewrite lookup_app_r by lia. rewrite <-Hx. f_equal. lia.
  - intros ((H1 & H2 & H3) & (H4 & H5 & H6)). repeat split; try lia.
    intros i x Hx. apply lookup_app_Some in Hx as [Hx|[Hi Hx]]; [by apply H3|].
    apply H6 in Hx. rewrite <-Hx. f_equal. lia.
Qed.

Lemma len_blit b pos l : 0 <= pos -> pos + len l <= len b -> len (blit b pos l) = len b.
Proof.
  intros. unfold blit, len in *. rewrite !length_app, length_take, length_drop. lia.
Qed.

Lemma blit_lookup b pos l i :
  0 <= pos -> pos + len l <= len b ->
  blit b pos l !! i =
    if decide (Z.to_nat pos <= i < Z.to_nat pos + length l)%nat
    then l !! (i - Z.to_nat pos)%nat else b !! i.
Proof.
  intros. unfold blit, len in *.
  assert (length (take (Z.to_nat pos) b) = Z.to_nat pos) as Ht by (rewrite length_take; lia).
  case_decide as Hd.
  - rewrite lookup_app_r by lia. rewrite lookup_app_l by lia. f_equal. lia.
  - destruct (decide (i < Z.to_nat pos)%nat).
    + rewrite lookup_app_l by lia. by rewrite lookup_take_lt.
    + rewrite lookup_app_r, lookup_app_r by lia. rewrite lookup_drop. f_equal. lia.
Qed.

Lemma has_blit_same b pos l : 0 <= pos -> pos + len l <= len b -> has (blit b pos l) pos l.
Proof.
  intros. repeat split; [done|by rewrite len_blit|].
  intros i x Hx. rewrite blit_lookup by done.
  pose proof (lookup_lt_Some _ _ _ Hx). rewrite decide_True by lia.
  rewrite <-Hx. f_equal. lia.
Qed.

Lemma has_blit_other b pos l p k :
  0 <= pos -> pos + len l <= len b -> has b p k ->
  p + len k <= pos \/ pos + len l <= p -> has (blit b pos l) p k.
Proof.
  intros Hp Hl (H1 & H2 & H3) Hd. repeat split; [done|by rewrite len_blit|].
  intros i x Hx. rewrite blit_lookup by done.
  pose proof (lookup_lt_Some _ _ _ Hx). unfold len in *.
  rewrite decide_False by lia. auto.
Qed.

Lemma has_le_uint b pos n v :
  has b pos (le_bytes n v) -> 0 <= v < 256 ^ Z.of_nat n ->
  (slice_from b pos ≫= le_uint n) = Ok v.
Proof.
  intros H Hv. pose proof (has_take_drop _ _ _ H) as Ht.
  destruct H as (H1 & H2 & _). rewrite len_le_bytes in H2.
  assert (length (le_bytes n v) = n) as Hn by (pose proof (len_le_bytes n v); unfold len in *; lia).
  rewrite Hn in Ht. unfold slice_from, le_uint.
  replace (_ && _) with true by lia. rewrite bind_ok, len_drop by lia.
  replace (_ <=? _) with true by lia. rewrite Ht. by rewrite le_val_bytes.
Qed.

Lemma put_le_ok n b pos v :
  0 <= pos -> pos + Z.of_nat n <= len b -> put_le n b pos v = Ok (blit b pos (le_bytes n v)).
Proof. intros. unfold put_le. by replace (_ && _) with true by lia. Qed.

Lemma copy_at_ok b pos src :
  0 <= pos -> pos + len src <= len b -> copy_at b pos src = Ok (blit b pos src).
Proof.
  intros. unfold copy_at. pose proof (len_nonneg src).
  replace (_ && _) with true by lia. do 2 f_equal. apply take_ge. unfold len in *. lia.
Qed.

Lemma has_slice_le_uint b pos hi n v :
  has b pos (le_bytes n v) -> 0 <= v < 256 ^ Z.of_nat n -> hi = pos + Z.of_nat n ->
  (slice b pos hi ≫= le_uint n) = Ok v.
Proof.
  intros H Hv ->. pose proof (has_take_drop _ _ _ H) as Ht.
  assert (length (le_bytes n v) = n) as Hn by (pose proof (len_le_bytes n v); unfold len in *; lia).
  destruct H as (H1 & H2 & _). rewrite len_le_bytes in H2.
  rewrite Hn in Ht. unfold slice, le_uint. replace (_ && _ && _) with true by lia.
  rewrite bind_ok. replace (Z.to_nat (pos + Z.of_nat n - pos)) with n by lia.
  rewrite Ht, len_le_bytes, Z.leb_refl, firstn_all2 by lia. by rewrite le_val_bytes.
Qed.

Lemma has_slice_at b pos l n :
  has b pos l -> n = len l -> (rest ← slice_from b pos; slice_to rest n) = Ok l.
Proof.
  intros H ->. pose proof (has_take_drop _ _ _ H) as Ht. destruct H as (H1 & H2 & _).
  pose proof (len_nonneg l). unfold slice_from, slice_to. replace (_ && _) with true by lia.
  rewrite bind_ok, len_drop by lia. replace (_ && _) with true by lia.
  unfold len. by rewrite Nat2Z.id, Ht.
Qed.

Lemma has_bounds b pos l : has b pos l -> 0 <= pos /\ pos + len l <= len b.
Proof. intros (? & ? & _). done. Qed.

Lemma has_nil b pos : 0 <= pos <= len b -> has b pos [].
Proof. intros. repeat split; [lia|rewrite len_nil; lia|done]. Qed.


Lemma blit_blit b pos l p k :
  0 <= pos -> p = pos + len l -> p + len k <= len b ->
  blit (blit b pos l) p k = blit b pos (l ++ k).
Proof.
  intros Hp -> Hb. pose proof (len_nonneg k). pose proof (len_nonneg l). apply list_eq. intros i.
  rewrite !blit_lookup; rewrite ?len_blit, ?len_app by lia; try lia.
  rewrite length_app. unfold len in *. repeat case_decide; try lia; try done.
  - rewrite lookup_app_r by lia. f_equal. lia.
  - by rewrite lookup_app_l by lia.
Qed.

Lemma take_to_len {A} (l : list A) : take (Z.to_nat (len l)) l = l.
Proof. apply take_ge. unfold len. lia. Qed.

(** [blit_lia]: [len_lia] for buffers that went through stores. *)
Ltac blit_lia := first [len_lia | rewrite len_blit; blit_lia].

(** [lens]: arithmetic that mixes [len] with [length]. *)
Ltac lens := first [lia | unfold len in *; lia].

(** [dlia]: [lia] with quotients and remainders. *)
Ltac dlia := Z.to_euclidean_division_equations; lia.

Lemma drop_app_S {A} (l : list A) x k : drop (S (length l)) (l ++ x :: k) = k.
Proof. rewrite cons_middle, app_assoc. apply drop_app_length'. rewrite length_app. simpl. lia. Qed.

Lemma lookup_mid {A} (l k : list A) x : (l ++ [x] ++ k) !! length l = Some x.
Proof. by apply list_lookup_middle. Qed.
