(* ===== verification/Keys.v ===== *)
(** Key comparison ([cmp] and [CompareKeys] of src/internal/btree/node.go) and
    the strict total order on keys it decides. *)
From Stdlib Require Export Sorted.
From stdpp Require Export sorting.
From S2P Require Import Prelude.
#[local] Open Scope Z_scope.

(** The loop of [cmp] over [i < minLen]: [zip a b] is [a[i], b[i]] for those [i]. *)
Fixpoint cmp_loop (l : list (Z * Z)) : option Z :=
  match l with
  | [] => None
  | (x, y) :: l =>
      if x <? y then Some (-1)
      else if y <? x then Some 1
      else cmp_loop l
  end.

Definition cmp (a b : bytes) : Z :=
  match cmp_loop (zip a b) with
  | Some r => r
  | None =>
      if len a <? len b then -1
      else if len b <? len a then 1
      else 0
  end.

Definition CompareKeys (a b : bytes) : Z := cmp a b.

(** The order that [cmp] decides. *)
Definition key_lt (a b : bytes) : Prop := cmp a b < 0.
Definition key_le (a b : bytes) : Prop := cmp a b <= 0.

#[global] Instance key_lt_dec a b : Decision (key_lt a b).
Proof. unfold key_lt. apply _. Defined.
#[global] Instance key_le_dec a b : Decision (key_le a b).
Proof. unfold key_le. apply _. Defined.

Lemma cmp_nil_nil : cmp [] [] = 0.
Proof. reflexivity. Qed.

Lemma cmp_nil_cons y b : cmp [] (y :: b) = -1.
Proof. unfold cmp. cbn [zip_with cmp_loop]. rewrite len_nil, len_cons. pose proof (len_nonneg b).
  by replace (_ <? _) with true by lia. Qed.

Lemma cmp_cons_nil x a : cmp (x :: a) [] = 1.
Proof. unfold cmp. cbn [zip_with cmp_loop]. rewrite len_nil, len_cons. pose proof (len_nonneg a).
  replace (1 + len a <? 0) with false by lia. by replace (_ <? _) with true by lia. Qed.

Lemma cmp_cons_cons x y a b :
  cmp (x :: a) (y :: b) = if x <? y then -1 else if y <? x then 1 else cmp a b.
Proof.
  unfold cmp. cbn [zip_with cmp_loop]. destruct (x <? y), (y <? x); try done.
  rewrite !len_cons. destruct (cmp_loop _); [done|].
  destruct (Z.ltb_spec (len a) (len b)), (Z.ltb_spec (1 + len a) (1 + len b)); try lia; try done.
  destruct (Z.ltb_spec (len b) (len a)), (Z.ltb_spec (1 + len b) (1 + len a)); try lia; done.
Qed.

#[export] Hint Rewrite cmp_nil_nil cmp_nil_cons cmp_cons_nil cmp_cons_cons : len.

(** [cmp_cases]: split the first-byte comparisons of the goal. *)
Ltac cmp_cases :=
  repeat (rewrite ?cmp_nil_nil, ?cmp_nil_cons, ?cmp_cons_nil, ?cmp_cons_cons in *);
  repeat match goal with
  | |- context [?x <? ?y] => destruct (Z.ltb_spec x y)
  | H : context [?x <? ?y] |- _ => destruct (Z.ltb_spec x y)
  end; try lia.

Lemma cmp_refl a : cmp a a = 0.
Proof. induction a; [done|]. cmp_cases. Qed.

Lemma cmp_range a b : -1 <= cmp a b <= 1.
Proof. revert b. induction a; intros [|y b]; cmp_cases. apply IHa. Qed.

Lemma cmp_eq_0 a b : cmp a b = 0 <-> a = b.
Proof.
  split; [|intros ->; apply cmp_refl].
  revert b. induction a as [|x a IH]; intros [|y b]; cmp_cases; [done|].
  intros E. f_equal; [lia|auto].
Qed.

Lemma cmp_antisym a b : cmp b a = - cmp a b.
Proof. revert b. induction a as [|x a IH]; intros [|y b]; cmp_cases. apply IH. Qed.

Lemma key_lt_trans a b c : key_lt a b -> key_lt b c -> key_lt a c.
Proof.
  unfold key_lt. revert b c. induction a as [|x a IH]; intros [|y b] [|z c]; cmp_cases.
  apply IH.
Qed.

Lemma key_lt_irrefl a : ~ key_lt a a.
Proof. unfold key_lt. rewrite cmp_refl. lia. Qed.

#[global] Instance key_lt_strict : StrictOrder key_lt.
Proof. split; [intros a; apply key_lt_irrefl|intros a b c; apply key_lt_trans]. Qed.

Lemma key_le_lt_eq a b : key_le a b <-> key_lt a b \/ a = b.
Proof. unfold key_le, key_lt. rewrite <-cmp_eq_0. lia. Qed.

Lemma key_lt_not_le a b : key_lt a b <-> ~ key_le b a.
Proof. unfold key_le, key_lt. rewrite (cmp_antisym a b). lia. Qed.

Lemma key_le_lt_trans a b c : key_le a b -> key_lt b c -> key_lt a c.
Proof. intros [H| ->]%key_le_lt_eq ?; [by etrans|done]. Qed.

Lemma key_lt_le_trans a b c : key_lt a b -> key_le b c -> key_lt a c.
Proof. intros ? [H| ->]%key_le_lt_eq; [by etrans|done]. Qed.

Lemma key_trichotomy a b : key_lt a b \/ a = b \/ key_lt b a.
Proof. unfold key_lt. rewrite (cmp_antisym a b), <-cmp_eq_0. lia. Qed.

(** * Sorted lists of keys *)

Abbreviation ksorted := (StronglySorted key_lt).

Lemma ksorted_app l k :
  ksorted (l ++ k) <->
  ksorted l /\ ksorted k /\ (forall a b, a ∈ l -> b ∈ k -> key_lt a b).
Proof.
  induction l as [|x l IH]; simpl.
  - split; [|by intros (_ & H & _)]. intros H. repeat split; [constructor|done|set_solver].
  - split.
    + intros [H Hx]%StronglySorted_inv. apply IH in H as (H1 & H2 & H3).
      apply Forall_app in Hx as [Hx1 Hx2]. rewrite Forall_forall in Hx2.
      repeat split; [by constructor|done|]. set_solver.
    + intros (H1 & H2 & H3). apply StronglySorted_inv in H1 as [H1 Hx].
      constructor; [apply IH; repeat split; auto; set_solver|].
      apply Forall_app. split; [done|]. apply Forall_forall. set_solver.
Qed.

Lemma ksorted_lookup_lt l i j a b :
  ksorted l -> l !! i = Some a -> l !! j = Some b -> (i < j)%nat -> key_lt a b.
Proof.
  intros Hs Hi Hj Hij. rewrite <-(take_drop (S i) l) in Hs.
  apply ksorted_app in Hs as (_ & _ & H). apply H.
  - apply list_elem_of_lookup. exists i. by rewrite lookup_take_lt by lia.
  - apply list_elem_of_lookup. exists (j - S i)%nat. rewrite lookup_drop, <-Hj. f_equal. lia.
Qed.
