(* ===== verification/KVList.v ===== *)
(** The abstract contents of a tree: key-value lists sorted by key, their
    lookup, insertion and removal, and the finite map they stand for. *)
From S2P Require Import Prelude Keys.
#[local] Open Scope Z_scope.

Abbreviation kvs := (list (bytes * bytes)).

Fixpoint kv_lookup (k : bytes) (l : kvs) : option bytes :=
  match l with
  | [] => None
  | (k', v) :: l => if cmp k k' =? 0 then Some v else kv_lookup k l
  end.

Fixpoint kv_insert (k v : bytes) (l : kvs) : kvs :=
  match l with
  | [] => [(k, v)]
  | (k', v') :: l' =>
      if cmp k k' <? 0 then (k, v) :: l
      else if cmp k k' =? 0 then (k, v) :: l'
      else (k', v') :: kv_insert k v l'
  end.

Fixpoint kv_delete (k : bytes) (l : kvs) : kvs :=
  match l with
  | [] => []
  | (k', v') :: l' => if cmp k k' =? 0 then l' else (k', v') :: kv_delete k l'
  end.

(** The finite map a key-value list stands for. *)
Definition kv_map (l : kvs) : gmap bytes bytes := list_to_map l.

Abbreviation kv_sorted l := (ksorted (fst <$> (l : kvs))).

Definition first_key (l : kvs) : bytes :=
  match l with [] => [] | (k, _) :: _ => k end.

(** * Order facts *)

Definition all_lt (l : kvs) (k : bytes) : Prop := Forall (fun kv => key_lt kv.1 k) l.
Definition all_gt (l : kvs) (k : bytes) : Prop := Forall (fun kv => key_lt k kv.1) l.

Lemma key_lt_cmp_neg a b : key_lt a b -> (cmp a b <? 0) = true /\ (cmp a b =? 0) = false.
Proof. unfold key_lt. lia. Qed.

Lemma key_lt_cmp_pos a b : key_lt b a -> (cmp a b <? 0) = false /\ (cmp a b =? 0) = false.
Proof. unfold key_lt. rewrite (cmp_antisym a b). lia. Qed.

Lemma kv_sorted_cons k v l : kv_sorted ((k, v) :: l) <-> kv_sorted l /\ all_gt l k.
Proof.
  rewrite fmap_cons. unfold all_gt. split.
  - intros [H1 H2]%StronglySorted_inv. split; [done|]. by rewrite Forall_fmap in H2.
  - intros [H1 H2]. constructor; [done|]. by rewrite Forall_fmap.
Qed.

Lemma kv_sorted_app l1 l2 : kv_sorted (l1 ++ l2) <->
  kv_sorted l1 /\ kv_sorted l2 /\ (forall a b, a ∈ l1 -> b ∈ l2 -> key_lt a.1 b.1).
Proof.
  rewrite fmap_app, ksorted_app. split; intros (H1 & H2 & H3); split_and!; try done.
  - intros a b Ha Hb. apply H3; apply list_elem_of_fmap; eauto.
  - intros a b (? & -> & ?)%list_elem_of_fmap (? & -> & ?)%list_elem_of_fmap. by apply H3.
Qed.

Lemma kv_lookup_all_lt k l1 l2 : all_lt l1 k -> kv_lookup k (l1 ++ l2) = kv_lookup k l2.
Proof.
  induction 1 as [|[k' v'] l Hk Hl IH]; [done|]. simpl in *.
  by destruct (key_lt_cmp_pos _ _ Hk) as [_ ->].
Qed.

Lemma kv_lookup_all_gt k l : all_gt l k -> kv_lookup k l = None.
Proof.
  induction 1 as [|[k' v'] l Hk Hl IH]; [done|]. simpl in *.
  by destruct (key_lt_cmp_neg _ _ Hk) as [_ ->].
Qed.

Lemma kv_lookup_app_gt k l1 l2 : all_gt l2 k -> kv_lookup k (l1 ++ l2) = kv_lookup k l1.
Proof.
  intros H. induction l1 as [|[k' v'] l IH]; simpl; [by apply kv_lookup_all_gt|].
  by destruct (_ =? _).
Qed.

Lemma kv_insert_all_lt k v l1 l2 : all_lt l1 k -> kv_insert k v (l1 ++ l2) = l1 ++ kv_insert k v l2.
Proof.
  induction 1 as [|[k' v'] l Hk Hl IH]; [done|]. simpl in *.
  destruct (key_lt_cmp_pos _ _ Hk) as [-> ->]. by rewrite IH.
Qed.

Lemma kv_insert_app_gt k v l1 l2 : all_gt l2 k -> kv_insert k v (l1 ++ l2) = kv_insert k v l1 ++ l2.
Proof.
  intros H. induction l1 as [|[k' v'] l IH]; simpl.
  - destruct H as [|[k' v'] l Hk Hl]; [done|]. simpl in *.
    by destruct (key_lt_cmp_neg _ _ Hk) as [-> _].
  - destruct (_ <? _); [done|]. destruct (_ =? _); [done|]. by rewrite IH.
Qed.

Lemma kv_delete_all_lt k l1 l2 : all_lt l1 k -> kv_delete k (l1 ++ l2) = l1 ++ kv_delete k l2.
Proof.
  induction 1 as [|[k' v'] l Hk Hl IH]; [done|]. simpl in *.
  destruct (key_lt_cmp_pos _ _ Hk) as [_ ->]. by rewrite IH.
Qed.

Lemma kv_delete_all_gt k l : all_gt l k -> kv_delete k l = l.
Proof.
  induction 1 as [|[k' v'] l Hk Hl IH]; [done|]. simpl in *.
  destruct (key_lt_cmp_neg _ _ Hk) as [_ ->]. by rewrite IH.
Qed.

Lemma kv_delete_app_gt k l1 l2 : all_gt l2 k -> kv_delete k (l1 ++ l2) = kv_delete k l1 ++ l2.
Proof.
  intros H. induction l1 as [|[k' v'] l IH]; simpl; [by apply kv_delete_all_gt|].
  destruct (_ =? _); [done|]. by rewrite IH.
Qed.

(** * Sortedness and membership *)

Lemma kv_insert_elem k v l kv : kv ∈ kv_insert k v l -> kv = (k, v) \/ kv ∈ l.
Proof.
  induction l as [|[k' v'] l IH]; simpl; [set_solver|].
  destruct (_ <? _); [set_solver|]. destruct (_ =? _); set_solver.
Qed.

Lemma kv_delete_sublist k l : kv_delete k l `sublist_of` l.
Proof.
  induction l as [|[k' v'] l IH]; simpl; [done|].
  destruct (_ =? _); [by apply sublist_cons|by apply sublist_skip].
Qed.

Lemma kv_insert_sorted k v l : kv_sorted l -> kv_sorted (kv_insert k v l).
Proof.
  induction l as [|[k' v'] l IH]; intros Hs; cbn [kv_insert].
  { apply kv_sorted_cons. split; constructor. }
  pose proof (proj1 (kv_sorted_cons _ _ _) Hs) as [Hl Hgt].
  destruct (Z.ltb_spec (cmp k k') 0) as [Hlt|Hge].
  { apply kv_sorted_cons. split; [done|]. constructor; [done|].
    eapply Forall_impl; [exact Hgt|]. intros kv Hkv. by trans k'. }
  destruct (Z.eqb_spec (cmp k k') 0) as [->%cmp_eq_0|Hne]; [done|].
  apply kv_sorted_cons. split; [auto|]. apply Forall_forall. intros kv [->|Hin]%kv_insert_elem.
  - unfold key_lt. simpl. rewrite (cmp_antisym k k'). pose proof (cmp_range k k'). lia.
  - unfold all_gt in Hgt. rewrite Forall_forall in Hgt. auto.
Qed.

Lemma kv_delete_sorted k l : kv_sorted l -> kv_sorted (kv_delete k l).
Proof.
  induction l as [|[k' v'] l IH]; intros Hs; [done|]. cbn [kv_delete].
  apply kv_sorted_cons in Hs as [Hl Hgt]. destruct (_ =? _); [done|].
  apply kv_sorted_cons. split; [auto|]. apply Forall_forall. intros kv Hin.
  unfold all_gt in Hgt. rewrite Forall_forall in Hgt. apply Hgt.
  eapply elem_of_sublist; [exact Hin|apply kv_delete_sublist].
Qed.

Lemma kv_insert_nonempty k v l : kv_insert k v l <> [].
Proof. destruct l as [|[k' v'] l]; simpl; [done|]. by repeat case_match. Qed.

(** * The finite map *)

Lemma kv_map_lookup k l : kv_map l !! k = kv_lookup k l.
Proof.
  unfold kv_map. induction l as [|[k' v] l IH]; simpl; [done|].
  destruct (Z.eqb_spec (cmp k k') 0) as [->%cmp_eq_0|Hne]; [by rewrite lookup_insert_eq|].
  rewrite lookup_insert_ne; [done|]. intros ->. by rewrite cmp_refl in Hne.
Qed.

Lemma kv_map_insert k v l : kv_map (kv_insert k v l) = <[k := v]> (kv_map l).
Proof.
  unfold kv_map. induction l as [|[k' v'] l IH]; cbn [kv_insert]; [done|].
  destruct (_ <? _); [done|].
  destruct (Z.eqb_spec (cmp k k') 0) as [->%cmp_eq_0|Hne]; simpl; [by rewrite insert_insert_eq|].
  rewrite IH. apply insert_insert_ne. intros ->. by rewrite cmp_refl in Hne.
Qed.

Lemma kv_map_all_gt k l : all_gt l k -> kv_map l !! k = None.
Proof. intros. rewrite kv_map_lookup. by apply kv_lookup_all_gt. Qed.

Lemma kv_map_delete k l : kv_sorted l -> kv_map (kv_delete k l) = delete k (kv_map l).
Proof.
  induction l as [|[k' v'] l IH]; cbn [kv_delete]; intros Hs.
  - unfold kv_map. simpl. by rewrite delete_empty.
  - apply kv_sorted_cons in Hs as [Hl Hgt].
    destruct (Z.eqb_spec (cmp k k') 0) as [->%cmp_eq_0|Hne].
    + change (kv_map l = delete k' (<[k' := v']> (kv_map l))).
      rewrite delete_insert_eq. symmetry. apply delete_id. by apply kv_map_all_gt.
    + change (<[k' := v']> (kv_map (kv_delete k l)) = delete k (<[k' := v']> (kv_map l))).
      rewrite IH by done. rewrite delete_insert_ne; [done|]. intros ->. by rewrite cmp_refl in Hne.
Qed.

Lemma kv_lookup_elem k v l : kv_lookup k l = Some v -> (k, v) ∈ l.
Proof.
  induction l as [|[k' v'] l IH]; simpl; [done|].
  destruct (Z.eqb_spec (cmp k k') 0) as [->%cmp_eq_0|_]; [|set_solver].
  intros [= ->]. set_solver.
Qed.

Lemma kv_delete_absent k l : kv_lookup k l = None -> kv_delete k l = l.
Proof. induction l as [|[k' v'] l IH]; simpl; [done|]. destruct (_ =? _); [done|]. intros. f_equal. auto. Qed.
