(* ===== verification/Node.v ===== *)
(** B+tree nodes as byte pages: src/internal/btree/node.go.

    Every accessor reads the page through the positions the source computes,
    in [uint16] arithmetic, and panics where Go's slice bounds checks do. The
    second half of the file relates a page to the list of entries it holds
    ([node_rep]) and shows that [nodeAppendKV] extends that list by one entry,
    that the accessors read it back, and that [nodeLookupLE] is the lookup it
    should be. *)
From S2P Require Import Prelude Keys.
#[local] Open Scope Z_scope.

(** * The page operations *)

Definition HEADER : Z := 4.
Definition BTREE_PAGE_SIZE : Z := 4096.
Definition BNODE_INTERNAL : Z := 1.
Definition BNODE_LEAF : Z := 2.

Abbreviation BNode := bytes.

Definition btype (node : BNode) : res Z := slice node 0 2 ≫= le_uint 2.

Definition nkeys (node : BNode) : res Z := slice node 2 4 ≫= le_uint 2.

Definition setHeader (node : BNode) (ty n : Z) : res BNode :=
  node ← put_le 2 node 0 ty;
  put_le 2 node 2 n.

Definition getPtr (node : BNode) (idx : Z) : res Z :=
  slice_from node (u16 (HEADER + 8 * idx)) ≫= le_uint 8.

Definition setPtr (node : BNode) (idx val : Z) : res BNode :=
  put_le 8 node (u16 (HEADER + 8 * idx)) val.

Definition offsetPos (node : BNode) (idx : Z) : res Z :=
  n ← nkeys node;
  Ok (u16 (HEADER + 8 * n + 2 * (idx - 1))).

Definition getOffset (node : BNode) (idx : Z) : res Z :=
  if idx =? 0 then Ok 0
  else pos ← offsetPos node idx; slice_from node pos ≫= le_uint 2.

Definition setOffset (node : BNode) (idx offset : Z) : res BNode :=
  pos ← offsetPos node idx;
  put_le 2 node pos offset.

Definition kvPos (node : BNode) (idx : Z) : res Z :=
  n ← nkeys node;
  off ← getOffset node idx;
  Ok (u16 (HEADER + 8 * n + 2 * n + off)).

Definition nbytes (node : BNode) : res Z := n ← nkeys node; kvPos node n.

Definition getKey (node : BNode) (idx : Z) : res bytes :=
  pos ← kvPos node idx;
  klen ← slice_from node pos ≫= le_uint 2;
  rest ← slice_from node (u16 (pos + 4));
  slice_to rest klen.

Definition getVal (node : BNode) (idx : Z) : res bytes :=
  pos ← kvPos node idx;
  klen ← slice_from node pos ≫= le_uint 2;
  vlen ← slice_from node (u16 (pos + 2)) ≫= le_uint 2;
  rest ← slice_from node (u16 (pos + 4 + klen));
  slice_to rest vlen.

Definition nodeAppendKV (new : BNode) (idx ptr : Z) (key val : bytes) : res BNode :=
  new ← setPtr new idx ptr;
  pos ← kvPos new idx;
  new ← put_le 2 new (u16 (pos + 0)) (u16 (len key));
  new ← put_le 2 new (u16 (pos + 2)) (u16 (len val));
  new ← copy_at new (u16 (pos + 4)) key;
  new ← copy_at new (u16 (pos + 4 + u16 (len key))) val;
  off ← getOffset new idx;
  setOffset new (u16 (idx + 1)) (u16 (off + 4 + u16 (len key + len val))).

(** [for i := 0; i < n; i++]: [k] iterations are left, the next one is [i]. *)
Fixpoint nodeAppendRange_loop (k : nat) (new old : BNode) (dstNew srcOld i : Z) : res BNode :=
  match k with
  | O => Ok new
  | S k =>
      ptr ← getPtr old (u16 (srcOld + i));
      key ← getKey old (u16 (srcOld + i));
      val ← getVal old (u16 (srcOld + i));
      new ← nodeAppendKV new (u16 (dstNew + i)) ptr key val;
      nodeAppendRange_loop k new old dstNew srcOld (i + 1)
  end.

Definition nodeAppendRange (new old : BNode) (dstNew srcOld n : Z) : res BNode :=
  nodeAppendRange_loop (Z.to_nat n) new old dstNew srcOld 0.

(** The binary search of [nodeLookupLE]; [hi - lo] shrinks in every round. *)
Fixpoint nodeLookupLE_loop (fuel : nat) (node : BNode) (key : bytes) (lo hi : Z) : res Z :=
  if lo <? hi then
    match fuel with
    | O => OutOfFuel
    | S fuel =>
        let mid := lo + (hi - lo) / 2 in
        k ← getKey node mid;
        if cmp k key <=? 0 then nodeLookupLE_loop fuel node key (mid + 1) hi
        else nodeLookupLE_loop fuel node key lo mid
    end
  else Ok lo.

Definition nodeLookupLE (node : BNode) (key : bytes) : res Z :=
  n ← nkeys node;
  lo ← nodeLookupLE_loop (Z.to_nat n) node key 0 n;
  Ok (if lo =? 0 then 0 else lo - 1).

(** * Entries held by a page *)

Record entry := mkEntry { e_ptr : Z; e_key : bytes; e_val : bytes }.

#[global] Instance entry_eq_dec : EqDecision entry.
Proof. solve_decision. Defined.

(** Bytes of an entry in the key-value area, of all entries, of the node. *)
Definition ksize (e : entry) : Z := 4 + len (e_key e) + len (e_val e).
Definition kvsum (es : list entry) : Z := foldr (fun e n => ksize e + n) 0 es.
Definition nsize (es : list entry) : Z := HEADER + 10 * len es + kvsum es.

Definition kv_image (e : entry) : bytes :=
  le_bytes 2 (len (e_key e)) ++ le_bytes 2 (len (e_val e)) ++ e_key e ++ e_val e.

(** A page whose header announces [n] entries and whose first entries are [es]. *)
Definition partial_rep (b : BNode) (ty n : Z) (es : list entry) : Prop :=
  has b 0 (le_bytes 2 ty ++ le_bytes 2 n) /\ 0 <= ty < 65536 /\ len es <= n /\
  HEADER + 10 * n + kvsum es <= len b /\ len b < 65536 /\
  forall i e, es !! i = Some e ->
    0 <= e_ptr e < 18446744073709551616 /\
    has b (HEADER + 8 * Z.of_nat i) (le_bytes 8 (e_ptr e)) /\
    has b (HEADER + 8 * n + 2 * Z.of_nat i) (le_bytes 2 (kvsum (take (S i) es))) /\
    has b (HEADER + 10 * n + kvsum (take i es)) (kv_image e).

Definition node_rep (b : BNode) (ty : Z) (es : list entry) : Prop :=
  partial_rep b ty (len es) es.

(** [is_le ks key i]: [i] is the index of the last of the sorted [ks] that is
    not above [key], or 0 when there is none. *)
Definition is_le (ks : list bytes) (key : bytes) (i : nat) : Prop :=
  (i = 0%nat \/ exists k, ks !! i = Some k /\ key_le k key) /\
  (forall j k, ks !! j = Some k -> (i < j)%nat -> key_lt key k).

(** * Sizes *)

Lemma ksize_pos e : 4 <= ksize e.
Proof. unfold ksize. len_lia. Qed.

Lemma len_kv_image e : len (kv_image e) = ksize e.
Proof. unfold kv_image, ksize. len_lia. Qed.

Lemma kvsum_app l k : kvsum (l ++ k) = kvsum l + kvsum k.
Proof. unfold kvsum. induction l; simpl; lia. Qed.

Lemma kvsum_cons e l : kvsum (e :: l) = ksize e + kvsum l.
Proof. reflexivity. Qed.

Lemma kvsum_nil : kvsum [] = 0.
Proof. reflexivity. Qed.

Lemma kvsum_nonneg l : 0 <= kvsum l.
Proof. induction l as [|e l IH]; [done|]. rewrite kvsum_cons. pose proof (ksize_pos e). lia. Qed.

Lemma kvsum_take_S es i e :
  es !! i = Some e -> kvsum (take (S i) es) = kvsum (take i es) + ksize e.
Proof. intros H. rewrite (take_S_r _ _ _ H), kvsum_app, kvsum_cons, kvsum_nil. lia. Qed.

Lemma kvsum_take_le es i : 0 <= kvsum (take i es) <= kvsum es.
Proof.
  rewrite <-(take_drop i es) at 3. rewrite kvsum_app.
  pose proof (kvsum_nonneg (take i es)). pose proof (kvsum_nonneg (drop i es)). lia.
Qed.

Lemma kvsum_drop es i : kvsum (drop i es) = kvsum es - kvsum (take i es).
Proof. rewrite <-(take_drop i es) at 2. rewrite kvsum_app. lia. Qed.

Lemma nsize_app l k : nsize (l ++ k) = nsize l + nsize k - HEADER.
Proof. unfold nsize. rewrite kvsum_app, len_app. lia. Qed.

Lemma nsize_cons e l : nsize (e :: l) = 10 + ksize e + nsize l.
Proof. unfold nsize. rewrite kvsum_cons, len_cons. lia. Qed.

Lemma nsize_nil : nsize [] = HEADER.
Proof. reflexivity. Qed.

Lemma nsize_pos l : HEADER <= nsize l.
Proof. unfold nsize. pose proof (kvsum_nonneg l). len_lia. Qed.

(** * Reading a page *)

Section reading.
Context {b : BNode} {ty n : Z} {es : list entry}.
Hypothesis Hrep : partial_rep b ty n es.

Lemma partial_bounds : 0 <= n /\ len es <= n /\ HEADER + 10 * n + kvsum es <= len b < 65536.
Proof. destruct Hrep as (_ & _ & H1 & H2 & H3 & _). pose proof (len_nonneg es). lia. Qed.

Lemma partial_nkeys : nkeys b = Ok n.
Proof.
  pose proof partial_bounds. destruct Hrep as ((_ & Hh)%has_app & _).
  rewrite len_le_bytes in Hh. unfold nkeys, HEADER in *.
  pose proof (kvsum_nonneg es).
  apply has_slice_le_uint; [done| |done]. change (256 ^ Z.of_nat 2) with 65536. lia.
Qed.

Lemma partial_btype : btype b = Ok ty.
Proof.
  destruct Hrep as ((Hh & _)%has_app & Hty & _). unfold btype.
  apply has_slice_le_uint; [done| |done]. change (256 ^ Z.of_nat 2) with 65536. lia.
Qed.

Lemma partial_getOffset i : 0 <= i <= len es -> getOffset b i = Ok (kvsum (take (Z.to_nat i) es)).
Proof.
  intros Hi. pose proof partial_bounds as Hb. unfold getOffset.
  destruct (Z.eqb_spec i 0) as [->|Hi0]; [done|].
  unfold offsetPos. rewrite partial_nkeys, !bind_ok.
  destruct (lookup_lt_is_Some_2 es (Z.to_nat i - 1)) as [e He]; [unfold len in *; lia|].
  destruct Hrep as (_ & _ & _ & _ & _ & H). destruct (H _ _ He) as (_ & _ & Ho & _).
  pose proof (kvsum_take_le es (Z.to_nat i)). pose proof (kvsum_nonneg es). unfold HEADER in *.
  rewrite u16_id by lia. replace (S (Z.to_nat i - 1)) with (Z.to_nat i) in Ho by lia.
  apply has_le_uint.
  - eapply has_at; [exact Ho|lia].
  - change (256 ^ Z.of_nat 2) with 65536. lia.
Qed.

Lemma partial_kvPos i :
  0 <= i <= len es -> kvPos b i = Ok (HEADER + 10 * n + kvsum (take (Z.to_nat i) es)).
Proof.
  intros Hi. pose proof partial_bounds as Hb. unfold kvPos.
  rewrite partial_nkeys, bind_ok, partial_getOffset, bind_ok by done.
  pose proof (kvsum_take_le es (Z.to_nat i)). unfold HEADER in *.
  rewrite u16_id by lia. f_equal. lia.
Qed.

Lemma partial_lookup_bounds i e : es !! i = Some e ->
  0 <= Z.of_nat i < len es /\ kvsum (take i es) + ksize e <= kvsum es.
Proof.
  intros He. pose proof (lookup_lt_Some _ _ _ He). rewrite <-(kvsum_take_S _ _ _ He).
  pose proof (kvsum_take_le es (S i)). unfold len. lia.
Qed.

Lemma partial_getPtr i e : es !! i = Some e -> getPtr b (Z.of_nat i) = Ok (e_ptr e).
Proof.
  intros He. pose proof partial_bounds as Hb. pose proof (partial_lookup_bounds _ _ He) as Hlb.
  destruct Hrep as (_ & _ & _ & _ & _ & H). destruct (H _ _ He) as (Hp & Hptr & _).
  pose proof (kvsum_nonneg es). unfold getPtr, HEADER in *. rewrite u16_id by lia.
  apply has_le_uint; [done|]. by change (256 ^ Z.of_nat 8) with 18446744073709551616.
Qed.

(** The four parts of an entry's image, at their positions. *)
Lemma partial_image i e : es !! i = Some e ->
  let pos := HEADER + 10 * n + kvsum (take i es) in
  has b pos (le_bytes 2 (len (e_key e))) /\
  has b (pos + 2) (le_bytes 2 (len (e_val e))) /\
  has b (pos + 4) (e_key e) /\
  has b (pos + 4 + len (e_key e)) (e_val e) /\
  HEADER <= pos /\ pos + ksize e <= len b.
Proof.
  intros He pos. pose proof partial_bounds as Hb. pose proof (partial_lookup_bounds _ _ He) as Hlb.
  pose proof (kvsum_take_le es i) as Hkt.
  destruct Hrep as (_ & _ & _ & _ & _ & H). destruct (H _ _ He) as (_ & _ & _ & Hi).
  unfold kv_image in Hi. rewrite !has_app, !len_le_bytes in Hi. fold pos in Hi.
  replace (pos + Z.of_nat 2) with (pos + 2) in Hi by lia.
  replace (pos + 2 + Z.of_nat 2) with (pos + 4) in Hi by lia.
  destruct Hi as (? & ? & ? & ?). split_and!; try done; unfold pos, HEADER in *; lia.
Qed.

Lemma partial_getKey i e : es !! i = Some e -> getKey b (Z.of_nat i) = Ok (e_key e).
Proof.
  intros He. pose proof partial_bounds as Hb. pose proof (partial_lookup_bounds _ _ He) as Hlb.
  destruct (partial_image _ _ He) as (H1 & _ & H3 & _ & H5 & H6).
  unfold getKey. rewrite partial_kvPos, bind_ok, Nat2Z.id by lia.
  pose proof (len_nonneg (e_key e)). pose proof (len_nonneg (e_val e)).
  unfold ksize, HEADER in *.
  rewrite (has_le_uint _ _ _ _ H1), bind_ok by (change (256 ^ Z.of_nat 2) with 65536; lia).
  rewrite u16_id by lia. by apply has_slice_at.
Qed.

Lemma partial_getVal i e : es !! i = Some e -> getVal b (Z.of_nat i) = Ok (e_val e).
Proof.
  intros He. pose proof partial_bounds as Hb. pose proof (partial_lookup_bounds _ _ He) as Hlb.
  destruct (partial_image _ _ He) as (H1 & H2 & _ & H4 & H5 & H6).
  unfold getVal. rewrite partial_kvPos, bind_ok, Nat2Z.id by lia.
  pose proof (len_nonneg (e_key e)). pose proof (len_nonneg (e_val e)).
  unfold ksize, HEADER in *.
  rewrite (has_le_uint _ _ _ _ H1), bind_ok by (change (256 ^ Z.of_nat 2) with 65536; lia).
  rewrite ?u16_id by lia.
  rewrite (has_le_uint _ _ _ _ H2), bind_ok by (change (256 ^ Z.of_nat 2) with 65536; lia).
  rewrite ?u16_id by lia. by apply has_slice_at.
Qed.

End reading.

Lemma node_nbytes b ty es : node_rep b ty es -> nbytes b = Ok (nsize es).
Proof.
  intros H. unfold nbytes. rewrite (partial_nkeys H), bind_ok, (partial_kvPos H) by len_lia.
  unfold len at 2. rewrite Nat2Z.id, firstn_all2 by lia. unfold nsize. done.
Qed.

(** * Writing a page *)

(** Stores outside the parts that hold [es] keep them. *)
Lemma partial_blit b ty n es pos l :
  partial_rep b ty n es ->
  (HEADER + 8 * len es <= pos /\ pos + len l <= HEADER + 8 * n) \/
  (HEADER + 8 * n + 2 * len es <= pos /\ pos + len l <= HEADER + 10 * n) \/
  (HEADER + 10 * n + kvsum es <= pos /\ pos + len l <= len b) ->
  partial_rep (blit b pos l) ty n es /\ len (blit b pos l) = len b.
Proof.
  intros H Hd. pose proof (partial_bounds H) as (Hn & Hes & Hb).
  pose proof (kvsum_nonneg es) as Hk. pose proof (len_nonneg l) as Hl.
  pose proof (len_nonneg es) as Hle. unfold HEADER in *.
  assert (0 <= pos /\ pos + len l <= len b) as [Hp1 Hp2] by lia.
  pose proof (len_blit b pos l Hp1 Hp2) as Hlen.
  assert (Hframe : forall p k, has b p k -> p + len k <= pos \/ pos + len l <= p ->
    has (blit b pos l) p k) by (intros; by apply has_blit_other).
  destruct H as (H1 & H2 & H3 & H4 & H5 & H6). split; [|done].
  unfold partial_rep. rewrite Hlen. unfold HEADER. split_and!; try done; try lia.
  - apply Hframe; [done|]. autorewrite with len. lia.
  - intros i e He. pose proof (partial_lookup_bounds _ _ He) as (Hi & Hs).
    pose proof (kvsum_take_S _ _ _ He) as HS. pose proof (kvsum_take_le es i) as Ht.
    destruct (H6 _ _ He) as (Hr & Ha & Hb' & Hc). unfold HEADER in *.
    split_and!; try lia; (apply Hframe; [done|]); rewrite ?len_le_bytes, ?len_kv_image; lia.
Qed.

(** The entry stored at the next free index completes the prefix by one. *)
Lemma partial_snoc b ty n es e :
  partial_rep b ty n es -> len es < n ->
  HEADER + 10 * n + kvsum es + ksize e <= len b ->
  0 <= e_ptr e < 18446744073709551616 ->
  has b (HEADER + 8 * len es) (le_bytes 8 (e_ptr e)) ->
  has b (HEADER + 8 * n + 2 * len es) (le_bytes 2 (kvsum es + ksize e)) ->
  has b (HEADER + 10 * n + kvsum es) (kv_image e) ->
  partial_rep b ty n (es ++ [e]).
Proof.
  intros (H1 & H2 & H3 & H4 & H5 & H6) Hn Hs Hp Ha Hb Hc. unfold partial_rep.
  rewrite len_snoc, kvsum_app, kvsum_cons, kvsum_nil. split_and!; try done; try lia.
  intros i e' He. pose proof (lookup_lt_Some _ _ _ He) as Hlt. rewrite length_app in Hlt.
  simpl in Hlt. destruct (decide (i < length es)%nat) as [Hi|Hi].
  - rewrite lookup_app_l in He by done. rewrite !take_app_le by lia. by apply H6.
  - assert (i = length es) as -> by lia. rewrite list_lookup_middle in He by done.
    injection He as <-. rewrite take_app_length.
    rewrite (take_ge (es ++ [e])) by (rewrite length_app; simpl; lia).
    rewrite kvsum_app, kvsum_cons, kvsum_nil, Z.add_0_r. unfold len in *. done.
Qed.

Lemma setHeader_spec b ty n :
  0 <= ty < 65536 -> 0 <= n -> HEADER + 10 * n <= len b < 65536 ->
  exists b', setHeader b ty n = Ok b' /\ partial_rep b' ty n [] /\ len b' = len b.
Proof.
  intros Hty Hn Hb. unfold setHeader, HEADER in *.
  rewrite put_le_ok, bind_ok by lia.
  assert (len (blit b 0 (le_bytes 2 ty)) = len b) as Hl by (apply len_blit; len_lia).
  rewrite put_le_ok by lia. eexists. split; [done|].
  assert (len (blit (blit b 0 (le_bytes 2 ty)) 2 (le_bytes 2 n)) = len b) as Hl'
    by (rewrite len_blit; [done|lia|len_lia]).
  split; [|done]. unfold partial_rep. rewrite Hl'. unfold HEADER. split_and!; try done; try lia.
  - apply has_app. split; [|apply has_blit_same; len_lia].
    apply has_blit_other; [lia|len_lia|apply has_blit_same; len_lia|len_lia].
  - rewrite kvsum_nil. lia.
Qed.

Lemma nodeAppendKV_spec b ty n es ptr key val :
  partial_rep b ty n es -> len es < n ->
  HEADER + 10 * n + kvsum es + (4 + len key + len val) <= len b ->
  0 <= ptr < 18446744073709551616 ->
  exists b', nodeAppendKV b (len es) ptr key val = Ok b' /\
    partial_rep b' ty n (es ++ [mkEntry ptr key val]) /\ len b' = len b.
Proof.
  intros R0 Hn Hs Hptr. pose proof (partial_bounds R0) as (_ & _ & Hb).
  pose proof (len_nonneg es). pose proof (kvsum_nonneg es).
  pose proof (len_nonneg key). pose proof (len_nonneg val).
  unfold HEADER in *. set (e := mkEntry ptr key val).
  remember (4 + 10 * n + kvsum es) as pos eqn:Hpos.
  assert (ksize e = 4 + len key + len val) as He by done.
  unfold nodeAppendKV, setPtr, HEADER. rewrite (u16_id (4 + 8 * len es)), put_le_ok, bind_ok by lia.
  destruct (partial_blit _ _ _ _ (4 + 8 * len es) (le_bytes 8 ptr) R0) as [R1 L1];
    [left; unfold HEADER; len_lia|].
  assert (has (blit b (4 + 8 * len es) (le_bytes 8 ptr)) (4 + 8 * len es) (le_bytes 8 ptr)) as P1
    by (apply has_blit_same; len_lia).
  set (b1 := blit b _ _) in *.
  rewrite (partial_kvPos R1), bind_ok, take_to_len by lia.
  unfold HEADER. rewrite <-Hpos, !Z.add_0_r, (u16_id (len key)), !u16_id by lia.
  rewrite put_le_ok, bind_ok, put_le_ok, bind_ok by blit_lia.
  rewrite copy_at_ok, bind_ok, copy_at_ok, bind_ok by blit_lia.
  rewrite (blit_blit b1 pos (le_bytes 2 (len key)) (pos + 2)) by len_lia.
  rewrite (blit_blit b1 pos _ (pos + 4)) by len_lia.
  rewrite (blit_blit b1 pos _ (pos + 4 + len key)) by len_lia.
  rewrite <-!app_assoc. change (_ ++ _ ++ key ++ val) with (kv_image e).
  pose proof (len_kv_image e) as Hi.
  destruct (partial_blit _ _ _ _ pos (kv_image e) R1) as [R2 L2];
    [right; right; unfold HEADER; lia|].
  assert (has (blit b1 pos (kv_image e)) pos (kv_image e)) as P2 by (apply has_blit_same; lia).
  apply (has_blit_other _ pos (kv_image e)) in P1; [|lia|lia|len_lia].
  set (b2 := blit b1 _ _) in *.
  rewrite (partial_getOffset R2), bind_ok, take_to_len by lia.
  unfold setOffset, offsetPos. rewrite (partial_nkeys R2), !bind_ok. unfold HEADER.
  rewrite !u16_id by lia. replace (len es + 1 - 1) with (len es) by lia.
  rewrite put_le_ok by lia. eexists. split; [done|].
  replace (kvsum es + 4 + (len key + len val)) with (kvsum es + ksize e) by lia.
  destruct (partial_blit _ _ _ _ (4 + 8 * n + 2 * len es) (le_bytes 2 (kvsum es + ksize e)) R2)
    as [R3 L3]; [right; left; unfold HEADER; len_lia|].
  split; [|lia]. apply partial_snoc; try done; unfold HEADER in *.
  - lia.
  - apply has_blit_other; [lia|len_lia|done|len_lia].
  - apply has_blit_same; len_lia.
  - rewrite <-Hpos. apply has_blit_other; [lia|len_lia|done|len_lia].
Qed.

Lemma partial_entry {b ty n es} i e : partial_rep b ty n es -> es !! i = Some e ->
  0 <= e_ptr e < 18446744073709551616.
Proof. intros (_ & _ & _ & _ & _ & H) He. by destruct (H _ _ He). Qed.

(** Copying [k] consecutive entries of a page to the end of the prefix. *)
Lemma nodeAppendRange_loop_spec old ty0 n0 es0 ty n k : forall new es dst src i,
  partial_rep old ty0 n0 es0 -> partial_rep new ty n es ->
  0 <= dst -> 0 <= src -> 0 <= i -> dst + i = len es -> src + i + Z.of_nat k <= len es0 ->
  let l := take k (drop (Z.to_nat (src + i)) es0) in
  len es + Z.of_nat k <= n -> HEADER + 10 * n + kvsum es + kvsum l <= len new ->
  exists new', nodeAppendRange_loop k new old dst src i = Ok new' /\
    partial_rep new' ty n (es ++ l) /\ len new' = len new.
Proof.
  induction k as [|k IH]; intros new es dst src i Hold Hnew Hd Hs Hi Hlen Hsrc l Hn Hsp.
  - exists new. simpl. unfold l. rewrite take_0, app_nil_r. done.
  - pose proof (partial_bounds Hold). pose proof (partial_bounds Hnew). unfold HEADER in *.
    pose proof (kvsum_nonneg es). pose proof (kvsum_nonneg es0).
    destruct (lookup_lt_is_Some_2 es0 (Z.to_nat (src + i))) as [e He]; [unfold len in *; lia|].
    assert (l = e :: take k (drop (Z.to_nat (src + (i + 1))) es0)) as Hl.
    { unfold l. replace (Z.to_nat (src + (i + 1))) with (S (Z.to_nat (src + i))) by lia.
      rewrite (drop_S es0 e) by done. done. }
    rewrite Hl, kvsum_cons in Hsp. clearbody l. subst l.
    pose proof (kvsum_nonneg (take k (drop (Z.to_nat (src + (i + 1))) es0))).
    cbn [nodeAppendRange_loop]. rewrite !(u16_id (src + i)) by lia.
    rewrite <-(Z2Nat.id (src + i)) by lia.
    rewrite (partial_getPtr Hold _ _ He), bind_ok, (partial_getKey Hold _ _ He), bind_ok,
      (partial_getVal Hold _ _ He), bind_ok.
    rewrite (u16_id (dst + i)), Hlen by lia.
    destruct (nodeAppendKV_spec new ty n es (e_ptr e) (e_key e) (e_val e) Hnew)
      as (new1 & -> & R1 & L1); [lia|unfold HEADER, ksize in *; lia|exact (partial_entry _ _ Hold He)|].
    rewrite bind_ok.
    replace (mkEntry (e_ptr e) (e_key e) (e_val e)) with e in R1 by (by destruct e).
    destruct (IH new1 (es ++ [e]) dst src (i + 1) Hold R1) as (new2 & -> & R2 & L2);
      rewrite ?len_snoc, ?kvsum_app, ?kvsum_cons, ?kvsum_nil; try (unfold HEADER; lia).
    exists new2. rewrite <-app_assoc in R2. split_and!; [done|done|lia].
Qed.

Lemma nodeAppendRange_spec old ty0 n0 es0 new ty n es dst src k :
  partial_rep old ty0 n0 es0 -> partial_rep new ty n es ->
  dst = len es -> 0 <= src -> 0 <= k -> src + k <= len es0 ->
  let l := take (Z.to_nat k) (drop (Z.to_nat src) es0) in
  len es + k <= n -> HEADER + 10 * n + kvsum es + kvsum l <= len new ->
  exists new', nodeAppendRange new old dst src k = Ok new' /\
    partial_rep new' ty n (es ++ l) /\ len new' = len new.
Proof.
  intros Hold Hnew -> Hs Hk Hsrc l Hn Hsp. pose proof (len_nonneg es).
  pose proof (nodeAppendRange_loop_spec old ty0 n0 es0 ty n (Z.to_nat k) new es (len es) src 0) as L.
  rewrite !Z.add_0_r in L. apply L; try done; lia.
Qed.

(** * Binary search *)

Lemma nodeLookupLE_loop_spec b ty es key fuel : forall lo hi,
  node_rep b ty es -> ksorted (e_key <$> es) -> 0 <= lo <= hi -> hi <= len es ->
  hi - lo <= Z.of_nat fuel ->
  (forall j k, (e_key <$> es) !! j = Some k -> Z.of_nat j < lo -> key_le k key) ->
  (forall j k, (e_key <$> es) !! j = Some k -> hi <= Z.of_nat j -> key_lt key k) ->
  exists r, nodeLookupLE_loop fuel b key lo hi = Ok r /\ lo <= r <= hi /\
    (forall j k, (e_key <$> es) !! j = Some k -> Z.of_nat j < r -> key_le k key) /\
    (forall j k, (e_key <$> es) !! j = Some k -> r <= Z.of_nat j -> key_lt key k).
Proof.
  induction fuel as [|fuel IH]; intros lo hi Hb Hso Hlo Hhi Hf Hl Hh.
  - simpl. destruct (Z.ltb_spec lo hi); [lia|]. exists lo.
    split_and!; try done; try lia. intros j k Hj Hr. apply (Hh j k Hj). lia.
  - cbn [nodeLookupLE_loop]. destruct (Z.ltb_spec lo hi) as [Hlt|].
    2:{ exists lo. split_and!; try done; try lia. intros j k Hj Hr. apply (Hh j k Hj). lia. }
    set (mid := lo + (hi - lo) / 2).
    assert (lo <= mid < hi) as Hmid.
    { unfold mid. pose proof (Z.div_pos (hi - lo) 2). pose proof (Z.div_lt (hi - lo) 2). lia. }
    destruct (lookup_lt_is_Some_2 es (Z.to_nat mid)) as [e He]; [unfold len in *; lia|].
    replace (getKey b mid) with (getKey b (Z.of_nat (Z.to_nat mid))) by (f_equal; lia).
    rewrite (partial_getKey Hb _ _ He), bind_ok.
    assert ((e_key <$> es) !! Z.to_nat mid = Some (e_key e)) as Hk
      by (by rewrite list_lookup_fmap, He).
    destruct (Z.leb_spec (cmp (e_key e) key) 0) as [Hc|Hc].
    + destruct (IH (mid + 1) hi) as (r & -> & Hr & H1 & H2); try done; try lia.
      2:{ exists r. split_and!; try done; lia. }
      intros j k Hj Hjm. destruct (decide (j = Z.to_nat mid)) as [->|Hne].
      * rewrite Hk in Hj. injection Hj as <-. done.
      * apply key_le_lt_eq. left. apply (key_lt_le_trans _ (e_key e)); [|done].
        by eapply ksorted_lookup_lt; [exact Hso|exact Hj|exact Hk|lia].
    + destruct (IH lo mid) as (r & -> & Hr & H1 & H2); try done; try lia.
      2:{ exists r. split_and!; try done; lia. }
      assert (key_lt key (e_key e)) as Hke
        by (unfold key_lt; rewrite (cmp_antisym (e_key e) key); lia).
      intros j k Hj Hjm. destruct (decide (j = Z.to_nat mid)) as [->|Hne].
      * rewrite Hk in Hj. by injection Hj as <-.
      * trans (e_key e); [done|].
        by eapply ksorted_lookup_lt; [exact Hso|exact Hk|exact Hj|lia].
Qed.

Lemma nodeLookupLE_spec b ty es key :
  node_rep b ty es -> ksorted (e_key <$> es) ->
  exists i, nodeLookupLE b key = Ok (Z.of_nat i) /\ is_le (e_key <$> es) key i /\
    (es <> [] -> (i < length es)%nat).
Proof.
  intros Hb Hs. unfold nodeLookupLE. rewrite (partial_nkeys Hb), bind_ok.
  pose proof (len_nonneg es).
  destruct (nodeLookupLE_loop_spec b ty es key (Z.to_nat (len es)) 0 (len es))
    as (r & -> & Hr & H1 & H2); try done; try lia.
  { intros j k Hj Hge. apply lookup_lt_Some in Hj. rewrite length_fmap in Hj.
    unfold len in *. lia. }
  rewrite bind_ok. destruct (Z.eqb_spec r 0) as [->|Hr0].
  - exists 0%nat. split_and!; [done| |by destruct es; [|simpl; lia]].
    split; [by left|]. intros j k Hj Hlt. apply (H2 j); [done|lia].
  - exists (Z.to_nat (r - 1)). split_and!; [f_equal; lia| |unfold len in *; lia].
    split; [|intros j k Hj Hlt; apply (H2 j); [done|lia]].
    destruct (lookup_lt_is_Some_2 (e_key <$> es) (Z.to_nat (r - 1))) as [k Hk].
    { rewrite length_fmap. unfold len in *. lia. }
    right. exists k. split; [done|]. apply (H1 _ _ Hk). lia.
Qed.
