(* ===== verification/NodeOps.v ===== *)
(** Operations that build one page from others: the page-level helpers of
    src/internal/btree/insert.go and delete.go. Each is characterised by the
    entries of the page it builds. *)
From S2P Require Import Prelude Keys Node.
#[local] Open Scope Z_scope.

Definition leafInsert (new old : BNode) (idx : Z) (key val : bytes) : res BNode :=
  n ← nkeys old;
  new ← setHeader new BNODE_LEAF (u16 (n + 1));
  new ← nodeAppendRange new old 0 0 idx;
  new ← nodeAppendKV new idx 0 key val;
  nodeAppendRange new old (u16 (idx + 1)) idx (u16 (n - idx)).

Definition leafUpdate (new old : BNode) (idx : Z) (key val : bytes) : res BNode :=
  n ← nkeys old;
  new ← setHeader new BNODE_LEAF n;
  new ← nodeAppendRange new old 0 0 idx;
  new ← nodeAppendKV new idx 0 key val;
  nodeAppendRange new old (u16 (idx + 1)) (u16 (idx + 1)) (u16 (n - (idx + 1))).

(** The loop of [nodeSplit2]: [k] iterations are left, the next index is [i];
    the result is [splitIdx]. *)
Fixpoint nodeSplit2_loop (k : nat) (old : BNode) (totalBytes i accum splitIdx : Z) : res Z :=
  match k with
  | O => Ok splitIdx
  | S k =>
      key ← getKey old i;
      val ← getVal old i;
      let kvBytes := u16 (4 + u16 (len key) + u16 (len val)) in
      if (totalBytes / 2 <? u16 (accum + kvBytes)) && (0 <? i) then Ok splitIdx
      else nodeSplit2_loop k old totalBytes (i + 1) (u16 (accum + kvBytes)) (u16 (i + 1))
  end.

Definition nodeSplit2 (left right old : BNode) : res (BNode * BNode) :=
  n ← nkeys old;
  totalBytes ← nbytes old;
  splitIdx ← nodeSplit2_loop (Z.to_nat n) old totalBytes 0 0 0;
  ty ← btype old;
  left ← setHeader left ty splitIdx;
  left ← nodeAppendRange left old 0 0 splitIdx;
  right ← setHeader right ty (u16 (n - splitIdx));
  right ← nodeAppendRange right old 0 splitIdx (u16 (n - splitIdx));
  Ok (left, right).

(** The pair [(nsplit, split)]; the unused slots of the [[3]BNode] are nil. *)
Definition nodeSplit3 (old : BNode) : res (Z * list BNode) :=
  total ← nbytes old;
  if total <=? BTREE_PAGE_SIZE then Ok (1, [old; []; []])
  else
    '(lft, rgt) ← nodeSplit2 (make (2 * BTREE_PAGE_SIZE)) (make BTREE_PAGE_SIZE) old;
    lbytes ← nbytes lft;
    if lbytes <=? BTREE_PAGE_SIZE then Ok (2, [lft; rgt; []])
    else
      '(lftlft, middle) ← nodeSplit2 (make BTREE_PAGE_SIZE) (make BTREE_PAGE_SIZE) lft;
      Ok (3, [lftlft; middle; rgt]).

Definition nodeMerge (new left right : BNode) : res BNode :=
  ty ← btype left;
  nl ← nkeys left;
  nr ← nkeys right;
  new ← setHeader new ty (u16 (nl + nr));
  new ← nodeAppendRange new left 0 0 nl;
  nodeAppendRange new right nl 0 nr.

Definition nodeReplace2Kid (new node : BNode) (idx ptr : Z) (key : bytes) : res BNode :=
  n ← nkeys node;
  new ← setHeader new BNODE_INTERNAL (u16 (n - 1));
  new ← nodeAppendRange new node 0 0 idx;
  new ← nodeAppendKV new idx ptr key [];
  nodeAppendRange new node (u16 (idx + 1)) (u16 (idx + 2)) (u16 (n - (idx + 2))).

(** The leaf branch of [treeDelete]: the page without entry [idx]. *)
Definition leafDelete (new node : BNode) (idx : Z) : res BNode :=
  n ← nkeys node;
  new ← setHeader new BNODE_LEAF (u16 (n - 1));
  new ← nodeAppendRange new node 0 0 idx;
  nodeAppendRange new node idx (u16 (idx + 1)) (u16 (n - (idx + 1))).

(** * What they build *)

Lemma nsize_take_drop es i : nsize (take i es) + nsize (drop i es) - HEADER = nsize es.
Proof. by rewrite <-nsize_app, take_drop. Qed.

Lemma nsize_lookup_split es i e : es !! i = Some e ->
  nsize (take i es) + (10 + ksize e) + nsize (drop (S i) es) - HEADER = nsize es.
Proof.
  intros He. rewrite <-(take_drop_middle _ _ _ He) at 3.
  rewrite nsize_app, nsize_cons. lia.
Qed.

Lemma len_take_nat {A} (l : list A) i : (i <= length l)%nat -> len (take i l) = Z.of_nat i.
Proof. intros. unfold len. rewrite length_take. lia. Qed.

Lemma nsize_partial es n : nsize es <= HEADER + 10 * n + kvsum es -> len es <= n.
Proof. unfold nsize, HEADER. lia. Qed.

(** A page that holds all the entries its header announces. *)
Lemma partial_node_rep b ty n es : partial_rep b ty n es -> len es = n -> node_rep b ty es.
Proof. intros ? <-. done. Qed.

Section build.
Context {old : BNode} {ty0 : Z} {es0 : list entry}.
Hypothesis Hold : node_rep old ty0 es0.

Lemma old_nsize : nsize es0 <= len old < 65536 /\ 10 * len es0 <= nsize es0 - HEADER.
Proof.
  pose proof (partial_bounds Hold). unfold nsize in *. pose proof (kvsum_nonneg es0). lia.
Qed.

(** Copying the first [i] entries into a page that has just been given its header. *)
Lemma copy_prefix new ty n i :
  (i <= length es0)%nat -> partial_rep new ty n [] -> Z.of_nat i <= n ->
  HEADER + 10 * n + kvsum (take i es0) <= len new ->
  exists new', nodeAppendRange new old 0 0 (Z.of_nat i) = Ok new' /\
    partial_rep new' ty n (take i es0) /\ len new' = len new.
Proof.
  intros Hi Hp Hn Hs.
  destruct (nodeAppendRange_spec old ty0 (len es0) es0 new ty n [] 0 0 (Z.of_nat i))
    as (new' & -> & H & L); try done;
    rewrite ?len_nil, ?kvsum_nil, ?Nat2Z.id, ?drop_0; try lens.
  exists new'. rewrite Nat2Z.id, drop_0 in H. done.
Qed.

(** Copying the entries from [i] on to the end of the prefix [es]. *)
Lemma copy_suffix new ty es i :
  (i <= length es0)%nat -> partial_rep new ty (len es + (len es0 - Z.of_nat i)) es ->
  nsize es + nsize (drop i es0) - HEADER <= len new ->
  exists new', nodeAppendRange new old (len es) (Z.of_nat i) (len es0 - Z.of_nat i) = Ok new' /\
    node_rep new' ty (es ++ drop i es0).
Proof.
  intros Hi Hp Hs.
  assert (len (drop i es0) = len es0 - Z.of_nat i) as Hl by (unfold len; rewrite length_drop; lia).
  assert (take (Z.to_nat (len es0 - Z.of_nat i)) (drop i es0) = drop i es0) as Ht
    by (apply take_ge; rewrite length_drop; unfold len; lia).
  assert (Z.of_nat i <= len es0) by (unfold len; lia). unfold nsize in Hs. rewrite Hl in Hs.
  destruct (nodeAppendRange_spec old ty0 (len es0) es0 new ty _ es (len es) (Z.of_nat i)
    (len es0 - Z.of_nat i) Hold Hp) as (new' & -> & R & L);
    rewrite ?Nat2Z.id, ?Ht; try done; try lia.
  exists new'. split; [done|]. rewrite Nat2Z.id, Ht in R.
  eapply partial_node_rep; [exact R|]. rewrite len_app. lia.
Qed.

(** The common shape: the first [i] entries, one new entry, the entries from [j] on. *)
Lemma splice_spec new ty i j ptr key val :
  (i <= j)%nat -> (j <= length es0)%nat -> 0 <= ty < 65536 -> 0 <= ptr < 18446744073709551616 ->
  let es := take i es0 ++ [mkEntry ptr key val] ++ drop j es0 in
  nsize es <= len new -> len new < 65536 ->
  exists new', (new ← setHeader new ty (len es);
    new ← nodeAppendRange new old 0 0 (Z.of_nat i);
    new ← nodeAppendKV new (Z.of_nat i) ptr key val;
    nodeAppendRange new old (Z.of_nat i + 1) (Z.of_nat j) (len es0 - Z.of_nat j)) = Ok new' /\
    node_rep new' ty es.
Proof.
  intros Hij Hj Hty Hptr es Hs Hlen.
  assert (len (take i es0) = Z.of_nat i) as Li by (apply len_take_nat; lia).
  assert (len (drop j es0) = len es0 - Z.of_nat j) as Lj by (unfold len; rewrite length_drop; lia).
  assert (len es = Z.of_nat i + 1 + (len es0 - Z.of_nat j)) as Le
    by (unfold es; rewrite !len_app, Li, Lj, len_cons, len_nil; lia).
  unfold nsize in Hs. rewrite Le in Hs. unfold es in Hs.
  rewrite !kvsum_app, kvsum_cons, kvsum_nil in Hs. unfold ksize in Hs. simpl in Hs.
  pose proof (kvsum_nonneg (take i es0)). pose proof (kvsum_nonneg (drop j es0)).
  pose proof (len_nonneg key). pose proof (len_nonneg val).
  assert (Z.of_nat j <= len es0) by (unfold len; lia).
  destruct (setHeader_spec new ty (len es)) as (n1 & -> & R1 & L1); [done|lia|lia|].
  rewrite bind_ok.
  destruct (copy_prefix n1 ty (len es) i) as (n2 & -> & R2 & L2); [lia|done|lia|lia|].
  rewrite bind_ok.
  destruct (nodeAppendKV_spec n2 ty (len es) (take i es0) ptr key val R2)
    as (n3 & E3 & R3 & L3); [lia|lia|done|].
  rewrite Li in E3. rewrite E3, bind_ok.
  destruct (copy_suffix n3 ty (take i es0 ++ [mkEntry ptr key val]) j) as (n4 & E4 & R4).
  - done.
  - rewrite len_snoc, Li, <-Le. done.
  - unfold nsize. rewrite len_snoc, kvsum_app, kvsum_cons, kvsum_nil, Lj, Li. unfold ksize.
    simpl. lia.
  - rewrite len_snoc, Li in E4. exists n4. rewrite <-app_assoc in R4. done.
Qed.

Lemma leafInsert_spec new i key val :
  (i <= length es0)%nat ->
  let es := take i es0 ++ [mkEntry 0 key val] ++ drop i es0 in
  nsize es <= len new -> len new < 65536 ->
  exists new', leafInsert new old (Z.of_nat i) key val = Ok new' /\ node_rep new' BNODE_LEAF es.
Proof.
  intros Hi es Hs Hl. pose proof old_nsize as Ho. unfold HEADER in *.
  assert (Z.of_nat i <= len es0) by (unfold len; lia).
  destruct (splice_spec new BNODE_LEAF i i 0 key val) as (n & E & R); try done.
  exists n. split; [|done]. rewrite <-E. unfold leafInsert.
  rewrite (partial_nkeys Hold), bind_ok. rewrite !u16_id by lia.
  replace (len es0 + 1) with (len (take i es0 ++ [mkEntry 0 key val] ++ drop i es0)); [done|].
  rewrite !len_app, len_take_nat by lia. unfold len. rewrite length_drop. simpl length. lia.
Qed.

Lemma leafUpdate_spec new i key val :
  (i < length es0)%nat ->
  let es := take i es0 ++ [mkEntry 0 key val] ++ drop (S i) es0 in
  nsize es <= len new -> len new < 65536 ->
  exists new', leafUpdate new old (Z.of_nat i) key val = Ok new' /\ node_rep new' BNODE_LEAF es.
Proof.
  intros Hi es Hs Hl. pose proof old_nsize as Ho. unfold HEADER in *.
  assert (Z.of_nat i < len es0) by (unfold len; lia).
  destruct (splice_spec new BNODE_LEAF i (S i) 0 key val) as (n & E & R); try done; try lia.
  exists n. split; [|done]. rewrite <-E. unfold leafUpdate.
  rewrite (partial_nkeys Hold), bind_ok. rewrite !u16_id by lia.
  replace (Z.of_nat i + 1) with (Z.of_nat (S i)) by lia.
  replace (len (_ ++ _ ++ _)) with (len es0); [done|].
  rewrite !len_app, len_take_nat by lia. unfold len. rewrite length_drop. simpl length. lia.
Qed.

Lemma nodeReplace2Kid_spec new i ptr key :
  (S i < length es0)%nat -> 0 <= ptr < 18446744073709551616 ->
  let es := take i es0 ++ [mkEntry ptr key []] ++ drop (S (S i)) es0 in
  nsize es <= len new -> len new < 65536 ->
  exists new', nodeReplace2Kid new old (Z.of_nat i) ptr key = Ok new' /\
    node_rep new' BNODE_INTERNAL es.
Proof.
  intros Hi Hp es Hs Hl. pose proof old_nsize as Ho. unfold HEADER in *.
  assert (Z.of_nat i + 1 < len es0) by (unfold len; lia).
  destruct (splice_spec new BNODE_INTERNAL i (S (S i)) ptr key []) as (n & E & R); try done; try lia.
  exists n. split; [|done]. rewrite <-E. unfold nodeReplace2Kid.
  rewrite (partial_nkeys Hold), bind_ok. rewrite !u16_id by lia.
  replace (Z.of_nat i + 2) with (Z.of_nat (S (S i))) by lia.
  replace (len (_ ++ _ ++ _)) with (len es0 - 1); [done|].
  rewrite !len_app, len_take_nat by lia. unfold len. rewrite length_drop. simpl length. lia.
Qed.

Lemma leafDelete_spec new i :
  (i < length es0)%nat ->
  let es := take i es0 ++ drop (S i) es0 in
  nsize es <= len new -> len new < 65536 ->
  exists new', leafDelete new old (Z.of_nat i) = Ok new' /\ node_rep new' BNODE_LEAF es.
Proof.
  intros Hi es Hs Hl. pose proof old_nsize as Ho. unfold HEADER in *.
  assert (Z.of_nat i < len es0) by (unfold len; lia).
  assert (len (take i es0) = Z.of_nat i) as Li by (apply len_take_nat; lia).
  assert (len (drop (S i) es0) = len es0 - (Z.of_nat i + 1)) as Lj
    by (unfold len; rewrite length_drop; lia).
  unfold es in Hs. rewrite nsize_app in Hs. unfold nsize, HEADER in Hs. rewrite Li, Lj in Hs.
  pose proof (kvsum_nonneg (take i es0)). pose proof (kvsum_nonneg (drop (S i) es0)).
  unfold leafDelete. rewrite (partial_nkeys Hold), bind_ok. rewrite !u16_id by lia.
  destruct (setHeader_spec new BNODE_LEAF (len es0 - 1)) as (n1 & -> & R1 & L1);
    [done|lia|unfold HEADER; lia|].
  rewrite bind_ok.
  destruct (copy_prefix n1 BNODE_LEAF (len es0 - 1) i) as (n2 & -> & R2 & L2);
    [lia|done|lia|unfold HEADER; lia|].
  rewrite bind_ok.
  destruct (copy_suffix n2 BNODE_LEAF (take i es0) (S i)) as (n3 & E3 & R3).
  - lia.
  - replace (len (take i es0) + _) with (len es0 - 1) by lia. done.
  - unfold nsize, HEADER. rewrite Li, Lj. lia.
  - rewrite Li in E3. exists n3. split; [|done]. rewrite <-E3. f_equal; lia.
Qed.

End build.

Lemma nodeMerge_spec new left right ty es1 es2 :
  node_rep left ty es1 -> node_rep right ty es2 ->
  nsize (es1 ++ es2) <= len new -> len new < 65536 ->
  exists new', nodeMerge new left right = Ok new' /\ node_rep new' ty (es1 ++ es2).
Proof.
  intros H1 H2 Hs Hl. pose proof (old_nsize H1). pose proof (old_nsize H2).
  rewrite nsize_app in Hs. unfold nsize, HEADER in *.
  pose proof (kvsum_nonneg es1). pose proof (kvsum_nonneg es2).
  pose proof (len_nonneg es1). pose proof (len_nonneg es2).
  unfold nodeMerge. rewrite (partial_btype H1), bind_ok, (partial_nkeys H1), bind_ok,
    (partial_nkeys H2), bind_ok, u16_id by lia.
  assert (0 <= ty < 65536) by apply H1.
  destruct (setHeader_spec new ty (len es1 + len es2)) as (n1 & -> & R1 & L1);
    [done|lia|unfold HEADER; lia|].
  rewrite bind_ok.
  destruct (copy_prefix H1 n1 ty (len es1 + len es2) (length es1)) as (n2 & E2 & R2 & L2);
    [lia|done|unfold len; lia|rewrite firstn_all; unfold HEADER; lia|].
  fold (len es1) in E2. rewrite firstn_all in R2. rewrite E2, bind_ok.
  destruct (copy_suffix H2 n2 ty es1 0) as (n3 & E3 & R3).
  - lia.
  - by rewrite Z.sub_0_r.
  - rewrite drop_0. unfold nsize, HEADER. lia.
  - rewrite Z.sub_0_r in E3. rewrite drop_0 in R3. eauto.
Qed.

(** * Splitting *)

(** Entries that a split can always place: keys of at least 10 bytes, at most
    1000 bytes of key and value. *)
Definition small (e : entry) : Prop := 14 <= ksize e <= 1004.

#[global] Instance small_dec e : Decision (small e).
Proof. unfold small. apply _. Defined.

(** Nodes of at most this many bytes are split into pages that fit. *)
Definition SPLIT_MAX : Z := 5400.

Lemma nodeSplit2_loop_spec old ty es k : forall i,
  node_rep old ty es -> (i + k = length es)%nat ->
  exists s, nodeSplit2_loop k old (nsize es) (Z.of_nat i) (kvsum (take i es)) (Z.of_nat i)
      = Ok (Z.of_nat s) /\
    (i <= s <= length es)%nat /\
    ((s <= i)%nat \/ (s <= 1)%nat \/ kvsum (take s es) <= nsize es / 2) /\
    (s = length es \/ (0 < s)%nat /\ nsize es / 2 < kvsum (take (S s) es)).
Proof.
  induction k as [|k IH]; intros i Hr Hk.
  - exists i. split_and!; try lia. done.
  - destruct (lookup_lt_is_Some_2 es i) as [e He]; [lia|].
    pose proof (old_nsize Hr) as Ho. pose proof (kvsum_take_S _ _ _ He) as HS.
    pose proof (kvsum_take_le es (S i)) as Hle. pose proof (kvsum_take_le es i) as Hle'.
    pose proof (len_nonneg (e_key e)). pose proof (len_nonneg (e_val e)).
    pose proof (len_nonneg es). unfold nsize, HEADER in Ho. cbn [nodeSplit2_loop].
    rewrite (partial_getKey Hr _ _ He), bind_ok, (partial_getVal Hr _ _ He), bind_ok.
    assert (u16 (4 + u16 (len (e_key e)) + u16 (len (e_val e))) = ksize e) as ->.
    { unfold ksize in *. rewrite (u16_id (len (e_key e))), (u16_id (len (e_val e))) by lia.
      by rewrite u16_id by lia. }
    rewrite (u16_id (kvsum _ + _)), <-HS by lia.
    destruct (Z.ltb_spec (nsize es / 2) (kvsum (take (S i) es))) as [Hlt|Hge];
      [destruct (Z.ltb_spec 0 (Z.of_nat i))|]; simpl andb; cbv iota.
    + exists i. split_and!; try lia. done.
    + replace (u16 (Z.of_nat i + 1)) with (Z.of_nat (S i)) by (rewrite u16_id; lens).
      replace (Z.of_nat i + 1) with (Z.of_nat (S i)) by lia.
      destruct (IH (S i)) as (s & -> & S1 & S2 & S3); [done|lia|].
      exists s. split_and!; try lia; done.
    + replace (u16 (Z.of_nat i + 1)) with (Z.of_nat (S i)) by (rewrite u16_id; lens).
      replace (Z.of_nat i + 1) with (Z.of_nat (S i)) by lia.
      destruct (IH (S i)) as (s & -> & S1 & S2 & S3); [done|lia|].
      exists s. split_and!; try lia; try done.
      destruct S2 as [S2|S2]; [|lia]. right; right. replace s with (S i) by lia. done.
Qed.

Lemma kvsum_small es : Forall small es -> 14 * len es <= kvsum es <= 1004 * len es.
Proof.
  induction 1 as [|e es He Hes IH]; [done|]. rewrite kvsum_cons, len_cons. unfold small in He. lia.
Qed.

(** Sizes of the two halves at the index the loop picks. *)
Lemma split_sizes es s :
  Forall small es -> BTREE_PAGE_SIZE < nsize es <= SPLIT_MAX ->
  (s <= length es)%nat ->
  ((s <= 1)%nat \/ kvsum (take s es) <= nsize es / 2) ->
  (s = length es \/ (0 < s)%nat /\ nsize es / 2 < kvsum (take (S s) es)) ->
  (0 < s < length es)%nat /\
  7 * nsize (take s es) <= 28 + 6 * nsize es /\
  nsize (drop s es) <= nsize es / 2 + 1000.
Proof.
  intros Hsm Hn Hs Hle Hgt.
  pose proof (kvsum_small es Hsm) as Hk.
  pose proof (kvsum_small (take s es) (Forall_take _ _ _ Hsm)) as Hkt.
  rewrite len_take_nat in Hkt by done.
  assert (0 < s < length es)%nat as Hr.
  { split.
    - destruct Hgt as [->|[? _]]; [|done]. destruct es; [|simpl; lia].
      rewrite nsize_nil in Hn. unfold HEADER, BTREE_PAGE_SIZE in Hn. lia.
    - destruct Hgt as [->|[? Hgt]]; [exfalso|].
      + rewrite firstn_all in *. unfold nsize, BTREE_PAGE_SIZE, HEADER, len in *. dlia.
      + destruct (decide (s = length es)) as [->|]; [|lia]. exfalso.
        rewrite firstn_all in *. rewrite take_ge in Hgt by lia.
        unfold nsize, BTREE_PAGE_SIZE, HEADER, len in *. dlia. }
  destruct (lookup_lt_is_Some_2 es s) as [e He]; [lia|].
  assert (small e) as Hse by (rewrite Forall_forall in Hsm; apply Hsm; by eapply list_elem_of_lookup_2).
  pose proof (kvsum_take_S _ _ _ He) as HS. pose proof (kvsum_drop es s) as Hd.
  split; [done|]. unfold nsize, BTREE_PAGE_SIZE, SPLIT_MAX, HEADER, small in *.
  rewrite len_take_nat by done. unfold len in *. rewrite length_drop.
  destruct Hgt as [->|[_ Hgt]]; [lia|]. split; [|dlia].
  destruct Hle as [Hle|Hle]; [|dlia]. lia.
Qed.

Lemma nodeSplit2_spec left right old ty es :
  node_rep old ty es -> Forall small es -> BTREE_PAGE_SIZE < nsize es <= SPLIT_MAX ->
  len left = 2 * BTREE_PAGE_SIZE \/ (len left = BTREE_PAGE_SIZE /\ nsize es <= 4700) ->
  len right = BTREE_PAGE_SIZE ->
  exists l r es1 es2, nodeSplit2 left right old = Ok (l, r) /\
    node_rep l ty es1 /\ node_rep r ty es2 /\ es = es1 ++ es2 /\ es1 <> [] /\ es2 <> [] /\
    7 * nsize es1 <= 28 + 6 * nsize es /\ nsize es2 <= BTREE_PAGE_SIZE.
Proof.
  intros Hr Hsm Hn Hl Hrt. pose proof (old_nsize Hr) as Ho. pose proof (len_nonneg es).
  unfold nodeSplit2. rewrite (partial_nkeys Hr), bind_ok, (node_nbytes _ _ _ Hr), bind_ok.
  replace (Z.to_nat (len es)) with (length es) by lens.
  destruct (nodeSplit2_loop_spec old ty es (length es) 0) as (s & E & H1 & H2 & H3); [done|lia|].
  rewrite take_0, kvsum_nil in E. change (Z.of_nat 0) with 0 in E. rewrite E, bind_ok.
  destruct (split_sizes es s) as (Hs & Hs1 & Hs2); try done; [lia|destruct H2 as [?|[?|?]]; [left; lia|tauto..]|].
  assert (0 <= ty < 65536) as Hty by apply Hr.
  rewrite (partial_btype Hr), bind_ok.
  unfold SPLIT_MAX, BTREE_PAGE_SIZE in *.
  assert (nsize (take s es) <= len left) as Hfit by lia.
  assert (nsize (drop s es) <= len right) as Hfit2 by dlia.
  unfold nsize in Hfit, Hfit2. rewrite len_take_nat in Hfit by lia.
  assert (len (drop s es) = len es - Z.of_nat s) as Ld by (unfold len; rewrite length_drop; lia).
  rewrite Ld in Hfit2. unfold HEADER in *.
  pose proof (kvsum_nonneg (take s es)). pose proof (kvsum_nonneg (drop s es)).
  assert (Z.of_nat s <= len es) by lens.
  destruct (setHeader_spec left ty (Z.of_nat s)) as (l1 & -> & R1 & L1); [done|lia|unfold HEADER; lia|].
  rewrite bind_ok.
  destruct (copy_prefix Hr l1 ty (Z.of_nat s) s) as (l2 & -> & R2 & L2);
    [lia|done|lia|unfold HEADER; lia|].
  rewrite bind_ok. unfold nsize in Ho. rewrite !u16_id by lia.
  destruct (setHeader_spec right ty (len es - Z.of_nat s)) as (r1 & -> & R3 & L3);
    [done|lia|unfold HEADER; lia|].
  rewrite bind_ok.
  destruct (copy_suffix Hr r1 ty [] s) as (r2 & E4 & R4).
  - lia.
  - by rewrite len_nil.
  - rewrite nsize_nil. unfold nsize. rewrite Ld. unfold HEADER. lia.
  - rewrite len_nil in E4. rewrite E4, bind_ok.
    exists l2, r2, (take s es), (drop s es). split_and!; try done.
    + eapply partial_node_rep; [exact R2|]. apply len_take_nat; lia.
    + by rewrite take_drop.
    + intros Hnil%(f_equal length). rewrite length_take in Hnil. simpl in Hnil. lia.
    + intros Hnil%(f_equal length). rewrite length_drop in Hnil. simpl in Hnil. lia.
    + dlia.
Qed.

(** [nodeSplit3] cuts the entries into at most three non-empty pages that fit. *)
(** A node that fits in a page is not split. *)
Lemma nodeSplit3_fits old ty es : node_rep old ty es -> nsize es <= BTREE_PAGE_SIZE ->
  nodeSplit3 old = Ok (1, [old; []; []]).
Proof.
  intros Hr Hle. unfold nodeSplit3. rewrite (node_nbytes _ _ _ Hr), bind_ok. by rewrite (proj2 (Z.leb_le _ _) Hle).
Qed.

Lemma nodeSplit3_spec old ty es :
  node_rep old ty es -> es <> [] -> Forall small es -> nsize es <= SPLIT_MAX ->
  exists n split ess, nodeSplit3 old = Ok (n, split) /\ 1 <= n <= 3 /\
    Forall2 (fun b e => node_rep b ty e) (take (Z.to_nat n) split) ess /\ concat ess = es /\
    Forall (fun e => e <> [] /\ nsize e <= BTREE_PAGE_SIZE) ess /\ len ess = n.
Proof.
  intros Hr Hne Hsm Hn. destruct (Z.leb_spec (nsize es) BTREE_PAGE_SIZE) as [Hle|Hgt].
  { exists 1, [old; []; []], [es]. rewrite (nodeSplit3_fits _ _ _ Hr Hle), ?app_nil_r. split_and!; try done.
    - repeat (apply Forall2_cons_2; [done|]). apply Forall2_nil_2.
    - simpl. by rewrite app_nil_r.
    - by repeat constructor. }
  unfold nodeSplit3. rewrite (node_nbytes _ _ _ Hr), bind_ok, (proj2 (Z.leb_gt _ _) Hgt).
  destruct (nodeSplit2_spec (make (2 * BTREE_PAGE_SIZE)) (make BTREE_PAGE_SIZE) old ty es)
    as (l & r & es1 & es2 & -> & Hl & Hrr & -> & Hne1 & Hne2 & Hs1 & Hs2); try done.
  { left. by rewrite len_make. }
  rewrite bind_ok. cbv beta iota. rewrite (node_nbytes _ _ _ Hl), bind_ok.
  apply Forall_app in Hsm as [Hsm1 Hsm2].
  destruct (Z.leb_spec (nsize es1) BTREE_PAGE_SIZE) as [Hle1|Hgt1].
  { exists 2, [l; r; []], [es1; es2]. split_and!; try done.
    - repeat (apply Forall2_cons_2; [done|]). apply Forall2_nil_2.
    - simpl. by rewrite app_nil_r.
    - by repeat constructor. }
  unfold SPLIT_MAX in *.
  destruct (nodeSplit2_spec (make BTREE_PAGE_SIZE) (make BTREE_PAGE_SIZE) l ty es1)
    as (ll & m & es3 & es4 & -> & Hll & Hm & -> & Hne3 & Hne4 & Hs3 & Hs4);
    unfold SPLIT_MAX in *; try done; try lia.
  { right. rewrite len_make by done. unfold BTREE_PAGE_SIZE in *. split; [done|]. lia. }
  rewrite bind_ok. cbv beta iota.
  exists 3, [ll; m; r], [es3; es4; es2]. split_and!; try done.
  - repeat (apply Forall2_cons_2; [done|]). apply Forall2_nil_2.
  - simpl. by rewrite app_nil_r, app_assoc.
  - unfold BTREE_PAGE_SIZE in *. repeat constructor; try done; lia.
Qed.
