(* ===== verification/Tree.v ===== *)
(** The B+tree operations: [treeInsert], [Insert], [Get] of
    src/internal/btree/insert.go and [treeDelete], [Delete] of delete.go, over
    the page store that the [GetPage], [NewPage] and [DelPage] callbacks of the
    [BTree] struct give access to. *)
From S2P Require Import Prelude Keys Node NodeOps.
#[local] Open Scope Z_scope.

(** * The page store *)

(** The three callbacks of the [BTree] struct, over the state they share. *)
Class PageStore (S : Type) := {
  GetPage : S -> Z -> res BNode;
  NewPage : S -> BNode -> res (Z * S);
  DelPage : S -> Z -> res S;
}.

Section tree.
Context {S : Type} `{PageStore S}.

(** The [BTree] struct: the root pointer, and the state behind the callbacks. *)
Record BTree := mkTree { Root : Z; store : S }.

(** * Insertion *)

(** The loop of [nodeReplaceKidN] over [kids]; [i] is the loop index. *)
Fixpoint replaceKidN_loop (s : S) (new : BNode) (idx i : Z) (kids : list BNode)
    : res (BNode * S) :=
  match kids with
  | [] => Ok (new, s)
  | kid :: kids =>
      '(ptr, s) ← NewPage s kid;
      key ← getKey kid 0;
      new ← nodeAppendKV new (u16 (idx + u16 i)) ptr key [];
      replaceKidN_loop s new idx (i + 1) kids
  end.

Definition nodeReplaceKidN (s : S) (new old : BNode) (idx : Z) (kids : list BNode)
    : res (BNode * S) :=
  let inc := u16 (len kids) in
  n ← nkeys old;
  new ← setHeader new BNODE_INTERNAL (u16 (n + inc - 1));
  new ← nodeAppendRange new old 0 0 idx;
  '(new, s) ← replaceKidN_loop s new idx 0 kids;
  new ← nodeAppendRange new old (u16 (idx + inc)) (u16 (idx + 1)) (u16 (n - (idx + 1)));
  Ok (new, s).

(** The recursion follows a path of the tree: [fuel] bounds its length. *)
Fixpoint treeInsert (fuel : nat) (s : S) (node : BNode) (key val : bytes) : res (BNode * S) :=
  match fuel with
  | O => OutOfFuel
  | Datatypes.S fuel =>
      let new := make (2 * BTREE_PAGE_SIZE) in
      idx ← nodeLookupLE node key;
      ty ← btype node;
      if ty =? BNODE_LEAF then
        n ← nkeys node;
        c ← (if 0 <? n then k ← getKey node idx; Ok (cmp key k) else Ok (-1));
        if (0 <? n) && (c =? 0) then
          new ← leafUpdate new node idx key val;
          Ok (new, s)
        else
          let insertIdx := if (0 <? n) && (0 <? c) then u16 (idx + 1) else idx in
          new ← leafInsert new node insertIdx key val;
          Ok (new, s)
      else if ty =? BNODE_INTERNAL then
        kptr ← getPtr node idx;
        knode ← GetPage s kptr;
        s ← DelPage s kptr;
        '(knode, s) ← treeInsert fuel s knode key val;
        '(nsplit, split) ← nodeSplit3 knode;
        nodeReplaceKidN s new node idx (take (Z.to_nat nsplit) split)
      else Ok (new, s)
  end.

(** The loop of [Insert] that fills a new root page. *)
Fixpoint newRoot_loop (s : S) (root : BNode) (i : Z) (kids : list BNode) : res (BNode * S) :=
  match kids with
  | [] => Ok (root, s)
  | knode :: kids =>
      '(ptr, s) ← NewPage s knode;
      pos ← offsetPos root (u16 (u16 i + 1));
      root ← copy_at root pos (make 2);
      key ← getKey knode 0;
      root ← nodeAppendKV root (u16 i) ptr key [];
      newRoot_loop s root (i + 1) kids
  end.

Definition Insert (fuel : nat) (tree : BTree) (key val : bytes) : res BTree :=
  let s := store tree in
  if Root tree =? 0 then
    root ← setHeader (make BTREE_PAGE_SIZE) BNODE_LEAF 1;
    root ← nodeAppendKV root 0 0 key val;
    '(ptr, s) ← NewPage s root;
    Ok (mkTree ptr s)
  else
    node ← GetPage s (Root tree);
    s ← DelPage s (Root tree);
    '(node, s) ← treeInsert fuel s node key val;
    '(nsplit, split) ← nodeSplit3 node;
    if 1 <? nsplit then
      root ← setHeader (make BTREE_PAGE_SIZE) BNODE_INTERNAL nsplit;
      '(root, s) ← newRoot_loop s root 0 (take (Z.to_nat nsplit) split);
      '(ptr, s) ← NewPage s root;
      Ok (mkTree ptr s)
    else
      n0 ← index split 0;
      '(ptr, s) ← NewPage s n0;
      Ok (mkTree ptr s).

(** * Lookup *)

(** The descent of [Get]; a page of neither type would make it spin. *)
Fixpoint Get_loop (fuel : nat) (s : S) (node : BNode) (key : bytes) : res (option bytes) :=
  match fuel with
  | O => OutOfFuel
  | Datatypes.S fuel =>
      idx ← nodeLookupLE node key;
      ty ← btype node;
      if ty =? BNODE_LEAF then
        k ← getKey node idx;
        if cmp key k =? 0 then v ← getVal node idx; Ok (Some v) else Ok None
      else if ty =? BNODE_INTERNAL then
        ptr ← getPtr node idx;
        node ← GetPage s ptr;
        Get_loop fuel s node key
      else Get_loop fuel s node key
  end.

Definition Get (fuel : nat) (tree : BTree) (key : bytes) : res (option bytes) :=
  if Root tree =? 0 then Ok None
  else node ← GetPage (store tree) (Root tree); Get_loop fuel (store tree) node key.

(** * Deletion *)

Definition shouldMerge (s : S) (node : BNode) (idx : Z) (updated : BNode) : res (Z * BNode) :=
  ub ← nbytes updated;
  if BTREE_PAGE_SIZE / 4 <? ub then Ok (0, [])
  else
    left ← (if 0 <? idx then
              ptr ← getPtr node (u16 (idx - 1));
              sibling ← GetPage s ptr;
              sb ← nbytes sibling;
              Ok (if u16 (sb + ub - HEADER) <=? BTREE_PAGE_SIZE then Some sibling else None)
            else Ok None);
    match left with
    | Some sibling => Ok (-1, sibling)
    | None =>
        n ← nkeys node;
        if u16 (idx + 1) <? n then
          ptr ← getPtr node (u16 (idx + 1));
          sibling ← GetPage s ptr;
          sb ← nbytes sibling;
          Ok (if u16 (sb + ub - HEADER) <=? BTREE_PAGE_SIZE then (1, sibling) else (0, []))
        else Ok (0, [])
    end.

(** The end of the internal branch of [treeDelete], once the page of the kid at
    [idx] has been freed: the updated kid is merged with a sibling, dropped when
    it is empty, or stored again. *)
Definition treeDelete_kid (s : S) (node : BNode) (idx : Z) (updated : BNode) : res (BNode * S) :=
  let new := make BTREE_PAGE_SIZE in
  '(mergeDir, sibling) ← shouldMerge s node idx updated;
  if mergeDir <? 0 then
    merged ← nodeMerge (make BTREE_PAGE_SIZE) sibling updated;
    lptr ← getPtr node (u16 (idx - 1));
    s ← DelPage s lptr;
    '(ptr, s) ← NewPage s merged;
    k ← getKey merged 0;
    new ← nodeReplace2Kid new node (u16 (idx - 1)) ptr k;
    Ok (new, s)
  else if 0 <? mergeDir then
    merged ← nodeMerge (make BTREE_PAGE_SIZE) updated sibling;
    rptr ← getPtr node (u16 (idx + 1));
    s ← DelPage s rptr;
    '(ptr, s) ← NewPage s merged;
    k ← getKey merged 0;
    new ← nodeReplace2Kid new node idx ptr k;
    Ok (new, s)
  else
    un ← nkeys updated;
    if un =? 0 then
      new ← setHeader new BNODE_INTERNAL 0;
      Ok (new, s)
    else nodeReplaceKidN s new node idx [updated].

(** An empty result page means that the key was not found. *)
Fixpoint treeDelete (fuel : nat) (s : S) (node : BNode) (key : bytes) : res (BNode * S) :=
  match fuel with
  | O => OutOfFuel
  | Datatypes.S fuel =>
      idx ← nodeLookupLE node key;
      ty ← btype node;
      if ty =? BNODE_LEAF then
        k ← getKey node idx;
        if negb (cmp key k =? 0) then Ok ([], s)
        else
          new ← leafDelete (make BTREE_PAGE_SIZE) node idx;
          Ok (new, s)
      else if ty =? BNODE_INTERNAL then
        kptr ← getPtr node idx;
        kid ← GetPage s kptr;
        '(updated, s) ← treeDelete fuel s kid key;
        if len updated =? 0 then Ok ([], s)
        else
          s ← DelPage s kptr;
          treeDelete_kid s node idx updated
      else Ok ([], s)
  end.

Definition Delete (fuel : nat) (tree : BTree) (key : bytes) : res (bool * BTree) :=
  if Root tree =? 0 then Ok (false, tree)
  else
    node ← GetPage (store tree) (Root tree);
    '(updated, s) ← treeDelete fuel (store tree) node key;
    if len updated =? 0 then Ok (false, mkTree (Root tree) s)
    else
      s ← DelPage s (Root tree);
      un ← nkeys updated;
      if un =? 0 then Ok (true, mkTree 0 s)
      else
        '(ptr, s) ← NewPage s updated;
        Ok (true, mkTree ptr s).

End tree.

Arguments BTree _ : clear implicits.

(** * An in-memory page store

    The store of src/internal/btree/btree_test.go: a map from pointers to pages
    in which reading an unknown pointer and freeing it twice panic, and a node
    of more than a page is refused. Pointers are the least unused ones instead
    of memory addresses. *)

Record memStore := mkMem { mem_pages : gmap Z BNode }.

(** The least pointer from [p] on that is not in use, in at most [n] steps. *)
Fixpoint free_ptr (n : nat) (m : gmap Z BNode) (p : Z) : Z :=
  match n with
  | O => p
  | S n => match m !! p with Some _ => free_ptr n m (p + 1) | None => p end
  end.

#[global] Instance mem_store : PageStore memStore := {|
  GetPage s p := of_option (mem_pages s !! p);
  NewPage s b :=
    n ← nbytes b;
    if BTREE_PAGE_SIZE <? n then Panic
    else
      let p := free_ptr (size (mem_pages s)) (mem_pages s) 1 in
      Ok (p, mkMem (<[p := b]> (mem_pages s)));
  DelPage s p :=
    match mem_pages s !! p with
    | Some _ => Ok (mkMem (delete p (mem_pages s)))
    | None => Panic
    end;
|}.

Definition empty_tree : BTree memStore := mkTree 0 (mkMem ∅).
