(* ===== verification/TreeRep.v ===== *)
(** How pages represent a tree.

    [erep pg h es m F]: in the page map [pg], the entries [es] of a node of
    height [h] represent the sorted key-value list [m], and [F] is the set of
    pages below that node, each used once. Every stored page is non-empty, fits
    in [BTREE_PAGE_SIZE] bytes, and the separator key of a kid is its first key.
    [upd] says how an operation changes the page map: it replaces the pages [F]
    by the pages [F'] and touches nothing else. *)
From S2P Require Import Prelude Keys KVList Node NodeOps Tree.
#[local] Open Scope Z_scope.

(** * What the tree asks of its page store *)

(** A page that stands for [b]: it holds the same entries when they fit in a page. *)
Definition page_for (b b' : BNode) : Prop :=
  forall ty es, node_rep b ty es -> nsize es <= BTREE_PAGE_SIZE -> node_rep b' ty es.

Class PageStoreOK (S : Type) `{PageStore S} := {
  pages : S -> gmap Z BNode;
  page_cap : nat;
  GetPage_ok : forall s p b, pages s !! p = Some b -> GetPage s p = Ok b;
  NewPage_ok : forall s b n, nbytes b = Ok n -> n <= BTREE_PAGE_SIZE ->
    (size (pages s) < page_cap)%nat ->
    exists p s' b', NewPage s b = Ok (p, s') /\ 0 < p < 18446744073709551616 /\
      pages s !! p = None /\ pages s' = <[p := b']> (pages s) /\ page_for b b';
  DelPage_ok : forall s p b, pages s !! p = Some b ->
    exists s', DelPage s p = Ok s' /\ pages s' = delete p (pages s);
}.

(** * Representation *)

Definition ntype (h : nat) : Z := match h with O => BNODE_LEAF | S _ => BNODE_INTERNAL end.

Definition leaf_entries (m : kvs) : list entry := (fun kv => mkEntry 0 kv.1 kv.2) <$> m.

Inductive kids_rep (pg : gmap Z BNode) (R : BNode -> kvs -> gset Z -> Prop)
    : list entry -> kvs -> gset Z -> Prop :=
| kids_nil : kids_rep pg R [] [] ∅
| kids_cons p b m F es m' F' :
    pg !! p = Some b -> R b m F -> p ∉ F -> ({[p]} ∪ F) ## F' ->
    kids_rep pg R es m' F' ->
    kids_rep pg R (mkEntry p (first_key m) [] :: es) (m ++ m') ({[p]} ∪ F ∪ F').

Fixpoint erep (pg : gmap Z BNode) (h : nat) (es : list entry) (m : kvs) (F : gset Z) : Prop :=
  match h with
  | O => es = leaf_entries m /\ F = ∅
  | S h =>
      kids_rep pg (fun b m F => exists es, node_rep b (ntype h) es /\ es <> [] /\
        nsize es <= BTREE_PAGE_SIZE /\ erep pg h es m F) es m F
  end.

(** A page of the store that holds a node of height [h]. *)
Definition stored (pg : gmap Z BNode) (h : nat) (b : BNode) (m : kvs) (F : gset Z) : Prop :=
  exists es, node_rep b (ntype h) es /\ es <> [] /\ nsize es <= BTREE_PAGE_SIZE /\ erep pg h es m F.

(** The pages [F] of [pg] are replaced by the pages [F'] in [pg']; the rest stays. *)
Definition upd (pg : gmap Z BNode) (F : gset Z) (pg' : gmap Z BNode) (F' : gset Z) : Prop :=
  F ⊆ dom pg /\ F' ## dom pg ∖ F /\ dom pg' = (dom pg ∖ F) ∪ F' /\
  forall p, p ∈ dom pg ∖ F -> pg' !! p = pg !! p.

Lemma erep_S pg h es m F : erep pg (S h) es m F = kids_rep pg (stored pg h) es m F.
Proof. reflexivity. Qed.

(** * Changing the page map *)

Lemma upd_refl pg F : F ⊆ dom pg -> upd pg F pg F.
Proof. intros. unfold upd. split_and!; [done|set_solver| |done].
  apply set_eq. intros p. destruct (decide (p ∈ F)); set_solver. Qed.

Lemma upd_trans pg1 F1 pg2 F2 pg3 F3 :
  upd pg1 F1 pg2 F2 -> upd pg2 F2 pg3 F3 -> upd pg1 F1 pg3 F3.
Proof.
  intros (A1 & A2 & A3 & A4) (B1 & B2 & B3 & B4).
  assert (dom pg2 ∖ F2 = dom pg1 ∖ F1) as E by (rewrite A3; set_solver).
  rewrite E in *. unfold upd. split_and!; [done|set_solver|set_solver|].
  intros p Hp. rewrite B4 by done. by apply A4.
Qed.

Lemma upd_frame pg F pg' F' G :
  upd pg F pg' F' -> G ⊆ dom pg -> G ## F -> upd pg (F ∪ G) pg' (F' ∪ G) /\ G ## F'.
Proof.
  intros (A1 & A2 & A3 & A4) HG Hd. assert (G ## F') by set_solver. split; [|done].
  unfold upd. split_and!.
  - set_solver.
  - set_solver.
  - rewrite A3. apply set_eq. intros p. destruct (decide (p ∈ G)); set_solver.
  - intros p Hp. apply A4. set_solver.
Qed.

Lemma upd_insert pg p b : pg !! p = None -> upd pg ∅ (<[p := b]> pg) {[p]}.
Proof.
  intros Hp. pose proof (proj2 (not_elem_of_dom pg p) Hp) as Hd. unfold upd. split_and!.
  - set_solver.
  - set_solver.
  - rewrite dom_insert_L. set_solver.
  - intros q Hq. rewrite lookup_insert_ne; [done|]. intros ->. set_solver.
Qed.

Lemma upd_delete pg p b : pg !! p = Some b -> upd pg {[p]} (delete p pg) ∅.
Proof.
  intros Hp. assert (p ∈ dom pg) by (apply elem_of_dom; eauto). unfold upd. split_and!.
  - set_solver.
  - set_solver.
  - rewrite dom_delete_L. set_solver.
  - intros q Hq. rewrite lookup_delete_ne; [done|]. intros ->. set_solver.
Qed.

Lemma upd_keep pg F pg' F' p b :
  upd pg F pg' F' -> pg !! p = Some b -> p ∉ F -> pg' !! p = Some b.
Proof.
  intros (_ & _ & _ & A4) Hp Hn. rewrite A4; [done|].
  apply elem_of_difference. split; [|done]. apply elem_of_dom. eauto.
Qed.

Lemma size_delete_Some {A} (pg : gmap Z A) p b :
  pg !! p = Some b -> (S (size (delete p pg)) = size pg)%nat.
Proof.
  intros H. rewrite <-(insert_delete_id _ _ _ H) at 2.
  by rewrite map_size_insert_None by apply lookup_delete_eq.
Qed.

(** * Kids *)

Section kids.
Context (pg : gmap Z BNode) (R : BNode -> kvs -> gset Z -> Prop).

Lemma kids_app es1 m1 F1 es2 m2 F2 :
  kids_rep pg R es1 m1 F1 -> kids_rep pg R es2 m2 F2 -> F1 ## F2 ->
  kids_rep pg R (es1 ++ es2) (m1 ++ m2) (F1 ∪ F2).
Proof.
  intros H1 H2 Hd. induction H1 as [|p b m F es m' F' Hp HR Hn Hd' Hk IH].
  - simpl. by rewrite (left_id_L ∅ (∪)).
  - simpl. rewrite <-(assoc_L (∪) ({[p]} ∪ F)), <-app_assoc. econstructor; try done.
    + set_solver.
    + apply IH. set_solver.
Qed.

Lemma kids_app_inv es1 es2 m F :
  kids_rep pg R (es1 ++ es2) m F ->
  exists m1 F1 m2 F2, m = m1 ++ m2 /\ F = F1 ∪ F2 /\ F1 ## F2 /\
    kids_rep pg R es1 m1 F1 /\ kids_rep pg R es2 m2 F2.
Proof.
  revert m F. induction es1 as [|e es1 IH]; intros m F Hk.
  - exists [], ∅, m, F. split_and!; [done|set_solver|set_solver|constructor|done].
  - simpl in Hk. inversion Hk as [|p b m0 F0 es m' F' Hp HR Hn Hd Hk']; subst.
    destruct (IH _ _ Hk') as (m1 & F1 & m2 & F2 & -> & -> & Hd' & H1 & H2).
    exists (m0 ++ m1), ({[p]} ∪ F0 ∪ F1), m2, F2. split_and!.
    + by rewrite app_assoc.
    + set_solver.
    + set_solver.
    + econstructor; try done. set_solver.
    + done.
Qed.

Lemma kids_one_inv e m F : kids_rep pg R [e] m F ->
  exists b F0, pg !! e_ptr e = Some b /\ R b m F0 /\ (e_ptr e ∉ F0) /\ F = {[e_ptr e]} ∪ F0 /\
    e_key e = first_key m /\ e_val e = [].
Proof.
  intros Hk. inversion Hk as [|p b m0 F0 es m' F' Hp HR Hn Hd Hk']; subst.
  inversion Hk'; subst. rewrite app_nil_r. exists b, F0. simpl.
  split_and!; try done. set_solver.
Qed.

Lemma kids_one p b m F :
  pg !! p = Some b -> R b m F -> p ∉ F ->
  kids_rep pg R [mkEntry p (first_key m) []] m ({[p]} ∪ F).
Proof.
  intros. rewrite <-(app_nil_r m) at 2. rewrite <-(right_id_L ∅ (∪) ({[p]} ∪ F)).
  econstructor; try done; try constructor; set_solver.
Qed.

End kids.

Lemma kids_mono pg pg' (R R' : BNode -> kvs -> gset Z -> Prop) es m F :
  (forall b m F0, F0 ⊆ F -> R b m F0 -> R' b m F0) ->
  (forall p, p ∈ F -> pg' !! p = pg !! p) ->
  kids_rep pg R es m F -> kids_rep pg' R' es m F.
Proof.
  intros HR Hpg Hk. induction Hk as [|p b m F es m' F' Hp HR0 Hn Hd Hk IH]; [constructor|].
  econstructor; try done.
  - rewrite Hpg; [done|set_solver].
  - apply HR; [set_solver|done].
  - apply IH; [intros; apply HR; [set_solver|done]|intros; apply Hpg; set_solver].
Qed.

(** A representation only depends on its own pages. *)
Lemma erep_frame pg pg' h : forall es m F,
  (forall p, p ∈ F -> pg' !! p = pg !! p) -> erep pg h es m F -> erep pg' h es m F.
Proof.
  induction h as [|h IH]; intros es m F Hpg; [done|]. rewrite !erep_S.
  apply kids_mono; [|done]. intros b m' F0 HF (es' & H1 & H2 & H3 & H4).
  exists es'. split_and!; try done. apply IH; [|done]. intros p Hp. apply Hpg. set_solver.
Qed.

Lemma erep_upd pg F pg' F' h es m G :
  upd pg F pg' F' -> erep pg h es m G -> G ⊆ dom pg -> G ## F -> erep pg' h es m G.
Proof.
  intros (_ & _ & _ & Hu) He HG Hd. eapply erep_frame; [|exact He].
  intros p Hp. apply Hu. set_solver.
Qed.

Lemma kids_upd pg F pg' F' h es m G :
  upd pg F pg' F' -> kids_rep pg (stored pg h) es m G -> G ⊆ dom pg -> G ## F ->
  kids_rep pg' (stored pg' h) es m G.
Proof. rewrite <-!erep_S. apply erep_upd. Qed.

Lemma stored_upd pg F pg' F' h b m G :
  upd pg F pg' F' -> stored pg h b m G -> G ⊆ dom pg -> G ## F -> stored pg' h b m G.
Proof.
  intros Hu (es & H1 & H2 & H3 & H4) HG Hd. exists es. split_and!; try done. by eapply erep_upd.
Qed.

Lemma kids_dom pg (R : BNode -> kvs -> gset Z -> Prop) es m F :
  (forall b m F, R b m F -> F ⊆ dom pg) -> kids_rep pg R es m F -> F ⊆ dom pg.
Proof.
  intros HR. induction 1 as [|p b m F es m' F' Hp HR0 Hn Hd Hk IH]; [set_solver|].
  assert (p ∈ dom pg) by (apply elem_of_dom; eauto). apply HR in HR0. set_solver.
Qed.

Lemma erep_dom pg h : forall es m F, erep pg h es m F -> F ⊆ dom pg.
Proof.
  induction h as [|h IH]; intros es m F; [intros [_ ->]; set_solver|].
  apply kids_dom. intros b m' F' (es' & _ & _ & _ & He). eauto.
Qed.

Lemma stored_dom pg h b m F : stored pg h b m F -> F ⊆ dom pg.
Proof. intros (es & _ & _ & _ & He). by eapply erep_dom. Qed.

(** * Cutting and joining the entries of a node *)

Lemma leaf_entries_app m1 m2 : leaf_entries (m1 ++ m2) = leaf_entries m1 ++ leaf_entries m2.
Proof. apply fmap_app. Qed.

Lemma leaf_entries_app_inv m es1 es2 : leaf_entries m = es1 ++ es2 ->
  exists m1 m2, m = m1 ++ m2 /\ es1 = leaf_entries m1 /\ es2 = leaf_entries m2.
Proof. intros (m1 & m2 & -> & -> & ->)%fmap_app_inv. eauto. Qed.

Lemma erep_app pg h es1 m1 F1 es2 m2 F2 :
  erep pg h es1 m1 F1 -> erep pg h es2 m2 F2 -> F1 ## F2 ->
  erep pg h (es1 ++ es2) (m1 ++ m2) (F1 ∪ F2).
Proof.
  destruct h as [|h]; [|apply kids_app].
  intros [-> ->] [-> ->] _. split; [by rewrite leaf_entries_app|set_solver].
Qed.

Lemma erep_app_inv pg h es1 es2 m F :
  erep pg h (es1 ++ es2) m F ->
  exists m1 F1 m2 F2, m = m1 ++ m2 /\ F = F1 ∪ F2 /\ F1 ## F2 /\
    erep pg h es1 m1 F1 /\ erep pg h es2 m2 F2.
Proof.
  destruct h as [|h]; [|apply kids_app_inv].
  intros [He ->]. symmetry in He. apply leaf_entries_app_inv in He as (m1 & m2 & -> & -> & ->).
  exists m1, ∅, m2, ∅. split_and!; try done; set_solver.
Qed.

Lemma erep_nil pg h m F : erep pg h [] m F -> m = [] /\ F = ∅.
Proof.
  destruct h as [|h].
  - intros [He ->]. by destruct m.
  - rewrite erep_S. intros Hk. by inversion Hk.
Qed.

Lemma erep_empty pg h : erep pg h [] [] ∅.
Proof. destruct h; [done|]. rewrite erep_S. constructor. Qed.

(** The first entry carries the first key. *)
Lemma erep_first pg h : forall e es m F, erep pg h (e :: es) m F -> m <> [] /\ e_key e = first_key m.
Proof.
  induction h as [|h IH]; intros e es m F.
  - intros [He _]. destruct m as [|[k v] m]; [done|]. by injection He as -> _.
  - rewrite erep_S. intros Hk. inversion Hk as [|p b m0 F0 es' m' F' Hp HR Hn Hd Hk']; subst.
    destruct HR as (es0 & _ & Hne & _ & He). destruct es0 as [|e0 es0]; [done|].
    destruct (IH _ _ _ _ He) as [Hm _]. destruct m0 as [|[k v] m0]; [done|]. done.
Qed.

Lemma erep_nonempty pg h es m F : es <> [] -> erep pg h es m F -> m <> [].
Proof. destruct es; [done|]. intros _ He. by eapply erep_first. Qed.

Lemma stored_nonempty pg h b m F : stored pg h b m F -> m <> [].
Proof. intros (es & _ & Hne & _ & He). by eapply erep_nonempty. Qed.

Lemma first_key_app m m' : m <> [] -> first_key (m ++ m') = first_key m.
Proof. by destruct m as [|[]]. Qed.

Lemma first_key_elem m : m <> [] -> exists v, (first_key m, v) ∈ m.
Proof. destruct m as [|[k v] m]; [done|]. exists v. set_solver. Qed.

(** Replacing a run of kids: the neighbours keep their pages. *)
Lemma kids_splice pg h es1 m1 F1 P pg' es' m' P' es2 m2 F2 :
  kids_rep pg (stored pg h) es1 m1 F1 -> kids_rep pg (stored pg h) es2 m2 F2 ->
  F1 ## P -> F2 ## P -> F1 ## F2 -> upd pg P pg' P' ->
  kids_rep pg' (stored pg' h) es' m' P' ->
  kids_rep pg' (stored pg' h) (es1 ++ es' ++ es2) (m1 ++ m' ++ m2) (F1 ∪ P' ∪ F2) /\
  upd pg (F1 ∪ P ∪ F2) pg' (F1 ∪ P' ∪ F2).
Proof.
  intros Hk1 Hk2 Hd1 Hd2 Hd12 Hu Hk'.
  assert (F1 ⊆ dom pg) as HF1 by (by eapply (erep_dom pg (S h))).
  assert (F2 ⊆ dom pg) as HF2 by (by eapply (erep_dom pg (S h))).
  destruct (upd_frame _ _ _ _ (F1 ∪ F2) Hu) as [Hu' Hdf]; [set_solver|set_solver|].
  split.
  - rewrite <-(assoc_L (∪) F1). apply kids_app; [|apply kids_app|set_solver].
    + exact (kids_upd _ _ _ _ _ _ _ _ Hu Hk1 HF1 Hd1).
    + done.
    + exact (kids_upd _ _ _ _ _ _ _ _ Hu Hk2 HF2 Hd2).
    + set_solver.
  - replace (F1 ∪ P ∪ F2) with (P ∪ (F1 ∪ F2)) by set_solver.
    by replace (F1 ∪ P' ∪ F2) with (P' ∪ (F1 ∪ F2)) by set_solver.
Qed.
