(* ===== verification/TreeInsert.v ===== *)
(** Insertion and lookup keep and read the represented key-value list. *)
From S2P Require Import Prelude Keys KVList Node NodeOps Tree TreeRep.
#[local] Open Scope Z_scope.

#[local] Opaque make.

(** Key-value pairs for which the splitting heuristic always finds room: keys
    of 10 to 400 bytes, at most 1000 bytes of key and value together. *)
Definition kv_ok (kv : bytes * bytes) : Prop :=
  10 <= len kv.1 <= 400 /\ len kv.1 + len kv.2 <= 1000.

#[global] Instance kv_ok_dec kv : Decision (kv_ok kv).
Proof. unfold kv_ok. apply _. Defined.

(** * Keys of a node *)

Lemma first_key_ok m : m <> [] -> Forall kv_ok m -> 10 <= len (first_key m) <= 400.
Proof. destruct m as [|[k v] m]; [done|]. intros _ H. inversion H as [|? ? Hk]; subst. apply Hk. Qed.

Lemma first_key_le K m : m <> [] -> Forall (fun kv => len kv.1 <= K) m -> len (first_key m) <= K.
Proof. destruct m as [|[k v] m]; [done|]. intros _ H. by inversion H. Qed.

Lemma kv_ok_keys m : Forall kv_ok m -> Forall (fun kv => len kv.1 <= 400) m.
Proof. intros H. eapply Forall_impl; [exact H|]. intros kv [? ?]. lia. Qed.

Lemma leaf_entries_keys m : e_key <$> leaf_entries m = fst <$> m.
Proof. unfold leaf_entries. rewrite <-list_fmap_compose. done. Qed.

Lemma leaf_entries_small m : Forall kv_ok m -> Forall small (leaf_entries m).
Proof.
  intros Hm. unfold leaf_entries. rewrite Forall_fmap. eapply Forall_impl; [exact Hm|].
  intros [k v] [H1 H2].
  unfold small, ksize. simpl in *. pose proof (len_nonneg v). lia.
Qed.

Lemma kids_small pg h es m F :
  kids_rep pg (stored pg h) es m F -> Forall kv_ok m ->
  Forall (fun e => 14 <= ksize e <= 404) es.
Proof.
  induction 1 as [|p b m F es m' F' Hp HR Hn Hd Hk IH]; [constructor|].
  intros [H1 H2]%Forall_app. constructor; [|auto].
  pose proof (first_key_ok m (stored_nonempty _ _ _ _ _ HR) H1). unfold ksize. simpl.
  rewrite len_nil. lia.
Qed.

Lemma erep_small pg h es m F : erep pg h es m F -> Forall kv_ok m -> Forall small es.
Proof.
  destruct h as [|h].
  - intros [-> _]. apply leaf_entries_small.
  - rewrite erep_S. intros Hk Hm. eapply Forall_impl; [by eapply kids_small|].
    unfold small. simpl. lia.
Qed.

Lemma kids_key_elem pg h es m F e :
  kids_rep pg (stored pg h) es m F -> e ∈ es -> exists v, (e_key e, v) ∈ m.
Proof.
  induction 1 as [|p b m F es m' F' Hp HR Hn Hd Hk IH]; [set_solver|].
  intros [->|Hin]%elem_of_cons.
  - destruct (first_key_elem m (stored_nonempty _ _ _ _ _ HR)) as [v Hv]. exists v.
    simpl. apply elem_of_app. by left.
  - destruct (IH Hin) as [v Hv]. exists v. apply elem_of_app. by right.
Qed.

Lemma kids_sorted pg h es m F :
  kids_rep pg (stored pg h) es m F -> kv_sorted m -> ksorted (e_key <$> es).
Proof.
  induction 1 as [|p b m F es m' F' Hp HR Hn Hd Hk IH]; [constructor|].
  intros (H1 & H2 & H3)%kv_sorted_app. rewrite fmap_cons. constructor; [auto|].
  apply Forall_fmap, Forall_forall. intros e He. simpl.
  destruct (first_key_elem m (stored_nonempty _ _ _ _ _ HR)) as [v Hv].
  destruct (kids_key_elem _ _ _ _ _ _ Hk He) as [v' Hv']. by apply (H3 _ _ Hv Hv').
Qed.

Lemma erep_keys_sorted pg h es m F : erep pg h es m F -> kv_sorted m -> ksorted (e_key <$> es).
Proof.
  destruct h as [|h]; [intros [-> _]; by rewrite leaf_entries_keys|]. apply kids_sorted.
Qed.

(** In a sorted list, what precedes the first key of [m] is below it and what
    follows is above. *)
Lemma sorted_all_lt m1 m2 k : kv_sorted (m1 ++ m2) -> m2 <> [] -> key_le (first_key m2) k -> all_lt m1 k.
Proof.
  intros (_ & _ & H)%kv_sorted_app Hne Hle. apply Forall_forall. intros kv Hin.
  destruct (first_key_elem _ Hne) as [v Hv].
  eapply key_lt_le_trans; [|exact Hle]. apply (H _ _ Hin Hv).
Qed.

Lemma sorted_all_gt m k : kv_sorted m -> m <> [] -> key_lt k (first_key m) -> all_gt m k.
Proof.
  destruct m as [|[k0 v0] m]; [done|]. intros [_ H]%kv_sorted_cons _ Hlt. simpl in Hlt.
  constructor; [done|]. eapply Forall_impl; [exact H|]. intros kv Hkv. by trans k0.
Qed.

(** The kid that [nodeLookupLE] picks: everything before it is below the key,
    everything after it is above. *)
Lemma kids_locate pg h es m F key i :
  kids_rep pg (stored pg h) es m F -> kv_sorted m ->
  is_le (e_key <$> es) key i -> (i < length es)%nat ->
  exists es1 e es2 m1 F1 b m0 F0 m2 F2,
    es = es1 ++ [e] ++ es2 /\ length es1 = i /\ m = m1 ++ m0 ++ m2 /\
    F = F1 ∪ ({[e_ptr e]} ∪ F0) ∪ F2 /\ F1 ## {[e_ptr e]} ∪ F0 /\
    F2 ## {[e_ptr e]} ∪ F0 /\ F1 ## F2 /\ (e_ptr e ∉ F0) /\
    pg !! e_ptr e = Some b /\ stored pg h b m0 F0 /\
    kids_rep pg (stored pg h) es1 m1 F1 /\ kids_rep pg (stored pg h) es2 m2 F2 /\
    all_lt m1 key /\ all_gt m2 key /\ e_key e = first_key m0.
Proof.
  intros Hk Hs [Hle Hgt] Hi. destruct (lookup_lt_is_Some_2 es i Hi) as [e He].
  rewrite <-(take_drop_middle _ _ _ He) in Hk.
  apply kids_app_inv in Hk as (m1 & F1 & m' & F' & -> & -> & Hd1 & Hk1 & Hk').
  change (e :: drop (S i) es) with ([e] ++ drop (S i) es) in Hk'.
  apply kids_app_inv in Hk' as (m0 & F0 & m2 & F2 & -> & -> & Hd2 & Hk0 & Hk2).
  apply kids_one_inv in Hk0 as (b & F0' & Hp & HR & Hn & -> & Hkey & Hval).
  exists (take i es), e, (drop (S i) es), m1, F1, b, m0, F0', m2, F2.
  pose proof (stored_nonempty _ _ _ _ _ HR) as Hne.
  assert (F1 ## {[e_ptr e]} ∪ F0' /\ F2 ## {[e_ptr e]} ∪ F0' /\ F1 ## F2) as (D1 & D2 & D3)
    by (clear -Hd1 Hd2; set_solver).
  pose proof Hs as (Hs1 & Hs' & Hs12)%kv_sorted_app.
  pose proof Hs' as (Hs0 & Hs2 & Hs02)%kv_sorted_app.
  split_and!; try done.
  - by rewrite <-(take_drop_middle _ _ _ He) at 1.
  - rewrite length_take. lia.
  - by rewrite (assoc_L (∪)).
  - destruct Hle as [->|(k & Hk & Hle)].
    + rewrite take_0 in Hk1. inversion Hk1; subst. constructor.
    + rewrite list_lookup_fmap, He in Hk. injection Hk as <-. rewrite Hkey in Hle.
      eapply sorted_all_lt; [exact Hs|by destruct m0|]. by rewrite first_key_app.
  - destruct (drop (S i) es) as [|e2 es2] eqn:Hdrop.
    + inversion Hk2; subst. constructor.
    + apply (erep_first pg (S h)) in Hk2 as [Hne2 Hk2].
      apply sorted_all_gt; [done|done|]. rewrite <-Hk2.
      apply (Hgt (S i)); [|lia]. rewrite list_lookup_fmap.
      assert (es !! S i = Some e2) as ->; [|done].
      rewrite <-(Nat.add_0_r (S i)), <-lookup_drop, Hdrop. done.
Qed.

(** The same for the entries of a leaf. *)
Lemma leaf_locate m key i :
  kv_sorted m -> m <> [] -> is_le (fst <$> m) key i -> (i < length m)%nat ->
  exists m1 k v m2, m = m1 ++ (k, v) :: m2 /\ length m1 = i /\ all_gt m2 key /\
    (key_le k key -> all_lt m1 key) /\ (key_lt key k -> m1 = []).
Proof.
  intros Hs Hne [Hle Hgt] Hi. destruct (lookup_lt_is_Some_2 m i Hi) as [[k v] He].
  exists (take i m), k, v, (drop (S i) m). pose proof Hs as Hs'.
  rewrite <-(take_drop_middle _ _ _ He) in Hs'.
  split_and!.
  - by rewrite take_drop_middle.
  - rewrite length_take. lia.
  - apply Forall_forall. intros kv (j & Hj)%list_elem_of_lookup. rewrite lookup_drop in Hj.
    apply (Hgt (S i + j)%nat); [|lia]. by rewrite list_lookup_fmap, Hj.
  - intros Hk. by eapply sorted_all_lt; [exact Hs'|done|].
  - intros Hk. destruct Hle as [->|(k' & Hk' & Hle)]; [done|].
    rewrite list_lookup_fmap, He in Hk'. injection Hk' as <-. by apply key_lt_not_le in Hk.
Qed.

(** * Leaves *)

Lemma leaf_nsize_insert key val m :
  nsize (leaf_entries (kv_insert key val m)) <= nsize (leaf_entries m) + (14 + len key + len val).
Proof.
  pose proof (len_nonneg key). pose proof (len_nonneg val).
  induction m as [|[k v] m IH]; cbn [kv_insert].
  - unfold leaf_entries. simpl. rewrite nsize_cons. unfold ksize. simpl. lia.
  - pose proof (len_nonneg k). pose proof (len_nonneg v). unfold leaf_entries in *.
    destruct (_ <? _); [|destruct (_ =? _)]; rewrite ?fmap_cons, !nsize_cons; unfold ksize in *;
      simpl in *; lia.
Qed.

(** Lookup in a leaf, over any page store. *)
Lemma Get_loop_leaf {S} `{PageStore S} fuel (s : S) b m key :
  node_rep b BNODE_LEAF (leaf_entries m) -> m <> [] -> kv_sorted m ->
  Get_loop (Datatypes.S fuel) s b key = Ok (kv_lookup key m).
Proof.
  intros Hb Hne Hs. cbn [Get_loop].
  destruct (nodeLookupLE_spec _ _ _ key Hb) as (i & -> & Hle & Hlt); [by rewrite leaf_entries_keys|].
  rewrite leaf_entries_keys in Hle.
  unfold leaf_entries in Hlt. rewrite length_fmap in Hlt.
  destruct (leaf_locate m key i Hs) as (m1 & k & v & m2 & -> & Li & Hgt & Hm1 & Hm0);
    try done; [apply Hlt; by destruct m|].
  rewrite bind_ok, (partial_btype Hb), bind_ok, Z.eqb_refl.
  assert (leaf_entries (m1 ++ (k, v) :: m2) !! i = Some (mkEntry 0 k v)) as Hi.
  { unfold leaf_entries. by rewrite list_lookup_fmap, list_lookup_middle. }
  rewrite (partial_getKey Hb _ _ Hi), bind_ok, (partial_getVal Hb _ _ Hi). cbn [e_key e_val].
  destruct (Z.eqb_spec (cmp key k) 0) as [E|E]; rewrite ?bind_ok.
  - rewrite kv_lookup_all_lt by (apply Hm1; unfold key_le; rewrite (cmp_antisym key k); lia).
    cbn [kv_lookup]. by rewrite E.
  - f_equal. symmetry. destruct (decide (key_le k key)) as [Hk|Hk].
    + rewrite kv_lookup_all_lt by auto. cbn [kv_lookup].
      replace (cmp key k =? 0) with false by lia. by apply kv_lookup_all_gt.
    + apply key_lt_not_le in Hk. rewrite (Hm0 Hk). simpl.
      replace (cmp key k =? 0) with false by lia. by apply kv_lookup_all_gt.
Qed.

Section store.
Context {S : Type} `{PageStoreOK S}.
Implicit Types (s : S) (b : BNode) (F G : gset Z).

(** [leafInsert] and [leafUpdate] on pages that hold key-value lists. *)
Lemma leafInsert_kvs b m1 m2 key val :
  node_rep b BNODE_LEAF (leaf_entries (m1 ++ m2)) ->
  nsize (leaf_entries (m1 ++ (key, val) :: m2)) <= 2 * BTREE_PAGE_SIZE ->
  exists b', leafInsert (make (2 * BTREE_PAGE_SIZE)) b (Z.of_nat (length m1)) key val = Ok b' /\
    node_rep b' BNODE_LEAF (leaf_entries (m1 ++ (key, val) :: m2)).
Proof.
  intros Hb Hn. unfold BTREE_PAGE_SIZE in *.
  assert (length (leaf_entries m1) = length m1) as L1 by apply length_fmap.
  destruct (leafInsert_spec Hb (make 8192) (length m1) key val) as (b' & E & R);
    rewrite ?leaf_entries_app, <-?L1, ?take_app_length, ?drop_app_length in *.
  - rewrite length_app. lia.
  - rewrite len_make by done. exact Hn.
  - by rewrite len_make.
  - by exists b'.
Qed.

Lemma leafUpdate_kvs b m1 k v m2 key val :
  node_rep b BNODE_LEAF (leaf_entries (m1 ++ (k, v) :: m2)) ->
  nsize (leaf_entries (m1 ++ (key, val) :: m2)) <= 2 * BTREE_PAGE_SIZE ->
  exists b', leafUpdate (make (2 * BTREE_PAGE_SIZE)) b (Z.of_nat (length m1)) key val = Ok b' /\
    node_rep b' BNODE_LEAF (leaf_entries (m1 ++ (key, val) :: m2)).
Proof.
  intros Hb Hn. unfold BTREE_PAGE_SIZE in *.
  assert (length (leaf_entries m1) = length m1) as L1 by apply length_fmap.
  destruct (leafUpdate_spec Hb (make 8192) (length m1) key val) as (b' & E & R);
    rewrite ?leaf_entries_app, <-?L1, ?take_app_length in *.
  - rewrite length_app. simpl. lia.
  - rewrite len_make by done. change (leaf_entries ((k, v) :: m2)) with (mkEntry 0 k v :: leaf_entries m2).
    rewrite drop_app_S. exact Hn.
  - by rewrite len_make.
  - exists b'. change (leaf_entries ((k, v) :: m2)) with (mkEntry 0 k v :: leaf_entries m2) in R.
    rewrite drop_app_S in R. done.
Qed.

(** Where the new pair goes, by the comparison with the key that was found. *)
Lemma kv_insert_at key val m1 k v m2 :
  all_gt m2 key -> (key_le k key -> all_lt m1 key) -> (key_lt key k -> m1 = []) ->
  (cmp key k = 0 -> kv_insert key val (m1 ++ (k, v) :: m2) = m1 ++ (key, val) :: m2) /\
  (0 < cmp key k ->
    kv_insert key val (m1 ++ (k, v) :: m2) = (m1 ++ [(k, v)]) ++ (key, val) :: m2) /\
  (cmp key k < 0 -> m1 = [] /\ kv_insert key val ((k, v) :: m2) = (key, val) :: (k, v) :: m2).
Proof.
  intros Hgt Hlt Hnil. split_and!; intros Hc.
  - rewrite kv_insert_all_lt by (apply Hlt; unfold key_le; rewrite (cmp_antisym key k); lia).
    f_equal. cbn [kv_insert]. by rewrite Hc.
  - rewrite kv_insert_all_lt by (apply Hlt; unfold key_le; rewrite (cmp_antisym key k); lia).
    rewrite <-app_assoc. f_equal. cbn [kv_insert app].
    replace (cmp key k <? 0) with false by lia. replace (cmp key k =? 0) with false by lia.
    f_equal. rewrite <-(app_nil_l m2) at 1. by rewrite kv_insert_app_gt.
  - split; [by apply Hnil|]. cbn [kv_insert]. by replace (cmp key k <? 0) with true by lia.
Qed.

Lemma treeInsert_leaf fuel s b m key val :
  node_rep b BNODE_LEAF (leaf_entries m) -> m <> [] -> kv_sorted m ->
  nsize (leaf_entries m) <= BTREE_PAGE_SIZE -> len key + len val <= 1000 ->
  exists b', treeInsert (Datatypes.S fuel) s b key val = Ok (b', s) /\
    node_rep b' BNODE_LEAF (leaf_entries (kv_insert key val m)).
Proof.
  intros Hb Hne Hs Hsz Hkv.
  assert (ksorted (e_key <$> leaf_entries m)) as Hks by (by rewrite leaf_entries_keys).
  destruct (nodeLookupLE_spec _ _ _ key Hb Hks) as (i & Ei & Hle & Hlt).
  assert (length (leaf_entries m) = length m) as Lm by apply length_fmap.
  rewrite leaf_entries_keys in Hle. rewrite Lm in Hlt.
  destruct (leaf_locate m key i Hs Hne Hle) as (m1 & k & v & m2 & -> & Li & Hgt & Hm1 & Hm0);
    [apply Hlt; by destruct m|].
  pose proof (leaf_nsize_insert key val (m1 ++ (k, v) :: m2)) as Hn.
  pose proof (old_nsize Hb) as Ho. rewrite length_app in Lm. simpl in Lm.
  cbn [treeInsert]. rewrite Ei, bind_ok, (partial_btype Hb), bind_ok, Z.eqb_refl.
  rewrite (partial_nkeys Hb), bind_ok. replace (0 <? _) with true by lens.
  assert (leaf_entries (m1 ++ (k, v) :: m2) !! i = Some (mkEntry 0 k v)) as He.
  { unfold leaf_entries. by rewrite list_lookup_fmap, list_lookup_middle. }
  rewrite (partial_getKey Hb _ _ He), !bind_ok. cbn [e_key andb]. clear He Ei Hle Hlt.
  destruct (kv_insert_at key val m1 k v m2 Hgt Hm1 Hm0) as (C1 & C2 & C3). subst i.
  assert (2 * BTREE_PAGE_SIZE >= BTREE_PAGE_SIZE + 1014) as Hp by done.
  destruct (Z.eqb_spec (cmp key k) 0) as [Hc|Hc]; [|destruct (Z.ltb_spec 0 (cmp key k)) as [Hc'|Hc']].
  - rewrite (C1 Hc) in *. destruct (leafUpdate_kvs _ _ _ _ _ key val Hb) as (b' & -> & R); [lia|].
    rewrite bind_ok. by exists b'.
  - rewrite (C2 Hc') in *.
    replace (u16 (Z.of_nat (length m1) + 1)) with (Z.of_nat (length (m1 ++ [(k, v)])))
      by (rewrite u16_id; rewrite ?length_app; simpl; unfold HEADER, len in *; lia).
    destruct (leafInsert_kvs b (m1 ++ [(k, v)]) m2 key val) as (b' & -> & R);
      [by rewrite <-app_assoc|lia|]. rewrite bind_ok. by exists b'.
  - destruct C3 as [-> C3]; [lia|]. simpl app in *. rewrite C3 in *.
    destruct (leafInsert_kvs b [] ((k, v) :: m2) key val) as (b' & E & R); [done|simpl app; lia|].
    simpl length in *. rewrite E, bind_ok. by exists b'.
Qed.

(** * Storing new kids *)

Lemma first_entry_key b ty es pg h m F :
  node_rep b ty es -> es <> [] -> erep pg h es m F -> getKey b 0 = Ok (first_key m).
Proof.
  intros Hb Hne He. destruct es as [|e es]; [done|].
  destruct (erep_first _ _ _ _ _ _ He) as [_ <-]. by apply (partial_getKey Hb 0).
Qed.

Lemma alloc_kid s b h es m G :
  node_rep b (ntype h) es -> es <> [] -> nsize es <= BTREE_PAGE_SIZE ->
  erep (pages s) h es m G -> (size (pages s) < page_cap)%nat ->
  exists p s', NewPage s b = Ok (p, s') /\ 0 < p < 18446744073709551616 /\
    kids_rep (pages s') (stored (pages s') h) [mkEntry p (first_key m) []] m ({[p]} ∪ G) /\
    upd (pages s) G (pages s') ({[p]} ∪ G) /\
    (size (pages s') = Datatypes.S (size (pages s)))%nat.
Proof.
  intros Hb Hne Hn He Hc.
  destruct (NewPage_ok s b (nsize es) (node_nbytes _ _ _ Hb) Hn Hc)
    as (p & s' & b' & -> & Hp & Hfresh & Hpg & Hfor).
  pose proof (erep_dom _ _ _ _ _ He) as Hdom.
  assert (p ∉ G) as HpG by (apply not_elem_of_dom in Hfresh; set_solver).
  pose proof (upd_insert (pages s) p b' Hfresh) as Hu.
  destruct (upd_frame _ _ _ _ G Hu) as [Hu' _]; [done|set_solver|].
  rewrite (left_id_L ∅ (∪)) in Hu'.
  exists p, s'. rewrite Hpg. split_and!; try done; try lia.
  - apply kids_one with b'; [apply lookup_insert_eq| |done].
    exists es. split_and!; try done; [by apply Hfor|].
    eapply erep_upd; [exact Hu|done|done|set_solver].
  - by apply map_size_insert_None.
Qed.

(** The two loops that store pages and append the kid entries for them, as
    instances of one loop over a step [f]. *)
Fixpoint kids_loop (f : S -> BNode -> Z -> BNode -> res (BNode * S)) (s : S) (new : BNode)
    (i : Z) (kids : list BNode) : res (BNode * S) :=
  match kids with
  | [] => Ok (new, s)
  | kid :: kids => '(new, s) ← f s new i kid; kids_loop f s new (i + 1) kids
  end.

Lemma replaceKidN_loop_kids s new idx i bs :
  replaceKidN_loop s new idx i bs = kids_loop (fun s new i kid =>
    '(ptr, s) ← NewPage s kid;
    key ← getKey kid 0;
    new ← nodeAppendKV new (u16 (idx + u16 i)) ptr key [];
    Ok (new, s)) s new i bs.
Proof.
  revert s new i. induction bs as [|b bs IH]; intros s new i; [done|].
  cbn [replaceKidN_loop kids_loop]. destruct (NewPage s b) as [[p s']| |]; simpl; try done.
  destruct (getKey b 0); simpl; try done. destruct (nodeAppendKV _ _ _ _ _); simpl; try done.
Qed.

Lemma newRoot_loop_kids s root i bs :
  newRoot_loop s root i bs = kids_loop (fun s root i knode =>
    '(ptr, s) ← NewPage s knode;
    pos ← offsetPos root (u16 (u16 i + 1));
    root ← copy_at root pos (make 2);
    key ← getKey knode 0;
    root ← nodeAppendKV root (u16 i) ptr key [];
    Ok (root, s)) s root i bs.
Proof.
  revert s root i. induction bs as [|b bs IH]; intros s root i; [done|].
  cbn [newRoot_loop kids_loop]. destruct (NewPage s b) as [[p s']| |]; simpl; try done.
  destruct (offsetPos _ _); simpl; try done. destruct (copy_at _ _ _); simpl; try done.
  destruct (getKey b 0); simpl; try done. destruct (nodeAppendKV _ _ _ _ _); simpl; try done.
Qed.

(** What a step does once its page has been stored under [p]: it appends the
    entry [(p, key)]. *)
Definition appends_kid (n off : Z) (f : S -> BNode -> Z -> BNode -> res (BNode * S)) : Prop :=
  forall s new es i kid p s' key,
    NewPage s kid = Ok (p, s') -> getKey kid 0 = Ok key -> 0 <= p < 18446744073709551616 ->
    partial_rep new BNODE_INTERNAL n es -> 0 <= i -> off + i = len es -> len es < n ->
    HEADER + 10 * n + kvsum es + (4 + len key) <= len new ->
    exists new', f s new i kid = Ok (new', s') /\
      partial_rep new' BNODE_INTERNAL n (es ++ [mkEntry p key []]) /\ len new' = len new.

(** The pages of [bs] are stored one after the other and become kids. *)
Lemma kids_loop_spec f h n off K bs : appends_kid n off f -> forall ess s new es i m G,
  Forall2 (fun b e => node_rep b (ntype h) e) bs ess ->
  Forall (fun e => e <> [] /\ nsize e <= BTREE_PAGE_SIZE) ess ->
  erep (pages s) h (concat ess) m G -> Forall (fun kv => len kv.1 <= K) m ->
  partial_rep new BNODE_INTERNAL n es -> 0 <= i -> off + i = len es ->
  len es + len bs <= n -> HEADER + 10 * n + kvsum es + (4 + K) * len bs <= len new -> 0 <= K ->
  (size (pages s) + length bs <= page_cap)%nat ->
  exists new' s' es' G', kids_loop f s new i bs = Ok (new', s') /\
    partial_rep new' BNODE_INTERNAL n (es ++ es') /\ len new' = len new /\
    len es' = len bs /\ kvsum es' <= (4 + K) * len bs /\
    kids_rep (pages s') (stored (pages s') h) es' m G' /\
    upd (pages s) G (pages s') G' /\ (size (pages s') = size (pages s) + length bs)%nat.
Proof.
  intros Hf. induction bs as [|b bs IH]; intros ess s new es i m G Hbs Hess He Hm Hnew Hi
    Hlen Hn Hsp HK Hcap.
  - apply Forall2_nil_inv_l in Hbs as ->. apply erep_nil in He as [-> ->].
    exists new, s, [], ∅. rewrite app_nil_r.
    split_and!; try done; first [apply kids_nil|apply upd_refl; set_solver|
      change (0 <= (4 + K) * 0); lia].
  - apply Forall2_cons_inv_l in Hbs as (e & ess' & Hb & Hbs & ->).
    apply Forall_cons in Hess as [[Hne Hsz] Hess]. simpl concat in He.
    apply erep_app_inv in He as (m1 & G1 & m2 & G2 & -> & -> & Hd & He1 & He2).
    apply Forall_app in Hm as [Hm1 Hm2]. rewrite len_cons in *. simpl length in Hcap.
    pose proof (erep_dom _ _ _ _ _ He2) as Hdom2. pose proof (len_nonneg bs).
    destruct (alloc_kid s b h e m1 G1 Hb Hne Hsz He1) as (p & s1 & En & Hp & Hk1 & Hu1 & Hs1); [lia|].
    pose proof (first_key_le K m1 (erep_nonempty _ _ _ _ _ Hne He1) Hm1) as Hfk.
    destruct (Hf s new es i b p s1 (first_key m1) En) as (new1 & E1 & R1 & L1); try done; try lia.
    { by eapply first_entry_key. }
    cbn [kids_loop]. rewrite E1, bind_ok. cbv beta iota. clear En E1.
    assert (G2 ## G1) as Hd' by (clear -Hd; set_solver).
    destruct (upd_frame _ _ _ _ G2 Hu1 Hdom2 Hd') as [Hu1' Hd2].
    assert (dom (pages s1) = dom (pages s) ∖ (G1 ∪ G2) ∪ ({[p]} ∪ G1 ∪ G2)) as Hdom1 by apply Hu1'.
    pose proof (erep_upd _ _ _ _ _ _ _ _ Hu1 He2 Hdom2 Hd') as He2'.
    destruct (IH ess' s1 new1 (es ++ [mkEntry p (first_key m1) []]) (i + 1) m2 G2)
      as (new2 & s2 & es2 & G2' & -> & R2 & L2 & Hl2 & Hkv2 & Hk2 & Hu2 & Hs2); try done;
      rewrite ?len_snoc, ?kvsum_app, ?kvsum_cons, ?kvsum_nil; unfold ksize; simpl;
      rewrite ?len_nil; try lia.
    assert ({[p]} ∪ G1 ⊆ dom (pages s1)) as Hdp by (rewrite Hdom1; clear; set_solver).
    assert ({[p]} ∪ G1 ## G2) as Hdp2 by (clear -Hd2; set_solver).
    destruct (upd_frame _ _ _ _ ({[p]} ∪ G1) Hu2 Hdp Hdp2) as [Hu2' Hd3].
    exists new2, s2, (mkEntry p (first_key m1) [] :: es2), ({[p]} ∪ G1 ∪ G2').
    rewrite <-app_assoc in R2. split_and!; try done; try lia.
    + by rewrite len_cons, Hl2.
    + rewrite kvsum_cons. unfold ksize. simpl. rewrite len_nil. lia.
    + change (mkEntry p (first_key m1) [] :: es2) with ([mkEntry p (first_key m1) []] ++ es2).
      apply kids_app; [exact (kids_upd _ _ _ _ _ _ _ _ Hu2 Hk1 Hdp Hdp2)|done|done].
    + eapply upd_trans; [exact Hu1'|].
      rewrite (comm_L (∪) ({[p]} ∪ G1) G2), (comm_L (∪) ({[p]} ∪ G1) G2'). exact Hu2'.
Qed.

Lemma replaceKidN_appends n idx : 0 <= idx ->
  appends_kid n idx (fun s new i kid =>
    '(ptr, s) ← NewPage s kid;
    key ← getKey kid 0;
    new ← nodeAppendKV new (u16 (idx + u16 i)) ptr key [];
    Ok (new, s)).
Proof.
  intros Hidx s new es i kid p s' key En Ek Hp Hnew Hi Hlen Hn Hsp.
  pose proof (partial_bounds Hnew). pose proof (kvsum_nonneg es). pose proof (len_nonneg key).
  rewrite En, bind_ok. cbv beta iota. rewrite Ek, bind_ok. unfold HEADER in *.
  rewrite (u16_id i), (u16_id (idx + i)), Hlen by lia.
  destruct (nodeAppendKV_spec new BNODE_INTERNAL n es p key [] Hnew) as (new1 & -> & R1 & L1);
    [lia|rewrite len_nil; unfold HEADER; lia|lia|].
  rewrite bind_ok. eauto.
Qed.

Lemma newRoot_appends n : n <= 3 ->
  appends_kid n 0 (fun s root i knode =>
    '(ptr, s) ← NewPage s knode;
    pos ← offsetPos root (u16 (u16 i + 1));
    root ← copy_at root pos (make 2);
    key ← getKey knode 0;
    root ← nodeAppendKV root (u16 i) ptr key [];
    Ok (root, s)).
Proof.
  intros Hn3 s new es i kid p s' key En Ek Hp Hnew Hi Hlen Hn Hsp.
  pose proof (partial_bounds Hnew). pose proof (kvsum_nonneg es). pose proof (len_nonneg key).
  rewrite En, bind_ok. cbv beta iota. unfold HEADER in *.
  rewrite !(u16_id i), (u16_id (i + 1)) by lia.
  unfold offsetPos. rewrite (partial_nkeys Hnew), !bind_ok. unfold HEADER.
  rewrite u16_id by lia. replace (i + 1 - 1) with (len es) by lia.
  assert (len (make 2) = 2) as L2 by done. rewrite copy_at_ok, bind_ok by lia.
  destruct (partial_blit _ _ _ _ (4 + 8 * n + 2 * len es) (make 2) Hnew) as [Hnew' Ln];
    [right; left; unfold HEADER; lia|].
  rewrite Ek, bind_ok. replace i with (len es) by lia.
  destruct (nodeAppendKV_spec _ BNODE_INTERNAL n es p key [] Hnew') as (new1 & -> & R1 & L1);
    [lia|rewrite len_nil; unfold HEADER; lia|lia|].
  rewrite bind_ok, Ln in *. eauto.
Qed.

Lemma nodeReplaceKidN_spec K h s new old es1 e es2 bs ess m0 G0 :
  node_rep old BNODE_INTERNAL (es1 ++ [e] ++ es2) ->
  Forall2 (fun b e => node_rep b (ntype h) e) bs ess ->
  Forall (fun e => e <> [] /\ nsize e <= BTREE_PAGE_SIZE) ess ->
  erep (pages s) h (concat ess) m0 G0 -> Forall (fun kv => len kv.1 <= K) m0 -> 0 <= K ->
  1 <= len bs <= 3 ->
  nsize (es1 ++ [e] ++ es2) - (10 + ksize e) + (14 + K) * len bs <= len new -> len new < 65536 ->
  (size (pages s) + length bs <= page_cap)%nat ->
  exists new' s' es' G',
    nodeReplaceKidN s new old (Z.of_nat (length es1)) bs = Ok (new', s') /\
    node_rep new' BNODE_INTERNAL (es1 ++ es' ++ es2) /\ len es' = len bs /\
    nsize (es1 ++ es' ++ es2) <= nsize (es1 ++ [e] ++ es2) - (10 + ksize e) + (14 + K) * len bs /\
    kids_rep (pages s') (stored (pages s') h) es' m0 G' /\
    upd (pages s) G0 (pages s') G' /\ (size (pages s') = size (pages s) + length bs)%nat.
Proof.
  intros Hold Hbs Hess He Hm HK Hb3 Hsp Hlen Hcap.
  assert (0 <= K * len bs) by nia.
  assert (len (es1 ++ [e] ++ es2) = len es1 + 1 + len es2) as Lold
    by (rewrite !len_app, len_cons, len_nil; lia).
  pose proof (old_nsize Hold) as Ho. rewrite Lold in Ho.
  assert (nsize (es1 ++ [e] ++ es2) = HEADER + 10 * (len es1 + 1 + len es2) +
    (kvsum es1 + ksize e + kvsum es2)) as Hns.
  { unfold nsize. rewrite Lold, !kvsum_app, kvsum_cons, kvsum_nil. lia. }
  pose proof (kvsum_nonneg es1). pose proof (kvsum_nonneg es2).
  pose proof (len_nonneg es1). pose proof (len_nonneg es2). unfold HEADER in *.
  assert (Z.of_nat (length es1) = len es1) as Le1 by done.
  unfold nodeReplaceKidN. rewrite (partial_nkeys Hold), bind_ok, Lold.
  rewrite (u16_id (len bs)), !u16_id by lia.
  destruct (setHeader_spec new BNODE_INTERNAL (len es1 + 1 + len es2 + len bs - 1))
    as (n1 & -> & R1 & L1); [done|lia|unfold HEADER; lia|]. rewrite bind_ok.
  destruct (copy_prefix Hold n1 BNODE_INTERNAL (len es1 + 1 + len es2 + len bs - 1) (length es1))
    as (n2 & -> & R2 & L2); rewrite ?take_app_length; try done;
    [rewrite length_app; lia|unfold len; lia|unfold HEADER; lia|].
  rewrite bind_ok. rewrite take_app_length in R2. rewrite Le1.
  rewrite replaceKidN_loop_kids.
  destruct (kids_loop_spec _ h _ _ K bs
    (replaceKidN_appends (len es1 + 1 + len es2 + len bs - 1) (len es1) (ltac:(lia)))
    ess s n2 es1 0 m0 G0) as (n3 & s3 & es' & G' & -> & R3 & L3 & Hl & Hks & Hk & Hu & Hsz); try done; try lia.
  { unfold HEADER. lia. }
  rewrite bind_ok. cbv beta iota.
  assert (drop (Datatypes.S (length es1)) (es1 ++ [e] ++ es2) = es2) as Hdrop by apply drop_app_S.
  destruct (copy_suffix Hold n3 BNODE_INTERNAL (es1 ++ es') (Datatypes.S (length es1)))
    as (n4 & E4 & R4).
  - rewrite !length_app. simpl. lia.
  - rewrite Lold, len_app, Hl.
    replace (_ + _ + _) with (len es1 + 1 + len es2 + len bs - 1) by lia. done.
  - rewrite Hdrop. unfold nsize. rewrite len_app, kvsum_app. unfold HEADER. lia.
  - rewrite Hdrop, <-app_assoc in R4. rewrite len_app, Lold, Hl in E4.
    replace (len es1 + 1 + len es2 - Z.of_nat (Datatypes.S (length es1)))
      with (len es1 + 1 + len es2 - (len es1 + 1)) in E4 by lia.
    replace (Z.of_nat (Datatypes.S (length es1))) with (len es1 + 1) in E4 by lia.
    rewrite E4, bind_ok. exists n4, s3, es', G'. split_and!; try done.
    rewrite Hns. unfold nsize, HEADER. rewrite !len_app, !kvsum_app. lia.
Qed.

(** * Insertion below a node *)

Lemma kv_insert_ok key val m : kv_ok (key, val) -> Forall kv_ok m -> Forall kv_ok (kv_insert key val m).
Proof.
  intros Hk Hm. apply Forall_forall. intros kv [->|Hin]%kv_insert_elem; [done|].
  rewrite Forall_forall in Hm. auto.
Qed.

(** The kid that has grown is split, and its pieces take its place. *)
Lemma split_kid_spec h s b es1 e es2 b1 es0 m0 F0 :
  node_rep b BNODE_INTERNAL (es1 ++ [e] ++ es2) -> nsize (es1 ++ [e] ++ es2) <= BTREE_PAGE_SIZE -> 14 <= ksize e ->
  node_rep b1 (ntype h) es0 -> es0 <> [] -> nsize es0 <= SPLIT_MAX -> erep (pages s) h es0 m0 F0 ->
  Forall kv_ok m0 -> (size (pages s) + 3 <= page_cap)%nat ->
  exists b2 s' es' G',
    ('(n, split) ← nodeSplit3 b1;
     nodeReplaceKidN s (make (2 * BTREE_PAGE_SIZE)) b (Z.of_nat (length es1)) (take (Z.to_nat n) split)) = Ok (b2, s') /\
    node_rep b2 BNODE_INTERNAL (es1 ++ es' ++ es2) /\ es1 ++ es' ++ es2 <> [] /\
    nsize (es1 ++ es' ++ es2) <= SPLIT_MAX /\ kids_rep (pages s') (stored (pages s') h) es' m0 G' /\
    upd (pages s) F0 (pages s') G' /\ (size (pages s') <= size (pages s) + 3)%nat.
Proof.
  intros Hb Hn Hke Hb1 Hne1 Hn1 He1 Hm0 Hcap.
  destruct (nodeSplit3_spec b1 (ntype h) es0 Hb1 Hne1) as
    (n & split & ess & -> & Hn3 & Hbs & <- & Hess & Hln); [by eapply erep_small|done|].
  rewrite bind_ok. cbv beta iota. pose proof (Forall2_length _ _ _ Hbs) as Hlbs.
  assert (len (take (Z.to_nat n) split) = n) as Hlt' by (unfold len in *; lia).
  destruct (nodeReplaceKidN_spec 400 h s (make (2 * BTREE_PAGE_SIZE)) b es1 e es2
    (take (Z.to_nat n) split) ess m0 F0 Hb Hbs Hess He1 (kv_ok_keys _ Hm0)) as
    (b2 & s3 & es' & G' & E3 & Hb2 & Hle' & Hns & Hk' & Hu3 & Hsz3).
  { lia. }
  { lia. }
  { rewrite len_make by done. unfold BTREE_PAGE_SIZE in *. lia. }
  { by rewrite len_make. }
  { unfold len in *. lia. }
  exists b2, s3, es', G'. split_and!; try done.
  - intros [_ [Hnil _]%app_nil]%app_nil. rewrite Hnil, len_nil in Hle'. lia.
  - unfold SPLIT_MAX, BTREE_PAGE_SIZE in *. lia.
  - unfold len in *. lia.
Qed.

Lemma treeInsert_spec h : forall fuel s b es m F key val,
  (h < fuel)%nat -> node_rep b (ntype h) es -> es <> [] -> nsize es <= BTREE_PAGE_SIZE ->
  erep (pages s) h es m F -> kv_sorted m -> Forall kv_ok m -> kv_ok (key, val) ->
  (size (pages s) + 2 * h <= page_cap)%nat ->
  exists b' s' es' F', treeInsert fuel s b key val = Ok (b', s') /\
    node_rep b' (ntype h) es' /\ es' <> [] /\ nsize es' <= SPLIT_MAX /\
    erep (pages s') h es' (kv_insert key val m) F' /\
    upd (pages s) F (pages s') F' /\ (size (pages s') <= size (pages s) + 2 * h)%nat.
Proof.
  induction h as [|h IH]; intros fuel s b es m F key val Hf Hb Hne Hn He Hs Hm Hkv Hcap;
    (destruct fuel as [|fuel]; [lia|]).
  - destruct He as [-> ->]. destruct Hkv as [Hk Hkv]. simpl in Hk, Hkv.
    destruct (treeInsert_leaf fuel s b m key val Hb) as (b' & E & R); try done.
    { by intros ->. }
    exists b', s, (leaf_entries (kv_insert key val m)), ∅. split_and!; try done; try lia.
    + pose proof (kv_insert_nonempty key val m). by destruct (kv_insert key val m).
    + pose proof (leaf_nsize_insert key val m). unfold SPLIT_MAX, BTREE_PAGE_SIZE in *. lia.
    + by apply upd_refl.
  - rewrite erep_S in He. change (ntype (Datatypes.S h)) with BNODE_INTERNAL in *.
    destruct (nodeLookupLE_spec _ _ _ key Hb) as (i & Ei & Hle & Hlt); [by eapply kids_sorted|].
    specialize (Hlt Hne).
    destruct (kids_locate _ _ _ _ _ _ _ He Hs Hle Hlt) as
      (es1 & e & es2 & m1 & F1 & b0 & m0 & F0 & m2 & F2 & -> & Li & -> & -> & Hd1 & Hd2 & Hd12 & Hn0 &
       Hp & Hst & Hk1 & Hk2 & Hlt1 & Hgt2 & Hkey).
    subst i.
    pose proof Hst as (es0 & Hb0 & Hne0 & Hn0' & He0).
    apply Forall_app in Hm as [Hm1 [Hm0 Hm2]%Forall_app].
    apply kv_sorted_app in Hs as (_ & Hs & _). apply kv_sorted_app in Hs as (Hs0 & _ & _).
    cbn [treeInsert]. rewrite Ei, bind_ok, (partial_btype Hb), bind_ok.
    change (BNODE_INTERNAL =? BNODE_LEAF) with false. rewrite Z.eqb_refl. cbv iota.
    rewrite (partial_getPtr Hb _ e) by apply lookup_mid. rewrite bind_ok.
    rewrite (GetPage_ok _ _ _ Hp), bind_ok.
    destruct (DelPage_ok _ _ _ Hp) as (s1 & -> & Hpg1). rewrite bind_ok.
    pose proof (upd_delete _ _ _ Hp) as Hu1. rewrite <-Hpg1 in Hu1.
    pose proof (size_delete_Some _ _ _ Hp) as Hsz1. rewrite <-Hpg1 in Hsz1.
    pose proof (erep_dom _ _ _ _ _ He0) as Hdom0.
    assert (erep (pages s1) h es0 m0 F0) as He0' by (eapply erep_upd; [exact Hu1|done|done|clear -Hn0; set_solver]).
    destruct (IH fuel s1 b0 es0 m0 F0 key val) as
      (b1 & s2 & es0' & F0' & -> & Hb1 & Hne1 & Hn1 & He1 & Hu2 & Hsz2); try done; try lia.
    rewrite bind_ok. cbv beta iota.
    assert (14 <= ksize e) as Hke.
    { unfold ksize. rewrite Hkey. pose proof (len_nonneg (e_val e)).
      pose proof (first_key_ok m0 (stored_nonempty _ _ _ _ _ Hst) Hm0). lia. }
    destruct (split_kid_spec h s2 b es1 e es2 b1 es0' (kv_insert key val m0) F0') as
      (b2 & s3 & es' & G' & -> & Hb2 & Hne2 & Hns & Hk' & Hu3 & Hsz3); try done; [by apply kv_insert_ok|lia|].
    assert (upd (pages s) ({[e_ptr e]} ∪ F0) (pages s3) G') as Hu.
    { destruct (upd_frame _ _ _ _ F0 Hu1) as [Hu1' _]; [done|clear -Hn0; set_solver|].
      rewrite (left_id_L ∅ (∪)) in Hu1'.
      eapply upd_trans; [exact Hu1'|]. by eapply upd_trans. }
    destruct (kids_splice _ _ _ _ _ _ _ _ _ _ _ _ _ Hk1 Hk2 Hd1 Hd2 Hd12 Hu Hk') as [Hk Hu'].
    exists b2, s3, (es1 ++ es' ++ es2), (F1 ∪ G' ∪ F2). split_and!; try done.
    + rewrite erep_S. rewrite kv_insert_all_lt, kv_insert_app_gt by done. done.
    + lia.
Qed.

(** * The whole tree *)

(** [tree_rep h t m]: the tree [t], of height [h], holds the sorted list [m],
    and the live pages of its store are exactly the pages of the tree. *)
Definition tree_rep (h : nat) (t : BTree S) (m : kvs) : Prop :=
  kv_sorted m /\ Forall kv_ok m /\
  ((Root t = 0 /\ m = [] /\ h = 0%nat /\ pages (store t) = ∅) \/
   (Root t <> 0 /\ kids_rep (pages (store t)) (stored (pages (store t)) h)
      [mkEntry (Root t) (first_key m) []] m (dom (pages (store t))))).

Lemma tree_rep_root h t m : tree_rep h t m -> Root t <> 0 ->
  exists b es F, pages (store t) !! Root t = Some b /\ node_rep b (ntype h) es /\ es <> [] /\
    nsize es <= BTREE_PAGE_SIZE /\ erep (pages (store t)) h es m F /\
    (Root t ∉ F) /\ dom (pages (store t)) = {[Root t]} ∪ F.
Proof.
  intros (_ & _ & [[? _]|[_ Hk]]) Hr; [done|].
  apply kids_one_inv in Hk as (b & F & Hp & (es & H1 & H2 & H3 & H4) & Hn & Hd & _).
  exists b, es, F. done.
Qed.

(** Storing the new root over the pages it points to. *)
Lemma tree_rep_store h s b es m G :
  node_rep b (ntype h) es -> es <> [] -> nsize es <= BTREE_PAGE_SIZE ->
  erep (pages s) h es m G -> dom (pages s) = G -> kv_sorted m -> Forall kv_ok m ->
  (size (pages s) < page_cap)%nat ->
  exists p s', NewPage s b = Ok (p, s') /\ tree_rep h (mkTree p s') m /\ p <> 0 /\
    (size (pages s') = Datatypes.S (size (pages s)))%nat.
Proof.
  intros Hb Hne Hn He Hd Hs Hm Hc.
  destruct (alloc_kid s b h es m G Hb Hne Hn He Hc) as (p & s' & E & Hp & Hk & Hu & Hsz).
  exists p, s'. split_and!; try done; [|lia].
  split_and!; try done. right. split; [simpl; lia|]. cbn [store Root].
  destruct Hu as (_ & _ & Hdom & _). rewrite Hdom, Hd, difference_diag_L, (left_id_L ∅ (∪)). done.
Qed.

(** A single page built by [Insert] into an empty tree: the pair has to fit in it. *)
Lemma first_leaf key val : len key + len val <= 4078 ->
  exists b, (root ← setHeader (make BTREE_PAGE_SIZE) BNODE_LEAF 1; nodeAppendKV root 0 0 key val) = Ok b /\
    node_rep b BNODE_LEAF (leaf_entries [(key, val)]) /\
    nsize (leaf_entries [(key, val)]) <= BTREE_PAGE_SIZE /\ len b = BTREE_PAGE_SIZE.
Proof.
  intros Hkv. pose proof (len_nonneg key). pose proof (len_nonneg val).
  assert (len (make BTREE_PAGE_SIZE) = 4096) as L by (by rewrite len_make).
  destruct (setHeader_spec (make BTREE_PAGE_SIZE) BNODE_LEAF 1) as (b1 & -> & R1 & L1);
    [done|lia|rewrite L; unfold HEADER; lia|].
  rewrite bind_ok.
  destruct (nodeAppendKV_spec b1 BNODE_LEAF 1 [] 0 key val R1) as (b2 & E & R2 & L2).
  - done.
  - rewrite kvsum_nil, L1, L. unfold HEADER. lia.
  - lia.
  - exists b2. rewrite len_nil in E. split_and!; [done|done| |rewrite L2, L1, L; done].
    unfold leaf_entries. simpl. rewrite nsize_cons, nsize_nil. unfold ksize, HEADER, BTREE_PAGE_SIZE.
    simpl. lia.
Qed.

(** The page of a new root over at most three kids. *)
Lemma new_root_spec h s bs ess m G :
  Forall2 (fun b e => node_rep b (ntype h) e) bs ess ->
  Forall (fun e => e <> [] /\ nsize e <= BTREE_PAGE_SIZE) ess ->
  erep (pages s) h (concat ess) m G -> Forall kv_ok m -> 1 < len bs <= 3 ->
  (size (pages s) + length bs <= page_cap)%nat ->
  exists root s' es G',
    (root ← setHeader (make BTREE_PAGE_SIZE) BNODE_INTERNAL (len bs);
     newRoot_loop s root 0 bs) = Ok (root, s') /\
    node_rep root BNODE_INTERNAL es /\ es <> [] /\ nsize es <= BTREE_PAGE_SIZE /\
    erep (pages s') (Datatypes.S h) es m G' /\ upd (pages s) G (pages s') G' /\
    (size (pages s') = size (pages s) + length bs)%nat.
Proof.
  intros Hbs Hess He Hm Hb3 Hcap.
  assert (len (make BTREE_PAGE_SIZE) = 4096) as L by (by rewrite len_make).
  destruct (setHeader_spec (make BTREE_PAGE_SIZE) BNODE_INTERNAL (len bs)) as (r1 & -> & R1 & L1);
    [done|lia|rewrite L; unfold HEADER; lia|].
  rewrite bind_ok, newRoot_loop_kids.
  pose proof (kv_ok_keys _ Hm) as Hm4.
  destruct (kids_loop_spec _ h _ _ 400 bs (newRoot_appends (len bs) (ltac:(lia))) ess s r1 [] 0 m G)
    as (r2 & s2 & es & G' & E2 & R2 & L2 & Hl & Hks & Hk & Hu & Hsz); try done; try lia;
    rewrite ?len_nil, ?kvsum_nil; try lia; try (rewrite L1, L; unfold HEADER; lia).
  exists r2, s2, es, G'. simpl app in R2. split_and!.
  - exact E2.
  - by eapply partial_node_rep.
  - intros ->. rewrite len_nil in Hl. lia.
  - unfold nsize, HEADER, BTREE_PAGE_SIZE. lia.
  - exact Hk.
  - exact Hu.
  - exact Hsz.
Qed.

(** The new root: the node itself, or a node over its pieces when it has grown out
    of its page. *)
Lemma root_spec h s2 b1 es1 m F1 :
  node_rep b1 (ntype h) es1 -> es1 <> [] -> nsize es1 <= SPLIT_MAX -> erep (pages s2) h es1 m F1 ->
  dom (pages s2) = F1 -> kv_sorted m -> Forall kv_ok m -> (size (pages s2) + 4 <= page_cap)%nat ->
  exists h' t',
    ('(nsplit, split) ← nodeSplit3 b1;
     if 1 <? nsplit then
       root ← setHeader (make BTREE_PAGE_SIZE) BNODE_INTERNAL nsplit;
       '(root, s) ← newRoot_loop s2 root 0 (take (Z.to_nat nsplit) split);
       '(ptr, s) ← NewPage s root;
       Ok (mkTree ptr s)
     else
       n0 ← index split 0;
       '(ptr, s) ← NewPage s2 n0;
       Ok (mkTree ptr s)) = Ok t' /\
    tree_rep h' t' m /\ Root t' <> 0 /\ (h <= h' <= Datatypes.S h)%nat /\
    (size (pages (store t')) <= size (pages s2) + 4)%nat /\ ((h < h')%nat -> BTREE_PAGE_SIZE < nsize es1).
Proof.
  intros Hb1 Hne1 Hn1 He2 Hd2 Hs' Hm' Hcap.
  destruct (nodeSplit3_spec b1 (ntype h) es1 Hb1 Hne1) as
    (n & split & ess & Esp & Hn3 & Hbs & Hcat & Hess & Hln); [by eapply erep_small|done|].
  rewrite Esp, bind_ok. cbv beta iota.
  pose proof (Forall2_length _ _ _ Hbs) as Hlbs.
  assert (len (take (Z.to_nat n) split) = n) as Hlt by (unfold len in *; lia).
  assert (length (take (Z.to_nat n) split) = Z.to_nat n) as Hlt' by (unfold len in *; lia).
  destruct (Z.ltb_spec 1 n) as [Hn1'|Hn1'].
  + assert (BTREE_PAGE_SIZE < nsize es1) as Hbig.
    { apply Z.lt_nge. intros Hle. rewrite (nodeSplit3_fits _ _ _ Hb1 Hle) in Esp. by injection Esp as <- _. }
    pose proof He2 as He2'. rewrite <-Hcat in He2'.
    destruct (new_root_spec h s2 (take (Z.to_nat n) split) ess m F1) as
      (root & s3 & es3 & G3 & E3 & Hb3 & Hne3 & Hn3' & He3 & Hu3 & Hsz3); try done; try lia.
    rewrite Hlt in E3. apply bind_ok_inv in E3 as (r & -> & E3). rewrite bind_ok, E3, bind_ok.
    cbv beta iota.
    destruct (tree_rep_store (Datatypes.S h) s3 root es3 m G3)
      as (p & s4 & -> & Hp4 & Hp0 & Hsz4); try done; [|lia|].
    { destruct Hu3 as (_ & _ & -> & _). rewrite Hd2, difference_diag_L. clear; set_solver. }
    rewrite bind_ok. exists (Datatypes.S h), (mkTree p s4). split_and!; try done; simpl; lia.
  + subst es1. assert (n = 1) as -> by lia. destruct split as [|b2 split]; [done|].
    apply Forall2_cons_inv_l in Hbs as (e & ess' & Hb2 & Hbs & ->).
    apply Forall2_nil_inv_l in Hbs as ->.
    apply Forall_cons in Hess as [[Hne2 Hn2] _]. simpl concat in *. rewrite app_nil_r in *.
    change (index (b2 :: split) 0) with (Ok b2). rewrite bind_ok.
    destruct (tree_rep_store h s2 b2 e m F1)
      as (p & s4 & -> & Hp4 & Hp0 & Hsz4); try done; [lia|].
    rewrite bind_ok. exists h, (mkTree p s4). split_and!; try done; simpl; lia.
Qed.

(** The root is split only when the node below it has grown out of its page. *)
Lemma Insert_grow_spec h fuel t m key val :
  tree_rep h t m -> kv_ok (key, val) -> (h < fuel)%nat ->
  (size (pages (store t)) + 2 * h + 3 <= page_cap)%nat ->
  exists h' t', Insert fuel t key val = Ok t' /\ tree_rep h' t' (kv_insert key val m) /\
    Root t' <> 0 /\ (h <= h' <= Datatypes.S h)%nat /\
    (size (pages (store t')) <= size (pages (store t)) + 2 * h + 3)%nat /\
    ((h < h')%nat -> exists pg es F, erep pg h es (kv_insert key val m) F /\ BTREE_PAGE_SIZE < nsize es).
Proof.
  intros Ht Hkv Hf Hcap. pose proof Ht as (Hs & Hm & _).
  pose proof (kv_insert_sorted key val m Hs) as Hs'.
  pose proof (kv_insert_ok key val m Hkv Hm) as Hm'.
  unfold Insert. destruct (Z.eqb_spec (Root t) 0) as [Hr|Hr].
  - destruct Ht as (_ & _ & [(_ & -> & -> & Hpg)|[? _]]); [|done].
    destruct (first_leaf key val) as (b & E & Hb & Hn & _); [destruct Hkv as [_ Hkv]; cbn in Hkv; lia|].
    apply bind_ok_inv in E as (r & -> & E). rewrite bind_ok, E, bind_ok.
    destruct (tree_rep_store 0 (store t) b (leaf_entries [(key, val)]) [(key, val)] ∅)
      as (p & s' & -> & Hp & Hp0 & Hsz); try done; [by rewrite Hpg, dom_empty_L|lia|].
    rewrite bind_ok. exists 0%nat, (mkTree p s'). split_and!; try done; simpl; lia.
  - destruct (tree_rep_root _ _ _ Ht Hr) as (b & es & F & Hp & Hb & Hne & Hn & He & Hnr & Hd).
    rewrite (GetPage_ok _ _ _ Hp), bind_ok.
    destruct (DelPage_ok _ _ _ Hp) as (s1 & -> & Hpg1). rewrite bind_ok.
    pose proof (upd_delete _ _ _ Hp) as Hu1. rewrite <-Hpg1 in Hu1.
    pose proof (size_delete_Some _ _ _ Hp) as Hsz1. rewrite <-Hpg1 in Hsz1.
    assert (dom (pages s1) = F) as Hd1 by (rewrite Hpg1, dom_delete_L, Hd; clear -Hnr; set_solver).
    assert (erep (pages s1) h es m F) as He1.
    { eapply erep_upd; [exact Hu1|done| |clear -Hnr; set_solver]. rewrite Hd. clear; set_solver. }
    destruct (treeInsert_spec h fuel s1 b es m F key val) as
      (b1 & s2 & es1 & F1 & -> & Hb1 & Hne1 & Hn1 & He2 & Hu2 & Hsz2); try done; [lia|].
    rewrite bind_ok. cbv beta iota.
    assert (dom (pages s2) = F1) as Hd2.
    { destruct Hu2 as (_ & _ & -> & _). rewrite Hd1, difference_diag_L. clear; set_solver. }
    destruct (root_spec h s2 b1 es1 (kv_insert key val m) F1) as (h' & t' & -> & Ht' & Hr' & Hh & Hsz & Hg); try done; [lia|].
    exists h', t'. split_and!; try done; [lia..|]. intros Hlt. exists (pages s2), es1, F1. split; [done|by apply Hg].
Qed.

Lemma Insert_spec h fuel t m key val :
  tree_rep h t m -> kv_ok (key, val) -> (h < fuel)%nat ->
  (size (pages (store t)) + 2 * h + 3 <= page_cap)%nat ->
  exists h' t', Insert fuel t key val = Ok t' /\ tree_rep h' t' (kv_insert key val m) /\
    Root t' <> 0 /\ (h <= h' <= Datatypes.S h)%nat /\
    (size (pages (store t')) <= size (pages (store t)) + 2 * h + 3)%nat.
Proof.
  intros Ht Hkv Hf Hc. destruct (Insert_grow_spec h fuel t m key val Ht Hkv Hf Hc) as (h' & t' & ? & ? & ? & ? & ? & _).
  by exists h', t'.
Qed.

(** * Lookup *)

Lemma Get_loop_spec h : forall fuel s b es m F key,
  (h < fuel)%nat -> node_rep b (ntype h) es -> es <> [] ->
  erep (pages s) h es m F -> kv_sorted m -> Get_loop fuel s b key = Ok (kv_lookup key m).
Proof.
  induction h as [|h IH]; intros fuel s b es m F key Hf Hb Hne He Hs;
    (destruct fuel as [|fuel]; [lia|]).
  - destruct He as [-> ->]. apply Get_loop_leaf; try done. by intros ->.
  - cbn [Get_loop]. rewrite erep_S in He. change (ntype (Datatypes.S h)) with BNODE_INTERNAL in *.
    destruct (nodeLookupLE_spec _ _ _ key Hb) as (i & -> & Hle & Hlt); [by eapply kids_sorted|].
    destruct (kids_locate _ _ _ _ _ _ _ He Hs Hle (Hlt Hne)) as
      (es1 & e & es2 & m1 & F1 & b0 & m0 & F0 & m2 & F2 & -> & <- & -> & _ & _ & _ & _ & _ &
       Hp & (es0 & Hb0 & Hne0 & _ & He0) & _ & _ & Hlt1 & Hgt2 & _).
    rewrite bind_ok, (partial_btype Hb), bind_ok.
    change (BNODE_INTERNAL =? BNODE_LEAF) with false. rewrite Z.eqb_refl. cbv iota.
    rewrite (partial_getPtr Hb _ e) by apply lookup_mid.
    rewrite bind_ok, (GetPage_ok _ _ _ Hp), bind_ok.
    apply kv_sorted_app in Hs as (_ & Hs & _). apply kv_sorted_app in Hs as (Hs0 & _ & _).
    rewrite (IH fuel s b0 es0 m0 F0 key) by (done || lia).
    by rewrite kv_lookup_all_lt, kv_lookup_app_gt.
Qed.

Lemma Get_spec h fuel t m key :
  tree_rep h t m -> (h < fuel)%nat -> Get fuel t key = Ok (kv_lookup key m).
Proof.
  intros Ht Hf. unfold Get. destruct (Z.eqb_spec (Root t) 0) as [Hr|Hr].
  - destruct Ht as (_ & _ & [(_ & -> & _)|[? _]]); done.
  - destruct (tree_rep_root _ _ _ Ht Hr) as (b & es & F & Hp & Hb & Hne & Hn & He & _).
    rewrite (GetPage_ok _ _ _ Hp), bind_ok. apply (Get_loop_spec h _ _ _ es _ F); try done. apply Ht.
Qed.

End store.
