(* ===== verification/TreeDelete.v ===== *)
(** Deletion keeps the represented key-value list: [treeDelete] and [Delete].

    A deletion may replace a separator by a longer key, and the code then has
    no way to split the node: the results here are for trees whose keys have
    all the same length, as the keys of a table with a fixed-width primary key
    do. *)
From S2P Require Import Prelude Keys KVList Node NodeOps Tree TreeRep TreeInsert.
#[local] Open Scope Z_scope.
#[local] Opaque make.

Definition same_len (L : Z) (m : kvs) : Prop := Forall (fun kv => len kv.1 = L) m.

Lemma same_len_first L m : same_len L m -> m <> [] -> len (first_key m) = L.
Proof. destruct m as [|[k v] m]; [done|]. intros H _. by inversion H. Qed.

Lemma same_len_le L m : same_len L m -> Forall (fun kv => len kv.1 <= L) m.
Proof. intros H. eapply Forall_impl; [exact H|]. simpl. lia. Qed.

Lemma kv_delete_Forall (P : bytes * bytes -> Prop) key m : Forall P m -> Forall P (kv_delete key m).
Proof.
  rewrite !Forall_forall. intros H kv Hin. apply H.
  eapply elem_of_sublist; [exact Hin|apply kv_delete_sublist].
Qed.

Lemma node_rep_len b ty es : node_rep b ty es -> (len b =? 0) = false.
Proof. intros H. pose proof (old_nsize H). pose proof (nsize_pos es). unfold HEADER in *. lia. Qed.

Section store.
Context {S : Type} `{PageStoreOK S}.
Implicit Types (s : S) (b : BNode) (F G : gset Z).

(** * Leaves *)

Lemma treeDelete_leaf fuel s b m key :
  node_rep b BNODE_LEAF (leaf_entries m) -> m <> [] -> kv_sorted m ->
  nsize (leaf_entries m) <= BTREE_PAGE_SIZE ->
  (kv_lookup key m = None /\ treeDelete (Datatypes.S fuel) s b key = Ok ([], s)) \/
  (kv_lookup key m <> None /\
   exists b', treeDelete (Datatypes.S fuel) s b key = Ok (b', s) /\
    node_rep b' BNODE_LEAF (leaf_entries (kv_delete key m)) /\
    nsize (leaf_entries (kv_delete key m)) <= nsize (leaf_entries m)).
Proof.
  intros Hb Hne Hs Hn. cbn [treeDelete].
  destruct (nodeLookupLE_spec _ _ _ key Hb) as (i & -> & Hle & Hlt); [by rewrite leaf_entries_keys|].
  assert (length (leaf_entries m) = length m) as Lm by apply length_fmap.
  rewrite leaf_entries_keys in Hle. rewrite Lm in Hlt.
  destruct (leaf_locate m key i Hs Hne Hle) as (m1 & k & v & m2 & -> & <- & Hgt & Hm1 & Hm0);
    [apply Hlt; by destruct m|].
  rewrite bind_ok, (partial_btype Hb), bind_ok, Z.eqb_refl.
  assert (leaf_entries (m1 ++ (k, v) :: m2) !! length m1 = Some (mkEntry 0 k v)) as Hi.
  { unfold leaf_entries. by rewrite list_lookup_fmap, list_lookup_middle. }
  rewrite (partial_getKey Hb _ _ Hi), bind_ok. cbn [e_key].
  destruct (Z.eqb_spec (cmp key k) 0) as [E|E]; cbn [negb]; [right|left].
  - apply cmp_eq_0 in E as <-.
    assert (all_lt m1 key) as Hlt1 by (apply Hm1; unfold key_le; by rewrite cmp_refl).
    rewrite kv_lookup_all_lt, kv_delete_all_lt by done. cbn [kv_lookup kv_delete].
    rewrite cmp_refl. simpl. split; [done|].
    assert (length (leaf_entries m1) = length m1) as L1 by apply length_fmap.
    pose proof (nsize_lookup_split _ _ _ Hi) as Hsplit. pose proof (ksize_pos (mkEntry 0 key v)).
    rewrite leaf_entries_app in *.
    change (leaf_entries ((key, v) :: m2)) with (mkEntry 0 key v :: leaf_entries m2) in *.
    rewrite <-L1, take_app_length, drop_app_S in Hsplit.
    destruct (leafDelete_spec Hb (make BTREE_PAGE_SIZE) (length m1)) as (b' & -> & R);
      rewrite <-?L1, ?take_app_length, ?drop_app_S in *.
    + rewrite length_app. simpl. lia.
    + rewrite len_make by done. rewrite nsize_app. lia.
    + by rewrite len_make.
    + rewrite bind_ok. exists b'. rewrite !leaf_entries_app, nsize_app. split_and!; [done|done|].
      change (leaf_entries ((key, v) :: m2)) with (mkEntry 0 key v :: leaf_entries m2). lia.
  - split; [|done]. destruct (decide (key_le k key)) as [Hk|Hk].
    + rewrite kv_lookup_all_lt by auto. cbn [kv_lookup].
      replace (cmp key k =? 0) with false by lia. by apply kv_lookup_all_gt.
    + apply key_lt_not_le in Hk. rewrite (Hm0 Hk). simpl.
      replace (cmp key k =? 0) with false by lia. by apply kv_lookup_all_gt.
Qed.

(** * Choosing a sibling to merge with *)

(** A stored kid, with the entries of its page. *)
Definition kid_at (pg : gmap Z BNode) (h : nat) (e : entry) (b : BNode) (es : list entry)
    (m : kvs) (F : gset Z) : Prop :=
  pg !! e_ptr e = Some b /\ node_rep b (ntype h) es /\ es <> [] /\ nsize es <= BTREE_PAGE_SIZE /\
  erep pg h es m F /\ (e_ptr e ∉ F) /\ e_key e = first_key m /\ e_val e = [].

Lemma kids_one_at pg h e m G : kids_rep pg (stored pg h) [e] m G ->
  exists b es F, kid_at pg h e b es m F /\ G = {[e_ptr e]} ∪ F.
Proof.
  intros (b & F & Hp & (es & H1 & H2 & H3 & H4) & Hn & -> & Hk & Hv)%kids_one_inv.
  exists b, es, F. done.
Qed.

(** The three outcomes of [shouldMerge]. *)
Variant merge_choice (pg : gmap Z BNode) (h : nat) (es1 : list entry) (m1 : kvs) (F1 : gset Z)
    (es2 : list entry) (m2 : kvs) (F2 : gset Z) (esu : list entry) : res (Z * BNode) -> Prop :=
| merge_left es1' m1' F1' el bl esl ml Fl :
    es1 = es1' ++ [el] -> m1 = m1' ++ ml -> F1 = F1' ∪ ({[e_ptr el]} ∪ Fl) ->
    F1' ## {[e_ptr el]} ∪ Fl -> kids_rep pg (stored pg h) es1' m1' F1' ->
    kid_at pg h el bl esl ml Fl -> nsize (esl ++ esu) <= BTREE_PAGE_SIZE ->
    merge_choice pg h es1 m1 F1 es2 m2 F2 esu (Ok (-1, bl))
| merge_right es2' m2' F2' er br esr mr Fr :
    es2 = er :: es2' -> m2 = mr ++ m2' -> F2 = ({[e_ptr er]} ∪ Fr) ∪ F2' ->
    F2' ## {[e_ptr er]} ∪ Fr -> kids_rep pg (stored pg h) es2' m2' F2' ->
    kid_at pg h er br esr mr Fr -> nsize (esu ++ esr) <= BTREE_PAGE_SIZE ->
    merge_choice pg h es1 m1 F1 es2 m2 F2 esu (Ok (1, br))
| merge_none :
    (esu = [] -> es1 = [] /\ es2 = []) ->
    merge_choice pg h es1 m1 F1 es2 m2 F2 esu (Ok (0, [])).

Lemma merged_size es esu :
  nsize es <= BTREE_PAGE_SIZE -> nsize esu <= BTREE_PAGE_SIZE / 4 ->
  u16 (nsize es + nsize esu - HEADER) = nsize (es ++ esu).
Proof.
  intros Hn Hu. rewrite nsize_app. pose proof (nsize_pos es). pose proof (nsize_pos esu).
  unfold BTREE_PAGE_SIZE, HEADER in *. change (4096 / 4) with 1024 in Hu. by rewrite u16_id by lia.
Qed.

(** The sibling on the right. *)
Lemma shouldMerge_right s h node es1 m1 F1 e es2 m2 F2 esu :
  node_rep node BNODE_INTERNAL (es1 ++ [e] ++ es2) ->
  kids_rep (pages s) (stored (pages s) h) es2 m2 F2 ->
  nsize esu <= BTREE_PAGE_SIZE / 4 -> (esu = [] -> es1 = []) ->
  merge_choice (pages s) h es1 m1 F1 es2 m2 F2 esu
    (n ← nkeys node;
     if u16 (Z.of_nat (length es1) + 1) <? n then
       ptr ← getPtr node (u16 (Z.of_nat (length es1) + 1));
       sibling ← GetPage s ptr;
       sb ← nbytes sibling;
       Ok (if u16 (sb + nsize esu - HEADER) <=? BTREE_PAGE_SIZE then (1, sibling) else (0, []))
     else Ok (0, [])).
Proof.
  intros Hb Hk2 Hsmall Hes1. pose proof (old_nsize Hb) as Ho. rewrite (partial_nkeys Hb), bind_ok.
  rewrite !len_app, len_cons, len_nil in Ho |- *. pose proof (len_nonneg es2). unfold HEADER in Ho.
  rewrite u16_id by (unfold len in *; lia). destruct es2 as [|er es2].
  - rewrite (proj2 (Z.ltb_ge _ _)) by (unfold len; simpl length; lia). apply merge_none. tauto.
  - rewrite len_cons in *. pose proof (len_nonneg es2). replace (_ <? _) with true by (unfold len in *; lia).
    change (er :: es2) with ([er] ++ es2) in Hk2.
    apply kids_app_inv in Hk2 as (mr & Gr & m2' & F2' & -> & -> & Hd & Hkr & Hk2).
    apply kids_one_at in Hkr as (br & esr & Fr & Hat & ->).
    replace (Z.of_nat (length es1) + 1) with (Z.of_nat (length (es1 ++ [e])))
      by (rewrite length_app; simpl; lia).
    rewrite (partial_getPtr Hb _ er), bind_ok by (rewrite app_assoc; by apply list_lookup_middle).
    pose proof Hat as (Hp & Hbr & _ & Hnr & _).
    rewrite (GetPage_ok _ _ _ Hp), bind_ok, (node_nbytes _ _ _ Hbr), bind_ok, (merged_size esr esu) by done.
    destruct (Z.leb_spec (nsize (esr ++ esu)) BTREE_PAGE_SIZE) as [Hfit|Hnofit].
    + apply (merge_right _ _ _ _ _ _ _ _ _ es2 m2' F2' er br esr mr Fr); try done.
      rewrite nsize_app in *. lia.
    + apply merge_none. intros ->. rewrite app_nil_r in Hnofit. lia.
Qed.

Lemma shouldMerge_spec s h node es1 m1 F1 e es2 m2 F2 bu esu :
  node_rep node BNODE_INTERNAL (es1 ++ [e] ++ es2) ->
  kids_rep (pages s) (stored (pages s) h) es1 m1 F1 ->
  kids_rep (pages s) (stored (pages s) h) es2 m2 F2 ->
  node_rep bu (ntype h) esu ->
  merge_choice (pages s) h es1 m1 F1 es2 m2 F2 esu (shouldMerge s node (Z.of_nat (length es1)) bu).
Proof.
  intros Hb Hk1 Hk2 Hu. pose proof (old_nsize Hb) as Ho. rewrite !len_app, len_cons, len_nil in Ho.
  pose proof (len_nonneg es2). unfold shouldMerge. rewrite (node_nbytes _ _ _ Hu), bind_ok.
  destruct (Z.ltb_spec (BTREE_PAGE_SIZE / 4) (nsize esu)) as [Hbig|Hsmall].
  { apply merge_none. intros ->. rewrite nsize_nil in Hbig. done. }
  destruct es1 as [|el es1' _] using rev_ind.
  - change (0 <? Z.of_nat (length [])) with false. cbv iota. rewrite bind_ok. by eapply shouldMerge_right.
  - apply kids_app_inv in Hk1 as (m1' & F1' & ml & Gl & -> & -> & Hd & Hk1 & Hkl).
    apply kids_one_at in Hkl as (bl & esl & Fl & Hat & ->).
    pose proof Hat as (Hp & Hbl & _ & Hnl & _).
    rewrite len_snoc in Ho. pose proof (len_nonneg es1').
    assert (Z.of_nat (length (es1' ++ [el])) = Z.of_nat (length es1') + 1) as Ll
      by (rewrite length_app; simpl; lia).
    unfold HEADER in Ho. replace (0 <? _) with true by lia.
    assert (u16 (Z.of_nat (length (es1' ++ [el])) - 1) = Z.of_nat (length es1')) as ->
      by (rewrite u16_id by (unfold len in *; lia); lia).
    rewrite (partial_getPtr Hb _ el), bind_ok by (rewrite <-app_assoc; by apply list_lookup_middle).
    rewrite (GetPage_ok _ _ _ Hp), bind_ok, (node_nbytes _ _ _ Hbl), bind_ok, (merged_size esl esu) by done.
    destruct (Z.leb_spec (nsize (esl ++ esu)) BTREE_PAGE_SIZE) as [Hfit|Hnofit]; rewrite bind_ok.
    + by eapply merge_left.
    + eapply shouldMerge_right; [done..|]. intros ->. rewrite app_nil_r in Hnofit. lia.
Qed.

(** * Replacing two kids by the page that merges them *)

(** The page [q] goes, and the merged page takes over what was below both. *)
Lemma merge_store s h q b bm esm mm G :
  pages s !! q = Some b -> node_rep bm (ntype h) esm -> esm <> [] ->
  nsize esm <= BTREE_PAGE_SIZE -> erep (pages s) h esm mm G -> q ∉ G ->
  (size (pages s) <= page_cap)%nat ->
  exists s1 p s2, DelPage s q = Ok s1 /\ NewPage s1 bm = Ok (p, s2) /\
    0 < p < 18446744073709551616 /\
    kids_rep (pages s2) (stored (pages s2) h) [mkEntry p (first_key mm) []] mm ({[p]} ∪ G) /\
    upd (pages s) ({[q]} ∪ G) (pages s2) ({[p]} ∪ G) /\ size (pages s2) = size (pages s).
Proof.
  intros Hq Hb Hne Hn He HqG Hc.
  destruct (DelPage_ok _ _ _ Hq) as (s1 & -> & Hpg1).
  pose proof (upd_delete _ _ _ Hq) as Hu1. rewrite <-Hpg1 in Hu1.
  pose proof (size_delete_Some _ _ _ Hq) as Hsz1. rewrite <-Hpg1 in Hsz1.
  pose proof (erep_dom _ _ _ _ _ He) as Hdom.
  assert (G ## {[q]}) as Hd by (clear -HqG; set_solver).
  destruct (upd_frame _ _ _ _ G Hu1 Hdom Hd) as [Hu1' _]. rewrite (left_id_L ∅ (∪)) in Hu1'.
  pose proof (erep_upd _ _ _ _ _ _ _ _ Hu1 He Hdom Hd) as He1.
  destruct (alloc_kid s1 bm h esm mm G Hb Hne Hn He1) as (p & s2 & E & Hp & Hk & Hu2 & Hsz2); [lia|].
  exists s1, p, s2. split_and!; [done|done|lia|lia|done|by eapply upd_trans|lia].
Qed.

Lemma merge_kids s h node es1 m1 F1 ea eb es2 m2 F2 q b bm esm mm G :
  node_rep node BNODE_INTERNAL (es1 ++ [ea; eb] ++ es2) ->
  nsize (es1 ++ [ea; eb] ++ es2) <= BTREE_PAGE_SIZE ->
  kids_rep (pages s) (stored (pages s) h) es1 m1 F1 ->
  kids_rep (pages s) (stored (pages s) h) es2 m2 F2 ->
  F1 ## {[q]} ∪ G -> F2 ## {[q]} ∪ G -> F1 ## F2 ->
  pages s !! q = Some b -> node_rep bm (ntype h) esm -> esm <> [] ->
  nsize esm <= BTREE_PAGE_SIZE -> erep (pages s) h esm mm G -> q ∉ G ->
  len (first_key mm) <= len (e_key ea) -> (size (pages s) <= page_cap)%nat ->
  exists s1 p s2 k new es' F',
    DelPage s q = Ok s1 /\ NewPage s1 bm = Ok (p, s2) /\ getKey bm 0 = Ok k /\
    nodeReplace2Kid (make BTREE_PAGE_SIZE) node (Z.of_nat (length es1)) p k = Ok new /\
    node_rep new BNODE_INTERNAL es' /\ nsize es' <= nsize (es1 ++ [ea; eb] ++ es2) /\
    erep (pages s2) (Datatypes.S h) es' (m1 ++ mm ++ m2) F' /\
    upd (pages s) (F1 ∪ ({[q]} ∪ G) ∪ F2) (pages s2) F' /\ size (pages s2) = size (pages s).
Proof.
  intros Hnode Hn Hk1 Hk2 Hd1 Hd2 Hd12 Hq Hb Hne Hnm He HqG Hlen Hc.
  destruct (merge_store s h q b bm esm mm G Hq Hb Hne Hnm He HqG Hc) as
    (s1 & p & s2 & E1 & E2 & Hp & Hk & Hu2 & Hsz).
  destruct (kids_splice _ _ _ _ _ _ _ _ _ _ _ _ _ Hk1 Hk2 Hd1 Hd2 Hd12 Hu2 Hk) as [Hk' Hu'].
  assert (nsize (es1 ++ [mkEntry p (first_key mm) []] ++ es2) <= nsize (es1 ++ [ea; eb] ++ es2)) as Hns.
  { rewrite !nsize_app, !nsize_cons, nsize_nil. unfold ksize. simpl. rewrite len_nil.
    pose proof (len_nonneg (e_val ea)). pose proof (len_nonneg (e_key eb)).
    pose proof (len_nonneg (e_val eb)). lia. }
  assert (take (length es1) (es1 ++ [ea; eb] ++ es2) = es1) as Ht by apply take_app_length.
  assert (drop (Datatypes.S (Datatypes.S (length es1))) (es1 ++ [ea; eb] ++ es2) = es2) as Hdr.
  { rewrite app_assoc. apply drop_app_length'. rewrite length_app. simpl. lia. }
  destruct (nodeReplace2Kid_spec Hnode (make BTREE_PAGE_SIZE) (length es1) p (first_key mm))
    as (new & E3 & R); rewrite ?Ht, ?Hdr, ?len_make in * by done; [rewrite !length_app; simpl; lia|lia|lia|done|].
  exists s1, p, s2, (first_key mm), new, (es1 ++ [mkEntry p (first_key mm) []] ++ es2),
    (F1 ∪ ({[p]} ∪ G) ∪ F2).
  split_and!; try done. by eapply first_entry_key.
Qed.

(** What a deletion below a node gives: the page for the new entries. *)
Definition deleted (s0 : S) (h : nat) (F : gset Z) (n : Z) (m : kvs) (c : nat)
    (r : res (BNode * S)) : Prop :=
  exists b' s' es' F', r = Ok (b', s') /\ node_rep b' (ntype h) es' /\ nsize es' <= n /\
    erep (pages s') h es' m F' /\ upd (pages s0) F (pages s') F' /\ (size (pages s') <= c)%nat.

(** The kid that was changed, with its new page and pages, between its
    neighbours. *)
Record kid_ctx (L : Z) (s : S) (h : nat) (node : BNode) es1 m1 F1 e es2 m2 F2 bu esu mu Fu : Prop := {
  kc_node : node_rep node BNODE_INTERNAL (es1 ++ [e] ++ es2);
  kc_size : nsize (es1 ++ [e] ++ es2) <= BTREE_PAGE_SIZE;
  kc_left : kids_rep (pages s) (stored (pages s) h) es1 m1 F1;
  kc_right : kids_rep (pages s) (stored (pages s) h) es2 m2 F2;
  kc_d1 : F1 ## Fu;
  kc_d2 : F2 ## Fu;
  kc_d12 : F1 ## F2;
  kc_bu : node_rep bu (ntype h) esu;
  kc_nu : nsize esu <= BTREE_PAGE_SIZE;
  kc_eu : erep (pages s) h esu mu Fu;
  kc_keys : same_len L (m1 ++ mu ++ m2);
  kc_key : len (e_key e) = L;
  kc_cap : (size (pages s) < page_cap)%nat;
}.

Lemma kid_ctx_pos L s h node es1 m1 F1 e es2 m2 F2 bu esu mu Fu :
  kid_ctx L s h node es1 m1 F1 e es2 m2 F2 bu esu mu Fu -> Z.of_nat (length (es1 ++ [e] ++ es2)) < 65536.
Proof. intros C. pose proof (old_nsize (kc_node _ _ _ _ _ _ _ _ _ _ _ _ _ _ _ C)) as Ho. unfold len, HEADER in Ho. lia. Qed.

(** Merging with the left sibling. *)
Lemma kid_merge_left L s h node es1 m1 F1 el bl esl ml Fl e es2 m2 F2 bu esu mu Fu :
  kid_ctx L s h node (es1 ++ [el]) (m1 ++ ml) (F1 ∪ ({[e_ptr el]} ∪ Fl)) e es2 m2 F2 bu esu mu Fu ->
  F1 ## {[e_ptr el]} ∪ Fl -> kids_rep (pages s) (stored (pages s) h) es1 m1 F1 ->
  kid_at (pages s) h el bl esl ml Fl -> nsize (esl ++ esu) <= BTREE_PAGE_SIZE ->
  shouldMerge s node (Z.of_nat (length (es1 ++ [el]))) bu = Ok (-1, bl) ->
  deleted s (Datatypes.S h) (F1 ∪ ({[e_ptr el]} ∪ Fl) ∪ Fu ∪ F2) (nsize ((es1 ++ [el]) ++ [e] ++ es2))
    ((m1 ++ ml) ++ mu ++ m2) (Datatypes.S (size (pages s)))
    (treeDelete_kid s node (Z.of_nat (length (es1 ++ [el]))) bu).
Proof.
  intros C Hdl Hk1 (Hp & Hbl & Hnel & Hnl & Hel & Hpl & Hkl & Hvl) Hfit E. pose proof (kid_ctx_pos _ _ _ _ _ _ _ _ _ _ _ _ _ _ _ C) as Ho.
  destruct C as [Hnode Hn _ Hk2 Hd1 Hd2 Hd12 Hbu Hnu Heu HL He Hc].
  unfold treeDelete_kid. rewrite E, bind_ok. change (-1 <? 0) with true. cbv iota.
  assert (u16 (Z.of_nat (length (es1 ++ [el])) - 1) = Z.of_nat (length es1)) as ->.
  { rewrite !length_app in *. simpl length in *. rewrite u16_id; lia. }
  destruct (nodeMerge_spec (make BTREE_PAGE_SIZE) bl bu (ntype h) esl esu) as (bm & -> & Hbm); try done.
  rewrite bind_ok, (partial_getPtr Hnode _ el), bind_ok by (rewrite <-!app_assoc; by apply list_lookup_middle).
  assert (Fl ## Fu) as Hdlu by (clear -Hd1; set_solver).
  pose proof (erep_nonempty _ _ _ _ _ Hnel Hel) as Hml.
  unfold same_len in HL. rewrite !Forall_app in HL. destruct HL as ((_ & HLl) & HLu & _).
  rewrite <-!app_assoc in *.
  destruct (merge_kids s h node es1 m1 F1 el e es2 m2 F2 (e_ptr el) bl bm (esl ++ esu)
    (ml ++ mu) (Fl ∪ Fu)) as (s1 & p & s2 & k & new & es' & F' & -> & E2 & -> & E4 & R & Hns & He' & Hu' & Hsz);
    try done; try lia; try (by apply erep_app); try (clear -Hdl Hd1 Hd2 Hd12 Hpl; set_solver).
  - by destruct esl.
  - by rewrite first_key_app, Hkl.
  - rewrite bind_ok, E2, bind_ok, bind_ok, E4, bind_ok.
    exists new, s2, es', F'. rewrite <-!app_assoc in He'. split_and!; try done; [|lia].
    replace (F1 ∪ ({[e_ptr el]} ∪ Fl) ∪ Fu ∪ F2) with (F1 ∪ ({[e_ptr el]} ∪ (Fl ∪ Fu)) ∪ F2); [done|].
    clear; set_solver.
Qed.

(** Merging with the right sibling. *)
Lemma kid_merge_right L s h node es1 m1 F1 e er br esr mr Fr es2 m2 F2 bu esu mu Fu :
  kid_ctx L s h node es1 m1 F1 e (er :: es2) (mr ++ m2) ({[e_ptr er]} ∪ Fr ∪ F2) bu esu mu Fu ->
  F2 ## {[e_ptr er]} ∪ Fr -> kids_rep (pages s) (stored (pages s) h) es2 m2 F2 ->
  kid_at (pages s) h er br esr mr Fr -> nsize (esu ++ esr) <= BTREE_PAGE_SIZE ->
  shouldMerge s node (Z.of_nat (length es1)) bu = Ok (1, br) ->
  deleted s (Datatypes.S h) (F1 ∪ Fu ∪ ({[e_ptr er]} ∪ Fr ∪ F2)) (nsize (es1 ++ [e] ++ er :: es2))
    (m1 ++ mu ++ mr ++ m2) (Datatypes.S (size (pages s))) (treeDelete_kid s node (Z.of_nat (length es1)) bu).
Proof.
  intros C Hdr Hk2 (Hp & Hbr & Hner & Hnr & Her & Hpr & Hkr & Hvr) Hfit E. pose proof (kid_ctx_pos _ _ _ _ _ _ _ _ _ _ _ _ _ _ _ C) as Ho.
  destruct C as [Hnode Hn Hk1 _ Hd1 Hd2 Hd12 Hbu Hnu Heu HL He Hc].
  unfold treeDelete_kid. rewrite E, bind_ok. change (1 <? 0) with false. change (0 <? 1) with true. cbv iota.
  assert (u16 (Z.of_nat (length es1) + 1) = Z.of_nat (length (es1 ++ [e]))) as ->.
  { rewrite !length_app in *. simpl length in *. rewrite u16_id; lia. }
  destruct (nodeMerge_spec (make BTREE_PAGE_SIZE) bu br (ntype h) esu esr) as (bm & -> & Hbm); try done.
  rewrite bind_ok, (partial_getPtr Hnode _ er), bind_ok by (rewrite app_assoc; by apply list_lookup_middle).
  change ([e] ++ er :: es2) with ([e; er] ++ es2) in *.
  assert (Fu ## Fr) as Hdru by (clear -Hd2; set_solver).
  pose proof (erep_nonempty _ _ _ _ _ Hner Her) as Hmr.
  assert (len (first_key (mu ++ mr)) = L) as Hfk.
  { unfold same_len in HL. rewrite !Forall_app in HL. destruct HL as (_ & HLu & HLr & _).
    apply same_len_first; [by apply Forall_app|by destruct mu]. }
  destruct (merge_kids s h node es1 m1 F1 e er es2 m2 F2 (e_ptr er) br bm (esu ++ esr)
    (mu ++ mr) (Fu ∪ Fr)) as (s1 & p & s2 & k & new & es' & F' & -> & E2 & -> & E4 & R & Hns & He' & Hu' & Hsz);
    try done; try lia; try (by apply erep_app); try (clear -Hdr Hd1 Hd2 Hd12 Hpr; set_solver).
  - by destruct esu.
  - rewrite bind_ok, E2, bind_ok, bind_ok, E4, bind_ok.
    exists new, s2, es', F'. rewrite <-!app_assoc in He'. split_and!; try done; [|lia].
    replace (F1 ∪ Fu ∪ ({[e_ptr er]} ∪ Fr ∪ F2)) with (F1 ∪ ({[e_ptr er]} ∪ (Fu ∪ Fr)) ∪ F2); [done|].
    clear; set_solver.
Qed.

(** No merge: the kid is dropped when it is empty and the only one, and stored
    otherwise. *)
Lemma kid_store L s h node es1 m1 F1 e es2 m2 F2 bu esu mu Fu :
  kid_ctx L s h node es1 m1 F1 e es2 m2 F2 bu esu mu Fu -> (esu = [] -> es1 = [] /\ es2 = []) ->
  shouldMerge s node (Z.of_nat (length es1)) bu = Ok (0, []) ->
  deleted s (Datatypes.S h) (F1 ∪ Fu ∪ F2) (nsize (es1 ++ [e] ++ es2)) (m1 ++ mu ++ m2)
    (Datatypes.S (size (pages s))) (treeDelete_kid s node (Z.of_nat (length es1)) bu).
Proof.
  intros [Hnode Hn Hk1 Hk2 Hd1 Hd2 Hd12 Hbu Hnu Heu HL He Hc] Hempty E.
  unfold treeDelete_kid. rewrite E, bind_ok.
  change (0 <? 0) with false. cbv iota. rewrite (partial_nkeys Hbu), bind_ok. destruct esu as [|eu esu].
  - destruct Hempty as [-> ->]; [done|]. rewrite len_nil. change (0 =? 0) with true. cbv iota.
    destruct (setHeader_spec (make BTREE_PAGE_SIZE) BNODE_INTERNAL 0) as (new & -> & R & _); [done|done|done|].
    apply erep_nil in Heu as [-> ->].
    apply (erep_nil _ (Datatypes.S h)) in Hk1 as [-> ->].
    apply (erep_nil _ (Datatypes.S h)) in Hk2 as [-> ->].
    rewrite bind_ok. exists new, s, [], ∅. rewrite nsize_nil. simpl app. pose proof (nsize_pos [e]).
    split_and!; try done; try lia; [apply erep_empty|].
    rewrite !(left_id_L ∅ (∪)). apply upd_refl. set_solver.
  - rewrite len_cons. pose proof (len_nonneg esu). replace (_ =? 0) with false by lia.
    unfold same_len in HL. rewrite !Forall_app in HL. destruct HL as (_ & HLu & _).
    assert (4 + L <= ksize e) by (unfold ksize; pose proof (len_nonneg (e_val e)); lia).
    pose proof (len_nonneg (e_key e)).
    destruct (nodeReplaceKidN_spec L h s (make BTREE_PAGE_SIZE) node es1 e es2 [bu] [eu :: esu] mu Fu)
      as (b2 & s3 & es' & G' & -> & Hb2 & Hle' & Hns & Hk' & Hu3 & Hsz3); try done; try lia.
    + apply Forall2_cons_2; [done|apply Forall2_nil_2].
    + by apply Forall_singleton.
    + simpl. by rewrite app_nil_r.
    + by apply same_len_le.
    + rewrite len_make by done. change (len [bu]) with 1. lia.
    + simpl. lia.
    + change (len [bu]) with 1 in *. simpl in Hsz3.
      destruct (kids_splice _ _ _ _ _ _ _ _ _ _ _ _ _ Hk1 Hk2 Hd1 Hd2 Hd12 Hu3 Hk') as [Hk Hu'].
      exists b2, s3, (es1 ++ es' ++ es2), (F1 ∪ G' ∪ F2). split_and!; try done; lia.
Qed.

Lemma treeDelete_kid_spec L s h node es1 m1 F1 e es2 m2 F2 bu esu mu Fu :
  kid_ctx L s h node es1 m1 F1 e es2 m2 F2 bu esu mu Fu ->
  deleted s (Datatypes.S h) (F1 ∪ Fu ∪ F2) (nsize (es1 ++ [e] ++ es2)) (m1 ++ mu ++ m2)
    (Datatypes.S (size (pages s))) (treeDelete_kid s node (Z.of_nat (length es1)) bu).
Proof.
  intros C. pose proof C as [Hnode _ Hk1 Hk2 _ _ _ Hbu _ _ _ _ _].
  pose proof (shouldMerge_spec s h node es1 m1 F1 e es2 m2 F2 bu esu Hnode Hk1 Hk2 Hbu) as Hm.
  remember (shouldMerge s node _ bu) as r eqn:E in Hm. symmetry in E.
  destruct Hm as [es1' m1' F1' el bl esl ml Fl -> -> -> Hdl Hk1l Hat Hfit
       |es2' m2' F2' er br esr mr Fr -> -> -> Hdr Hk2r Hat Hfit|Hempty].
  - by eapply kid_merge_left.
  - by eapply kid_merge_right.
  - by eapply kid_store.
Qed.

(** * Deletion below a node *)

(** The page [p] of a kid is freed after the pages below it have changed. *)
Lemma kid_freed (pg pg1 : gmap Z BNode) p b (F0 Fu F1 F2 : gset Z) :
  pg !! p = Some b -> p ∉ F0 -> upd pg F0 pg1 Fu -> Fu ⊆ dom pg1 ->
  F1 ⊆ dom pg -> F2 ⊆ dom pg -> F1 ## {[p]} ∪ F0 -> F2 ## {[p]} ∪ F0 ->
  upd pg1 {[p]} (delete p pg1) ∅ /\ upd pg ({[p]} ∪ F0) (delete p pg1) Fu /\
  upd pg (F1 ∪ ({[p]} ∪ F0) ∪ F2) (delete p pg1) (F1 ∪ Fu ∪ F2) /\ (p ∉ Fu) /\ F1 ## Fu /\ F2 ## Fu.
Proof.
  intros Hp Hn0 Hu Hdu HF1 HF2 Hd1 Hd2. pose proof (upd_delete _ _ _ (upd_keep _ _ _ _ _ _ Hu Hp Hn0)) as Hu2.
  assert (p ∈ dom pg) as Hpd by (apply elem_of_dom; eauto).
  destruct (upd_frame _ _ _ _ {[p]} Hu) as [Hu1 Hpu]; [clear -Hpd; set_solver|clear -Hn0; set_solver|].
  destruct (upd_frame _ _ _ _ Fu Hu2) as [Hu2' _]; [done|clear -Hpu; set_solver|].
  rewrite (comm_L (∪) Fu) in Hu1. rewrite (left_id_L ∅ (∪)), (comm_L (∪) {[_]}) in Hu2'.
  rewrite (comm_L (∪) F0), (comm_L (∪) {[_]} Fu) in Hu1.
  pose proof (upd_trans _ _ _ _ _ _ Hu1 Hu2') as Hu3.
  destruct (upd_frame _ _ _ _ (F1 ∪ F2) Hu3) as [Hu4 Hd4]; [clear -HF1 HF2; set_solver|clear -Hd1 Hd2; set_solver|].
  replace ({[p]} ∪ F0 ∪ (F1 ∪ F2)) with (F1 ∪ ({[p]} ∪ F0) ∪ F2) in Hu4 by (clear; set_solver).
  replace (Fu ∪ (F1 ∪ F2)) with (F1 ∪ Fu ∪ F2) in Hu4 by (clear; set_solver).
  split_and!; try done; [clear -Hpu|clear -Hd4|clear -Hd4]; set_solver.
Qed.

Lemma treeDelete_spec L h : forall fuel s b es m F key,
  (h < fuel)%nat -> node_rep b (ntype h) es -> es <> [] -> nsize es <= BTREE_PAGE_SIZE ->
  erep (pages s) h es m F -> kv_sorted m -> same_len L m -> (size (pages s) <= page_cap)%nat ->
  (kv_lookup key m = None /\ treeDelete fuel s b key = Ok ([], s)) \/
  (kv_lookup key m <> None /\
   deleted s h F (nsize es) (kv_delete key m) (size (pages s)) (treeDelete fuel s b key)).
Proof.
  induction h as [|h IH]; intros fuel s b es m F key Hf Hb Hne Hn He Hs HL Hc;
    (destruct fuel as [|fuel]; [lia|]).
  - destruct He as [-> ->].
    destruct (treeDelete_leaf fuel s b m key Hb) as [?|(Hl & b' & E & R & Hn')]; try done.
    { by intros ->. }
    { by left. }
    right. split; [done|]. exists b', s, (leaf_entries (kv_delete key m)), ∅.
    split_and!; try done. by apply upd_refl.
  - rewrite erep_S in He. change (ntype (Datatypes.S h)) with BNODE_INTERNAL in *.
    destruct (nodeLookupLE_spec _ _ _ key Hb) as (i & Ei & Hle & Hlt); [by eapply kids_sorted|].
    destruct (kids_locate _ _ _ _ _ _ _ He Hs Hle (Hlt Hne)) as
      (es1 & e & es2 & m1 & F1 & b0 & m0 & F0 & m2 & F2 & -> & <- & -> & -> & Hd1 & Hd2 & Hd12 & Hn0 &
       Hp & Hst & Hk1 & Hk2 & Hlt1 & Hgt2 & Hkey).
    pose proof Hst as (es0 & Hb0 & Hne0 & Hn0' & He0).
    pose proof HL as HL'. unfold same_len in HL'. rewrite !Forall_app in HL'.
    destruct HL' as (HL1 & HL0 & HL2).
    apply kv_sorted_app in Hs as (_ & Hs & _). apply kv_sorted_app in Hs as (Hs0 & _ & _).
    rewrite kv_lookup_all_lt, kv_lookup_app_gt, kv_delete_all_lt, kv_delete_app_gt by done.
    cbn [treeDelete]. rewrite Ei, bind_ok, (partial_btype Hb), bind_ok.
    change (BNODE_INTERNAL =? BNODE_LEAF) with false. rewrite Z.eqb_refl. cbv iota.
    rewrite (partial_getPtr Hb _ e) by apply lookup_mid. rewrite bind_ok.
    rewrite (GetPage_ok _ _ _ Hp), bind_ok.
    destruct (IH fuel s b0 es0 m0 F0 key) as
      [[Hl ->]|(Hl & bu & s1 & esu & Fu & -> & Hbu & Hnu & Heu & Hu & Hsz)]; try done; try lia.
    { left. by rewrite bind_ok. }
    right. split; [done|]. rewrite bind_ok. cbv beta iota. rewrite (node_rep_len _ _ _ Hbu).
    pose proof (upd_keep _ _ _ _ _ _ Hu Hp Hn0) as Hp1.
    destruct (DelPage_ok _ _ _ Hp1) as (s2 & -> & Hpg2). rewrite bind_ok.
    pose proof (size_delete_Some _ _ _ Hp1) as Hsz2. rewrite <-Hpg2 in Hsz2.
    pose proof (erep_dom _ _ _ _ _ Heu) as Hdu.
    assert (F1 ⊆ dom (pages s)) as HF1 by (by eapply (erep_dom _ (Datatypes.S h))).
    assert (F2 ⊆ dom (pages s)) as HF2 by (by eapply (erep_dom _ (Datatypes.S h))).
    destruct (kid_freed (pages s) (pages s1) (e_ptr e) b0 F0 Fu F1 F2) as (Hu2 & Hu3 & Hu4 & Hpu & Hd4 & Hd5); try done.
    rewrite <-Hpg2 in Hu2, Hu3, Hu4.
    pose proof (erep_upd _ _ _ _ _ _ _ _ Hu2 Heu Hdu) as Heu2.
    destruct (treeDelete_kid_spec L s2 h b es1 m1 F1 e es2 m2 F2 bu esu (kv_delete key m0) Fu)
      as (b' & s' & es' & F' & -> & R & Hns & He' & Hu5 & Hsz5).
    + split; try done; try lia.
      * exact (kids_upd _ _ _ _ _ _ _ _ Hu3 Hk1 HF1 Hd1).
      * exact (kids_upd _ _ _ _ _ _ _ _ Hu3 Hk2 HF2 Hd2).
      * apply Heu2. clear -Hpu; set_solver.
      * unfold same_len. rewrite !Forall_app. split_and!; try done. by apply kv_delete_Forall.
      * rewrite Hkey. apply same_len_first; [done|by eapply stored_nonempty].
    + exists b', s', es', F'. split_and!; try done; [by eapply upd_trans|lia].
Qed.

(** * The whole tree *)

Lemma Delete_spec L h fuel t m key :
  tree_rep h t m -> same_len L m -> (h < fuel)%nat -> (size (pages (store t)) <= page_cap)%nat ->
  exists h' t', Delete fuel t key = Ok (bool_decide (is_Some (kv_lookup key m)), t') /\
    tree_rep h' t' (kv_delete key m) /\ (h' <= h)%nat /\
    (size (pages (store t')) <= size (pages (store t)))%nat.
Proof.
  intros Ht HL Hf Hc. pose proof Ht as (Hs & Hm & _). unfold Delete.
  destruct (Z.eqb_spec (Root t) 0) as [Hr|Hr].
  { destruct Ht as (_ & _ & [(_ & -> & -> & Hpg)|[? _]]); [|done].
    exists 0%nat, t. split_and!; try done. split_and!; try done. by left. }
  destruct (tree_rep_root _ _ _ Ht Hr) as (b & es & F & Hp & Hb & Hne & Hn & He & Hnr & Hd).
  rewrite (GetPage_ok _ _ _ Hp), bind_ok.
  destruct (treeDelete_spec L h fuel (store t) b es m F key) as
    [[Hl ->]|(Hl & bu & s1 & esu & Fu & -> & Hbu & Hnu & Heu & Hu & Hsz)]; try done; rewrite bind_ok.
  - change (len [] =? 0) with true. cbv beta iota. rewrite Hl.
    exists h, t. rewrite kv_delete_absent by done. destruct t. split_and!; done.
  - cbv beta iota. rewrite (node_rep_len _ _ _ Hbu).
    pose proof (upd_keep _ _ _ _ _ _ Hu Hp Hnr) as Hp1.
    destruct (DelPage_ok _ _ _ Hp1) as (s2 & -> & Hpg2). rewrite bind_ok.
    pose proof (upd_delete _ _ _ Hp1) as Hu2. rewrite <-Hpg2 in Hu2.
    pose proof (size_delete_Some _ _ _ Hp1) as Hsz2. rewrite <-Hpg2 in Hsz2.
    pose proof (erep_dom _ _ _ _ _ Heu) as Hdu.
    pose proof Hu as (_ & Hdis & Hd1 & _). rewrite Hd in Hdis, Hd1.
    assert (Root t ∉ Fu) as Hru by (clear -Hdis Hnr; set_solver).
    assert (dom (pages s2) = Fu) as Hd2.
    { rewrite Hpg2, dom_delete_L, Hd1. clear -Hnr Hru. set_solver. }
    assert (erep (pages s2) h esu (kv_delete key m) Fu) as Heu2.
    { eapply erep_upd; [exact Hu2|done|done|clear -Hru; set_solver]. }
    rewrite (partial_nkeys Hbu), bind_ok.
    rewrite bool_decide_true by (by apply not_eq_None_Some).
    pose proof (kv_delete_sorted key m Hs) as Hs'.
    pose proof (kv_delete_Forall _ key m Hm) as Hm'.
    destruct esu as [|eu esu].
    + change (len [] =? 0) with true. cbv iota. apply erep_nil in Heu as [Hnil ->].
      exists 0%nat, (mkTree 0 s2). rewrite Hnil in *. split_and!; try done; try lia.
      * split_and!; try done. left. split_and!; try done. simpl. by apply dom_empty_inv_L.
      * simpl. lia.
    + rewrite len_cons. pose proof (len_nonneg esu). replace (_ =? 0) with false by lia.
      destruct (tree_rep_store h s2 bu (eu :: esu) (kv_delete key m) Fu) as
        (p & s3 & -> & Ht3 & _ & Hsz3); try done; try lia.
      rewrite bind_ok. exists h, (mkTree p s3). split_and!; try done. simpl. lia.
Qed.

End store.
