(* ===== verification/TreeSpec.v ===== *)
(** What the B+tree promises: a finite map from keys to values.

    The in-memory page store satisfies the laws of [PageStoreOK]; a tree over
    any store with these laws implements the operations of a [gmap], one by one
    and over every sequence of operations. *)
From S2P Require Import Prelude Keys KVList Node NodeOps Tree TreeRep TreeInsert TreeDelete.
#[local] Open Scope Z_scope.

(** * The in-memory store meets the laws *)

Lemma free_ptr_range n m : forall p, p <= free_ptr n m p <= p + Z.of_nat n.
Proof.
  induction n as [|n IH]; intros p; simpl; [lia|].
  destruct (m !! p); [|lia]. specialize (IH (p + 1)). lia.
Qed.

(** The search only steps over pointers in use. *)
Lemma free_ptr_used n m : forall p q, p <= q < free_ptr n m p -> is_Some (m !! q).
Proof.
  induction n as [|n IH]; intros p q Hq; simpl in Hq; [lia|].
  destruct (m !! p) eqn:E; [|lia].
  destruct (decide (q = p)) as [->|Hne]; [by rewrite E|]. apply (IH (p + 1)). lia.
Qed.

Lemma free_ptr_stop n m : forall p,
  m !! free_ptr n m p = None \/ free_ptr n m p = p + Z.of_nat n.
Proof.
  induction n as [|n IH]; intros p; simpl; [right; lia|].
  destruct (m !! p) eqn:E; [|by left]. destruct (IH (p + 1)) as [?|?]; [by left|right; lia].
Qed.

(** With one more candidate than pages, one is unused. *)
Lemma free_ptr_fresh m p : m !! free_ptr (size m) m p = None.
Proof.
  destruct (free_ptr_stop (size m) m p) as [?|E]; [done|].
  destruct (m !! free_ptr (size m) m p) as [b|] eqn:Hb; [exfalso|done].
  set (l := seqZ p (Z.of_nat (S (size m)))).
  assert (list_to_set l ⊆ dom m) as Hsub.
  { intros q Hq. apply elem_of_list_to_set, elem_of_seqZ in Hq. apply elem_of_dom.
    destruct (decide (q = free_ptr (size m) m p)) as [->|Hne]; [by rewrite Hb|].
    apply (free_ptr_used (size m) m p). lia. }
  apply subseteq_size in Hsub. rewrite size_dom, size_list_to_set in Hsub by apply NoDup_seqZ.
  unfold l in Hsub. rewrite length_seqZ in Hsub. lia.
Qed.

Definition mem_cap : nat := Z.to_nat 18446744073709551614.

Lemma mem_cap_val : Z.of_nat mem_cap = 18446744073709551614.
Proof. unfold mem_cap. by rewrite Z2Nat.id. Qed.

#[global] Opaque mem_cap.

Lemma mem_NewPage_ok s b n : nbytes b = Ok n -> n <= BTREE_PAGE_SIZE ->
  (size (mem_pages s) < mem_cap)%nat ->
  exists p s' b', NewPage s b = Ok (p, s') /\ 0 < p < 18446744073709551616 /\
    mem_pages s !! p = None /\ mem_pages s' = <[p := b']> (mem_pages s) /\ page_for b b'.
Proof.
  intros Hn Hle Hc. pose proof mem_cap_val. simpl. rewrite Hn, bind_ok.
  replace (BTREE_PAGE_SIZE <? n) with false by lia.
  eexists _, _, b. split_and!; [done| | |apply free_ptr_fresh|done|by intros ty es ? _].
  - pose proof (free_ptr_range (size (mem_pages s)) (mem_pages s) 1). lia.
  - pose proof (free_ptr_range (size (mem_pages s)) (mem_pages s) 1). lia.
Qed.

Lemma mem_DelPage_ok (s : memStore) p b : mem_pages s !! p = Some b ->
  exists s', DelPage s p = Ok s' /\ mem_pages s' = delete p (mem_pages s).
Proof. intros Hp. simpl. rewrite Hp. eexists. done. Qed.

Lemma mem_GetPage_ok (s : memStore) p b : mem_pages s !! p = Some b -> GetPage s p = Ok b.
Proof. intros Hp. simpl. by rewrite Hp. Qed.

#[global] Instance mem_store_ok : PageStoreOK memStore := {|
  pages := mem_pages;
  page_cap := mem_cap;
  GetPage_ok := mem_GetPage_ok;
  NewPage_ok := mem_NewPage_ok;
  DelPage_ok := mem_DelPage_ok;
|}.

Lemma mem_page_cap (n : nat) : Z.of_nat n <= 18446744073709551614 -> (n <= page_cap (S:=memStore))%nat.
Proof. pose proof mem_cap_val. change (page_cap (S:=memStore)) with mem_cap. lia. Qed.

Lemma mem_empty_size : size (pages (store empty_tree)) = 0%nat.
Proof. apply map_size_empty. Qed.

Lemma empty_tree_rep : tree_rep 0 empty_tree [].
Proof. split_and!; [constructor|constructor|]. by left. Qed.

(** * The map specification *)

Inductive op := OpInsert (k v : bytes) | OpDelete (k : bytes) | OpGet (k : bytes).

Inductive out := OutNone | OutFound (b : bool) | OutVal (v : option bytes).

Definition spec_step (m : gmap bytes bytes) (o : op) : out * gmap bytes bytes :=
  match o with
  | OpInsert k v => (OutNone, <[k := v]> m)
  | OpDelete k => (OutFound (bool_decide (is_Some (m !! k))), delete k m)
  | OpGet k => (OutVal (m !! k), m)
  end.

Fixpoint spec_run (m : gmap bytes bytes) (os : list op) : list out :=
  match os with
  | [] => []
  | o :: os => let '(r, m) := spec_step m o in r :: spec_run m os
  end.

(** Operations within the limits of the results about the tree: keys of one
    length [L], pairs that satisfy [kv_ok]. *)
Definition op_ok (L : Z) (o : op) : Prop :=
  match o with OpInsert k v => kv_ok (k, v) /\ len k = L | _ => True end.

#[global] Instance op_ok_dec L o : Decision (op_ok L o).
Proof. destruct o; apply _. Defined.

Section store.
Context {S : Type} `{PageStoreOK S}.

Definition tree_step (fuel : nat) (t : BTree S) (o : op) : res (out * BTree S) :=
  match o with
  | OpInsert k v => t ← Insert fuel t k v; Ok (OutNone, t)
  | OpDelete k => '(b, t) ← Delete fuel t k; Ok (OutFound b, t)
  | OpGet k => v ← Get fuel t k; Ok (OutVal v, t)
  end.

Fixpoint tree_run (fuel : nat) (t : BTree S) (os : list op) : res (list out) :=
  match os with
  | [] => Ok []
  | o :: os => '(r, t) ← tree_step fuel t o; rs ← tree_run fuel t os; Ok (r :: rs)
  end.

(** [t] implements the map [M]: it has height [h], and keys of length [L]. *)
Definition tree_map (L : Z) (h : nat) (t : BTree S) (M : gmap bytes bytes) : Prop :=
  exists m, tree_rep h t m /\ same_len L m /\ kv_map m = M.

Lemma same_len_insert L k v m : len k = L -> same_len L m -> same_len L (kv_insert k v m).
Proof.
  intros Hk Hm. apply Forall_forall. intros kv [->|Hin]%kv_insert_elem; [done|].
  unfold same_len in Hm. rewrite Forall_forall in Hm. auto.
Qed.

Lemma tree_step_spec L fuel h t M o :
  tree_map L h t M -> op_ok L o -> (h < fuel)%nat ->
  (size (pages (store t)) + 2 * h + 3 <= page_cap)%nat ->
  exists h' t', tree_step fuel t o = Ok ((spec_step M o).1, t') /\
    tree_map L h' t' (spec_step M o).2 /\ (h' <= Datatypes.S h)%nat /\
    (size (pages (store t')) <= size (pages (store t)) + 2 * h + 3)%nat.
Proof.
  intros (m & Ht & HL & <-) Ho Hf Hc. pose proof Ht as (Hs & _ & _).
  destruct o as [k v|k|k]; cbn [tree_step spec_step fst snd].
  - destruct Ho as [Hkv Hk].
    destruct (Insert_spec h fuel t m k v Ht Hkv Hf Hc) as (h' & t' & -> & Ht' & _ & Hh & Hsz).
    rewrite bind_ok. exists h', t'. split_and!; try done; [|lia].
    exists (kv_insert k v m). split_and!; [done|by apply same_len_insert|by apply kv_map_insert].
  - destruct (Delete_spec L h fuel t m k Ht HL Hf) as (h' & t' & -> & Ht' & Hh & Hsz); [lia|].
    rewrite bind_ok, kv_map_lookup by done. exists h', t'. split_and!; try done; try lia.
    exists (kv_delete k m). split_and!; [done|by apply kv_delete_Forall|by apply kv_map_delete].
  - rewrite (Get_spec h fuel t m k Ht Hf), bind_ok, kv_map_lookup by done.
    exists h, t. split_and!; try done; try lia. by exists m.
Qed.

(** Enough pages for [n] more operations on a tree of height [h]. *)
Definition room (n h : nat) : nat := n * (2 * (h + n) + 3).

Lemma tree_run_spec L fuel os : forall h t M,
  tree_map L h t M -> Forall (op_ok L) os -> (h + length os <= fuel)%nat ->
  (size (pages (store t)) + room (length os) h <= page_cap)%nat ->
  tree_run fuel t os = Ok (spec_run M os).
Proof.
  induction os as [|o os IH]; intros h t M Ht Hos Hf Hc; [done|].
  apply Forall_cons in Hos as [Ho Hos]. unfold room in *. simpl length in *.
  destruct (tree_step_spec L fuel h t M o Ht Ho) as (h' & t' & E & Ht' & Hh & Hsz); [lia|nia|].
  cbn [tree_run spec_run]. rewrite E, bind_ok. destruct (spec_step M o) as [r M']. simpl in *.
  rewrite (IH h' t' M'); try done; [lia|].
  unfold room. assert (length os * h' <= length os * Datatypes.S h)%nat by nia. nia.
Qed.

(** * Properties *)

(** C1: the tree as a map, within the limits of its page splits: over any page
    store that keeps its laws and has room, every sequence of insertions,
    deletions and lookups on an empty tree, in which the inserted keys all have
    the same length, of 10 to 400 bytes, and key and value together at most 1000
    bytes, gives the answers of a finite map: no operation panics or runs out of
    fuel, splits, merges and root changes lose nothing and duplicate nothing.
    (Keys of fewer than 10 bytes can make a split overflow its page, longer pairs
    do not fit, and keys of different lengths can do so in a deletion.) *)
Theorem btree_refines_map L t os :
  Root t = 0 -> pages (store t) = ∅ -> Forall (op_ok L) os ->
  (room (length os) 0 <= page_cap)%nat ->
  tree_run (length os) t os = Ok (spec_run ∅ os).
Proof.
  intros Hr Hp Hos Hc. apply (tree_run_spec L _ os 0).
  - exists []. split_and!; [|constructor|done]. split_and!; [constructor|constructor|by left].
  - done.
  - lia.
  - rewrite Hp, map_size_empty. lia.
Qed.

(** C14: [Insert] of a pair with a key of 10 to 400 bytes and at most 1000 bytes in
    all succeeds on every represented tree of height [h] with fuel above [h] and
    room for [2h + 3] more pages in the store: it stores the pair under its key
    and keeps all others, adds at most one level and at most [2h + 3] live pages,
    and the live pages of the store are again exactly the pages of the tree. *)
Theorem Insert_correct h fuel t m key val :
  tree_rep h t m -> kv_ok (key, val) -> (h < fuel)%nat ->
  (size (pages (store t)) + 2 * h + 3 <= page_cap)%nat ->
  exists h' t' m', Insert fuel t key val = Ok t' /\ tree_rep h' t' m' /\
    kv_map m' = <[key := val]> (kv_map m) /\ (h <= h' <= Datatypes.S h)%nat /\
    (size (pages (store t')) <= size (pages (store t)) + 2 * h + 3)%nat.
Proof.
  intros Ht Hkv Hf Hc. pose proof Ht as (Hs & _ & _).
  destruct (Insert_spec h fuel t m key val Ht Hkv Hf Hc) as (h' & t' & E & Ht' & _ & Hh & Hsz).
  exists h', t', (kv_insert key val m). split_and!; try done; try lia. by apply kv_map_insert.
Qed.

(** C15: [Delete] on a represented tree whose keys have one length reports
    whether the key was there, removes it and keeps all other pairs, never adds
    a level or a page, and leaves an empty store when the last pair goes. *)
Theorem Delete_correct L h fuel t m key :
  tree_rep h t m -> same_len L m -> (h < fuel)%nat -> (size (pages (store t)) <= page_cap)%nat ->
  exists h' t' m', Delete fuel t key = Ok (bool_decide (is_Some (kv_map m !! key)), t') /\
    tree_rep h' t' m' /\ kv_map m' = delete key (kv_map m) /\ (h' <= h)%nat /\
    (size (pages (store t')) <= size (pages (store t)))%nat /\
    (m' = [] -> Root t' = 0 /\ pages (store t') = ∅).
Proof.
  intros Ht HL Hf Hc. pose proof Ht as (Hs & _ & _).
  destruct (Delete_spec L h fuel t m key Ht HL Hf Hc) as (h' & t' & E & Ht' & Hh & Hsz).
  exists h', t', (kv_delete key m). rewrite kv_map_lookup.
  split_and!; try done; [by apply kv_map_delete|]. intros Hnil. rewrite Hnil in Ht'.
  destruct Ht' as (_ & _ & [(? & _ & _ & ?)|[_ Hk]]); [done|].
  apply (erep_first _ (Datatypes.S h')) in Hk as [? _]. done.
Qed.

(** C16: [Get] returns the value stored under the key and nothing when there is
    none, with fuel above the height of the tree. *)
Theorem Get_correct h fuel t m key :
  tree_rep h t m -> (h < fuel)%nat -> Get fuel t key = Ok (kv_map m !! key).
Proof. intros Ht Hf. rewrite kv_map_lookup. by apply (Get_spec h). Qed.

End store.

(** * Concrete runs *)

Definition key10 (n : Z) : bytes := [0; 0; 0; 0; 0; 0; 0; 0; 0; n].

Definition sample_ops : list op :=
  [OpInsert (key10 2) [20]; OpInsert (key10 1) [10]; OpGet (key10 2);
   OpDelete (key10 2); OpDelete (key10 2); OpGet (key10 1)].

Lemma btree_refines_map_witness :
  tree_run 6 empty_tree sample_ops =
    Ok [OutNone; OutNone; OutVal (Some [20]); OutFound true; OutFound false; OutVal (Some [10])].
Proof.
  change 6%nat with (length sample_ops).
  rewrite (btree_refines_map 10 empty_tree sample_ops).
  - vm_compute. reflexivity.
  - reflexivity.
  - reflexivity.
  - repeat constructor; unfold kv_ok; simpl; unfold len; simpl; lia.
  - apply mem_page_cap. vm_compute. discriminate.
Defined.

Lemma Insert_correct_witness : exists h' t' m',
  Insert 1 empty_tree (key10 1) [7] = Ok t' /\ tree_rep h' t' m' /\
  kv_map m' = <[key10 1 := [7]]> (kv_map []) /\ (0 <= h' <= 1)%nat /\
  (size (pages (store t')) <= size (pages (store empty_tree)) + 2 * 0 + 3)%nat.
Proof.
  apply (Insert_correct 0 1 empty_tree [] (key10 1) [7]).
  - apply empty_tree_rep.
  - unfold kv_ok, len. simpl. lia.
  - lia.
  - rewrite mem_empty_size. apply mem_page_cap. lia.
Defined.

(** A tree with one pair, as [Insert] builds it. *)
Lemma one_pair_tree : exists h (t : BTree memStore),
  Insert 1 empty_tree (key10 1) [7] = Ok t /\ tree_rep h t [(key10 1, [7])] /\ (h <= 1)%nat /\
  (size (pages (store t)) <= 3)%nat.
Proof.
  destruct (Insert_spec 0 1 empty_tree [] (key10 1) [7]) as (h' & t' & E & Ht & _ & Hh & Hsz).
  - apply empty_tree_rep.
  - unfold kv_ok, len. simpl. lia.
  - lia.
  - rewrite mem_empty_size. apply mem_page_cap. lia.
  - exists h', t'. rewrite mem_empty_size in Hsz. split_and!; [exact E|exact Ht|lia|lia].
Qed.

Lemma Delete_correct_witness : exists t t' : BTree memStore,
  Insert 1 empty_tree (key10 1) [7] = Ok t /\
  exists h' m', Delete 2 t (key10 1) = Ok (true, t') /\ tree_rep h' t' m' /\
    kv_map m' = delete (key10 1) {[key10 1 := [7]]}.
Proof.
  destruct one_pair_tree as (h & t & E & Ht & Hh & Hsz).
  destruct (Delete_correct 10 h 2 t _ (key10 1) Ht) as (h' & t' & m' & Ed & Ht' & Hm & _).
  - by repeat constructor.
  - lia.
  - apply mem_page_cap. lia.
  - exists t, t'. split; [exact E|]. exists h', m'. split_and!; [exact Ed|exact Ht'|exact Hm].
Defined.

Lemma Get_correct_witness : exists t : BTree memStore,
  Insert 1 empty_tree (key10 1) [7] = Ok t /\
  Get 2 t (key10 1) = Ok (Some [7]) /\ Get 2 t (key10 2) = Ok None.
Proof.
  destruct one_pair_tree as (h & t & E & Ht & Hh & Hsz). exists t.
  split_and!; [exact E| |];
    rewrite (Get_correct h 2 t _ _ Ht) by lia; vm_compute; reflexivity.
Defined.
