(* ===== verification/Iter.v ===== *)
(** The iterator of src/internal/btree/iterator.go.

    On trees of at most two levels, the iterator that [SeekLE] gives walks
    through the pairs of the tree in key order. On deeper trees [Next] leaves
    the pages of the previous path in place and the walk goes wrong; a concrete
    tree of three levels shows it. *)
From S2P Require Import Prelude Keys KVList Node NodeOps Tree TreeRep TreeInsert TreeSpec.
#[local] Open Scope Z_scope.

(** * The code *)

Section iter.
Context {S : Type} `{PageStore S}.

(** The [tree] field is the tree the functions are given. *)
Record BIter := mkIter { iter_path : list BNode; iter_pos : list Z }.

Fixpoint SeekLE_loop (fuel : nat) (s : S) (iter : BIter) (node : BNode) (key : bytes) : res BIter :=
  match fuel with
  | O => OutOfFuel
  | Datatypes.S fuel =>
      idx ← nodeLookupLE node key;
      let iter := mkIter (iter_path iter ++ [node]) (iter_pos iter ++ [idx]) in
      ty ← btype node;
      if ty =? BNODE_LEAF then Ok iter
      else
        ptr ← getPtr node idx;
        node ← GetPage s ptr;
        SeekLE_loop fuel s iter node key
  end.

Definition SeekLE (fuel : nat) (tree : BTree S) (key : bytes) : res BIter :=
  let iter := mkIter [] [] in
  if Root tree =? 0 then Ok iter
  else node ← GetPage (store tree) (Root tree); SeekLE_loop fuel (store tree) iter node key.

(** The last elements of [path] and [pos], which index out of range when empty. *)
Definition iter_leaf (iter : BIter) : res (BNode * Z) :=
  leaf ← index (iter_path iter) (len (iter_path iter) - 1);
  pos ← index (iter_pos iter) (len (iter_pos iter) - 1);
  Ok (leaf, pos).

Definition Valid (iter : BIter) : res bool :=
  if len (iter_path iter) =? 0 then Ok false
  else '(leaf, pos) ← iter_leaf iter; n ← nkeys leaf; Ok (pos <? n).

Definition Key (iter : BIter) : res bytes := '(leaf, pos) ← iter_leaf iter; getKey leaf pos.

Definition Val (iter : BIter) : res bytes := '(leaf, pos) ← iter_leaf iter; getVal leaf pos.

(** [path[level] = child] and [pos[level] = v]: out of range they panic. *)
Definition set_at {A} (l : list A) (level : nat) (x : A) : res (list A) :=
  if (level <? length l)%nat then Ok (<[level := x]> l) else Panic.

(** The walk down to the first leaf below [child]. *)
Fixpoint Next_down (fuel : nat) (s : S) (iter : BIter) (child : BNode) : res BIter :=
  match fuel with
  | O => OutOfFuel
  | Datatypes.S fuel =>
      ty ← btype child;
      if ty =? BNODE_INTERNAL then
        ptr ← getPtr child 0;
        child ← GetPage s ptr;
        Next_down fuel s (mkIter (iter_path iter ++ [child]) (iter_pos iter ++ [0])) child
      else Ok iter
  end.

(** The loop [for level > 0]; the recursion is on [level]. *)
Fixpoint Next_up (fuel : nat) (s : S) (level : nat) (iter : BIter) : res BIter :=
  match level with
  | O => Ok (mkIter [] [])
  | Datatypes.S level =>
      node ← index (iter_path iter) (Z.of_nat level);
      pos ← index (iter_pos iter) (Z.of_nat level);
      n ← nkeys node;
      if u16 (pos + 1) <? n then
        ps ← set_at (iter_pos iter) level (u16 (pos + 1));
        ptr ← getPtr node (u16 (pos + 1));
        child ← GetPage s ptr;
        path ← set_at (iter_path iter) (Datatypes.S level) child;
        ps ← set_at ps (Datatypes.S level) 0;
        Next_down fuel s (mkIter path ps) child
      else Next_up fuel s level iter
  end.

Definition Next (fuel : nat) (tree : BTree S) (iter : BIter) : res BIter :=
  let level := len (iter_path iter) - 1 in
  leaf ← index (iter_path iter) level;
  pos ← index (iter_pos iter) level;
  n ← nkeys leaf;
  if u16 (pos + 1) <? n then
    ps ← set_at (iter_pos iter) (Z.to_nat level) (u16 (pos + 1));
    Ok (mkIter (iter_path iter) ps)
  else Next_up fuel (store tree) (Z.to_nat level) iter.

(** The pairs that a client sees that calls [Valid], [Key], [Val] and [Next]
    in turn, as [Scanner] does. *)
Fixpoint walk (n fuel : nat) (tree : BTree S) (iter : BIter) : res kvs :=
  match n with
  | O => OutOfFuel
  | Datatypes.S n =>
      ok ← Valid iter;
      if negb ok then Ok []
      else
        k ← Key iter;
        v ← Val iter;
        iter ← Next fuel tree iter;
        l ← walk n fuel tree iter;
        Ok ((k, v) :: l)
  end.

End iter.

(** * What the iterator stands for *)

(** [iter_at pg h path m i iter]: below the pages [path] that lead to it, the
    iterator stands at the [i]-th pair of the kvs [m] of a node of height [h]. *)
Section iter_rep.
Context {S : Type} `{PageStoreOK S}.

Definition at_leaf (b : BNode) (m : kvs) (i : nat) : Prop :=
  node_rep b BNODE_LEAF (leaf_entries m) /\ (i < length m)%nat.

Lemma at_leaf_val b m i k v : at_leaf b m i -> m !! i = Some (k, v) ->
  nkeys b = Ok (len m) /\ getKey b (Z.of_nat i) = Ok k /\ getVal b (Z.of_nat i) = Ok v.
Proof.
  intros [Hb Hi] Hm. assert (leaf_entries m !! i = Some (mkEntry 0 k v)) as He.
  { unfold leaf_entries. by rewrite list_lookup_fmap, Hm. }
  rewrite (partial_nkeys Hb), (partial_getKey Hb _ _ He), (partial_getVal Hb _ _ He).
  split_and!; try done. unfold leaf_entries, len. by rewrite length_fmap.
Qed.

Definition iter_at (t : BTree S) (m : kvs) (i : nat) (iter : BIter) : Prop :=
  (exists b, iter = mkIter [b] [Z.of_nat i] /\ at_leaf b m i) \/
  (exists r es1 e es2 b m1 m0 m2 F2 i0,
     iter = mkIter [r; b] [Z.of_nat (length es1); Z.of_nat i0] /\
     node_rep r BNODE_INTERNAL (es1 ++ [e] ++ es2) /\ at_leaf b m0 i0 /\
     m = m1 ++ m0 ++ m2 /\ i = (length m1 + i0)%nat /\
     kids_rep (pages (store t)) (stored (pages (store t)) 0) es2 m2 F2).

(** [Valid], [Key] and [Val] look at the leaf only. *)
Lemma iter_leaf_val iter b m i k v :
  iter_leaf iter = Ok (b, Z.of_nat i) -> len (iter_path iter) <> 0 ->
  at_leaf b m i -> m !! i = Some (k, v) ->
  Valid iter = Ok true /\ Key iter = Ok k /\ Val iter = Ok v.
Proof.
  intros El Hne Ha Hm. destruct (at_leaf_val _ _ _ _ _ Ha Hm) as (E1 & E2 & E3).
  destruct Ha as [_ Hi]. unfold Valid, Key, Val. rewrite El, !bind_ok. cbv beta iota.
  rewrite E1, E2, E3, bind_ok. replace (_ =? 0) with false by lia.
  split_and!; try done. f_equal. unfold len. lia.
Qed.

Lemma iter_at_val t m i iter k v : iter_at t m i iter -> m !! i = Some (k, v) ->
  Valid iter = Ok true /\ Key iter = Ok k /\ Val iter = Ok v.
Proof.
  intros [(b & -> & Ha)|(r & es1 & e & es2 & b & m1 & m0 & m2 & F2 & i0 & -> & _ & Ha & -> & -> & _)] Hm.
  - by eapply iter_leaf_val.
  - pose proof Ha as [_ Hi].
    rewrite lookup_app_r in Hm by lia. rewrite lookup_app_l in Hm by lia.
    replace (length m1 + i0 - length m1)%nat with i0 in Hm by lia. by eapply iter_leaf_val.
Qed.

(** The iterator steps to the next pair, or to the empty path after the last. *)
Definition steps_to (t : BTree S) (m : kvs) (i : nat) (r : res BIter) : Prop :=
  exists iter, r = Ok iter /\
    if decide (i < length m)%nat then iter_at t m i iter else iter = mkIter [] [].

(** [Next] on a leaf: the next index, or the walk up. *)
Lemma Next_leaf fuel t path ps b m i :
  at_leaf b m i -> len m < 65536 -> length path = length ps ->
  Next fuel t (mkIter (path ++ [b]) (ps ++ [Z.of_nat i])) =
    if (Datatypes.S i <? length m)%nat
    then Ok (mkIter (path ++ [b]) (ps ++ [Z.of_nat (Datatypes.S i)]))
    else Next_up fuel (store t) (length path) (mkIter (path ++ [b]) (ps ++ [Z.of_nat i])).
Proof.
  intros Ha Hm Hl. destruct (lookup_lt_is_Some_2 m i) as [[k v] Hk]; [apply Ha|].
  destruct (at_leaf_val _ _ _ _ _ Ha Hk) as (E1 & _ & _). destruct Ha as [_ Hi].
  unfold Next. cbn [iter_path iter_pos].
  replace (len (path ++ [b]) - 1) with (Z.of_nat (length path))
    by (unfold len; rewrite length_app; simpl; lia).
  unfold index, set_at. replace (0 <=? _) with true by lia. rewrite Nat2Z.id.
  rewrite (list_lookup_middle path), (list_lookup_middle ps) by done. cbn [of_option].
  rewrite !bind_ok, E1, bind_ok.
  rewrite u16_id by (unfold len in *; lia).
  destruct (Nat.ltb_spec (Datatypes.S i) (length m)) as [Hlt|Hge].
  - replace (_ <? _) with true by (unfold len; lia).
    replace (_ <? _)%nat with true by (symmetry; apply Nat.ltb_lt; rewrite length_app; simpl; lia).
    rewrite bind_ok, insert_app_r_alt by lia. rewrite Hl, Nat.sub_diag. simpl. do 4 f_equal. lia.
  - by replace (_ <? _) with false by (unfold len; lia).
Qed.

(** A leaf page holds fewer than 2^16 pairs. *)
Lemma at_leaf_small b m i : at_leaf b m i -> len m < 65536.
Proof.
  intros [Hb _]. pose proof (old_nsize Hb) as Ho. unfold leaf_entries in Ho.
  unfold len, HEADER in *. rewrite length_fmap in Ho. lia.
Qed.

Lemma kid_leaf e m0 G pg : kids_rep pg (stored pg 0) [e] m0 G ->
  exists b, pg !! e_ptr e = Some b /\ node_rep b BNODE_LEAF (leaf_entries m0) /\ m0 <> [].
Proof.
  intros (b & F & Hp & Hst & _)%kids_one_inv. pose proof (stored_nonempty _ _ _ _ _ Hst) as Hne.
  destruct Hst as (es & Hb & _ & _ & -> & _). by exists b.
Qed.

(** After the last pair of a leaf: the first pair of the next leaf. *)
Lemma Next_up_spec fuel t r es1 e es2 b m1 m0 m2 F2 i0 : (0 < fuel)%nat ->
  node_rep r BNODE_INTERNAL (es1 ++ [e] ++ es2) ->
  kids_rep (pages (store t)) (stored (pages (store t)) 0) es2 m2 F2 -> Datatypes.S i0 = length m0 ->
  steps_to t (m1 ++ m0 ++ m2) (Datatypes.S (length m1 + i0))
    (Next_up fuel (store t) 1 (mkIter [r; b] [Z.of_nat (length es1); Z.of_nat i0])).
Proof.
  intros Hf Hr Hk2 Hend. unfold steps_to. rewrite !length_app.
  cbn [Next_up]. change (index (iter_path (mkIter [r; b] _)) (Z.of_nat 0)) with (Ok r).
  rewrite bind_ok.
  change (index (iter_pos (mkIter _ [Z.of_nat (length es1); _])) (Z.of_nat 0))
    with (Ok (Z.of_nat (length es1))).
  rewrite bind_ok, (partial_nkeys Hr), bind_ok.
  pose proof (old_nsize Hr) as Ho. unfold HEADER in Ho.
  rewrite !len_app, len_cons, len_nil in Ho |- *. pose proof (len_nonneg es2).
  rewrite u16_id by (unfold len in *; lia).
  destruct es2 as [|e2 es2].
  * rewrite (proj2 (Z.ltb_ge _ _)) by (unfold len; cbn [length]; lia).
    apply (erep_nil _ 1) in Hk2 as [-> _]. simpl length.
    eexists. split; [done|]. by rewrite decide_False by lia.
  * rewrite len_cons in *. pose proof (len_nonneg es2).
    replace (_ <? _) with true by (unfold len in *; lia).
    change (e2 :: es2) with ([e2] ++ es2) in Hk2.
    apply kids_app_inv in Hk2 as (m2' & G2 & m3 & F3 & -> & -> & _ & Hk2 & Hk3).
    destruct (kid_leaf _ _ _ _ Hk2) as (b2 & Hp2 & Hb2 & Hne2).
    replace (Z.of_nat (length es1) + 1) with (Z.of_nat (length (es1 ++ [e])))
      by (rewrite length_app; simpl; lia).
    change (set_at (iter_pos (mkIter _ [Z.of_nat (length es1); ?x])) 0 ?y) with (Ok [y; x]).
    rewrite bind_ok, (partial_getPtr Hr _ e2), bind_ok
      by (rewrite app_assoc; by apply list_lookup_middle).
    rewrite (GetPage_ok _ _ _ Hp2), bind_ok.
    destruct fuel as [|fuel]; [lia|]. unfold set_at.
    change (1 <? length _)%nat with true. cbv iota.
    rewrite !bind_ok. cbn [Next_down]. rewrite (partial_btype Hb2), bind_ok.
    change (BNODE_LEAF =? BNODE_INTERNAL) with false. cbv iota.
    eexists. split; [done|]. rewrite length_app.
    assert (0 < length m2')%nat by (destruct m2'; [done|simpl; lia]).
    rewrite decide_True by lia. right.
    exists r, (es1 ++ [e]), e2, es2, b2, (m1 ++ m0), m2', m3, F3, 0%nat.
    split_and!; try done.
    -- by rewrite <-app_assoc.
    -- by rewrite <-app_assoc.
    -- rewrite length_app. lia.
Qed.

Lemma Next_spec fuel t m i iter : (0 < fuel)%nat -> iter_at t m i iter ->
  steps_to t m (Datatypes.S i) (Next fuel t iter).
Proof.
  intros Hf [(b & -> & Ha)|(r & es1 & e & es2 & b & m1 & m0 & m2 & F2 & i0 & -> & Hr & Ha & -> & -> & Hk2)];
    pose proof (at_leaf_small _ _ _ Ha) as Hsm; unfold steps_to.
  - pose proof (Next_leaf fuel t [] [] b m i Ha Hsm eq_refl) as E. simpl app in E. rewrite E.
    destruct (Nat.ltb_spec (Datatypes.S i) (length m)) as [Hlt|Hge].
    + eexists. split; [done|]. rewrite decide_True by done. left. exists b. split; [done|].
      split; [apply Ha|done].
    + eexists. split; [done|]. by rewrite decide_False by lia.
  - pose proof (Next_leaf fuel t [r] [Z.of_nat (length es1)] b m0 i0 Ha Hsm eq_refl) as E.
    simpl app in E. rewrite E. simpl length. rewrite !length_app.
    destruct (Nat.ltb_spec (Datatypes.S i0) (length m0)) as [Hlt|Hge].
    + eexists. split; [done|]. rewrite decide_True by lia. right.
      exists r, es1, e, es2, b, m1, m0, m2, F2, (Datatypes.S i0).
      split_and!; try done; try lia. split; [apply Ha|done].
    + pose proof Ha as [_ Hi]. rewrite <-!length_app. eapply Next_up_spec; [done|exact Hr|exact Hk2|lia].
Qed.

(** * Seeking *)

(** Looking up inside the kid that holds the key. *)
Lemma is_le_app m1 m0 m2 key i0 :
  all_lt m1 key -> all_gt m2 key -> is_le (fst <$> m0) key i0 -> (i0 < length m0)%nat ->
  (m1 = [] \/ key_le (first_key m0) key) ->
  is_le (fst <$> m1 ++ m0 ++ m2) key (length m1 + i0).
Proof.
  intros Hlt Hgt [Hle Hnext] Hi Hfirst. destruct (lookup_lt_is_Some_2 m0 i0 Hi) as [[k v] Hk].
  assert ((fst <$> m1 ++ m0 ++ m2) !! (length m1 + i0)%nat = Some k) as Hk'.
  { rewrite list_lookup_fmap, lookup_app_r, lookup_app_l by lia.
    replace (length m1 + i0 - length m1)%nat with i0 by lia. by rewrite Hk. }
  split.
  - destruct Hle as [->|(k' & Hk'' & Hle)].
    + destruct Hfirst as [->|Hf]; [by left|]. right. exists k. split; [done|].
      destruct m0 as [|[k0 v0] m0]; [done|]. by injection Hk as -> ->.
    + right. rewrite list_lookup_fmap, Hk in Hk''. injection Hk'' as <-. eauto.
  - intros j k' Hj Hlt'. rewrite list_lookup_fmap in Hj.
    apply fmap_Some in Hj as ([k1 v1] & Hj & ->).
    rewrite lookup_app_r in Hj by lia. destruct (decide (j - length m1 < length m0)%nat) as [Hin|Hout].
    + rewrite lookup_app_l in Hj by done. apply (Hnext (j - length m1)%nat); [|lia].
      by rewrite list_lookup_fmap, Hj.
    + rewrite lookup_app_r in Hj by lia. unfold all_gt in Hgt. rewrite Forall_forall in Hgt.
      apply (Hgt (k1, v1)). by eapply list_elem_of_lookup_2.
Qed.

Lemma SeekLE_leaf fuel s path ps b m key :
  node_rep b BNODE_LEAF (leaf_entries m) -> m <> [] -> kv_sorted m ->
  exists i, SeekLE_loop (Datatypes.S fuel) s (mkIter path ps) b key =
    Ok (mkIter (path ++ [b]) (ps ++ [Z.of_nat i])) /\ at_leaf b m i /\ is_le (fst <$> m) key i.
Proof.
  intros Hb Hne Hs. cbn [SeekLE_loop].
  destruct (nodeLookupLE_spec _ _ _ key Hb) as (i & -> & Hle & Hlt); [by rewrite leaf_entries_keys|].
  rewrite leaf_entries_keys in Hle. unfold leaf_entries in Hlt. rewrite length_fmap in Hlt.
  rewrite bind_ok, (partial_btype Hb), bind_ok, Z.eqb_refl. exists i. split_and!; try done.
  split; [done|]. apply Hlt. by destruct m.
Qed.

Lemma SeekLE_spec h fuel t m key :
  tree_rep h t m -> (h <= 1)%nat -> (h < fuel)%nat -> m <> [] ->
  exists iter i, SeekLE fuel t key = Ok iter /\ iter_at t m i iter /\ is_le (fst <$> m) key i.
Proof.
  intros Ht Hh Hf Hne. pose proof Ht as (Hs & _ & Hroot). unfold SeekLE.
  destruct (Z.eqb_spec (Root t) 0) as [Hr|Hr].
  { by destruct Hroot as [(_ & -> & _)|[? _]]. }
  destruct (tree_rep_root _ _ _ Ht Hr) as (b & es & F & Hp & Hb & Hnes & Hn & He & _).
  rewrite (GetPage_ok _ _ _ Hp), bind_ok. destruct fuel as [|fuel]; [lia|].
  destruct h as [|[|h]]; [..|lia].
  - destruct He as [-> ->].
    destruct (SeekLE_leaf fuel (store t) [] [] b m key Hb Hne Hs) as (i & -> & Ha & Hle).
    exists (mkIter [b] [Z.of_nat i]), i. split_and!; try done. left. by exists b.
  - rewrite erep_S in He. change (ntype 1) with BNODE_INTERNAL in *. cbn [SeekLE_loop].
    destruct (nodeLookupLE_spec _ _ _ key Hb) as (j & -> & Hle & Hlt); [by eapply kids_sorted|].
    destruct (kids_locate _ _ _ _ _ _ _ He Hs Hle (Hlt Hnes)) as
      (es1 & e & es2 & m1 & F1 & b0 & m0 & F0 & m2 & F2 & -> & <- & -> & _ & _ & _ & _ & _ &
       Hp0 & (es0 & Hb0 & Hne0 & _ & -> & ->) & Hk1 & Hk2 & Hlt1 & Hgt2 & Hkey).
    rewrite bind_ok, (partial_btype Hb), bind_ok.
    change (BNODE_INTERNAL =? BNODE_LEAF) with false. cbv iota.
    rewrite (partial_getPtr Hb _ e) by apply lookup_mid.
    rewrite bind_ok, (GetPage_ok _ _ _ Hp0), bind_ok.
    apply kv_sorted_app in Hs as (_ & Hs & _). apply kv_sorted_app in Hs as (Hs0 & _ & _).
    destruct fuel as [|fuel]; [lia|]. simpl app.
    destruct (SeekLE_leaf fuel (store t) [b] [Z.of_nat (length es1)] b0 m0 key Hb0)
      as (i0 & -> & Ha & Hle0); [by intros ->|done|].
    exists (mkIter [b; b0] [Z.of_nat (length es1); Z.of_nat i0]), (length m1 + i0)%nat.
    split_and!; try done.
    + right. by exists b, es1, e, es2, b0, m1, m0, m2, F2, i0.
    + apply is_le_app; try done; [apply Ha|].
      destruct Hle as [[Hz|(k & Hk & Hle)] _].
      * left. apply nil_length_inv in Hz as ->. by apply (erep_nil _ 1) in Hk1 as [-> _].
      * right. rewrite list_lookup_fmap, lookup_mid in Hk. injection Hk as <-. by rewrite <-Hkey.
Qed.

(** * Walking *)

Lemma walk_spec fuel t m n : forall i iter, (0 < fuel)%nat -> iter_at t m i iter ->
  (i < length m)%nat -> (length m - i < n)%nat -> walk n fuel t iter = Ok (drop i m).
Proof.
  induction n as [|n IH]; intros i iter Hf Hat Hi Hn; [lia|].
  destruct (lookup_lt_is_Some_2 m i Hi) as [[k v] Hk].
  destruct (iter_at_val _ _ _ _ _ _ Hat Hk) as (Ev & Ek & El).
  destruct (Next_spec fuel t m i iter Hf Hat) as (iter' & En & Hat').
  cbn [walk]. rewrite Ev, bind_ok. simpl negb. cbv iota.
  rewrite Ek, bind_ok, El, bind_ok, En, bind_ok. rewrite (drop_S m (k, v)) by done.
  destruct (decide (Datatypes.S i < length m)%nat) as [Hi'|Hi'].
  - by rewrite (IH (Datatypes.S i)) by (done || lia).
  - subst iter'. rewrite drop_ge by lia. destruct n as [|n]; [lia|]. done.
Qed.

(** C18: on a tree of at most two levels, the iterator that [SeekLE] gives for a
    key visits, in order and each once, all pairs from the last key that is not
    above the given one (from the first pair, when every key is above it). *)
Theorem SeekLE_walk h fuel n t m key :
  tree_rep h t m -> (h <= 1)%nat -> (h < fuel)%nat -> (length m < n)%nat -> m <> [] ->
  exists iter i, SeekLE fuel t key = Ok iter /\ is_le (fst <$> m) key i /\
    walk n fuel t iter = Ok (drop i m).
Proof.
  intros Ht Hh Hf Hn Hne.
  destruct (SeekLE_spec h fuel t m key Ht Hh Hf Hne) as (iter & i & E & Hat & Hle).
  exists iter, i. split_and!; try done.
  assert (i < length m)%nat as Hi.
  { destruct Hle as [[->|(k & Hk & _)] _]; [destruct m; [done|simpl; lia]|].
    apply lookup_lt_Some in Hk. by rewrite length_fmap in Hk. }
  apply walk_spec; (done || lia).
Qed.

End iter_rep.

(** * Witnesses and a tree of three levels *)

Lemma SeekLE_walk_witness : exists t : BTree memStore,
  Insert 1 empty_tree (key10 1) [7] = Ok t /\
  exists iter i, SeekLE 2 t (key10 5) = Ok iter /\
    is_le (fst <$> [(key10 1, [7])]) (key10 5) i /\ walk 2 2 t iter = Ok (drop i [(key10 1, [7])]).
Proof.
  destruct one_pair_tree as (h & t & E & Ht & Hh & Hsz). exists t. split; [exact E|].
  apply (SeekLE_walk h 2 2 t [(key10 1, [7])] (key10 5)); [exact Ht|exact Hh|lia|simpl; lia|discriminate].
Defined.

(** A page of [sz] bytes with the given entries, written by the code. *)
Fixpoint append_entries (b : BNode) (i : Z) (es : list entry) : res BNode :=
  match es with
  | [] => Ok b
  | e :: es => b ← nodeAppendKV b i (e_ptr e) (e_key e) (e_val e); append_entries b (i + 1) es
  end.

Definition build_page (sz ty : Z) (es : list entry) : res BNode :=
  b ← setHeader (make sz) ty (len es); append_entries b 0 es.

Lemma append_entries_spec ty n es2 : forall b es1,
  Forall (fun e => 0 <= e_ptr e < 18446744073709551616) es2 ->
  partial_rep b ty n es1 -> len es1 + len es2 <= n ->
  HEADER + 10 * n + kvsum es1 + kvsum es2 <= len b ->
  exists b', append_entries b (len es1) es2 = Ok b' /\ partial_rep b' ty n (es1 ++ es2).
Proof.
  induction es2 as [|e es2 IH]; intros b es1 Hes Hr Hn Hk.
  - rewrite app_nil_r. by exists b.
  - apply Forall_cons in Hes as [He Hes]. rewrite len_cons in Hn. rewrite kvsum_cons in Hk.
    pose proof (len_nonneg es2). pose proof (kvsum_nonneg es2). cbn [append_entries].
    destruct (nodeAppendKV_spec b ty n es1 (e_ptr e) (e_key e) (e_val e) Hr)
      as (b1 & -> & R1 & L1); [lia|unfold ksize in Hk; lia|done|].
    assert (mkEntry (e_ptr e) (e_key e) (e_val e) = e) as E by (by destruct e). rewrite E in R1.
    rewrite bind_ok, <-(len_snoc es1 e). change (e :: es2) with ([e] ++ es2). rewrite app_assoc.
    apply IH; try done; [rewrite len_snoc; lia|].
    rewrite kvsum_app, kvsum_cons, kvsum_nil. lia.
Qed.

Lemma build_page_rep sz ty es :
  0 <= ty < 65536 -> nsize es <= sz < 65536 ->
  Forall (fun e => 0 <= e_ptr e < 18446744073709551616) es ->
  exists b, build_page sz ty es = Ok b /\ node_rep b ty es.
Proof.
  intros Hty Hsz Hes. unfold build_page. unfold nsize in Hsz. pose proof (kvsum_nonneg es).
  pose proof (len_nonneg es).
  assert (len (make sz) = sz) as L by (apply len_make; unfold HEADER in *; lia).
  destruct (setHeader_spec (make sz) ty (len es)) as (b & -> & R & Lb); [done|lia|lia|].
  rewrite bind_ok. apply (append_entries_spec ty (len es) es b []); [done|done| |].
  - rewrite len_nil. lia.
  - rewrite kvsum_nil. lia.
Qed.

(** A page of 64 bytes, which the entries below fit in. *)
Definition page_of (ty : Z) (es : list entry) : BNode :=
  match build_page 64 ty es with Ok b => b | _ => [] end.

Lemma page_of_rep ty es :
  0 <= ty < 65536 -> nsize es <= 64 -> Forall (fun e => 0 <= e_ptr e < 18446744073709551616) es ->
  node_rep (page_of ty es) ty es.
Proof.
  intros Hty Hsz Hes. unfold page_of.
  destruct (build_page_rep 64 ty es) as (b & -> & R); [done|lia|done|done].
Qed.

(** Three leaves below two inner pages below the root. *)
Definition deep_pages : gmap Z BNode :=
  {[ 1 := page_of BNODE_INTERNAL [mkEntry 2 (key10 1) []; mkEntry 3 (key10 2) []];
     2 := page_of BNODE_INTERNAL [mkEntry 4 (key10 1) []];
     3 := page_of BNODE_INTERNAL [mkEntry 5 (key10 2) []; mkEntry 6 (key10 3) []];
     4 := page_of BNODE_LEAF [mkEntry 0 (key10 1) [1]];
     5 := page_of BNODE_LEAF [mkEntry 0 (key10 2) [2]];
     6 := page_of BNODE_LEAF [mkEntry 0 (key10 3) [3]] ]}.

Definition deep_tree : BTree memStore := mkTree 1 (mkMem deep_pages).

Definition deep_kvs : kvs := [(key10 1, [1]); (key10 2, [2]); (key10 3, [3])].

Lemma deep_node ty es m F p h :
  ntype h = ty -> es <> [] -> nsize es <= 64 ->
  Forall (fun e => 0 <= e_ptr e < 18446744073709551616) es ->
  deep_pages !! p = Some (page_of ty es) -> erep deep_pages h es m F -> p ∉ F ->
  kids_rep deep_pages (stored deep_pages h) [mkEntry p (first_key m) []] m ({[p]} ∪ F).
Proof.
  intros <- Hne Hsz Hes Hp He Hn. eapply kids_one; [exact Hp| |done].
  exists es. split_and!; try done; [|unfold BTREE_PAGE_SIZE; lia].
  apply page_of_rep; [by destruct h|done|done].
Qed.

(** Pointers of concrete entries are in range. *)
Ltac ptrs_ok := repeat first [apply Forall_nil_2 | apply Forall_cons_2; [simpl; lia|]].

Lemma deep_leaf p k v :
  deep_pages !! p = Some (page_of BNODE_LEAF [mkEntry 0 (key10 k) [v]]) ->
  kids_rep deep_pages (stored deep_pages 0) [mkEntry p (key10 k) []] [(key10 k, [v])] {[p]}.
Proof.
  intros Hp. replace ({[p]} : gset Z) with ({[p]} ∪ ∅ : gset Z) by set_solver.
  apply (deep_node BNODE_LEAF [mkEntry 0 (key10 k) [v]] [(key10 k, [v])]); try done.
  by repeat constructor.
Qed.

Lemma deep_tree_rep : tree_rep 2 deep_tree deep_kvs.
Proof.
  assert (kids_rep deep_pages (stored deep_pages 1)
    [mkEntry 2 (key10 1) []] [(key10 1, [1])] ({[2]} ∪ {[4]})) as H2.
  { apply (deep_node BNODE_INTERNAL [mkEntry 4 (key10 1) []] [(key10 1, [1])]); try done; [ptrs_ok|].
    by apply (deep_leaf 4). }
  assert (kids_rep deep_pages (stored deep_pages 1)
    [mkEntry 3 (key10 2) []] [(key10 2, [2]); (key10 3, [3])] ({[3]} ∪ ({[5]} ∪ {[6]}))) as H3.
  { apply (deep_node BNODE_INTERNAL [mkEntry 5 (key10 2) []; mkEntry 6 (key10 3) []]
      [(key10 2, [2]); (key10 3, [3])]); try done; [ptrs_ok|].
    apply (kids_app _ _ [_] [_] _ [_] [_] _); [by apply (deep_leaf 5)|by apply (deep_leaf 6)|set_solver]. }
  split_and!.
  - repeat constructor.
  - by repeat constructor.
  - right. split; [done|].
    change (pages (store deep_tree)) with deep_pages.
    replace (dom deep_pages) with
      ({[1]} ∪ (({[2]} ∪ {[4]}) ∪ ({[3]} ∪ ({[5]} ∪ {[6]}))) : gset Z)
      by (vm_compute; reflexivity).
    apply (deep_node BNODE_INTERNAL [mkEntry 2 (key10 1) []; mkEntry 3 (key10 2) []] deep_kvs); try done; [ptrs_ok|].
    apply (kids_app _ _ [_] [_] _ [_] [_; _] _); [exact H2|exact H3|set_solver].
Qed.

(** On a tree of three levels the walk goes wrong: [Next] appends to a path
    it has not cut, so the second leaf is visited twice and the third never. *)
Theorem Next_three_levels :
  tree_rep 2 deep_tree deep_kvs /\
  (iter ← SeekLE 3 deep_tree (key10 0); walk 9 3 deep_tree iter)
    = Ok [(key10 1, [1]); (key10 2, [2]); (key10 2, [2])].
Proof. split; [exact deep_tree_rep|]. vm_compute. reflexivity. Qed.
