(* ===== verification/NodeSearch.v ===== *)
(** The binary search of [nodeLookupLE] (src/internal/btree/node.go) against a
    search that reads the keys of the node from the left. *)
From S2P Require Import Prelude Keys Node Iter.
#[local] Open Scope Z_scope.

(** The last index before the first key above [key], from index [i] on; [found]
    is the last one seen. *)
Fixpoint linear_loop (n : nat) (node : BNode) (key : bytes) (i found : Z) : res Z :=
  match n with
  | O => Ok found
  | S n =>
      k ← getKey node i;
      if cmp k key <=? 0 then linear_loop n node key (i + 1) i else Ok found
  end.

Definition linearLookupLE (node : BNode) (key : bytes) : res Z :=
  n ← nkeys node; linear_loop (Z.to_nat n) node key 0 0.

Lemma linear_loop_spec b ty es key : node_rep b ty es -> ksorted (e_key <$> es) ->
  forall n i found, (i + n = length es)%nat ->
  (i = 0%nat /\ found = 0 \/ (exists k, (e_key <$> es) !! (i - 1)%nat = Some k /\ key_le k key) /\
     (0 < i)%nat /\ found = Z.of_nat i - 1) ->
  exists r, linear_loop n b key (Z.of_nat i) found = Ok (Z.of_nat r) /\ is_le (e_key <$> es) key r.
Proof.
  intros Hb Hs. induction n as [|n IH]; intros i found Hn Hf; cbn [linear_loop].
  - assert (forall j k, (e_key <$> es) !! j = Some k -> (i - 1 < j)%nat -> key_lt key k) as Hnone.
    { intros j k Hj Hij. apply lookup_lt_Some in Hj. rewrite length_fmap in Hj. lia. }
    destruct Hf as [[-> ->]|((k & Hk & Hle) & Hi & ->)].
    + exists 0%nat. split; [done|]. split; [by left|]. intros j k Hj Hlt. apply (Hnone j k Hj). lia.
    + exists (i - 1)%nat. split; [f_equal; lia|]. split; [right; by exists k|done].
  - destruct (lookup_lt_is_Some_2 es i) as [e He]; [lia|].
    rewrite (partial_getKey Hb _ _ He), bind_ok.
    destruct (Z.leb_spec (cmp (e_key e) key) 0) as [Hle|Hgt].
    + replace (Z.of_nat i + 1) with (Z.of_nat (S i)) by lia. apply IH; [lia|]. right.
      split; [|split; [lia|lia]]. exists (e_key e). split; [|done].
      replace (S i - 1)%nat with i by lia. by rewrite list_lookup_fmap, He.
    + assert (key_lt key (e_key e)) as Hlt by (unfold key_lt; rewrite (cmp_antisym (e_key e) key); lia).
      assert (forall j k, (e_key <$> es) !! j = Some k -> (i <= j)%nat -> key_lt key k) as Hafter.
      { intros j k Hj Hij. assert ((e_key <$> es) !! i = Some (e_key e)) as Hi by (by rewrite list_lookup_fmap, He).
        destruct (decide (j = i)) as [->|Hne]; [congruence|].
        trans (e_key e); [done|]. eapply (ksorted_lookup_lt _ i j); [done..|lia]. }
      destruct Hf as [[-> ->]|((k & Hk & Hle) & Hi & ->)].
      * exists 0%nat. split; [done|]. split; [by left|]. intros j k Hj Hlt'. apply (Hafter j k Hj). lia.
      * exists (i - 1)%nat. split; [f_equal; lia|]. split; [right; by exists k|].
        intros j k' Hj Hlt'. apply (Hafter j k' Hj). lia.
Qed.

Lemma is_le_unique ks key i j : is_le ks key i -> is_le ks key j -> i = j.
Proof.
  intros [Hi1 Hi2] [Hj1 Hj2]. destruct (decide (i = j)) as [|Hne]; [done|exfalso].
  destruct (decide (i < j)%nat).
  - destruct Hj1 as [->|(k & Hk & Hle)]; [lia|]. specialize (Hi2 _ _ Hk ltac:(lia)).
    by apply key_lt_not_le in Hi2.
  - destruct Hi1 as [->|(k & Hk & Hle)]; [lia|]. specialize (Hj2 _ _ Hk ltac:(lia)).
    by apply key_lt_not_le in Hj2.
Qed.

(** C17: on every node with sorted keys the binary search finds the index that
    reading the keys from the left finds: the last key that is not above the one
    looked for, or the first key. *)
Theorem nodeLookupLE_linear b ty es key : node_rep b ty es -> ksorted (e_key <$> es) ->
  nodeLookupLE b key = linearLookupLE b key.
Proof.
  intros Hb Hs. destruct (nodeLookupLE_spec b ty es key Hb Hs) as (i & -> & Hi & _).
  unfold linearLookupLE. rewrite (partial_nkeys Hb), bind_ok.
  destruct (linear_loop_spec b ty es key Hb Hs (length es) 0 0) as (r & E & Hr); [done|by left|].
  unfold len. rewrite Nat2Z.id. rewrite (is_le_unique _ _ _ _ Hi Hr). by rewrite <-E.
Qed.

(** Three keys; the one looked for lies between the second and the third. *)
Lemma nodeLookupLE_linear_witness :
  let b := page_of BNODE_LEAF [mkEntry 0 [1] []; mkEntry 0 [3] [7]; mkEntry 0 [5] []] in
  nodeLookupLE b [4] = linearLookupLE b [4] /\ linearLookupLE b [4] = Ok 1.
Proof.
  intros b. split; [|by vm_compute].
  eapply (nodeLookupLE_linear b BNODE_LEAF [mkEntry 0 [1] []; mkEntry 0 [3] [7]; mkEntry 0 [5] []]).
  - apply page_of_rep; [done|done|]. by repeat constructor.
  - by repeat constructor.
Defined.
