(* ===== verification/Overflow.v ===== *)
(** The overflow pages of src/internal/btree/overflow.go: a value that is too
    long for a node is kept in a chain of pages, each with a mark, the length of
    its part, the next page and the part itself.

    The functions use the callbacks of the tree (the class [PageStore]); the page
    that [getPtr] gives back shares its bytes with the store, so the link that
    [allocOverflow] writes into the page before the last is a change of the
    store, which [page_put] makes. *)
From S2P Require Import Prelude Keys Node Tree TreeSpec.
#[local] Open Scope Z_scope.

Definition OVFL_MAGIC : Z := 48879.

(** [BTREE_PAGE_SIZE - 12]. *)
Definition maxChunk : Z := BTREE_PAGE_SIZE - 12.

Class PagePut (S : Type) := page_put : S -> Z -> BNode -> S.

Section code.
Context {S : Type} `{PageStore S} `{PagePut S}.

(** The page for one part, before it is linked. *)
Definition overflow_page (chunk : bytes) : res BNode :=
  page ← put_le 2 (make BTREE_PAGE_SIZE) 0 OVFL_MAGIC;
  page ← put_le 2 page 2 (u16 (len chunk));
  page ← put_le 8 page 4 0;
  copy_at page 12 chunk.

(** The loop of [allocOverflow]; each round takes at least one byte, so the
    length of the value bounds the rounds. *)
Fixpoint allocOverflow_loop (fuel : nat) (s : S) (remaining : bytes) (firstPtr prevPtr : Z)
    : res (Z * S) :=
  if 0 <? len remaining then
    match fuel with
    | O => OutOfFuel
    | Datatypes.S fuel =>
        chunk ← (if maxChunk <? len remaining then slice_to remaining maxChunk else Ok remaining);
        page ← overflow_page chunk;
        '(ptr, s) ← NewPage s page;
        let firstPtr := if firstPtr =? 0 then ptr else firstPtr in
        s ← (if negb (prevPtr =? 0) then
               prevPage ← GetPage s prevPtr;
               prevPage ← put_le 8 prevPage 4 ptr;
               Ok (page_put s prevPtr prevPage)
             else Ok s);
        remaining ← slice_from remaining (len chunk);
        allocOverflow_loop fuel s remaining firstPtr ptr
    end
  else Ok (firstPtr, s).

Definition allocOverflow (s : S) (data : bytes) : res (Z * S) :=
  _ ← setHeader (make BTREE_PAGE_SIZE) BNODE_LEAF 1;
  allocOverflow_loop (length data) s data 0 0.

(** The loops follow the chain: [fuel] bounds the number of its pages. *)
Fixpoint readOverflow (fuel : nat) (s : S) (ptr : Z) (out : bytes) : res bytes :=
  if negb (ptr =? 0) then
    match fuel with
    | O => OutOfFuel
    | Datatypes.S fuel =>
        page ← GetPage s ptr;
        mark ← slice page 0 2 ≫= le_uint 2;
        if negb (mark =? OVFL_MAGIC) then Ok out
        else
          chunkLen ← slice page 2 4 ≫= le_uint 2;
          part ← slice page 12 (u16 (12 + chunkLen));
          ptr ← slice page 4 12 ≫= le_uint 8;
          readOverflow fuel s ptr (out ++ part)
    end
  else Ok out.

Fixpoint freeOverflow (fuel : nat) (s : S) (ptr : Z) : res S :=
  if negb (ptr =? 0) then
    match fuel with
    | O => OutOfFuel
    | Datatypes.S fuel =>
        page ← GetPage s ptr;
        next ← slice page 4 12 ≫= le_uint 8;
        s ← DelPage s ptr;
        freeOverflow fuel s next
    end
  else Ok s.

End code.

Fixpoint overflowSize_loop (fuel : nat) (n pages : Z) : Z :=
  match fuel with
  | O => pages
  | S fuel =>
      if 0 <? n then overflowSize_loop fuel (if maxChunk <? n then n - maxChunk else 0) (pages + 1)
      else pages
  end.

Definition overflowSize (data : bytes) : Z := overflowSize_loop (length data) (len data) 0.

(** * What the functions rely on *)

(** The laws of the callbacks: a new page gets a number that is not in use, and
    nothing but the page named changes. *)
Class OvStoreOK (S : Type) `{PageStore S} `{PagePut S} := {
  ov_pages : S -> gmap Z BNode;
  ov_cap : nat;
  ov_GetPage_ok : forall s p b, ov_pages s !! p = Some b -> GetPage s p = Ok b;
  ov_NewPage_ok : forall s b, len b = BTREE_PAGE_SIZE -> (size (ov_pages s) < ov_cap)%nat ->
    exists p s', NewPage s b = Ok (p, s') /\ 0 < p < 18446744073709551616 /\
      ov_pages s !! p = None /\ ov_pages s' = <[p := b]> (ov_pages s);
  ov_DelPage_ok : forall s p b, ov_pages s !! p = Some b ->
    exists s', DelPage s p = Ok s' /\ ov_pages s' = delete p (ov_pages s);
  ov_put_ok : forall s p b, ov_pages (page_put s p b) = <[p := b]> (ov_pages s);
}.

(** * Chains of pages *)

Definition ov_page (b : BNode) (chunk : bytes) (next : Z) : Prop :=
  len b = BTREE_PAGE_SIZE /\ 0 < len chunk <= maxChunk /\ 0 <= next < 18446744073709551616 /\
  has b 0 (le_bytes 2 OVFL_MAGIC) /\ has b 2 (le_bytes 2 (len chunk)) /\
  has b 4 (le_bytes 8 next) /\ has b 12 chunk.

Abbreviation links := (list (Z * bytes)).

Definition head_ptr (l : links) : Z := match l with [] => 0 | (p, _) :: _ => p end.

(** [pg] holds the parts of [l], in order, from the page [head_ptr l] on. *)
Fixpoint chain (pg : gmap Z BNode) (l : links) : Prop :=
  match l with
  | [] => True
  | (p, c) :: l => (exists b, pg !! p = Some b /\ ov_page b c (head_ptr l)) /\ 0 < p /\ chain pg l
  end.

Definition chain_bytes (l : links) : bytes := concat (l.*2).

Lemma chain_frame pg pg' l : chain pg l ->
  (forall p, p ∈ l.*1 -> pg' !! p = pg !! p) -> chain pg' l.
Proof.
  induction l as [|[p c] l IH]; intros Hc Hf; [done|].
  destruct Hc as ((b & Hb & Ho) & Hp & Hl). split; [exists b; split; [|done]|split; [done|]].
  - rewrite Hf by (cbn; set_solver). done.
  - apply IH; [done|]. intros q Hq. apply Hf. cbn. set_solver.
Qed.

(** Linking the last page of a chain to a new one. *)
Lemma chain_snoc pg l p c b q c' b' b'' :
  chain pg (l ++ [(p, c)]) -> NoDup ((l ++ [(p, c)]).*1) -> pg !! q = None -> 0 < q ->
  ov_page b c q -> ov_page b' c' 0 ->
  b'' = <[p := b]> (<[q := b']> pg) -> chain b'' (l ++ [(p, c); (q, c')]).
Proof.
  intros Hc Hn Hq Hq0 Hb Hb' ->. induction l as [|[r d] l IH].
  - cbn in Hc. destruct Hc as ((b0 & Hp & _) & Hp0 & _). cbn.
    assert (p <> q) by congruence. split_and!; try done.
    + exists b. split; [by rewrite lookup_insert_eq|done].
    + exists b'. split; [by rewrite lookup_insert_ne, lookup_insert_eq|done].
  - cbn in Hc. destruct Hc as ((b0 & Hr & Ho) & Hr0 & Hc).
    cbn in Hn. apply NoDup_cons in Hn as [Hrn Hn]. cbn. split_and!; [|done|by apply IH].
    assert (r <> q) by congruence. assert (r <> p).
    { intros ->. apply Hrn. rewrite fmap_app. set_solver. }
    exists b0. split; [by rewrite !lookup_insert_ne by done|].
    replace (head_ptr (l ++ [(p, c); (q, c')])) with (head_ptr (l ++ [(p, c)])); [done|].
    by destruct l as [|[? ?] ?].
Qed.

Lemma overflow_page_ok chunk : 0 < len chunk <= maxChunk ->
  exists b, overflow_page chunk = Ok b /\ ov_page b chunk 0.
Proof.
  unfold maxChunk, BTREE_PAGE_SIZE. intros Hc. unfold overflow_page.
  pose proof (len_make 4096 ltac:(lia)) as Hm. unfold BTREE_PAGE_SIZE.
  generalize dependent (make 4096). intros m Hm.
  rewrite put_le_ok, bind_ok by lia. rewrite put_le_ok, bind_ok by blit_lia.
  rewrite put_le_ok, bind_ok by blit_lia. rewrite copy_at_ok by blit_lia.
  rewrite u16_id by lia. eexists. split; [done|].
  assert (forall n v, 0 <= n -> n + 8 <= 4096 -> n + len (le_bytes 2 v) <= 4096 /\ n + len (le_bytes 8 v) <= 4096)
    as Hl by (intros n v; rewrite !len_le_bytes; lia).
  split_and!; try lia.
  - unfold BTREE_PAGE_SIZE. blit_lia.
  - unfold maxChunk, BTREE_PAGE_SIZE. lia.
  - apply has_blit_other; [lia|blit_lia| |left; blit_lia].
    apply has_blit_other; [lia|blit_lia| |left; blit_lia].
    apply has_blit_other; [lia|blit_lia| |left; blit_lia]. apply has_blit_same; [lia|blit_lia].
  - apply has_blit_other; [lia|blit_lia| |left; blit_lia].
    apply has_blit_other; [lia|blit_lia| |left; blit_lia]. apply has_blit_same; [lia|blit_lia].
  - apply has_blit_other; [lia|blit_lia| |left; blit_lia]. apply has_blit_same; [lia|blit_lia].
  - apply has_blit_same; [lia|blit_lia].
Qed.

(** Writing the link keeps the rest of the page. *)
Lemma link_page b c n q : ov_page b c n -> 0 <= q < 18446744073709551616 ->
  exists b', put_le 8 b 4 q = Ok b' /\ ov_page b' c q.
Proof.
  unfold ov_page, BTREE_PAGE_SIZE. intros (Hl & Hc & Hn & H1 & H2 & H3 & H4) Hq.
  rewrite put_le_ok by lia. eexists. split; [done|].
  assert (4 + len (le_bytes 8 q) <= len b) by (rewrite len_le_bytes; lia).
  split_and!; try lia.
  - by rewrite len_blit.
  - apply has_blit_other; [lia|done|done|]. rewrite len_le_bytes. lia.
  - apply has_blit_other; [lia|done|done|]. rewrite len_le_bytes. lia.
  - apply has_blit_same; [lia|done].
  - apply has_blit_other; [lia|done|done|]. rewrite len_le_bytes. lia.
Qed.

(** * Allocation *)

(** The pages of [l] were added to those of [base]. *)
Definition extends (base pg : gmap Z BNode) (l : links) : Prop :=
  chain pg l /\ NoDup (l.*1) /\ (forall p, p ∈ l.*1 -> base !! p = None) /\
  (forall p, p ∉ l.*1 -> pg !! p = base !! p) /\ size pg = (size base + length l)%nat.

Definition last_ptr (l : links) : Z := default 0 (fst <$> last l).

Section spec.
Context {S : Type} `{OvStoreOK S}.

(** One round of the loop, after the page was made. *)
Lemma link_round base (s : S) l c b : extends base (ov_pages s) l -> ov_page b c 0 ->
  (size (ov_pages s) < ov_cap)%nat ->
  exists p s', NewPage s b = Ok (p, s') /\ 0 < p /\
    exists s'', (if negb (last_ptr l =? 0) then
               prevPage ← GetPage s' (last_ptr l);
               prevPage ← put_le 8 prevPage 4 p;
               Ok (page_put s' (last_ptr l) prevPage)
             else Ok s') = Ok s'' /\ extends base (ov_pages s'') (l ++ [(p, c)]).
Proof.
  intros (Hc & Hn & Hfresh & Hrest & Hsz) Hb Hcap.
  destruct (ov_NewPage_ok s b) as (p & s' & E & Hp & Hnew & Hpg); [apply Hb|done|].
  exists p, s'. split; [done|]. split; [lia|].
  assert (p ∉ l.*1) as Hpl.
  { intros Hin. clear - Hin Hnew Hc. induction l as [|[q d] l IH]; [by apply elem_of_nil in Hin|].
    cbn in Hin, Hc. destruct Hc as ((b0 & Hq & _) & _ & Hc).
    apply elem_of_cons in Hin as [->|Hin]; [congruence|auto]. }
  assert (base !! p = None) as Hbase by (by rewrite <-Hrest).
  destruct l as [|[q d] l _] using rev_ind.
  - exists s'. split; [done|]. rewrite Hpg. cbn. split_and!.
    + split_and!; try done; [|lia]. exists b. by rewrite lookup_insert_eq.
    + apply NoDup_singleton.
    + intros r Hr. cbn in Hr. apply list_elem_of_singleton in Hr as ->. done.
    + intros r Hr. cbn in Hr. rewrite list_elem_of_singleton in Hr.
      rewrite lookup_insert_ne by done. apply Hrest. by apply not_elem_of_nil.
    + rewrite map_size_insert_None by done. cbn in *. lia.
  - unfold last_ptr. rewrite last_snoc. cbn.
    assert (exists b0 n, ov_pages s !! q = Some b0 /\ ov_page b0 d n /\ 0 < q) as (b0 & n & Hq & Ho & Hq0).
    { clear - Hc. induction l as [|[r e] l IH]; cbn in Hc.
      - destruct Hc as ((b0 & ? & ?) & ? & _). eauto.
      - destruct Hc as (_ & _ & Hc). auto. }
    assert (p <> q) by congruence. rewrite (proj2 (Z.eqb_neq q 0)) by lia. cbn.
    rewrite (ov_GetPage_ok s' q b0) by (rewrite Hpg, lookup_insert_ne by done; done). rewrite bind_ok.
    destruct (link_page b0 d n p Ho) as (b1 & -> & Ho1); [lia|]. rewrite bind_ok.
    eexists. split; [done|]. rewrite ov_put_ok, Hpg, <-app_assoc. cbn.
    assert (((l ++ [(q, d); (p, c)]).*1) = (l ++ [(q, d)]).*1 ++ [p]) as Hl
      by (by rewrite !fmap_app, <-app_assoc).
    assert (q ∈ (l ++ [(q, d)]).*1) as Hql by (rewrite fmap_app; set_solver).
    split_and!.
    + eapply (chain_snoc (ov_pages s) l q d b1 p c b); try done. lia.
    + rewrite Hl. apply NoDup_app. split_and!; [done| |apply NoDup_singleton]. set_solver.
    + rewrite Hl. intros r [Hr|Hr%list_elem_of_singleton]%elem_of_app; [by apply Hfresh|by subst].
    + rewrite Hl. intros r Hr. rewrite !lookup_insert_ne by set_solver. apply Hrest. set_solver.
    + rewrite map_size_insert_Some by (by rewrite lookup_insert_ne).
      rewrite map_size_insert_None by done. rewrite !length_app in *. cbn in *. lia.
Qed.

Definition npages (n : Z) : Z := (n + (maxChunk - 1)) / maxChunk.

Lemma npages_step n : maxChunk < n -> npages n = 1 + npages (n - maxChunk).
Proof. unfold npages. change maxChunk with 4084. dlia. Qed.

Lemma npages_last n : 0 < n <= maxChunk -> npages n = 1.
Proof. unfold npages. change maxChunk with 4084. dlia. Qed.

Lemma npages_pos n : 0 <= n -> 0 <= npages n.
Proof. unfold npages. change maxChunk with 4084. dlia. Qed.

Lemma allocOverflow_loop_spec base fuel : forall (s : S) rem l,
  extends base (ov_pages s) l -> len rem <= Z.of_nat fuel ->
  Z.of_nat (size (ov_pages s)) + npages (len rem) <= Z.of_nat ov_cap ->
  exists s' l', allocOverflow_loop fuel s rem (head_ptr l) (last_ptr l) = Ok (head_ptr l', s') /\
    extends base (ov_pages s') l' /\ chain_bytes l' = chain_bytes l ++ rem /\
    len l' = len l + npages (len rem).
Proof.
  assert (forall l c p, chain_bytes (l ++ [(p, c)]) = chain_bytes l ++ c) as Hcb.
  { intros. unfold chain_bytes. rewrite fmap_app, concat_app. cbn. by rewrite app_nil_r. }
  induction fuel as [|fuel IH]; intros s rem l He Hf Hcap; cbn [allocOverflow_loop];
    pose proof (len_nonneg rem) as Hrem; destruct (Z.ltb_spec 0 (len rem)) as [Hpos|Hz]; try lia.
  1, 3: exists s, l; assert (rem = []) as -> by (apply len_zero_nil; lia);
    change (npages (len (@nil Z))) with 0; rewrite app_nil_r, Z.add_0_r; done.
  assert (exists c, (if maxChunk <? len rem then slice_to rem maxChunk else Ok rem) = Ok c /\
    0 < len c <= maxChunk /\ exists r, rem = c ++ r /\ npages (len rem) = 1 + npages (len r))
    as (c & -> & Hc & r & -> & Hnp).
  { destruct (Z.ltb_spec maxChunk (len rem)) as [Hlt|Hle].
    - assert (0 < maxChunk) by done. unfold slice_to. replace (_ && _) with true by lia.
      eexists. split; [done|]. rewrite len_take by lia. split; [lia|].
      exists (drop (Z.to_nat maxChunk) rem). rewrite take_drop, len_drop by lia.
      split; [done|]. by apply npages_step.
    - exists rem. split; [done|]. split; [lia|]. exists []. rewrite app_nil_r.
      split; [done|]. by rewrite npages_last. }
  rewrite bind_ok. destruct (overflow_page_ok c Hc) as (b & -> & Hb). rewrite bind_ok.
  rewrite len_app in *. pose proof (len_nonneg r). pose proof (npages_pos (len r) ltac:(lia)).
  destruct (link_round base s l c b He Hb) as (p & s' & -> & Hp & s'' & E & He'); [lia|].
  rewrite bind_ok, E, bind_ok.
  assert (slice_from (c ++ r) (len c) = Ok r) as ->.
  { unfold slice_from. rewrite len_app. replace (_ && _) with true by lia.
    unfold len. by rewrite Nat2Z.id, drop_app_length. }
  rewrite bind_ok.
  replace (if head_ptr l =? 0 then p else head_ptr l) with (head_ptr (l ++ [(p, c)])).
  2:{ destruct l as [|[q d] l]; [done|]. destruct He as ((_ & Hq & _) & _). cbn.
      by rewrite (proj2 (Z.eqb_neq q 0)) by lia. }
  assert (last_ptr (l ++ [(p, c)]) = p) as Hlast by (unfold last_ptr; by rewrite last_snoc).
  assert (size (ov_pages s'') = Datatypes.S (size (ov_pages s))) as Hsz.
  { destruct He as (_ & _ & _ & _ & ->). destruct He' as (_ & _ & _ & _ & ->). rewrite length_app. cbn. lia. }
  destruct (IH s'' r (l ++ [(p, c)])) as (s3 & l3 & E3 & He3 & Hb3 & Hl3); [done|lia|lia|].
  rewrite Hlast in E3. exists s3, l3. split_and!; [done|done| |].
  - by rewrite Hb3, Hcb, app_assoc.
  - rewrite Hl3, len_snoc, Hnp. lia.
Qed.

(** * Reading and freeing *)

Lemma readOverflow_spec (s : S) l : forall fuel out, chain (ov_pages s) l -> (length l <= fuel)%nat ->
  readOverflow fuel s (head_ptr l) out = Ok (out ++ chain_bytes l).
Proof.
  induction l as [|[p c] l IH]; intros fuel out Hc Hf.
  { destruct fuel; cbn; by rewrite app_nil_r. }
  destruct Hc as ((b & Hp & (Hlb & Hlc & Hn & Ho1 & Ho2 & Ho3 & Ho4)) & Hp0 & Hc).
  destruct fuel as [|fuel]; [cbn in Hf; lia|]. cbn [readOverflow head_ptr].
  rewrite (proj2 (Z.eqb_neq p 0)) by lia. cbn [negb].
  rewrite (ov_GetPage_ok _ _ _ Hp), bind_ok. unfold maxChunk, BTREE_PAGE_SIZE in *.
  rewrite (has_slice_le_uint b 0 2 2 OVFL_MAGIC Ho1) by (unfold OVFL_MAGIC; lia).
  rewrite bind_ok, Z.eqb_refl. cbn [negb].
  rewrite (has_slice_le_uint b 2 4 2 (len c) Ho2) by lia. rewrite bind_ok, u16_id by lia.
  assert (slice b 12 (12 + len c) = Ok c) as ->.
  { unfold slice. replace (_ && _ && _) with true by lia.
    replace (12 + len c - 12) with (len c) by lia. unfold len. rewrite Nat2Z.id.
    f_equal. by apply has_take_drop. }
  rewrite bind_ok, (has_slice_le_uint b 4 12 8 (head_ptr l) Ho3) by lia. rewrite bind_ok.
  rewrite (IH fuel) by (done || (cbn in Hf; lia)). by rewrite <-app_assoc.
Qed.

Lemma freeOverflow_spec base l : forall fuel (s : S), extends base (ov_pages s) l ->
  (length l <= fuel)%nat -> exists s', freeOverflow fuel s (head_ptr l) = Ok s' /\ ov_pages s' = base.
Proof.
  induction l as [|[p c] l IH]; intros fuel s (Hc & Hn & Hfresh & Hrest & Hsz) Hf.
  { exists s. split; [by destruct fuel|]. apply map_eq. intros q. apply Hrest. by apply not_elem_of_nil. }
  cbn in Hn. apply NoDup_cons in Hn as [Hpn Hn].
  destruct Hc as ((b & Hp & (Hlb & Hlc & Hnx & Ho1 & Ho2 & Ho3 & Ho4)) & Hp0 & Hc).
  destruct fuel as [|fuel]; [cbn in Hf; lia|]. cbn [freeOverflow head_ptr].
  rewrite (proj2 (Z.eqb_neq p 0)) by lia. cbn [negb].
  rewrite (ov_GetPage_ok _ _ _ Hp), bind_ok.
  rewrite (has_slice_le_uint b 4 12 8 (head_ptr l) Ho3) by lia. rewrite bind_ok.
  destruct (ov_DelPage_ok s p b Hp) as (s' & -> & Hpg). rewrite bind_ok.
  apply IH; [|cbn in Hf; lia]. rewrite Hpg. split_and!; [|done| | |].
  - eapply chain_frame; [done|]. intros q Hq. rewrite lookup_delete_ne; [done|congruence].
  - intros q Hq. apply Hfresh. cbn. set_solver.
  - intros q Hq. destruct (decide (q = p)) as [->|Hne].
    + rewrite lookup_delete_eq. symmetry. apply Hfresh. cbn. set_solver.
    + rewrite lookup_delete_ne by done. apply Hrest. cbn. set_solver.
  - rewrite map_size_delete_Some by (by eexists). rewrite Hsz. cbn. lia.
Qed.

Lemma overflowSize_npages data : overflowSize data = npages (len data).
Proof.
  enough (forall fuel n k, 0 <= n <= Z.of_nat fuel -> overflowSize_loop fuel n k = k + npages n) as Hl.
  { unfold overflowSize. rewrite Hl; [lia|unfold len; lia]. }
  induction fuel as [|fuel IH]; intros n k Hn; cbn [overflowSize_loop].
  { assert (n = 0) as -> by lia. rewrite Z.add_0_r. done. }
  assert (0 < maxChunk) by done.
  destruct (Z.ltb_spec 0 n) as [Hpos|].
  2:{ assert (n = 0) as -> by lia. by rewrite Z.add_0_r. }
  destruct (Z.ltb_spec maxChunk n) as [Hlt|Hle]; rewrite IH by lia.
  - rewrite (npages_step n) by done. lia.
  - rewrite (npages_last n) by lia. change (npages 0) with 0. lia.
Qed.

(** C19: over every page store in which a new page can be read and changed in place
    at once (which the functions rely on; the store of kv.go is not one, see
    [overflow_chain_faults]) and which has room for the pages: for a value of any
    length, the chain that [allocOverflow] writes has as many pages as
    [overflowSize] says, [readOverflow] reads the value back from it, and
    [freeOverflow] gives exactly these pages back. *)
Theorem overflow_roundtrip (s : S) data fuel :
  Z.of_nat (size (ov_pages s)) + overflowSize data <= Z.of_nat ov_cap ->
  overflowSize data <= Z.of_nat fuel ->
  exists ptr s' s'', allocOverflow s data = Ok (ptr, s') /\
    Z.of_nat (size (ov_pages s')) = Z.of_nat (size (ov_pages s)) + overflowSize data /\
    readOverflow fuel s' ptr [] = Ok data /\
    freeOverflow fuel s' ptr = Ok s'' /\ ov_pages s'' = ov_pages s.
Proof.
  rewrite overflowSize_npages. intros Hcap Hf. unfold allocOverflow.
  assert (exists b, setHeader (make BTREE_PAGE_SIZE) BNODE_LEAF 1 = Ok b) as (b & ->) by (by eexists; vm_compute).
  rewrite bind_ok.
  destruct (allocOverflow_loop_spec (ov_pages s) (length data) s data []) as (s' & l & E & He & Hb & Hl).
  { split_and!; [done|apply NoDup_nil_2| |done|cbn; lia]. intros p Hp. by apply elem_of_nil in Hp. }
  { done. }
  { done. }
  rewrite len_nil in Hl. assert (length l <= fuel)%nat by (unfold len in *; lia).
  destruct (freeOverflow_spec _ _ fuel s' He) as (s'' & Ef & Hs''); [done|].
  exists (head_ptr l), s', s''. split_and!; [exact E| | |exact Ef|exact Hs''].
  - destruct He as (_ & _ & _ & _ & ->). unfold len in *. lia.
  - destruct He as (Hc & _). rewrite (readOverflow_spec s' l fuel []) by done. by rewrite Hb.
Qed.

End spec.

(** * A store in memory *)

Record rawStore := mkRaw { raw_pages : gmap Z BNode }.

#[global] Instance raw_store : PageStore rawStore := {|
  GetPage s p := of_option (raw_pages s !! p);
  NewPage s b := let p := free_ptr (size (raw_pages s)) (raw_pages s) 1 in
    Ok (p, mkRaw (<[p := b]> (raw_pages s)));
  DelPage s p := Ok (mkRaw (delete p (raw_pages s)));
|}.

#[global] Instance raw_put : PagePut rawStore := fun s p b => mkRaw (<[p := b]> (raw_pages s)).

#[global] Instance raw_store_ok : OvStoreOK rawStore.
Proof.
  refine {| ov_pages := raw_pages; ov_cap := mem_cap |}.
  - intros s p b Hp. simpl. by rewrite Hp.
  - intros s b _ Hc. simpl. eexists _, _. split; [done|]. pose proof mem_cap_val.
    pose proof (free_ptr_range (size (raw_pages s)) (raw_pages s) 1).
    split_and!; [lia|lia|apply free_ptr_fresh|done].
  - intros s p b Hp. simpl. eexists. done.
  - done.
Defined.

(** A value of two pages. *)
Lemma overflow_roundtrip_witness : exists ptr (s' s'' : rawStore),
  allocOverflow (mkRaw ∅) (replicate 5000 7) = Ok (ptr, s') /\
  readOverflow 2 s' ptr [] = Ok (replicate 5000 7) /\
  freeOverflow 2 s' ptr = Ok s'' /\ raw_pages s'' = ∅.
Proof.
  destruct (overflow_roundtrip (mkRaw ∅) (replicate 5000 7) 2) as (ptr & s' & s'' & Ho1 & _ & Ho2 & Ho3 & Ho4).
  - change (ov_cap (S:=rawStore)) with mem_cap. rewrite mem_cap_val.
    change (ov_pages (mkRaw ∅)) with (∅ : gmap Z BNode). vm_compute. discriminate.
  - vm_compute. discriminate.
  - exists ptr, s', s''. split_and!; [exact Ho1|exact Ho2|exact Ho3|exact Ho4].
Defined.
