(* ===== verification/Encoding.v ===== *)
(** Order-preserving key encoding: src/internal/kvstore/encoding.go and the
    value type of types.go.

    A list of typed values is written so that comparing the bytes compares the
    values; decoding gives the values back. A [float64] is its IEEE-754 bit
    pattern. *)
From S2P Require Import Prelude Keys.
#[local] Open Scope Z_scope.

(** * Values (types.go) *)

Definition TypeInt64 : Z := 1.
Definition TypeBytes : Z := 2.
Definition TypeBool : Z := 3.
Definition TypeFloat64 : Z := 4.

Record Value := mkValue { v_type : Z; v_i64 : Z; v_str : bytes; v_bool : bool; v_f64 : Z }.

#[global] Instance Value_eq_dec : EqDecision Value.
Proof. solve_decision. Defined.

(** [var v Value] with its [Type] set. *)
Definition zero_value (t : Z) : Value := mkValue t 0 [] false 0.

Definition Int64 (i : Z) : Value := mkValue TypeInt64 i [] false 0.
Definition Bytes (s : bytes) : Value := mkValue TypeBytes 0 s false 0.
Definition VBool (b : bool) : Value := mkValue TypeBool 0 [] b 0.
Definition Float64 (u : Z) : Value := mkValue TypeFloat64 0 [] false u.

Definition TypeByColType (ct : Z) : Z :=
  if ct =? 1 then TypeInt64
  else if ct =? 2 then TypeBytes
  else if ct =? 3 then TypeBool
  else if ct =? 4 then TypeFloat64
  else 0.

(** * Encoding (encoding.go) *)

Definition SIGN : Z := 9223372036854775808.

(** A bit pattern is a NaN, and [v.F64 >= 0] holds: not a NaN, and the sign
    bit clear or the value [-0.0]. *)
Definition f64_nan (u : Z) : bool := 9218868437227405312 <? Z.land u 9223372036854775807.
Definition f64_ge0 (u : Z) : bool := negb (f64_nan u) && (u <=? SIGN).

Fixpoint escapeBytes (l : bytes) : bytes :=
  match l with
  | [] => []
  | b :: l =>
      (if b =? 0 then [1; 1] else if b =? 1 then [1; 2] else [b]) ++ escapeBytes l
  end.

Fixpoint unescapeBytes (l : bytes) : bytes :=
  match l with
  | [] => []
  | x :: l' =>
      if x =? 1 then
        match l' with
        | [] => [x]
        | y :: l'' =>
            if y =? 1 then 0 :: unescapeBytes l''
            else if y =? 2 then 1 :: unescapeBytes l''
            else x :: unescapeBytes l'
        end
      else x :: unescapeBytes l'
  end.

(** What one iteration of [EncodeValues] appends after the type byte. *)
Definition encodePayload (v : Value) : res bytes :=
  let t := v_type v in
  if t =? TypeInt64 then Ok (be_bytes 8 (Z.lxor (u64 (v_i64 v)) SIGN))
  else if t =? TypeBytes then Ok (escapeBytes (v_str v) ++ [0])
  else if t =? TypeBool then Ok [if v_bool v then 1 else 0]
  else if t =? TypeFloat64 then
    let u := v_f64 v in
    Ok (be_bytes 8 (if f64_ge0 u then Z.lxor u SIGN else Z.lxor u 18446744073709551615))
  else Panic.

Fixpoint EncodeValues (out : bytes) (vals : list Value) : res bytes :=
  match vals with
  | [] => Ok out
  | v :: vals => p ← encodePayload v; EncodeValues (out ++ u8 (v_type v) :: p) vals
  end.

Definition EncodeKey (out : bytes) (prefix : Z) (vals : list Value) : res bytes :=
  EncodeValues (out ++ be_bytes 4 prefix) vals.

Definition CmpLT : Z := -1.
Definition CmpLE : Z := -2.
Definition CmpEQ : Z := 0.
Definition CmpGE : Z := 1.
Definition CmpGT : Z := 2.
Definition CmpNE : Z := 3.

Definition EncodeKeyPartial (out : bytes) (prefix : Z) (vals : list Value) (c : Z) : res bytes :=
  out ← EncodeKey out prefix vals;
  Ok (if (c =? 1) || (c =? -3) then out ++ [255] else out).

(** [bytes.IndexByte]: the first position of [c]. *)
Fixpoint IndexByte (l : bytes) (c : Z) : Z :=
  match l with
  | [] => -1
  | x :: l => if x =? c then 0 else let i := IndexByte l c in if i <? 0 then -1 else i + 1
  end.

(** One iteration of [DecodeValues] after the type byte: the value and the rest. *)
Definition decodeValue (t : Z) (inp : bytes) : res (Value * bytes) :=
  if t =? TypeInt64 then
    b ← slice_to inp 8;
    u ← be_uint 8 b;
    inp ← slice_from inp 8;
    Ok (mkValue t (i64 (Z.lxor u SIGN)) [] false 0, inp)
  else if t =? TypeBytes then
    let idx := IndexByte inp 0 in
    if idx <? 0 then Panic
    else
      s ← slice_to inp idx;
      inp ← slice_from inp (idx + 1);
      Ok (mkValue t 0 (unescapeBytes s) false 0, inp)
  else if t =? TypeBool then
    x ← index inp 0;
    inp ← slice_from inp 1;
    Ok (mkValue t 0 [] (negb (x =? 0)) 0, inp)
  else if t =? TypeFloat64 then
    b ← slice_to inp 8;
    u ← be_uint 8 b;
    let u := if Z.shiftr u 63 =? 0 then Z.lxor u 18446744073709551615 else Z.lxor u SIGN in
    inp ← slice_from inp 8;
    Ok (mkValue t 0 [] false u, inp)
  else Panic.

(** Every iteration takes at least the type byte off the input. *)
Fixpoint DecodeValues_loop (fuel : nat) (inp : bytes) (out : list Value) : res (list Value) :=
  match inp with
  | [] => Ok out
  | t :: inp =>
      match fuel with
      | O => OutOfFuel
      | S fuel =>
          '(v, inp) ← decodeValue t inp;
          DecodeValues_loop fuel inp (out ++ [v])
      end
  end.

Definition DecodeValues (inp : bytes) (out : list Value) : res (list Value) :=
  DecodeValues_loop (length inp) inp out.

(** * Values the encoding is made for *)

(** A [float64] that keeps its bits: not [-0.0], and not a NaN without sign. *)
Definition f64_ok (u : Z) : Prop :=
  0 <= u < 18446744073709551616 /\ u <> SIGN /\ (u < SIGN -> f64_nan u = false).

Definition value_ok (v : Value) : Prop :=
  (v_type v = TypeInt64 /\ -9223372036854775808 <= v_i64 v < 9223372036854775808) \/
  (v_type v = TypeBytes /\ bytes_ok (v_str v)) \/
  v_type v = TypeBool \/
  (v_type v = TypeFloat64 /\ f64_ok (v_f64 v)).

#[global] Instance value_ok_dec v : Decision (value_ok v).
Proof. unfold value_ok, f64_ok. apply _. Defined.

(** The fields that belong to the type of the value. *)
Definition canon (v : Value) : Value :=
  let t := v_type v in
  mkValue t (if t =? TypeInt64 then v_i64 v else 0) (if t =? TypeBytes then v_str v else [])
    (if t =? TypeBool then v_bool v else false) (if t =? TypeFloat64 then v_f64 v else 0).

(** * Bits *)

Lemma lxor_sign_lt x : 0 <= x < SIGN -> Z.lxor x SIGN = x + SIGN.
Proof.
  intros Hx. symmetry. apply Z.add_nocarry_lxor, Z.bits_inj'. intros n Hn.
  rewrite Z.land_spec, Z.bits_0. change SIGN with (2 ^ 63) in *. rewrite Z.pow2_bits_eqb by lia.
  destruct (Z.eqb_spec 63 n) as [<-|]; [|apply andb_false_r].
  rewrite (Z.bits_above_log2 x 63); [done|lia|]. destruct (Z.eq_dec x 0) as [->|]; [done|].
  apply Z.log2_lt_pow2; lia.
Qed.

Lemma lxor_sign x : 0 <= x < 18446744073709551616 ->
  Z.lxor x SIGN = if x <? SIGN then x + SIGN else x - SIGN.
Proof.
  intros Hx. unfold SIGN in *. destruct (Z.ltb_spec x 9223372036854775808) as [Hlt|Hge].
  - apply lxor_sign_lt. unfold SIGN. lia.
  - assert (x = Z.lxor (x - 9223372036854775808) SIGN) as E
      by (rewrite lxor_sign_lt; unfold SIGN; lia).
    rewrite E at 1. unfold SIGN.
    by rewrite Z.lxor_assoc, Z.lxor_nilpotent, Z.lxor_0_r.
Qed.

Lemma lxor_ones x : 0 <= x < 18446744073709551616 ->
  Z.lxor x 18446744073709551615 = 18446744073709551615 - x.
Proof.
  intros Hx. change 18446744073709551615 with (Z.ones 64) at 1.
  assert (Z.land (Z.lnot x) (Z.ones 64) = Z.lxor x (Z.ones 64)) as <-.
  { apply Z.bits_inj'. intros n Hn. rewrite Z.land_spec, Z.lxor_spec, Z.lnot_spec by done.
    destruct (Z.ltb_spec n 64) as [H|H].
    - rewrite Z.ones_spec_low by lia. by destruct (Z.testbit x n).
    - rewrite Z.ones_spec_high by lia. rewrite andb_false_r, xorb_false_r. symmetry.
      destruct (Z.eq_dec x 0) as [->|]; [apply Z.bits_0|]. apply Z.bits_above_log2; [lia|].
      apply Z.log2_lt_pow2; [lia|]. apply Z.lt_le_trans with (2 ^ 64); [lia|].
      apply Z.pow_le_mono_r; lia. }
  rewrite Z.land_ones by lia. unfold Z.lnot. change (2 ^ 64) with 18446744073709551616.
  replace (Z.pred (- x)) with (18446744073709551615 - x + (-1) * 18446744073709551616) by lia.
  rewrite Z.mod_add by lia. apply Z.mod_small. lia.
Qed.

Lemma shiftr63 u : 0 <= u < 18446744073709551616 -> (Z.shiftr u 63 =? 0) = (u <? SIGN).
Proof.
  intros Hu. rewrite Z.shiftr_div_pow2 by lia. change (2 ^ 63) with SIGN. unfold SIGN.
  destruct (Z.ltb_spec u 9223372036854775808).
  - by rewrite Z.div_small by lia.
  - apply Z.eqb_neq. intros E. apply Z.div_small_iff in E; lia.
Qed.

Lemma f64_ge0_ok u : f64_ok u -> f64_ge0 u = (u <? SIGN).
Proof.
  intros (Hr & Hz & Hn). unfold f64_ge0. destruct (Z.ltb_spec u SIGN) as [H|H].
  - rewrite Hn by done. simpl. lia.
  - rewrite (proj2 (Z.leb_gt _ _)) by lia. apply andb_false_r.
Qed.

(** * Decoding what was encoded *)

Lemma escape_no_zero l : bytes_ok l -> Forall (fun x => x <> 0) (escapeBytes l).
Proof.
  induction 1 as [|b l Hb Hl IH]; [constructor|]. cbn [escapeBytes].
  apply Forall_app. split; [|done].
  destruct (Z.eqb_spec b 0); [by repeat constructor|].
  destruct (Z.eqb_spec b 1); by repeat constructor.
Qed.

Lemma unescape_escape l : unescapeBytes (escapeBytes l) = l.
Proof.
  induction l as [|b l IH]; [done|]. cbn [escapeBytes].
  destruct (Z.eqb_spec b 0) as [->|H0]; [simpl; by rewrite IH|].
  destruct (Z.eqb_spec b 1) as [->|H1]; [simpl; by rewrite IH|].
  change (unescapeBytes (b :: escapeBytes l) = b :: l). cbn [unescapeBytes].
  rewrite (proj2 (Z.eqb_neq b 1)) by done. by rewrite IH.
Qed.

Lemma IndexByte_first l r : Forall (fun x => x <> 0) l -> IndexByte (l ++ 0 :: r) 0 = len l.
Proof.
  induction 1 as [|x l Hx Hl IH]; [done|]. rewrite len_cons.
  change (IndexByte ((x :: l) ++ 0 :: r) 0) with
    (if x =? 0 then 0 else let i := IndexByte (l ++ 0 :: r) 0 in if i <? 0 then -1 else i + 1).
  rewrite (proj2 (Z.eqb_neq x 0)) by done. rewrite IH. pose proof (len_nonneg l).
  cbv zeta. rewrite (proj2 (Z.ltb_ge _ _)) by lia. lia.
Qed.

Lemma slice_to_app {A} (a b : list A) n : len a = n -> slice_to (a ++ b) n = Ok a.
Proof.
  intros <-. unfold slice_to. rewrite len_app. pose proof (len_nonneg a). pose proof (len_nonneg b).
  rewrite (proj2 (Z.leb_le 0 (len a))), (proj2 (Z.leb_le (len a) _)) by lia. simpl.
  f_equal. apply take_app_length'. unfold len. lia.
Qed.

Lemma slice_from_app {A} (a b : list A) n : len a = n -> slice_from (a ++ b) n = Ok b.
Proof.
  intros <-. unfold slice_from. rewrite len_app. pose proof (len_nonneg a). pose proof (len_nonneg b).
  rewrite (proj2 (Z.leb_le 0 (len a))), (proj2 (Z.leb_le (len a) _)) by lia. simpl.
  f_equal. apply drop_app_length'. unfold len. lia.
Qed.

Lemma be_uint_bytes v : 0 <= v < 18446744073709551616 -> be_uint 8 (be_bytes 8 v) = Ok v.
Proof.
  intros Hv. unfold be_uint. rewrite len_be_bytes, Z.leb_refl. f_equal.
  rewrite take_ge; [by apply be_val_bytes|]. pose proof (len_be_bytes 8 v). unfold len in *. lia.
Qed.

Lemma decode_payload v : value_ok v ->
  exists p, encodePayload v = Ok p /\ forall r, decodeValue (v_type v) (p ++ r) = Ok (canon v, r).
Proof.
  unfold encodePayload, decodeValue, canon.
  intros [(-> & Hr)|[(-> & Hs)|[->|(-> & Hu)]]];
    cbv delta [TypeInt64 TypeBytes TypeBool TypeFloat64]; cbn [Z.eqb Pos.eqb]; cbv zeta iota;
    eexists; (split; [reflexivity|]); intros r.
  - assert (0 <= Z.lxor (u64 (v_i64 v)) SIGN < 18446744073709551616) as Hx.
    { pose proof (u64_range (v_i64 v)). rewrite lxor_sign by done. unfold SIGN.
      destruct (Z.ltb_spec (u64 (v_i64 v)) 9223372036854775808); lia. }
    rewrite slice_to_app, bind_ok, be_uint_bytes, bind_ok, slice_from_app, bind_ok
      by (done || apply len_be_bytes).
    rewrite Z.lxor_assoc, Z.lxor_nilpotent, Z.lxor_0_r.
    do 2 f_equal. f_equal. unfold i64. rewrite (u64_id (u64 _)) by apply u64_range.
    exact (i64_id _ Hr).
  - rewrite <-app_assoc. simpl.
    rewrite IndexByte_first by (by apply escape_no_zero).
    pose proof (len_nonneg (escapeBytes (v_str v))).
    rewrite (proj2 (Z.ltb_ge _ _)), slice_to_app, bind_ok by (done || lia).
    change (0 :: r) with ([0] ++ r). rewrite app_assoc, slice_from_app, bind_ok by (by rewrite len_snoc).
    by rewrite unescape_escape.
  - change (index ([?x] ++ r) 0) with (Ok x). rewrite bind_ok, slice_from_app, bind_ok by done.
    by destruct (v_bool v).
  - pose proof Hu as (Hr & Hz & Hn). rewrite f64_ge0_ok by done. unfold SIGN in *.
    set (x := if v_f64 v <? 9223372036854775808 then _ else _).
    assert (x = if v_f64 v <? 9223372036854775808 then v_f64 v + 9223372036854775808
      else 18446744073709551615 - v_f64 v) as Ex.
    { unfold x. destruct (Z.ltb_spec (v_f64 v) 9223372036854775808); [|by apply lxor_ones].
      apply lxor_sign_lt. unfold SIGN. lia. }
    assert (0 <= x < 18446744073709551616) as Hx
      by (rewrite Ex; destruct (Z.ltb_spec (v_f64 v) 9223372036854775808); lia).
    rewrite slice_to_app, bind_ok, be_uint_bytes, bind_ok, slice_from_app, bind_ok
      by (done || apply len_be_bytes).
    rewrite shiftr63 by done. do 2 f_equal. f_equal. unfold SIGN. unfold x.
    destruct (Z.ltb_spec (v_f64 v) 9223372036854775808) as [Hlt|Hge].
    + pose proof (lxor_sign_lt (v_f64 v)) as Hl. unfold SIGN in Hl.
      rewrite (proj2 (Z.ltb_ge _ _)) by lia.
      by rewrite Z.lxor_assoc, Z.lxor_nilpotent, Z.lxor_0_r.
    + rewrite (proj2 (Z.ltb_lt _ _)) by (rewrite lxor_ones by done; lia).
      by rewrite Z.lxor_assoc, Z.lxor_nilpotent, Z.lxor_0_r.
Qed.

Lemma value_type_u8 v : value_ok v -> u8 (v_type v) = v_type v.
Proof. intros [(-> & _)|[(-> & _)|[->|(-> & _)]]]; done. Qed.

(** The bytes of valid values, as a function. *)
Fixpoint encs (vals : list Value) : bytes :=
  match vals with
  | [] => []
  | v :: vals =>
      v_type v :: match encodePayload v with Ok p => p | _ => [] end ++ encs vals
  end.

Lemma EncodeValues_encs vals : Forall value_ok vals ->
  forall out, EncodeValues out vals = Ok (out ++ encs vals).
Proof.
  induction 1 as [|v vals Hv Hvals IH]; intros out; cbn [EncodeValues encs].
  - by rewrite app_nil_r.
  - destruct (decode_payload v Hv) as (p & -> & _).
    by rewrite bind_ok, IH, (value_type_u8 v Hv), <-app_assoc.
Qed.

Lemma DecodeValues_encs vals : Forall value_ok vals ->
  forall fuel out, (length (encs vals) <= fuel)%nat ->
  DecodeValues_loop fuel (encs vals) out = Ok (out ++ (canon <$> vals)).
Proof.
  induction 1 as [|v vals Hv Hvals IH]; intros fuel out; cbn [encs].
  - intros _. destruct fuel; cbn; by rewrite app_nil_r.
  - destruct (decode_payload v Hv) as (p & -> & Hdp). intros Hf.
    destruct fuel as [|fuel]; [simpl in Hf; lia|].
    cbn [DecodeValues_loop]. rewrite Hdp, bind_ok. cbv beta iota.
    rewrite IH by (simpl in Hf; rewrite length_app in Hf; lia).
    by rewrite <-app_assoc.
Qed.

(** * The order of encoded values *)

Definition zcmp (a b : Z) : Z := if a <? b then -1 else if b <? a then 1 else 0.

(** Sign and magnitude: the order of the floats that are not NaN, apart from
    [-0.0 = 0.0]. *)
Definition f64_key (u : Z) : Z := if u <? SIGN then u else SIGN - u.

Definition value_cmp (v w : Value) : Z :=
  if v_type v =? v_type w then
    if v_type v =? TypeInt64 then zcmp (v_i64 v) (v_i64 w)
    else if v_type v =? TypeBytes then cmp (v_str v) (v_str w)
    else if v_type v =? TypeBool then zcmp (Z.b2z (v_bool v)) (Z.b2z (v_bool w))
    else zcmp (f64_key (v_f64 v)) (f64_key (v_f64 w))
  else zcmp (v_type v) (v_type w).

Fixpoint values_cmp (a b : list Value) : Z :=
  match a, b with
  | [], [] => 0
  | [], _ => -1
  | _, [] => 1
  | v :: a, w :: b => let c := value_cmp v w in if c =? 0 then values_cmp a b else c
  end.

Lemma cmp_app a b r s : len a = len b ->
  cmp (a ++ r) (b ++ s) = if cmp a b =? 0 then cmp r s else cmp a b.
Proof.
  revert b. induction a as [|x a IH]; intros [|y b] Hl.
  - done.
  - rewrite len_nil, len_cons in Hl. pose proof (len_nonneg b). lia.
  - rewrite len_nil, len_cons in Hl. pose proof (len_nonneg a). lia.
  - rewrite !len_cons in Hl. simpl app. rewrite !cmp_cons_cons, IH by lia.
    by destruct (x <? y), (y <? x).
Qed.

Lemma be_bytes_S n v : be_bytes (S n) v = be_bytes n (v / 256) ++ [v mod 256].
Proof. reflexivity. Qed.

Lemma cmp_be n : forall x y, 0 <= x -> 0 <= y -> x < 256 ^ Z.of_nat n -> y < 256 ^ Z.of_nat n ->
  cmp (be_bytes n x) (be_bytes n y) = zcmp x y.
Proof.
  unfold zcmp. induction n as [|n IH]; intros x y Hx Hy Hx' Hy'.
  - change (256 ^ Z.of_nat 0) with 1 in *. replace x with 0 by lia. by replace y with 0 by lia.
  - rewrite Nat2Z.inj_succ, Z.pow_succ_r in Hx', Hy' by lia.
    rewrite !be_bytes_S, cmp_app by (by rewrite !len_be_bytes).
    rewrite IH by (try (apply Z.div_pos; lia); apply Z.div_lt_upper_bound; lia).
    pose proof (Z.div_mod x 256 ltac:(done)). pose proof (Z.div_mod y 256 ltac:(done)).
    pose proof (Z.mod_pos_bound x 256 ltac:(done)). pose proof (Z.mod_pos_bound y 256 ltac:(done)).
    rewrite cmp_cons_cons, cmp_nil_nil.
    destruct (Z.ltb_spec (x / 256) (y / 256)), (Z.ltb_spec (y / 256) (x / 256)); simpl;
      destruct (Z.ltb_spec x y), (Z.ltb_spec y x); try lia;
      destruct (Z.ltb_spec (x mod 256) (y mod 256)), (Z.ltb_spec (y mod 256) (x mod 256)); lia.
Qed.

Lemma cmp_escape a : forall b r s, bytes_ok a -> bytes_ok b ->
  cmp (escapeBytes a ++ 0 :: r) (escapeBytes b ++ 0 :: s) = if cmp a b =? 0 then cmp r s else cmp a b.
Proof.
  unfold is_byte.
  induction a as [|x a IH]; intros [|y b] r s Ha Hb; cbn [escapeBytes].
  - simpl app. rewrite cmp_cons_cons. done.
  - rewrite cmp_nil_cons. apply Forall_cons in Hb as [Hy _].
    destruct (Z.eqb_spec y 0); [done|]. destruct (Z.eqb_spec y 1); [done|].
    simpl app. rewrite cmp_cons_cons. by rewrite (proj2 (Z.ltb_lt 0 y)) by lia.
  - rewrite cmp_cons_nil. apply Forall_cons in Ha as [Hx _].
    destruct (Z.eqb_spec x 0); [done|]. destruct (Z.eqb_spec x 1); [done|].
    simpl app. rewrite cmp_cons_cons.
    by rewrite (proj2 (Z.ltb_ge x 0)), (proj2 (Z.ltb_lt 0 x)) by lia.
  - apply Forall_cons in Ha as [Hx Ha]. apply Forall_cons in Hb as [Hy Hb].
    rewrite cmp_cons_cons.
    destruct (Z.eqb_spec x 0) as [->|Hx0]; [|destruct (Z.eqb_spec x 1) as [->|Hx1]];
      (destruct (Z.eqb_spec y 0) as [->|Hy0]; [|destruct (Z.eqb_spec y 1) as [->|Hy1]]);
      cbn [app]; rewrite !cmp_cons_cons; change (1 <? 1) with false; change (0 <? 0) with false;
      change (1 <? 2) with true; change (2 <? 1) with false; change (2 <? 2) with false;
      change (0 <? 1) with true; change (1 <? 0) with false; cbv iota; rewrite ?IH by done; try done.
    + rewrite (proj2 (Z.ltb_lt 1 y)), (proj2 (Z.ltb_lt 0 y)) by lia. done.
    + rewrite (proj2 (Z.ltb_lt 1 y)) by lia. done.
    + rewrite (proj2 (Z.ltb_ge x 1)), (proj2 (Z.ltb_lt 1 x)), (proj2 (Z.ltb_ge x 0)),
        (proj2 (Z.ltb_lt 0 x)) by lia. done.
    + rewrite (proj2 (Z.ltb_ge x 1)), (proj2 (Z.ltb_lt 1 x)) by lia. done.
    + by destruct (x <? y), (y <? x).
Qed.

Lemma zcmp_ext a b x y : (x < y <-> a < b) -> (y < x <-> b < a) -> zcmp x y = zcmp a b.
Proof.
  intros H1 H2. unfold zcmp. destruct (Z.ltb_spec x y), (Z.ltb_spec a b); try lia.
  destruct (Z.ltb_spec y x), (Z.ltb_spec b a); lia.
Qed.

(** The 64-bit images of integers and floats are ordered like them. *)
Lemma int_image x : -9223372036854775808 <= x < 9223372036854775808 ->
  Z.lxor (u64 x) SIGN = x + SIGN.
Proof.
  intros Hx. pose proof (u64_range x). rewrite lxor_sign by done. unfold SIGN, u64 in *.
  destruct (Z.leb_spec 0 x).
  - rewrite Z.mod_small by lia. rewrite (proj2 (Z.ltb_lt _ _)) by lia. lia.
  - assert (x mod 18446744073709551616 = x + 18446744073709551616) as ->.
    { rewrite <-(Z.mod_add x 1) by lia. apply Z.mod_small. lia. }
    rewrite (proj2 (Z.ltb_ge _ _)) by lia. lia.
Qed.

Lemma f64_image u : f64_ok u ->
  (if f64_ge0 u then Z.lxor u SIGN else Z.lxor u 18446744073709551615) =
  if u <? SIGN then f64_key u + SIGN else f64_key u + SIGN - 1.
Proof.
  intros Hu. rewrite f64_ge0_ok by done. destruct Hu as (Hr & _ & _). unfold f64_key.
  destruct (Z.ltb_spec u SIGN).
  - rewrite lxor_sign_lt; lia.
  - rewrite lxor_ones by done. unfold SIGN in *. lia.
Qed.

Lemma payload_cmp v w p q r s : value_ok v -> value_ok w -> v_type v = v_type w ->
  encodePayload v = Ok p -> encodePayload w = Ok q ->
  cmp (p ++ r) (q ++ s) = let c := value_cmp v w in if c =? 0 then cmp r s else c.
Proof.
  intros Hv Hw Ht. unfold encodePayload, value_cmp, value_ok in *. rewrite <-Ht in *.
  rewrite Z.eqb_refl. unfold TypeInt64, TypeBytes, TypeBool, TypeFloat64 in *.
  destruct Hv as [(E & Hi)|[(E & Hs)|[E|(E & Hu)]]]; rewrite E in *; cbn [Z.eqb Pos.eqb];
    cbv zeta; intros [= <-] [= <-]; destruct Hw as [(E' & Hi')|[(E' & Hs')|[E'|(E' & Hu')]]];
    try discriminate.
  - rewrite !int_image by done. rewrite cmp_app by (by rewrite !len_be_bytes).
    rewrite cmp_be by (change (256 ^ Z.of_nat 8) with 18446744073709551616; unfold SIGN; lia).
    by rewrite (zcmp_ext (v_i64 v) (v_i64 w)) by lia.
  - rewrite <-!app_assoc. by apply cmp_escape.
  - cbn [app]. rewrite cmp_cons_cons. by destruct (v_bool v), (v_bool w).
  - rewrite !f64_image by done. destruct Hu as (Hr & Hz & _), Hu' as (Hr' & Hz' & _).
    rewrite cmp_app by (by rewrite !len_be_bytes). unfold f64_key, SIGN in *.
    rewrite cmp_be by (change (256 ^ Z.of_nat 8) with 18446744073709551616;
      destruct (Z.ltb_spec (v_f64 v) 9223372036854775808), (Z.ltb_spec (v_f64 w) 9223372036854775808); lia).
    rewrite (zcmp_ext (if v_f64 v <? 9223372036854775808 then v_f64 v else 9223372036854775808 - v_f64 v)
      (if v_f64 w <? 9223372036854775808 then v_f64 w else 9223372036854775808 - v_f64 w)); [done|..];
      destruct (Z.ltb_spec (v_f64 v) 9223372036854775808), (Z.ltb_spec (v_f64 w) 9223372036854775808); lia.
Qed.

Lemma encs_cmp a : forall b, Forall value_ok a -> Forall value_ok b ->
  cmp (encs a) (encs b) = values_cmp a b.
Proof.
  induction a as [|v a IH]; intros [|w b] Ha Hb; cbn [encs values_cmp]; [done|..].
  - apply cmp_nil_cons.
  - apply cmp_cons_nil.
  - apply Forall_cons in Ha as [Hv Ha]. apply Forall_cons in Hb as [Hw Hb].
    destruct (decode_payload v Hv) as (p & Hp & _). destruct (decode_payload w Hw) as (q & Hq & _).
    rewrite Hp, Hq, cmp_cons_cons. destruct (Z.eqb_spec (v_type v) (v_type w)) as [E|E].
    + rewrite (payload_cmp v w p q) by done. rewrite E, Z.ltb_irrefl. cbv zeta.
      by rewrite IH.
    + unfold value_cmp. rewrite (proj2 (Z.eqb_neq (v_type v) (v_type w))) by done. unfold zcmp.
      destruct (Z.ltb_spec (v_type v) (v_type w)), (Z.ltb_spec (v_type w) (v_type v)); try done. lia.
Qed.

(** * Properties *)

(** C20: decoding the encoding of valid values gives the values back, with the
    fields that their types do not use reset to zero, appended to [out]. *)
Theorem decode_encode vals out : Forall value_ok vals ->
  exists e, EncodeValues [] vals = Ok e /\ DecodeValues e out = Ok (out ++ (canon <$> vals)).
Proof.
  intros H. exists (encs vals). rewrite EncodeValues_encs by done. split; [done|].
  unfold DecodeValues. by apply DecodeValues_encs.
Qed.

(** C5: the encoding is order preserving on valid values: integers, byte strings,
    booleans, and floats other than the negative zero and the NaNs without sign.
    Comparing two encoded keys of tables or indexes bytewise compares first the
    prefixes, then the lists of such values lexicographically, each value in the
    order of its type. (The negative zero is encoded below all other numbers:
    [negative_zero_lost].) *)
Theorem EncodeKey_order p q a b : 0 <= p < 4294967296 -> 0 <= q < 4294967296 ->
  Forall value_ok a -> Forall value_ok b ->
  exists ka kb, EncodeKey [] p a = Ok ka /\ EncodeKey [] q b = Ok kb /\
    cmp ka kb = if p =? q then values_cmp a b else zcmp p q.
Proof.
  intros Hp Hq Ha Hb. unfold EncodeKey. rewrite !EncodeValues_encs by done.
  eexists _, _. split; [done|]. split; [done|]. rewrite !app_nil_l.
  rewrite cmp_app by (by rewrite !len_be_bytes).
  rewrite cmp_be by (change (256 ^ Z.of_nat 4) with 4294967296; lia).
  rewrite encs_cmp by done. unfold zcmp. destruct (Z.eqb_spec p q) as [->|Hne].
  - by rewrite Z.ltb_irrefl.
  - destruct (Z.ltb_spec p q), (Z.ltb_spec q p); try done. lia.
Qed.

(** The float branch of the encoding loses a negative zero: [-0.0] is stored
    below every other number and is read back as a NaN. *)
Theorem negative_zero_lost :
  exists e, EncodeValues [] [Float64 SIGN] = Ok e /\
    DecodeValues e [] = Ok [Float64 18446744073709551615] /\
    f64_nan 18446744073709551615 = true /\
    forall u, f64_ok u -> f64_nan u = false -> exists e', EncodeValues [] [Float64 u] = Ok e' /\ cmp e e' < 0.
Proof.
  eexists. split; [vm_compute; reflexivity|]. split; [vm_compute; reflexivity|].
  split; [done|]. intros u Hu Hnan.
  assert (Forall value_ok [Float64 u]) as Hok.
  { constructor; [|constructor]. right. right. by right. }
  exists (encs [Float64 u]). rewrite EncodeValues_encs by done. split; [done|].
  cbn [encs]. change (encodePayload (Float64 u)) with
    (Ok (be_bytes 8 (if f64_ge0 u then Z.lxor u SIGN else Z.lxor u 18446744073709551615))).
  cbv iota. rewrite app_nil_r, f64_image by done. rewrite cmp_cons_cons.
  change [0; 0; 0; 0; 0; 0; 0; 0] with (be_bytes 8 0). cbn [v_type Float64 TypeFloat64].
  rewrite Z.ltb_irrefl. destruct Hu as (Hr & Hz & _).
  set (x := if u <? SIGN then _ else _).
  assert (0 < x < 18446744073709551616) as Hx.
  { unfold x, f64_key, f64_nan, SIGN in *.
    change 9223372036854775807 with (Z.ones 63) in Hnan. rewrite Z.land_ones in Hnan by done.
    change (2 ^ 63) with 9223372036854775808 in Hnan.
    pose proof (Z.div_mod u 9223372036854775808 ltac:(done)).
    pose proof (Z.mod_pos_bound u 9223372036854775808 ltac:(done)).
    destruct (Z.ltb_spec u 9223372036854775808); lia. }
  rewrite cmp_be by (change (256 ^ Z.of_nat 8) with 18446744073709551616; lia).
  unfold zcmp. by rewrite (proj2 (Z.ltb_lt 0 x)) by lia.
Qed.

(** * Witnesses *)

Definition sample_values : list Value :=
  [Int64 (-5); Bytes [0; 1; 2; 255]; VBool true; Float64 4607182418800017408].

Lemma sample_values_ok : Forall value_ok sample_values.
Proof. apply (bool_decide_unpack _). vm_compute. exact I. Qed.

Lemma decode_encode_witness : exists e,
  EncodeValues [] sample_values = Ok e /\ DecodeValues e [] = Ok ([] ++ (canon <$> sample_values)).
Proof. apply (decode_encode sample_values []). exact sample_values_ok. Defined.

Lemma EncodeKey_order_witness : exists ka kb,
  EncodeKey [] 7 [Int64 (-5)] = Ok ka /\ EncodeKey [] 7 [Int64 3] = Ok kb /\ cmp ka kb = -1.
Proof.
  apply (EncodeKey_order 7 7 [Int64 (-5)] [Int64 3]); try lia;
    apply (bool_decide_unpack _); vm_compute; exact I.
Defined.
