(* ===== verification/Meta.v ===== *)
(** The meta page: the layout of src/internal/storage/page.go ([WriteMeta],
    [ReadMeta]) and its checksum of recovery.go ([WriteMetaFull], [VerifyMeta],
    [ReadMetaSafe]).

    What is written is read back, and the checksum together with the signature
    detects every corruption of a single byte. *)
From S2P Require Import Prelude.
#[local] Open Scope Z_scope.

Definition PageSize : Z := 4096.

(** * CRC-32 (hash/crc32, IEEE polynomial, reflected) *)

Definition CRC_POLY : Z := 3988292384.

Definition crc_bit (s : Z) : Z :=
  if Z.odd s then Z.lxor (Z.shiftr s 1) CRC_POLY else Z.shiftr s 1.

Definition crc_byte (s b : Z) : Z := Nat.iter 8 crc_bit (Z.lxor s b).

Definition crc_update (s : Z) (l : bytes) : Z := foldl crc_byte s l.

Definition ChecksumIEEE (l : bytes) : Z := Z.lxor (crc_update 4294967295 l) 4294967295.

(** * The meta page *)

Definition sigSize : Z := 16.

(** ["SvacaraDB01"] padded with five zero bytes. *)
Definition metaSig : bytes := [83; 118; 97; 99; 97; 114; 97; 68; 66; 48; 49; 0; 0; 0; 0; 0].

Definition metaOffRoot : Z := sigSize.
Definition metaOffUsed : Z := sigSize + 8.
Definition metaOffFree : Z := sigSize + 16.

(** The arguments of [WriteMeta], which are the results of [ReadMeta]. *)
Record Meta := mkMeta {
  m_root : Z; m_flushed : Z; m_headPage : Z; m_headSeq : Z; m_tailPage : Z; m_tailSeq : Z }.

#[global] Instance Meta_eq_dec : EqDecision Meta.
Proof. solve_decision. Defined.

Definition WriteMeta (page : bytes) (m : Meta) : res bytes :=
  sig ← slice_to page sigSize;
  page ← copy_at page 0 (take (length sig) metaSig);
  page ← put_le 8 page metaOffRoot (m_root m);
  page ← put_le 8 page metaOffUsed (m_flushed m);
  page ← put_le 8 page metaOffFree (m_headPage m);
  page ← put_le 8 page (metaOffFree + 8) (m_headSeq m);
  page ← put_le 8 page (metaOffFree + 16) (m_tailPage m);
  put_le 8 page (metaOffFree + 24) (m_tailSeq m).

Definition read_u64 (page : bytes) (off : Z) : res Z := b ← slice_from page off; le_uint 8 b.

(** [None] stands for [ok = false]. *)
Definition ReadMeta (page : bytes) : res (option Meta) :=
  sig ← slice_to page sigSize;
  if bool_decide (sig <> metaSig) then Ok None
  else
    root ← read_u64 page metaOffRoot;
    flushed ← read_u64 page metaOffUsed;
    headPage ← read_u64 page metaOffFree;
    headSeq ← read_u64 page (metaOffFree + 8);
    tailPage ← read_u64 page (metaOffFree + 16);
    tailSeq ← read_u64 page (metaOffFree + 24);
    Ok (Some (mkMeta root flushed headPage headSeq tailPage tailSeq)).

Definition checksumOff : Z := PageSize - 4.

Definition checksum (page : bytes) : res Z :=
  b ← slice page 4 checksumOff; Ok (ChecksumIEEE b).

Definition WriteMetaFull (page : bytes) (m : Meta) : res bytes :=
  page ← WriteMeta page m;
  c ← checksum page;
  put_le 4 page checksumOff c.

Definition VerifyMeta (page : bytes) : res bool :=
  b ← slice_from page checksumOff;
  stored ← le_uint 4 b;
  computed ← checksum page;
  Ok (stored =? computed).

Definition ReadMetaSafe (page : bytes) : res (option Meta) :=
  ok ← VerifyMeta page;
  if negb ok then Ok None else ReadMeta page.

(** * Writing and reading back *)

Definition u64_ok (x : Z) : Prop := 0 <= x < 18446744073709551616.

Definition meta_ok (m : Meta) : Prop :=
  u64_ok (m_root m) /\ u64_ok (m_flushed m) /\ u64_ok (m_headPage m) /\
  u64_ok (m_headSeq m) /\ u64_ok (m_tailPage m) /\ u64_ok (m_tailSeq m).

Definition meta_image (m : Meta) : bytes :=
  metaSig ++ le_bytes 8 (m_root m) ++ le_bytes 8 (m_flushed m) ++ le_bytes 8 (m_headPage m) ++
  le_bytes 8 (m_headSeq m) ++ le_bytes 8 (m_tailPage m) ++ le_bytes 8 (m_tailSeq m).

Lemma len_meta_image m : len (meta_image m) = 64.
Proof. unfold meta_image. rewrite !len_app, !len_le_bytes. done. Qed.

(** A store right after what has been written at the front of the page. *)
Lemma put_le_next n page l pos v : pos = len l -> pos + Z.of_nat n <= len page ->
  put_le n (blit page 0 l) pos v = Ok (blit page 0 (l ++ le_bytes n v)).
Proof.
  intros -> Hn. pose proof (len_nonneg l).
  assert (len (blit page 0 l) = len page) as Hl by (apply len_blit; lia).
  rewrite put_le_ok by lia. rewrite blit_blit; [done|lia|lia|]. rewrite len_le_bytes. lia.
Qed.

Lemma WriteMeta_image page m : len page = PageSize -> WriteMeta page m = Ok (blit page 0 (meta_image m)).
Proof.
  intros Hl. unfold WriteMeta, slice_to, sigSize, metaOffRoot, metaOffUsed, metaOffFree, sigSize.
  unfold PageSize in Hl. rewrite Hl. change ((0 <=? 16) && (16 <=? 4096)) with true. cbv iota.
  rewrite bind_ok.
  assert (take (length (take (Z.to_nat 16) page)) metaSig = metaSig) as ->.
  { apply take_ge. rewrite length_take. unfold len in Hl. simpl length. lia. }
  assert (len metaSig = 16) as Ls by done.
  rewrite copy_at_ok, bind_ok by lia. unfold meta_image.
  do 5 (rewrite put_le_next, bind_ok by (rewrite ?len_app, ?len_le_bytes; lia)).
  rewrite put_le_next by (rewrite ?len_app, ?len_le_bytes; lia).
  by rewrite <-!app_assoc.
Qed.

Lemma has_read_u64 page off v : u64_ok v -> has page off (le_bytes 8 v) -> read_u64 page off = Ok v.
Proof. intros Hv H. exact (has_le_uint page off 8 v H Hv). Qed.

Lemma ReadMeta_image page m : meta_ok m -> has page 0 (meta_image m) -> ReadMeta page = Ok (Some m).
Proof.
  intros (H1 & H2 & H3 & H4 & H5 & H6) H. unfold meta_image in H.
  rewrite !has_app, !len_le_bytes in H. change (len metaSig) with 16 in H.
  destruct H as (Hs & R1 & R2 & R3 & R4 & R5 & R6).
  unfold ReadMeta, metaOffRoot, metaOffUsed, metaOffFree, sigSize.
  assert (slice_to page 16 = Ok metaSig) as ->.
  { pose proof (has_slice_at page 0 metaSig 16 Hs eq_refl) as E.
    unfold slice_from in E. pose proof (has_bounds _ _ _ Hs). change (len metaSig) with 16 in *.
    rewrite (proj2 (Z.leb_le 0 (len page))) in E by lia. exact E. }
  rewrite bind_ok, bool_decide_false by tauto.
  rewrite (has_read_u64 page 16 (m_root m)), bind_ok by done.
  rewrite (has_read_u64 page (16 + 8) (m_flushed m)), bind_ok by done.
  rewrite (has_read_u64 page (16 + 16) (m_headPage m)), bind_ok by done.
  rewrite (has_read_u64 page (16 + 16 + 8) (m_headSeq m)), bind_ok by done.
  rewrite (has_read_u64 page (16 + 16 + 16) (m_tailPage m)), bind_ok by done.
  rewrite (has_read_u64 page (16 + 16 + 24) (m_tailSeq m)), bind_ok by done.
  by destruct m.
Qed.

(** * The checksum *)

Definition crc_range (s : Z) : Prop := 0 <= s < 2 ^ 32.

Lemma lxor_range n a b : 0 <= n -> 0 <= a < 2 ^ n -> 0 <= b < 2 ^ n -> 0 <= Z.lxor a b < 2 ^ n.
Proof.
  intros Hn Ha Hb. assert (0 <= Z.lxor a b) as H0 by (apply Z.lxor_nonneg; lia). split; [done|].
  destruct (Z.eq_dec (Z.lxor a b) 0) as [->|Hne]; [lia|]. apply Z.log2_lt_pow2; [lia|].
  pose proof (Z.log2_lxor a b ltac:(lia) ltac:(lia)).
  assert (forall x, 0 <= x < 2 ^ n -> x = 0 \/ Z.log2 x < n) as Hlog.
  { intros x Hx. destruct (Z.eq_dec x 0); [by left|right]. apply Z.log2_lt_pow2; lia. }
  destruct (Hlog a Ha) as [->|?], (Hlog b Hb) as [->|?];
    rewrite ?Z.lxor_0_l, ?Z.lxor_0_r in *; try done; lia.
Qed.

Lemma bit31_low x : 0 <= x < 2 ^ 31 -> Z.testbit x 31 = false.
Proof.
  intros Hx. destruct (Z.eq_dec x 0) as [->|]; [done|].
  apply Z.bits_above_log2; [lia|]. apply Z.log2_lt_pow2; lia.
Qed.

Lemma half_range s : crc_range s -> 0 <= Z.shiftr s 1 < 2 ^ 31.
Proof.
  intros Hs. unfold crc_range in Hs. rewrite Z.shiftr_div_pow2 by lia. change (2 ^ 1) with 2.
  change (2 ^ 31) with 2147483648. change (2 ^ 32) with 4294967296 in Hs. dlia.
Qed.

Lemma crc_bit_range s : crc_range s -> crc_range (crc_bit s).
Proof.
  intros Hs. pose proof (half_range s Hs). unfold crc_bit, crc_range in *.
  assert (2 ^ 31 < 2 ^ 32) by done. destruct (Z.odd s); [|lia].
  apply lxor_range; [done|lia|done].
Qed.

Lemma lxor_cancel a b c : Z.lxor a c = Z.lxor b c -> a = b.
Proof.
  intros E. rewrite <-(Z.lxor_0_r a), <-(Z.lxor_0_r b), <-(Z.lxor_nilpotent c).
  by rewrite <-!Z.lxor_assoc, E.
Qed.

(** The top bit of the result tells the bit that was shifted out. *)
Lemma crc_bit_inj s t : crc_range s -> crc_range t -> crc_bit s = crc_bit t -> s = t.
Proof.
  intros Hs Ht. pose proof (half_range s Hs) as Hs'. pose proof (half_range t Ht) as Ht'.
  assert (forall x, x = 2 * Z.shiftr x 1 + Z.b2z (Z.odd x)) as Hx.
  { intros x. rewrite Z.shiftr_div_pow2, <-Z.bit0_odd, Z.bit0_mod by lia. change (2 ^ 1) with 2.
    apply Z.div_mod. done. }
  unfold crc_bit. intros E.
  assert (Z.odd s = Z.odd t) as Eo.
  { apply (f_equal (fun x => Z.testbit x 31)) in E.
    destruct (Z.odd s), (Z.odd t); try done; rewrite ?Z.lxor_spec, (bit31_low (Z.shiftr s 1)), (bit31_low (Z.shiftr t 1)) in E by done;
      change (Z.testbit CRC_POLY 31) with true in E; done. }
  pose proof (Hx s) as Es. pose proof (Hx t) as Et. rewrite Eo in Es, E.
  destruct (Z.odd t); [apply lxor_cancel in E|]; lia.
Qed.

Lemma crc_bits_inj n s t : crc_range s -> crc_range t ->
  Nat.iter n crc_bit s = Nat.iter n crc_bit t -> s = t.
Proof.
  intros Hs Ht. induction n as [|n IH]; [done|]. simpl. intros E. apply IH.
  assert (forall x, crc_range x -> crc_range (Nat.iter n crc_bit x)) as Hr.
  { intros x Hx. clear -Hx. induction n as [|n IH]; [done|]. simpl. by apply crc_bit_range. }
  apply crc_bit_inj in E; auto.
Qed.

Lemma crc_byte_range s b : crc_range s -> is_byte b -> crc_range (crc_byte s b).
Proof.
  intros Hs Hb. unfold crc_byte. assert (crc_range (Z.lxor s b)) as H.
  { apply lxor_range; [done|exact Hs|]. unfold is_byte in Hb. change (2 ^ 32) with 4294967296. lia. }
  revert H. generalize (Z.lxor s b). clear. intros x Hx.
  assert (forall n, crc_range (Nat.iter n crc_bit x)) as Hn; [|apply Hn].
  induction n as [|n IH]; [done|]. simpl. by apply crc_bit_range.
Qed.

Lemma crc_byte_inj s t b c : crc_range s -> crc_range t -> is_byte b -> is_byte c ->
  crc_byte s b = crc_byte t c -> Z.lxor s b = Z.lxor t c.
Proof.
  unfold is_byte. intros Hs Ht Hb Hc. apply crc_bits_inj;
    (apply lxor_range; [done|done|change (2 ^ 32) with 4294967296; lia]).
Qed.

Lemma crc_update_range l : forall s, crc_range s -> bytes_ok l -> crc_range (crc_update s l).
Proof.
  induction l as [|b l IH]; intros s Hs Hl; [done|]. apply Forall_cons in Hl as [Hb Hl].
  apply IH; [by apply crc_byte_range|done].
Qed.

Lemma crc_update_inj l : forall s t, crc_range s -> crc_range t -> bytes_ok l ->
  crc_update s l = crc_update t l -> s = t.
Proof.
  induction l as [|b l IH]; intros s t Hs Ht Hl E; [done|]. apply Forall_cons in Hl as [Hb Hl].
  apply IH in E; [|by apply crc_byte_range..|done].
  apply crc_byte_inj in E; try done. by apply lxor_cancel in E.
Qed.

(** Two inputs that differ in one byte have different checksums. *)
Lemma ChecksumIEEE_one l1 b c l2 : bytes_ok l1 -> bytes_ok l2 -> is_byte b -> is_byte c -> b <> c ->
  ChecksumIEEE (l1 ++ b :: l2) <> ChecksumIEEE (l1 ++ c :: l2).
Proof.
  intros H1 H2 Hb Hc Hne E. unfold ChecksumIEEE, crc_update in E. apply lxor_cancel in E.
  rewrite !foldl_app in E. simpl in E. fold (crc_update 4294967295 l1) in E.
  set (s := crc_update 4294967295 l1) in *.
  assert (crc_range s) as Hs by (by apply crc_update_range).
  apply (crc_update_inj l2) in E; [|by apply crc_byte_range..|done].
  apply crc_byte_inj in E; try done. rewrite !(Z.lxor_comm s) in E. by apply lxor_cancel in E.
Qed.

Lemma ChecksumIEEE_range l : bytes_ok l -> 0 <= ChecksumIEEE l < 4294967296.
Proof. intros Hl. apply (lxor_range 32); [done|by apply crc_update_range|done]. Qed.

(** * The stored page *)

Lemma le_val_inj l : forall k, bytes_ok l -> bytes_ok k -> length l = length k ->
  le_val l = le_val k -> l = k.
Proof.
  induction l as [|x l IH]; intros [|y k] Hl Hk Hlen; try done.
  apply Forall_cons in Hl as [Hx Hl]. apply Forall_cons in Hk as [Hy Hk]. unfold is_byte in *.
  rewrite !le_val_cons. intros E. injection Hlen as Hlen.
  assert (x = y) as -> by lia. f_equal. apply IH; (done || lia).
Qed.

Lemma bytes_ok_blit b pos l : bytes_ok b -> bytes_ok l -> bytes_ok (blit b pos l).
Proof. intros. unfold blit. auto using Forall_app_2, Forall_take, Forall_drop. Qed.

Definition body (page : bytes) : bytes := take 4088 (drop 4 page).

Definition tail4 (page : bytes) : bytes := take 4 (drop 4092 page).

Lemma checksum_body page : len page = PageSize -> checksum page = Ok (ChecksumIEEE (body page)).
Proof.
  intros Hl. unfold checksum, slice, checksumOff, PageSize in *. rewrite Hl. reflexivity.
Qed.

Lemma VerifyMeta_body page : len page = PageSize ->
  VerifyMeta page = Ok (le_val (tail4 page) =? ChecksumIEEE (body page)).
Proof.
  intros Hl. unfold VerifyMeta. rewrite checksum_body by done.
  unfold slice_from, le_uint, checksumOff, PageSize in *. rewrite Hl.
  change ((0 <=? 4096 - 4) && (4096 - 4 <=? 4096)) with true. cbv iota.
  rewrite bind_ok, len_drop by lia. rewrite Hl. reflexivity.
Qed.

Lemma body_blit page pos l : len page = PageSize -> 4092 <= pos -> pos + len l <= PageSize ->
  body (blit page pos l) = body page.
Proof.
  intros Hl Hp Hn. unfold body. apply list_eq. intros i. unfold PageSize in *.
  destruct (decide (i < 4088)%nat).
  - rewrite !lookup_take_lt, !lookup_drop, blit_lookup by lia. by rewrite decide_False by lia.
  - by rewrite !lookup_take_ge by lia.
Qed.

Lemma has_tail4 page l : len page = PageSize -> length l = 4%nat -> has page 4092 l -> tail4 page = l.
Proof. intros Hl H4 H. pose proof (has_take_drop _ _ _ H) as E. by rewrite H4 in E. Qed.

Lemma length_le_bytes n v : length (le_bytes n v) = n.
Proof. pose proof (len_le_bytes n v). unfold len in *. lia. Qed.

Lemma WriteMetaFull_spec page m : len page = PageSize -> bytes_ok page ->
  exists p, WriteMetaFull page m = Ok p /\ len p = PageSize /\ bytes_ok p /\
    has p 0 (meta_image m) /\ le_val (tail4 p) = ChecksumIEEE (body p).
Proof.
  intros Hl Hb. unfold WriteMetaFull. rewrite WriteMeta_image, bind_ok by done.
  pose proof (len_meta_image m) as Hm.
  assert (bytes_ok (meta_image m)) as Him.
  { unfold meta_image. repeat apply Forall_app_2; try apply le_bytes_ok.
    apply (bool_decide_unpack _). vm_compute. exact I. }
  set (p1 := blit page 0 (meta_image m)).
  assert (len p1 = PageSize) as L1 by (unfold p1, PageSize in *; rewrite len_blit; lia).
  assert (bytes_ok p1) as B1 by (by apply bytes_ok_blit).
  rewrite checksum_body, bind_ok by done.
  set (c := ChecksumIEEE (body p1)).
  assert (0 <= c < 4294967296) as Hc by (apply ChecksumIEEE_range; unfold body; auto using Forall_take, Forall_drop).
  unfold checksumOff, PageSize in *. rewrite put_le_ok by lia.
  assert (4092 + len (le_bytes 4 c) <= len p1) as Hfit by (rewrite len_le_bytes; lia).
  eexists. split; [done|]. split_and!.
  - rewrite len_blit; lia.
  - apply bytes_ok_blit; [done|apply le_bytes_ok].
  - apply has_blit_other; [lia|done| |left; lia]. apply has_blit_same; lia.
  - rewrite body_blit by (unfold PageSize; lia). fold c.
    rewrite (has_tail4 _ (le_bytes 4 c)).
    + by apply le_val_bytes.
    + unfold PageSize. rewrite len_blit; lia.
    + apply length_le_bytes.
    + apply has_blit_same; lia.
Qed.

(** The same list with one element changed. *)
Lemma insert_ne {A} (l : list A) i x y : l !! i = Some y -> x <> y -> <[i := x]> l <> l.
Proof.
  intros Hy Hne E. apply (f_equal (.!! i)) in E. rewrite list_lookup_insert_eq in E; [congruence|].
  by eapply lookup_lt_Some.
Qed.

Lemma insert_split {A} (l : list A) i x y : l !! i = Some y ->
  l = take i l ++ y :: drop (S i) l /\ <[i := x]> l = take i l ++ x :: drop (S i) l.
Proof.
  intros Hy. split; [by rewrite take_drop_middle|]. apply insert_take_drop. by eapply lookup_lt_Some.
Qed.

Lemma ReadMetaSafe_corrupt p m i x y :
  len p = PageSize -> bytes_ok p -> has p 0 (meta_image m) ->
  le_val (tail4 p) = ChecksumIEEE (body p) ->
  p !! i = Some y -> is_byte x -> x <> y -> ReadMetaSafe (<[i := x]> p) = Ok None.
Proof.
  intros Hl Hb Hm Hc Hy Hx Hne. set (p' := <[i := x]> p).
  assert (len p' = PageSize) as Hl' by (unfold p', len; by rewrite length_insert).
  pose proof (lookup_lt_Some _ _ _ Hy) as Hi. unfold PageSize, len in Hl.
  assert (is_byte y) as Hby by (rewrite Forall_lookup in Hb; eauto).
  unfold ReadMetaSafe. rewrite VerifyMeta_body, bind_ok by done.
  destruct (decide (i < 4)%nat) as [H4|H4]; [|destruct (decide (i < 4092)%nat) as [H92|H92]].
  - (* the signature *)
    destruct (negb _); [done|]. unfold ReadMeta, slice_to, sigSize. rewrite Hl'.
    change ((0 <=? 16) && (16 <=? PageSize)) with true. cbv iota. rewrite bind_ok.
    assert (take (Z.to_nat 16) p = metaSig) as Hs.
    { unfold meta_image in Hm. rewrite has_app in Hm. destruct Hm as [Hm _].
      exact (has_take_drop _ _ _ Hm). }
    rewrite bool_decide_true; [done|]. unfold p'. rewrite take_insert_lt, <-Hs by lia.
    eapply insert_ne; [|done]. rewrite lookup_take_lt by lia. exact Hy.
  - (* the checked bytes *)
    rewrite (proj2 (Z.eqb_neq _ _)); [done|].
    assert (tail4 p' = tail4 p) as ->.
    { unfold tail4, p'. by rewrite drop_insert_lt by lia. }
    assert (body p' = <[(i - 4)%nat := x]> (body p)) as ->.
    { unfold body, p'. rewrite drop_insert_ge, take_insert_lt by lia. done. }
    assert (body p !! (i - 4)%nat = Some y) as Hyb.
    { unfold body. rewrite lookup_take_lt, lookup_drop by lia. rewrite <-Hy. f_equal. lia. }
    destruct (insert_split (body p) (i - 4) x y Hyb) as [E1 E2]. rewrite Hc, E2. rewrite E1 at 1.
    assert (bytes_ok (body p)) as Hbb by (unfold body; auto using Forall_take, Forall_drop).
    apply ChecksumIEEE_one; auto using Forall_take, Forall_drop.
  - (* the stored checksum *)
    rewrite (proj2 (Z.eqb_neq _ _)); [done|].
    assert (body p' = body p) as ->.
    { unfold body, p'. rewrite drop_insert_ge, take_insert_ge by lia. done. }
    rewrite <-Hc. unfold tail4, p'. rewrite drop_insert_ge, take_insert_lt by lia.
    assert (bytes_ok (take 4 (drop 4092 p))) as Hbt by auto using Forall_take, Forall_drop.
    intros E. apply le_val_inj in E; [|by apply Forall_insert|done|by rewrite length_insert].
    revert E. eapply insert_ne; [|done]. rewrite lookup_take_lt, lookup_drop by lia.
    rewrite <-Hy. f_equal. lia.
Qed.

Lemma WriteMetaFull_read page m : len page = PageSize -> bytes_ok page -> meta_ok m ->
  exists p, WriteMetaFull page m = Ok p /\ len p = PageSize /\ bytes_ok p /\
    ReadMetaSafe p = Ok (Some m).
Proof.
  intros Hl Hb Hm. destruct (WriteMetaFull_spec page m Hl Hb) as (p & E & Lp & Hbp & Hi & Hc).
  exists p. split_and!; try done. unfold ReadMetaSafe.
  rewrite VerifyMeta_body, bind_ok, Hc, Z.eqb_refl by done. by apply ReadMeta_image.
Qed.

(** * Properties *)

(** The meta page that [WriteMetaFull] writes is accepted by the checksum and
    read back by [ReadMetaSafe] with the values that were written. *)
Theorem meta_roundtrip page m : len page = PageSize -> bytes_ok page -> meta_ok m ->
  exists p, WriteMetaFull page m = Ok p /\ len p = PageSize /\ ReadMetaSafe p = Ok (Some m).
Proof.
  intros Hl Hb Hm. destruct (WriteMetaFull_read page m Hl Hb Hm) as (p & E & Lp & _ & Hr).
  by exists p.
Qed.

(** C21: changing any single byte of a written meta page makes [ReadMetaSafe]
    refuse it: the signature catches the bytes the checksum does not cover. *)
Theorem meta_corruption_detected page m i x y p :
  len page = PageSize -> bytes_ok page -> WriteMetaFull page m = Ok p ->
  p !! i = Some y -> is_byte x -> x <> y -> ReadMetaSafe (<[i := x]> p) = Ok None.
Proof.
  intros Hl Hb E. destruct (WriteMetaFull_spec page m Hl Hb) as (p' & E' & Lp & Bp & Hi & Hc).
  rewrite E in E'. injection E' as <-. by eapply ReadMetaSafe_corrupt.
Qed.

(** * Witnesses *)

Definition sample_meta : Meta := mkMeta 3 9 0 0 0 0.

Lemma make_ok n : bytes_ok (make n).
Proof. apply Forall_replicate. unfold is_byte. lia. Qed.

Lemma meta_roundtrip_witness : exists p,
  WriteMetaFull (make PageSize) sample_meta = Ok p /\ len p = PageSize /\
  ReadMetaSafe p = Ok (Some sample_meta).
Proof.
  apply (meta_roundtrip (make PageSize) sample_meta).
  - reflexivity.
  - apply make_ok.
  - unfold meta_ok, u64_ok. simpl. lia.
Defined.

Lemma meta_corruption_detected_witness : exists p,
  WriteMetaFull (make PageSize) sample_meta = Ok p /\ ReadMetaSafe (<[24%nat := 8]> p) = Ok None.
Proof.
  eexists. split; [vm_compute; reflexivity|].
  apply (meta_corruption_detected (make PageSize) sample_meta 24 8 9).
  - reflexivity.
  - apply make_ok.
  - vm_compute. reflexivity.
  - vm_compute. reflexivity.
  - unfold is_byte. lia.
  - discriminate.
Defined.
