(* ===== verification/PageMgr.v ===== *)
(** The page manager: src/internal/storage/page.go and [Recover] of recovery.go.

    The file is its bytes; a read goes through the memory map, which sees the
    current contents of the file, and faults on a page that lies wholly beyond
    its end. System calls ([mmap], [pwrite], [fsync]) take their outcome from
    the list [pm_faults]. *)
From S2P Require Import Prelude Meta.
#[local] Open Scope Z_scope.

(** * The operating system *)

(** The outcome of a system call: it succeeds, or fails after [k] bytes. *)
Inductive outcome := Succeeds | Fails (k : nat).

(** The calls to come, in order; when the list is used up they succeed. On a
    closed file every call fails. *)
Inductive calls := Calls (l : list outcome) | ClosedFile.

(** [pwrite]: a hole before the offset reads as zeros; writing nothing leaves
    the file as it is. *)
Definition write_at (f : bytes) (off : Z) (data : bytes) : bytes :=
  match data with
  | [] => f
  | _ :: _ =>
      let f' := f ++ make (off - len f) in
      take (Z.to_nat off) f' ++ data ++ drop (Z.to_nat off + length data) f'
  end.

(** The page of the file at [off] through a shared map. *)
Definition mapped_page (f : bytes) (off : Z) : res bytes :=
  if off <? len f
  then Ok (take (Z.to_nat PageSize) (drop (Z.to_nat off) f ++ make PageSize))
  else Panic.

(** * State *)

(** [mmap] keeps the lengths of the chunks: each maps the file from where the
    previous one ends. [temp] are the pages allocated since the last flush. *)
Record PageMgr := mkPM {
  pm_file : bytes;
  pm_faults : calls;
  mmap_total : Z;
  mmap_chunks : list Z;
  flushed : Z;
  temp : list bytes;
  updates : gmap Z bytes;
}.

Inductive pm_error :=
| ErrMmap | ErrWritePage (ptr : Z) | ErrShortPage (ptr : Z) | ErrWriteTemp
| ErrMetaChecksum | ErrMetaSignature.

Definition NewPageMgr (file : bytes) (faults : list outcome) : PageMgr :=
  mkPM file (Calls faults) 0 [] 0 [] ∅.

Definition set_updates (pm : PageMgr) (u : gmap Z bytes) : PageMgr :=
  mkPM (pm_file pm) (pm_faults pm) (mmap_total pm) (mmap_chunks pm) (flushed pm) (temp pm) u.

Definition set_file (pm : PageMgr) (f : bytes) (fs : calls) : PageMgr :=
  mkPM f fs (mmap_total pm) (mmap_chunks pm) (flushed pm) (temp pm) (updates pm).

(** The next system call. *)
Definition syscall (pm : PageMgr) : outcome * calls :=
  match pm_faults pm with
  | Calls [] => (Succeeds, Calls [])
  | Calls (o :: fs) => (o, Calls fs)
  | ClosedFile => (Fails 0, ClosedFile)
  end.

(** [file.WriteAt]: on failure a prefix may have been written; a negative offset
    is an error. *)
Definition WriteAt (pm : PageMgr) (data : bytes) (off : Z) : bool * PageMgr :=
  if off <? 0 then (false, pm)
  else
  match syscall pm with
  | (Succeeds, fs) => (true, set_file pm (write_at (pm_file pm) off data) fs)
  | (Fails k, fs) => (false, set_file pm (write_at (pm_file pm) off (take k data)) fs)
  end.

Definition Fsync (pm : PageMgr) : bool * PageMgr :=
  match syscall pm with
  | (Succeeds, fs) => (true, set_file pm (pm_file pm) fs)
  | (Fails _, fs) => (false, set_file pm (pm_file pm) fs)
  end.

(** * Operations *)

(** The loop of [Read]; [base] is the file offset of the chunk. *)
Fixpoint Read_loop (f : bytes) (chunks : list Z) (start base ptr : Z) : res bytes :=
  match chunks with
  | [] => Panic
  | chunk :: chunks =>
      let end_ := u64 (start + chunk / PageSize) in
      if ptr <? end_ then
        let offset := u64 (PageSize * u64 (ptr - start)) in
        if offset + PageSize <=? chunk then mapped_page f (base + offset) else Panic
      else Read_loop f chunks end_ (base + chunk) ptr
  end.

Definition Read (pm : PageMgr) (ptr : Z) : res bytes :=
  match updates pm !! ptr with
  | Some node => Ok node
  | None => Read_loop (pm_file pm) (mmap_chunks pm) 0 0 ptr
  end.

Definition Alloc (pm : PageMgr) (page : bytes) : Z * PageMgr :=
  let ptr := u64 (flushed pm + u64 (len (temp pm))) in
  (ptr, mkPM (pm_file pm) (pm_faults pm) (mmap_total pm) (mmap_chunks pm) (flushed pm)
          (temp pm ++ [page]) (updates pm)).

(** The page that is returned is the one in [updates]: see [store_page]. *)
Definition Write (pm : PageMgr) (ptr : Z) : res (bytes * PageMgr) :=
  match updates pm !! ptr with
  | Some node => Ok (node, pm)
  | None =>
      page ← Read pm ptr;
      existing ← copy_at (make PageSize) 0 page;
      Ok (existing, set_updates pm (<[ptr := existing]> (updates pm)))
  end.

(** The caller of [Write] changes the page it got. *)
Definition store_page (pm : PageMgr) (ptr : Z) (page : bytes) : PageMgr :=
  set_updates pm (<[ptr := page]> (updates pm)).

Definition Free (pm : PageMgr) (ptr : Z) : PageMgr :=
  set_updates pm (delete ptr (updates pm)).

Definition MaxChunkMB : Z := 64.

(** [for total+alloc < size { alloc *= 2 }]: 64 doublings go through every power
    of two below the width; after them the product is zero and stays so. *)
Fixpoint grow_alloc (fuel : nat) (total alloc size : Z) : res Z :=
  if i64 (total + alloc) <? size then
    match fuel with O => OutOfFuel | S fuel => grow_alloc fuel total (i64 (alloc * 2)) size end
  else Ok alloc.

(** The file offset [int64(ptr) * PageSize]. *)
Definition page_offset (ptr : Z) : Z := i64 (i64 ptr * PageSize).

Definition ExtendMMap (pm : PageMgr) (size : Z) : res (option pm_error * PageMgr) :=
  if size <=? mmap_total pm then Ok (None, pm)
  else
    let alloc := if mmap_total pm <? Z.shiftl MaxChunkMB 20 then Z.shiftl MaxChunkMB 20
                 else mmap_total pm in
    alloc ← grow_alloc 64 (mmap_total pm) alloc size;
    match syscall pm with
    | (Fails _, fs) => Ok (Some ErrMmap, set_file pm (pm_file pm) fs)
    | (Succeeds, fs) =>
        Ok (None, mkPM (pm_file pm) fs (i64 (mmap_total pm + alloc)) (mmap_chunks pm ++ [alloc])
                    (flushed pm) (temp pm) (updates pm))
    end.

(** The loop over [updates], in the order of the list: the Go order is not specified. *)
Fixpoint flush_updates (pm : PageMgr) (l : list (Z * bytes)) (writeCount : Z)
    : Z * option pm_error * PageMgr :=
  match l with
  | [] => (writeCount, None, pm)
  | (ptr, page) :: l =>
      let '(ok, pm) := WriteAt pm page (page_offset ptr) in
      if negb ok then (writeCount, Some (ErrWritePage ptr), pm)
      else if negb (len page =? PageSize) then (writeCount, Some (ErrShortPage ptr), pm)
      else flush_updates pm l (writeCount + 1)
  end.

Definition FlushPages (pm : PageMgr) : res (Z * option pm_error * PageMgr) :=
  if (len (temp pm) =? 0) && bool_decide (updates pm = ∅) then Ok (0, None, pm)
  else
    let fileSize := page_offset (u64 (flushed pm + len (temp pm))) in
    '(err, pm) ← ExtendMMap pm fileSize;
    match err with
    | Some e => Ok (0, Some e, pm)
    | None =>
        let '(writeCount, err, pm) := flush_updates pm (map_to_list (updates pm)) 0 in
        match err with
        | Some e => Ok (writeCount, Some e, pm)
        | None =>
            if 0 <? len (temp pm) then
              let '(ok, pm') := WriteAt pm (concat (temp pm)) (page_offset (flushed pm)) in
              if negb ok then Ok (writeCount, Some ErrWriteTemp, pm')
              else
                let n := len (temp pm) in
                Ok (writeCount + n, None,
                    mkPM (pm_file pm') (pm_faults pm') (mmap_total pm') (mmap_chunks pm')
                      (u64 (flushed pm + n)) [] (updates pm'))
            else Ok (writeCount, None, pm)
        end
    end.

Definition ClearUpdates (pm : PageMgr) : PageMgr :=
  mkPM (pm_file pm) (pm_faults pm) (mmap_total pm) (mmap_chunks pm) (flushed pm) [] ∅.

Definition ResetTo (pm : PageMgr) (fl : Z) : PageMgr :=
  mkPM (pm_file pm) (pm_faults pm) (mmap_total pm) (mmap_chunks pm) fl [] ∅.

Definition Flushed (pm : PageMgr) : Z := flushed pm.

Definition ClosePM (pm : PageMgr) : PageMgr :=
  mkPM (pm_file pm) (pm_faults pm) (mmap_total pm) [] (flushed pm) (temp pm) (updates pm).

Definition Recover (pm : PageMgr) : res (option pm_error * PageMgr) :=
  meta ← Read pm 0;
  ok ← VerifyMeta meta;
  if negb ok then Ok (Some ErrMetaChecksum, pm)
  else
    r ← ReadMeta meta;
    match r with
    | None => Ok (Some ErrMetaSignature, pm)
    | Some m => Ok (None, ResetTo pm (m_flushed m))
    end.

(** * The file as pages *)

Definition byte_at (f : bytes) (i : nat) : Z := default 0 (f !! i).

Definition file_page (f : bytes) (p : Z) : bytes :=
  (fun j => byte_at f (Z.to_nat (p * PageSize) + j)) <$> seq 0 4096.

Lemma byte_at_app_zeros f n i : byte_at (f ++ make n) i = byte_at f i.
Proof.
  unfold byte_at, make. destruct (decide (i < length f)%nat) as [H|H].
  - by rewrite lookup_app_l.
  - rewrite lookup_app_r by lia. rewrite (lookup_ge_None_2 f) by lia. simpl.
    destruct (decide (i - length f < Z.to_nat n)%nat) as [H'|H'].
    + by rewrite lookup_replicate_2.
    + by rewrite lookup_ge_None_2 by (rewrite length_replicate; lia).
Qed.

Lemma byte_at_write f off d i : 0 <= off ->
  byte_at (write_at f off d) i =
    if decide (Z.to_nat off <= i < Z.to_nat off + length d)%nat
    then byte_at d (i - Z.to_nat off) else byte_at f i.
Proof.
  intros Ho. destruct d as [|x d].
  { simpl. by rewrite decide_False by lia. }
  unfold write_at. generalize (x :: d). clear x d. intros d. set (f' := f ++ make (off - len f)).
  assert (Z.to_nat off <= length f')%nat as Hf'.
  { unfold f', make, len. rewrite length_app, length_replicate. lia. }
  assert (length (take (Z.to_nat off) f') = Z.to_nat off) as Ht by (rewrite length_take; lia).
  unfold byte_at at 1. case_decide as Hd.
  - rewrite lookup_app_r by lia. rewrite lookup_app_l by lia. unfold byte_at. by rewrite Ht.
  - rewrite <-(byte_at_app_zeros f (off - len f)). fold f'. unfold byte_at. f_equal.
    destruct (decide (i < Z.to_nat off)%nat).
    + rewrite lookup_app_l by lia. by rewrite lookup_take_lt.
    + rewrite lookup_app_r, lookup_app_r by lia. rewrite lookup_drop. f_equal. lia.
Qed.

Lemma len_write_at f off d : 0 <= off -> 0 < len d ->
  len (write_at f off d) = Z.max (Z.max (len f) off) (off + len d).
Proof.
  intros Ho Hd. destruct d as [|x d]; [done|]. unfold write_at, len, make.
  rewrite !length_app, length_take, length_drop, length_app, length_replicate. unfold len. lia.
Qed.

Lemma list_eq_seq (l : bytes) : (fun j => byte_at l j) <$> seq 0 (length l) = l.
Proof.
  apply list_eq. intros i. rewrite list_lookup_fmap. destruct (decide (i < length l)%nat) as [H|H].
  - rewrite lookup_seq_lt by done. simpl. unfold byte_at.
    by destruct (lookup_lt_is_Some_2 l i H) as [x ->].
  - rewrite lookup_seq_ge by lia. symmetry. apply lookup_ge_None. lia.
Qed.

Lemma mapped_file_page f p : 0 <= p ->
  mapped_page f (p * PageSize) = if p * PageSize <? len f then Ok (file_page f p) else Panic.
Proof.
  intros Hp. unfold mapped_page, PageSize. destruct (_ <? _); [|done]. f_equal. unfold file_page.
  rewrite <-(list_eq_seq (take _ _)).
  assert (length (take (Z.to_nat 4096) (drop (Z.to_nat (p * 4096)) f ++ make 4096)) = 4096%nat) as ->.
  { rewrite length_take, length_app. unfold make. rewrite length_replicate. lia. }
  apply list_fmap_ext. intros i x Hi. apply lookup_seq in Hi as [-> Hi]. unfold PageSize.
  unfold byte_at at 1. rewrite lookup_take_lt by lia.
  change (default 0 (?l !! (0 + i)%nat)) with (byte_at l i).
  rewrite byte_at_app_zeros. unfold byte_at. by rewrite lookup_drop.
Qed.

Lemma file_page_write f q d p : 0 <= p -> 0 <= q -> len d = PageSize ->
  file_page (write_at f (q * PageSize) d) p = if decide (p = q) then d else file_page f p.
Proof.
  intros Hp Hq Hd. unfold PageSize, len in *. unfold file_page, PageSize. case_decide as E.
  - subst q. etrans; [|apply (list_eq_seq d)]. replace (length d) with 4096%nat by lia.
    apply list_fmap_ext. intros i x Hi. apply lookup_seq in Hi as [-> Hi].
    rewrite byte_at_write by lia. rewrite decide_True by lia. f_equal. lia.
  - apply list_fmap_ext. intros i x Hi. apply lookup_seq in Hi as [-> Hi].
    rewrite byte_at_write by lia. by rewrite decide_False by lia.
Qed.

Lemma len_concat_pages (ds : list bytes) : Forall (fun d => len d = PageSize) ds ->
  len (concat ds) = PageSize * len ds.
Proof.
  unfold PageSize. induction 1 as [|d ds Hd _ IH]; [done|]. simpl concat.
  rewrite len_app, len_cons. lia.
Qed.

(** A run of pages written at once. *)
Lemma file_page_write_run ds : forall f q p, 0 <= p -> 0 <= q ->
  Forall (fun d => len d = PageSize) ds ->
  file_page (write_at f (q * PageSize) (concat ds)) p =
    if decide (q <= p < q + len ds) then default [] (ds !! Z.to_nat (p - q)) else file_page f p.
Proof.
  intros f q p Hp Hq Hds. pose proof (len_concat_pages ds Hds) as Hl. unfold len, PageSize in Hl.
  assert (forall j i d, ds !! j = Some d -> (i < 4096)%nat ->
    byte_at (concat ds) (4096 * j + i) = byte_at d i) as Hc.
  { clear -Hds. induction Hds as [|d0 ds Hd _ IH]; intros j i d Hj Hi; [done|].
    unfold len, PageSize in Hd. simpl concat. unfold byte_at. destruct j as [|j].
    - injection Hj as ->. by rewrite lookup_app_l by lia.
    - rewrite lookup_app_r by lia. replace (4096 * S j + i - length d0)%nat with (4096 * j + i)%nat by lia.
      by apply IH. }
  unfold len. case_decide as Hd.
  - destruct (lookup_lt_is_Some_2 ds (Z.to_nat (p - q))) as [d Hpd]; [lia|]. rewrite Hpd. simpl.
    pose proof Hpd as Hdl. rewrite Forall_lookup in Hds. apply Hds in Hdl. unfold len, PageSize in Hdl.
    etrans; [|apply (list_eq_seq d)]. replace (length d) with 4096%nat by lia. unfold file_page, PageSize.
    apply list_fmap_ext. intros i x Hi. apply lookup_seq in Hi as [-> Hi].
    rewrite byte_at_write by lia. rewrite decide_True by lia.
    rewrite Nat.add_0_l, <-(Hc (Z.to_nat (p - q)) i d Hpd Hi). f_equal. lia.
  - unfold file_page, PageSize. apply list_fmap_ext. intros i x Hi. apply lookup_seq in Hi as [-> Hi].
    rewrite byte_at_write by lia. by rewrite decide_False by lia.
Qed.

(** Writing beyond the first page leaves it alone. *)
Lemma file_page0_write f off d : PageSize <= off -> file_page (write_at f off d) 0 = file_page f 0.
Proof.
  intros Ho. unfold PageSize in *. unfold file_page, PageSize. apply list_fmap_ext.
  intros i x Hi. apply lookup_seq in Hi as [-> Hi]. rewrite byte_at_write by lia.
  by rewrite decide_False by lia.
Qed.

#[global] Opaque file_page.

(** * Flushing *)

(** The chunks map whole pages and their lengths add up to the total. *)
Definition chunks_ok (pm : PageMgr) : Prop :=
  Forall (fun c => 0 < c /\ c mod PageSize = 0) (mmap_chunks pm) /\
  foldr Z.add 0 (mmap_chunks pm) = mmap_total pm /\ mmap_total pm <= 2 ^ 61.

Definition page_ok (page : bytes) : Prop := len page = PageSize.

Record pm_ok (pm : PageMgr) : Prop := {
  ok_chunks : chunks_ok pm;
  ok_temp : Forall page_ok (temp pm);
  ok_updates : map_Forall (fun p page => 0 <= p < flushed pm /\ page_ok page) (updates pm);
  ok_flushed : 0 <= flushed pm;
  ok_size : (flushed pm + len (temp pm)) * PageSize <= 2 ^ 60;
}.

Lemma Read_loop_spec f chunks : forall start ptr,
  Forall (fun c => 0 < c /\ c mod PageSize = 0) chunks -> 0 <= start <= ptr ->
  start * PageSize + foldr Z.add 0 chunks <= 2 ^ 63 ->
  Read_loop f chunks start (start * PageSize) ptr =
    if ptr * PageSize <? start * PageSize + foldr Z.add 0 chunks
    then mapped_page f (ptr * PageSize) else Panic.
Proof.
  change (2 ^ 63) with 9223372036854775808.
  induction chunks as [|c chunks IH]; intros start ptr Hc Hs Ht; cbn [Read_loop foldr] in *.
  - by rewrite (proj2 (Z.ltb_ge _ _)) by (unfold PageSize; lia).
  - apply Forall_cons in Hc as [[Hc1 Hc2] Hc]. unfold PageSize in *.
    assert (0 <= foldr Z.add 0 chunks) as Hsum.
    { clear -Hc. induction Hc as [|x l [Hx _] _ IH]; simpl; [lia|]. lia. }
    assert (c = 4096 * (c / 4096)) as Ec by dlia.
    rewrite (u64_id (start + c / 4096)) by dlia.
    destruct (Z.ltb_spec ptr (start + c / 4096)) as [Hlt|Hge].
    + rewrite (u64_id (ptr - start)), u64_id by lia.
      rewrite (proj2 (Z.leb_le _ _)), (proj2 (Z.ltb_lt _ _)) by lia. f_equal. lia.
    + replace (start * 4096 + c) with ((start + c / 4096) * 4096) by lia.
      rewrite IH by (done || lia).
      by replace (start * 4096 + (c + foldr Z.add 0 chunks))
        with ((start + c / 4096) * 4096 + foldr Z.add 0 chunks) by lia.
Qed.

(** What a read gives once the file is [f] and [total] bytes are mapped. *)
Definition file_read (f : bytes) (total p : Z) : res bytes :=
  if (p * PageSize <? total) && (p * PageSize <? len f) then Ok (file_page f p) else Panic.

Lemma Read_spec pm p : chunks_ok pm -> 0 <= p ->
  Read pm p = match updates pm !! p with
    | Some page => Ok page
    | None => file_read (pm_file pm) (mmap_total pm) p
    end.
Proof.
  intros (Hc & Ht & Hm) Hp. unfold Read. destruct (updates pm !! p); [done|].
  rewrite (Read_loop_spec _ _ 0) by (done || (assert (2 ^ 61 < 2 ^ 63) by done; lia)).
  rewrite Ht, Z.mul_0_l, Z.add_0_l. unfold file_read. destruct (p * PageSize <? mmap_total pm); [|done].
  by apply mapped_file_page.
Qed.

Lemma page_offset_ok p : 0 <= p -> p * PageSize <= 2 ^ 60 -> page_offset p = p * PageSize.
Proof.
  unfold page_offset, PageSize. change (2 ^ 60) with 1152921504606846976. intros H0 H1.
  rewrite (i64_id p), i64_id by lia. done.
Qed.

Lemma grow_alloc_ok fuel : forall total alloc size,
  0 <= total <= 2 ^ 61 -> 0 < alloc <= 2 ^ 61 -> size <= 2 ^ 60 -> size <= total + alloc * 2 ^ Z.of_nat fuel ->
  exists a, grow_alloc fuel total alloc size = Ok a /\ size <= total + a /\
    (a = alloc \/ total + a <= 2 * size) /\ alloc <= a /\
    (alloc mod PageSize = 0 -> a mod PageSize = 0).
Proof.
  unfold PageSize. change (2 ^ 60) with 1152921504606846976. change (2 ^ 61) with 2305843009213693952.
  induction fuel as [|fuel IH]; intros total alloc size H0 Ha Hsz Hs; cbn [grow_alloc];
    rewrite (i64_id (total + alloc)) by lia.
  - change (2 ^ Z.of_nat 0) with 1 in Hs. rewrite (proj2 (Z.ltb_ge _ _)) by lia.
    exists alloc. split_and!; (done || lia || by left).
  - rewrite Nat2Z.inj_succ, Z.pow_succ_r in Hs by lia.
    destruct (Z.ltb_spec (total + alloc) size).
    + rewrite i64_id by lia.
      destruct (IH total (alloc * 2) size) as (a & -> & H1 & H2 & H3 & H4); [lia|lia|lia|lia|].
      exists a. split_and!; try done; try lia. intros Hm. apply H4. clear -Hm. dlia.
    + exists alloc. split_and!; (done || lia || by left).
Qed.

Lemma ExtendMMap_ok pm size : chunks_ok pm -> pm_faults pm = Calls [] -> 0 <= size <= 2 ^ 60 ->
  exists pm', ExtendMMap pm size = Ok (None, pm') /\ chunks_ok pm' /\ pm_faults pm' = Calls [] /\
    size <= mmap_total pm' /\ mmap_total pm <= mmap_total pm' /\
    pm_file pm' = pm_file pm /\ flushed pm' = flushed pm /\ temp pm' = temp pm /\
    updates pm' = updates pm.
Proof.
  intros Hc Hf Hs. unfold ExtendMMap. destruct (Z.leb_spec size (mmap_total pm)) as [Hle|Hgt].
  { exists pm. split_and!; (done || lia). }
  pose proof Hc as (Hc1 & Hc2 & Hc3).
  assert (0 <= mmap_total pm) as H0.
  { rewrite <-Hc2. clear -Hc1. induction Hc1 as [|x l [Hx _] _ IH]; simpl; lia. }
  assert (mmap_total pm mod PageSize = 0) as Hm0.
  { rewrite <-Hc2. clear -Hc1. unfold PageSize in *. induction Hc1 as [|x l [_ Hx] _ IH]; simpl; [done|].
    dlia. }
  change (2 ^ 60) with 1152921504606846976 in *. change (2 ^ 61) with 2305843009213693952 in *.
  change (Z.shiftl MaxChunkMB 20) with 67108864.
  set (alloc := if mmap_total pm <? 67108864 then 67108864 else mmap_total pm).
  assert (67108864 <= alloc <= Z.max 67108864 (mmap_total pm) /\ alloc mod PageSize = 0) as [Ha Ham].
  { unfold alloc. destruct (Z.ltb_spec (mmap_total pm) 67108864); split; (done || lia). }
  destruct (grow_alloc_ok 64 (mmap_total pm) alloc size) as (a & -> & H1 & H2 & H3 & H4).
  { change (2 ^ 61) with 2305843009213693952. lia. }
  { change (2 ^ 61) with 2305843009213693952. lia. }
  { change (2 ^ 60) with 1152921504606846976. lia. }
  { change (2 ^ Z.of_nat 64) with 18446744073709551616. lia. }
  rewrite bind_ok, i64_id by lia. unfold syscall. rewrite Hf. eexists. split; [done|]. simpl.
  split_and!; try done; try lia. split_and!; simpl.
  - apply Forall_app. split; [done|]. constructor; [|constructor]. split; [lia|auto].
  - rewrite foldr_app. simpl. rewrite Z.add_0_r. rewrite <-Hc2. clear.
    induction (mmap_chunks pm) as [|x l IH]; simpl; lia.
  - change (2 ^ 61) with 2305843009213693952. lia.
Qed.

Lemma WriteAt_ok pm data off : pm_faults pm = Calls [] ->
  0 <= off -> WriteAt pm data off = (true, set_file pm (write_at (pm_file pm) off data) (Calls [])).
Proof. intros H Ho. unfold WriteAt, syscall. rewrite (proj2 (Z.ltb_ge _ _)) by done. by rewrite H. Qed.

Lemma flush_updates_ok B l : forall pm n, pm_faults pm = Calls [] -> B * PageSize <= 2 ^ 60 -> NoDup l.*1 ->
  Forall (fun x => 0 <= x.1 < B /\ page_ok x.2) l ->
  exists f, flush_updates pm l n = (n + len l, None, set_file pm f (Calls [])) /\
    len (pm_file pm) <= len f <= Z.max (len (pm_file pm)) (B * PageSize) /\
    (forall p page, (p, page) ∈ l -> (p + 1) * PageSize <= len f) /\
    (forall p, 0 <= p -> file_page f p = default (file_page (pm_file pm) p) (list_to_map (M:=gmap Z bytes) l !! p)).
Proof.
  induction l as [|[q page] l IH]; intros pm n Hf HB Hnd Hl; cbn [flush_updates].
  - exists (pm_file pm). split_and!; try done; [|lia|set_solver].
    rewrite len_nil, Z.add_0_r. destruct pm. simpl in *. by subst.
  - apply NoDup_cons in Hnd as [Hq Hnd]. apply Forall_cons in Hl as [[Hq0 Hpg] Hl]. simpl in *.
    rewrite page_offset_ok by (unfold PageSize in *; lia).
    rewrite WriteAt_ok by (done || (unfold PageSize; lia)). unfold page_ok in Hpg. rewrite Hpg. simpl negb. cbv iota.
    set (pm1 := set_file pm _ _).
    destruct (IH pm1 (n + 1) eq_refl HB Hnd Hl) as (f & -> & Hle & Hin & Hpage).
    assert (len (pm_file pm1) = Z.max (Z.max (len (pm_file pm)) (q * PageSize)) (q * PageSize + PageSize)) as Hl1.
    { simpl. rewrite len_write_at by (unfold PageSize in *; lia). by rewrite Hpg. }
    unfold PageSize in *. exists f. rewrite len_cons. split_and!.
    + f_equal. f_equal. lia.
    + lia.
    + lia.
    + intros p pg [[= -> ->]|Hp]%elem_of_cons; [lia|eauto].
    + intros p Hp. rewrite Hpage by done. simpl.
      change (q * 4096) with (q * PageSize). rewrite (file_page_write (pm_file pm) q page p) by (done || lia).
      destruct (decide (p = q)) as [->|Hne].
      * rewrite lookup_insert_eq. by rewrite (not_elem_of_list_to_map_1 _ _ Hq).
      * by rewrite lookup_insert_ne by done.
Qed.

(** What every page holds after a flush. *)
Definition page_after (pm : PageMgr) (p : Z) : bytes :=
  match updates pm !! p with
  | Some page => page
  | None =>
      if decide (flushed pm <= p < flushed pm + len (temp pm))
      then default [] (temp pm !! Z.to_nat (p - flushed pm))
      else file_page (pm_file pm) p
  end.

Lemma flush_spec pm : pm_ok pm -> pm_faults pm = Calls [] ->
  exists n pm', FlushPages pm = Ok (n, None, pm') /\ chunks_ok pm' /\ temp pm' = [] /\
    pm_faults pm' = Calls [] /\ flushed pm' = flushed pm + len (temp pm) /\ n = Z.of_nat (size (updates pm)) + len (temp pm) /\
    len (pm_file pm) <= len (pm_file pm')
      <= Z.max (len (pm_file pm)) ((flushed pm + len (temp pm)) * PageSize) /\
    mmap_total pm <= mmap_total pm' /\
    (forall p, p ∈ dom (updates pm) \/ flushed pm <= p < flushed pm + len (temp pm) ->
       (p + 1) * PageSize <= len (pm_file pm') /\ (p + 1) * PageSize <= mmap_total pm') /\
    (forall p, 0 <= p -> file_page (pm_file pm') p = page_after pm p).
Proof.
  intros [Hc Ht Hu H0 Hsz] Hf. unfold FlushPages.
  pose proof (len_nonneg (temp pm)) as Hlt.
  destruct ((len (temp pm) =? 0) && bool_decide (updates pm = ∅)) eqn:Hempty.
  { apply andb_true_iff in Hempty as [E1%Z.eqb_eq E2%bool_decide_eq_true].
    exists 0, pm. unfold page_after. rewrite E1, E2, map_size_empty, dom_empty_L.
    split_and!; try done; try lia; [by apply len_zero_nil|set_solver by lia|].
    intros p Hp. rewrite lookup_empty. by rewrite decide_False by lia. }
  unfold PageSize in Hsz. change (2 ^ 60) with 1152921504606846976 in Hsz.
  rewrite u64_id, page_offset_ok by (unfold PageSize; change (2 ^ 60) with 1152921504606846976; lia).
  destruct (ExtendMMap_ok pm ((flushed pm + len (temp pm)) * PageSize) Hc Hf) as
    (pm1 & -> & Hc1 & Hf1 & Hm1 & Hm1' & E1 & E2 & E3 & E4).
  { unfold PageSize. change (2 ^ 60) with 1152921504606846976. lia. }
  rewrite bind_ok. cbv beta iota. rewrite E4.
  destruct (flush_updates_ok (flushed pm) (map_to_list (updates pm)) pm1 0 Hf1) as (f & -> & Hlen & Hin & Hpage).
  { unfold PageSize. change (2 ^ 60) with 1152921504606846976. lia. }
  { apply NoDup_fst_map_to_list. }
  { apply Forall_forall. intros [p page] Hp%elem_of_map_to_list. by apply Hu in Hp. }
  rewrite list_to_map_to_list in Hpage. rewrite E1 in *. cbv beta iota.
  assert (forall p, p ∈ dom (updates pm) -> (p + 1) * PageSize <= len f /\ 0 <= p < flushed pm) as Hdom.
  { intros p [page Hp]%elem_of_dom. pose proof Hp as Hp'. apply Hu in Hp' as [? _].
    split; [|done]. apply (Hin p page). by apply elem_of_map_to_list. }
  assert (len (map_to_list (updates pm)) = Z.of_nat (size (updates pm))) as Hcount
    by (unfold len; by rewrite length_map_to_list).
  cbn [temp set_file]. rewrite E3, Hcount. destruct (Z.ltb_spec 0 (len (temp pm))) as [Hpos|Hnil].
  - cbn [flushed set_file]. rewrite E2, page_offset_ok by (unfold PageSize; change (2 ^ 60) with 1152921504606846976; lia).
    rewrite WriteAt_ok by (done || (unfold PageSize; lia)).
    cbn [pm_file set_file flushed mmap_total mmap_chunks updates negb].
    rewrite ?E2.
    eexists _, _. split; [done|]. cbn [pm_file set_file flushed mmap_total mmap_chunks updates temp].
    rewrite u64_id by lia.
    assert (len (write_at f (flushed pm * PageSize) (concat (temp pm))) =
      Z.max (len f) ((flushed pm + len (temp pm)) * PageSize)) as Hlw.
    { unfold PageSize. pose proof (len_concat_pages _ Ht) as Hcl. unfold PageSize in Hcl.
      rewrite len_write_at by lia. lia. }
    rewrite Hlw. split_and!; try done; try (unfold PageSize in *; lia).
    + intros p [Hp|Hp]; [apply Hdom in Hp|]; unfold PageSize in *; lia.
    + intros p Hp. rewrite file_page_write_run by done. unfold page_after.
      destruct (updates pm !! p) as [page|] eqn:Hup.
      * apply Hu in Hup as Hup'. rewrite decide_False by lia. by rewrite Hpage, Hup.
      * repeat case_decide; try done; try lia; by rewrite Hpage, Hup.
  - assert (len (temp pm) = 0) as Hl0 by lia. apply len_zero_nil in Hl0 as Hl0'.
    eexists _, _. split; [done|]. cbn [pm_file set_file flushed mmap_total mmap_chunks updates temp].
    rewrite E3, E2. split_and!; try done; try (unfold PageSize in *; lia).
    + intros p [Hp|Hp]; [apply Hdom in Hp|]; unfold PageSize in *; lia.
    + intros p Hp. unfold page_after. rewrite Hpage by done.
      destruct (updates pm !! p); [done|]. by rewrite decide_False by lia.
Qed.

(** * Properties *)

(** C22: a flush whose system calls succeed, of pages that all have the page size
    of 4096 bytes, the updated ones having been flushed before and the file
    staying below 2^60 bytes: afterwards a read of any page gives what the
    transaction left there, the updated page, the page allocated under that
    number, and otherwise what a read gave before; the temporary pages are gone
    and [flushed] counts them. (For a longer page, as [treeInsert] makes them,
    this fails: [long_page_shifts].) *)
Theorem FlushPages_correct pm : pm_ok pm -> pm_faults pm = Calls [] ->
  exists n pm', FlushPages pm = Ok (n, None, pm') /\
    temp (ClearUpdates pm') = [] /\ flushed (ClearUpdates pm') = flushed pm + len (temp pm) /\
    (forall p page, updates pm !! p = Some page -> Read (ClearUpdates pm') p = Ok page) /\
    (forall i page, temp pm !! i = Some page ->
       Read (ClearUpdates pm') (flushed pm + Z.of_nat i) = Ok page) /\
    (forall p page, 0 <= p < flushed pm -> updates pm !! p = None ->
       Read pm p = Ok page -> Read (ClearUpdates pm') p = Ok page).
Proof.
  intros Hok Hf. destruct (flush_spec pm Hok Hf) as
    (n & pm' & E & Hc & Htmp & _ & Hfl & _ & Hlen & Hmm & Hin & Hpage).
  pose proof Hok as [Hc0 Ht Hu H0 Hsz].
  assert (forall p, p ∈ dom (updates pm) \/ flushed pm <= p < flushed pm + len (temp pm) ->
    p * PageSize < len (pm_file pm') /\ p * PageSize < mmap_total pm') as Hin'.
  { intros p Hp%Hin. unfold PageSize in *. lia. }
  assert (forall p, 0 <= p -> p * PageSize < len (pm_file pm') /\ p * PageSize < mmap_total pm' ->
    Read (ClearUpdates pm') p = Ok (page_after pm p)) as Hread.
  { intros p Hp [H1 H2]. rewrite Read_spec by done. simpl. rewrite lookup_empty.
    unfold file_read. rewrite (proj2 (Z.ltb_lt _ _) H1), (proj2 (Z.ltb_lt _ _) H2). simpl.
    by rewrite Hpage. }
  exists n, pm'. split_and!; try done; try lia.
  - intros p page Hp. apply Hu in Hp as Hp'.
    rewrite Hread; [unfold page_after; by rewrite Hp|lia|]. apply Hin'. left. apply elem_of_dom. eauto.
  - intros i page Hi. pose proof (lookup_lt_Some _ _ _ Hi).
    assert (flushed pm <= flushed pm + Z.of_nat i < flushed pm + len (temp pm)) as Hr by (unfold len; lia).
    rewrite Hread; [|lia|apply Hin'; by right]. unfold page_after.
    destruct (updates pm !! (flushed pm + Z.of_nat i)) eqn:Hup; [apply Hu in Hup; lia|].
    rewrite decide_True by done. replace (Z.to_nat _) with i by lia. by rewrite Hi.
  - intros p page Hp Hup. rewrite Read_spec, Hup by (done || lia). unfold file_read.
    destruct (Z.ltb_spec (p * PageSize) (mmap_total pm)) as [H1|H1]; [|done].
    destruct (Z.ltb_spec (p * PageSize) (len (pm_file pm))) as [H2|H2]; [|done].
    simpl. intros [= <-]. rewrite Hread by lia. unfold page_after. rewrite Hup.
    by rewrite decide_False by lia.
Qed.

(** A page of 8192 bytes, as the tree allocates it, is written in full: the page
    allocated after it is not read back, its number gives the second half of the
    long one. *)
Theorem long_page_shifts f n a b c : 0 <= n <= 2 ^ 40 -> len a = PageSize -> len b = PageSize -> len c = PageSize ->
  exists k pm', FlushPages (mkPM f (Calls []) 0 [] n [a ++ b; c] ∅) = Ok (k, None, pm') /\ flushed pm' = n + 2 /\
    Read (ClearUpdates pm') n = Ok a /\ Read (ClearUpdates pm') (n + 1) = Ok b.
Proof.
  change (2 ^ 40) with 1099511627776. intros Hn Ha Hb Hc. set (pm := mkPM _ _ _ _ _ _ _). unfold FlushPages.
  change (len (temp pm)) with 2. change (flushed pm) with n. cbn [Z.eqb andb].
  assert ((n + 2) * PageSize <= 2 ^ 60) as Hs.
  { unfold PageSize. change (2 ^ 60) with 1152921504606846976. lia. }
  rewrite u64_id, page_offset_ok by (done || lia).
  destruct (ExtendMMap_ok pm ((n + 2) * PageSize)) as (pm1 & -> & Hc1 & Hf1 & Hm1 & _ & E1 & E2 & E3 & E4);
    [by split_and!|done|unfold PageSize in *; lia|].
  rewrite bind_ok. cbv beta iota. rewrite E4. change (map_to_list (updates pm)) with (@nil (Z * bytes)).
  cbn [flush_updates]. rewrite E3, E2. change (0 <? len (temp pm)) with true. cbv iota.
  change (flushed pm) with n. rewrite page_offset_ok by (unfold PageSize in *; lia).
  rewrite WriteAt_ok by (done || (unfold PageSize; lia)). cbn [negb].
  assert (concat (temp pm) = concat [a; b; c]) as ->.
  { unfold pm. cbn [temp concat]. by rewrite <-app_assoc. }
  eexists _, _. split; [done|]. set (pm' := mkPM _ _ _ _ _ _ _). split; [cbn; apply u64_id; unfold len; cbn; lia|].
  assert (Forall (fun d => len d = PageSize) [a; b; c]) as Hds by by repeat constructor.
  assert (len (pm_file pm') >= (n + 3) * PageSize) as Hl.
  { unfold pm'. cbn [pm_file set_file]. pose proof (len_concat_pages _ Hds) as Hcl. unfold PageSize in *.
    change (len [a; b; c]) with 3 in Hcl. rewrite len_write_at by lia. lia. }
  assert (forall p, n <= p < n + 2 -> Read (ClearUpdates pm') p = Ok (file_page (pm_file pm') p)) as Hr.
  { intros p Hp. rewrite Read_spec by (exact Hc1 || lia). cbn [updates ClearUpdates]. rewrite lookup_empty.
    unfold file_read. cbn [ClearUpdates pm_file mmap_total]. unfold PageSize in *.
    rewrite !(proj2 (Z.ltb_lt _ _)); [done|lia|cbn [mmap_total pm' set_file]; lia]. }
  split; rewrite Hr by lia; unfold pm'; cbn [pm_file set_file];
    rewrite file_page_write_run by (done || lia); change (len [a; b; c]) with 3; rewrite decide_True by lia.
  - by rewrite Z.sub_diag.
  - by replace (n + 1 - n) with 1 by lia.
Qed.

(** * Witness *)

Definition sample_pm : PageMgr :=
  mkPM (make 8192) (Calls []) 67108864 [67108864] 2 [replicate 4096 7] {[1 := replicate 4096 5]}.

Lemma sample_pm_ok : pm_ok sample_pm.
Proof.
  split.
  - split_and!; [|done|done]. constructor; [done|constructor].
  - constructor; [|constructor]. done.
  - intros p page Hp. cbn in Hp. apply lookup_singleton_Some in Hp as [<- <-]. done.
  - done.
  - done.
Qed.

Lemma FlushPages_correct_witness : exists n pm',
  FlushPages sample_pm = Ok (n, None, pm') /\
  Read (ClearUpdates pm') 1 = Ok (replicate 4096 5) /\
  Read (ClearUpdates pm') 2 = Ok (replicate 4096 7).
Proof.
  destruct (FlushPages_correct sample_pm sample_pm_ok eq_refl) as (n & pm' & E & _ & _ & Hu & Ht & _).
  exists n, pm'. split; [exact E|]. split.
  - apply Hu. reflexivity.
  - apply (Ht 0%nat). reflexivity.
Defined.
