(* ===== verification/FreeList.v ===== *)
(** The free list of src/internal/btree/freelist.go.

    Freed page numbers are kept in a chain of pages. The callbacks of the
    struct are the class [FLStore]; the page that [SetPage] returns is changed
    in place by the caller, which [fl_put] records. kv.go takes the pages from the
    page manager. *)
From S2P Require Import Prelude Node Tree TreeSpec Meta PageMgr.
#[local] Open Scope Z_scope.

Definition FREE_LIST_HEADER : Z := 8.
Definition FREE_LIST_CAP : Z := (BTREE_PAGE_SIZE - FREE_LIST_HEADER) / 8.

(** * Nodes of the list *)

Definition lnode_getNext (node : BNode) : res Z := b ← slice node 0 8; le_uint 8 b.

Definition lnode_setNext (node : BNode) (next : Z) : res BNode :=
  _ ← slice node 0 8; put_le 8 node 0 next.

Definition lnode_getPtr (node : BNode) (idx : Z) : res Z :=
  b ← slice_from node (FREE_LIST_HEADER + idx * 8); le_uint 8 b.

Definition lnode_setPtr (node : BNode) (idx ptr : Z) : res BNode :=
  put_le 8 node (FREE_LIST_HEADER + idx * 8) ptr.

(** * The list *)

Record FreeList := mkFL {
  HeadPage : Z; HeadSeq : Z; TailPage : Z; TailSeq : Z; maxSeq : Z }.

Class FLStore (S : Type) := {
  fl_GetPage : S -> Z -> res BNode;
  fl_NewPage : S -> BNode -> res (Z * S);
  fl_SetPage : S -> Z -> res (BNode * S);
  fl_put : S -> Z -> BNode -> S;
}.

Section code.
Context {S : Type} `{FLStore S}.

Definition PopHead (fl : FreeList) (s : S) : res (Z * FreeList * S) :=
  if HeadPage fl =? 0 then Ok (0, fl, s)
  else
    node ← fl_GetPage s (HeadPage fl);
    ptr ← lnode_getPtr node (i64 (HeadSeq fl));
    let seq := u64 (HeadSeq fl + 1) in
    next ← lnode_getNext node;
    if FREE_LIST_CAP <=? u64 (seq * 8) then
      let seq := if next =? 0 then seq else 0 in
      s ← (if negb (next =? HeadPage fl) then '(_, s) ← fl_SetPage s (HeadPage fl); Ok s else Ok s);
      Ok (ptr, mkFL next seq (TailPage fl) (TailSeq fl) (maxSeq fl), s)
    else Ok (ptr, mkFL (HeadPage fl) seq (TailPage fl) (TailSeq fl) (maxSeq fl), s).

Definition PushTail (fl : FreeList) (s : S) (ptr : Z) : res (FreeList * S) :=
  '(fl, s) ← (if TailPage fl =? 0 then
                data ← lnode_setNext (make BTREE_PAGE_SIZE) 0;
                '(p, s) ← fl_NewPage s data;
                Ok (mkFL p (HeadSeq fl) p (TailSeq fl) (maxSeq fl), s)
              else Ok (fl, s));
  '(node, s) ← fl_SetPage s (TailPage fl);
  let idx := TailSeq fl mod FREE_LIST_CAP in
  node ← lnode_setPtr node (i64 idx) ptr;
  let s := fl_put s (TailPage fl) node in
  let seq := u64 (TailSeq fl + 1) in
  if seq mod FREE_LIST_CAP =? 0 then
    data ← lnode_setNext (make BTREE_PAGE_SIZE) 0;
    '(next, s) ← fl_NewPage s data;
    node ← lnode_setNext node next;
    let s := fl_put s (TailPage fl) node in
    Ok (mkFL (HeadPage fl) (HeadSeq fl) next seq (maxSeq fl), s)
  else Ok (mkFL (HeadPage fl) (HeadSeq fl) (TailPage fl) seq (maxSeq fl), s).

Definition SetMaxSeq (fl : FreeList) : FreeList :=
  mkFL (HeadPage fl) (HeadSeq fl) (TailPage fl) (TailSeq fl) (TailSeq fl).

Definition empty_list : FreeList := mkFL 0 0 0 0 0.

Fixpoint push_all (fl : FreeList) (s : S) (ptrs : list Z) : res (FreeList * S) :=
  match ptrs with
  | [] => Ok (fl, s)
  | p :: ptrs => '(fl, s) ← PushTail fl s p; push_all fl s ptrs
  end.

Fixpoint pop_n (n : nat) (fl : FreeList) (s : S) : res (list Z * FreeList * S) :=
  match n with
  | O => Ok ([], fl, s)
  | Datatypes.S n =>
      '(p, fl, s) ← PopHead fl s;
      '(l, fl, s) ← pop_n n fl s;
      Ok (p :: l, fl, s)
  end.

End code.

(** * What the callbacks promise *)

(** [fl_page s p b]: the store has the page [p], of the page size, and it holds
    [b]. Nothing is asked of [NewPage]. *)
Class FLStoreOK (S : Type) `{FLStore S} := {
  fl_page : S -> Z -> BNode -> Prop;
  fl_GetPage_ok : forall s p b, fl_page s p b -> fl_GetPage s p = Ok b;
  fl_SetPage_ok : forall s p b, fl_page s p b -> exists s', fl_SetPage s p = Ok (b, s') /\ fl_page s' p b;
  fl_put_ok : forall s p b b', fl_page s p b -> len b' = BTREE_PAGE_SIZE -> fl_page (fl_put s p b') p b';
}.

(** The store of kv.go: the callbacks [GetPage], [NewPage] and [SetPage] of the
    list are [Read], [Alloc] and [Write] of the page manager. *)
#[global] Instance pm_fl_store : FLStore PageMgr := {|
  fl_GetPage pm ptr := Read pm ptr;
  fl_NewPage pm node := Ok (Alloc pm node);
  fl_SetPage pm ptr := Write pm ptr;
  fl_put pm ptr page := store_page pm ptr page;
|}.

(** It keeps the laws for the pages that can be read: those of the file and the
    updated ones. *)
#[global] Instance pm_fl_ok : FLStoreOK PageMgr.
Proof.
  refine {| fl_page pm p b := Read pm p = Ok b /\ len b = PageSize |}.
  - by intros pm p b [Hr _].
  - intros pm p b [Hr Hl]. cbn [fl_SetPage pm_fl_store]. unfold Write.
    destruct (updates pm !! p) as [node|] eqn:Hu.
    + exists pm. unfold Read in Hr. rewrite Hu in Hr. injection Hr as ->. split; [done|]. unfold Read. by rewrite Hu.
    + rewrite Hr, bind_ok. assert (copy_at (make PageSize) 0 b = Ok b) as ->.
      { rewrite copy_at_ok by (rewrite ?len_make by done; lia). f_equal. unfold blit. rewrite take_0, app_nil_l.
        rewrite drop_ge, app_nil_r; [done|]. unfold make. rewrite length_replicate. unfold len, PageSize in *. lia. }
      rewrite bind_ok. eexists. split; [done|]. split; [|done]. unfold Read. cbn [updates set_updates].
      by rewrite lookup_insert_eq.
  - intros pm p b b' _ Hl. cbn [fl_put pm_fl_store]. unfold store_page, Read. cbn [updates set_updates].
    by rewrite lookup_insert_eq.
Defined.

(** The in-memory page store of the tree, as a store for the list. *)
#[global] Instance mem_fl_store : FLStore memStore := {|
  fl_GetPage s p := of_option (mem_pages s !! p);
  fl_NewPage s b :=
    let p := free_ptr (size (mem_pages s)) (mem_pages s) 1 in
    Ok (p, mkMem (<[p := b]> (mem_pages s)));
  fl_SetPage s p := b ← of_option (mem_pages s !! p); Ok (b, s);
  fl_put s p b := mkMem (<[p := b]> (mem_pages s));
|}.

(** * A list that fits in its first page *)

Section rep.
Context {S : Type} `{FLStoreOK S}.

(** The list holds [q] in the slots from [HeadSeq] to [TailSeq] of one page. *)
Definition fl_rep (fl : FreeList) (s : S) (q : list Z) : Prop :=
  exists b, fl_page s (HeadPage fl) b /\ 0 < HeadPage fl /\ TailPage fl = HeadPage fl /\
    len b = BTREE_PAGE_SIZE /\ has b 0 (le_bytes 8 0) /\
    0 <= HeadSeq fl /\ TailSeq fl = HeadSeq fl + len q /\ TailSeq fl < FREE_LIST_CAP /\
    forall i x, q !! i = Some x -> 0 <= x < 18446744073709551616 /\
      has b (FREE_LIST_HEADER + (HeadSeq fl + Z.of_nat i) * 8) (le_bytes 8 x).

Lemma lnode_getNext_ok b v : has b 0 (le_bytes 8 v) -> 0 <= v < 18446744073709551616 ->
  lnode_getNext b = Ok v.
Proof. intros Hb Hv. exact (has_slice_le_uint b 0 8 8 v Hb Hv eq_refl). Qed.

Lemma lnode_getPtr_ok b i v : has b (FREE_LIST_HEADER + i * 8) (le_bytes 8 v) ->
  0 <= v < 18446744073709551616 -> lnode_getPtr b i = Ok v.
Proof. intros Hb Hv. exact (has_le_uint b _ 8 v Hb Hv). Qed.

(** The store of one slot. *)
Lemma lnode_setPtr_ok b i v : len b = BTREE_PAGE_SIZE -> 0 <= i < FREE_LIST_CAP ->
  exists b', lnode_setPtr b i v = Ok b' /\ len b' = BTREE_PAGE_SIZE /\
    has b' (FREE_LIST_HEADER + i * 8) (le_bytes 8 v) /\
    forall pos l, has b pos l -> pos + len l <= FREE_LIST_HEADER + i * 8 -> has b' pos l.
Proof.
  change FREE_LIST_CAP with 511. unfold lnode_setPtr, FREE_LIST_HEADER, BTREE_PAGE_SIZE. intros Hl Hi.
  rewrite put_le_ok by lia. eexists. split; [done|].
  assert (8 + i * 8 + len (le_bytes 8 v) <= len b) by (rewrite len_le_bytes; lia).
  split_and!.
  - rewrite len_blit; lia.
  - apply has_blit_same; lia.
  - intros pos l Hb Hp. apply has_blit_other; (done || lia).
Qed.

Lemma PushTail_rep fl s q x : fl_rep fl s q -> TailSeq fl + 1 < FREE_LIST_CAP ->
  0 <= x < 18446744073709551616 ->
  exists fl' s', PushTail fl s x = Ok (fl', s') /\ fl_rep fl' s' (q ++ [x]) /\
    HeadSeq fl' = HeadSeq fl.
Proof.
  intros (b & Hp & Hpos & Ht & Hl & Hn & Hh & Hseq & Hcap & Hq) Hroom Hx.
  change FREE_LIST_CAP with 511 in *. unfold PushTail. change FREE_LIST_CAP with 511.
  pose proof (len_nonneg q). rewrite Ht. rewrite (proj2 (Z.eqb_neq _ _)) by lia. rewrite bind_ok.
  cbv beta iota. rewrite Ht. destruct (fl_SetPage_ok s _ b Hp) as (s1 & -> & Hs1).
  rewrite bind_ok. cbv beta iota. rewrite (Z.mod_small (TailSeq fl)), i64_id by lia.
  destruct (lnode_setPtr_ok b (TailSeq fl) x Hl) as (b1 & -> & Hl1 & Hx1 & Hold); [by change FREE_LIST_CAP with 511; lia|].
  rewrite bind_ok. cbv zeta. rewrite u64_id by lia. rewrite Z.mod_small by lia.
  rewrite (proj2 (Z.eqb_neq _ _)) by lia.
  eexists _, _. split; [done|]. split; [|done].
  exists b1. cbn [HeadPage HeadSeq TailPage TailSeq].
  split_and!; try done; try lia.
  - by eapply fl_put_ok.
  - apply Hold; [done|]. rewrite len_le_bytes. unfold FREE_LIST_HEADER. lia.
  - rewrite len_snoc. lia.
  - intros i y [Hi|[Hi Hy]]%lookup_app_Some.
    + pose proof (lookup_lt_Some _ _ _ Hi). destruct (Hq i y Hi) as [Hy Hb]. split; [done|].
      apply Hold; [done|]. rewrite len_le_bytes. unfold len in *. lia.
    + destruct (i - length q)%nat as [|k] eqn:Ei; [|done]. injection Hy as <-. split; [done|].
      replace (HeadSeq fl + Z.of_nat i) with (TailSeq fl) by (unfold len in *; lia). done.
Qed.

Lemma PopHead_rep fl s x q : fl_rep fl s (x :: q) -> HeadSeq fl < 63 ->
  exists fl', PopHead fl s = Ok (x, fl', s) /\ fl_rep fl' s q /\ HeadSeq fl' = HeadSeq fl + 1.
Proof.
  intros (b & Hp & Hpos & Ht & Hl & Hn & Hh & Hseq & Hcap & Hq) Hroom. unfold PopHead.
  rewrite (proj2 (Z.eqb_neq _ _)) by lia. rewrite (fl_GetPage_ok _ _ _ Hp), bind_ok.
  rewrite i64_id by lia. destruct (Hq 0%nat x eq_refl) as [Hx Hxb]. rewrite Z.add_0_r in Hxb.
  rewrite (lnode_getPtr_ok _ _ _ Hxb Hx), bind_ok, (lnode_getNext_ok _ 0 Hn), bind_ok by done.
  rewrite (u64_id (HeadSeq fl + 1)), u64_id by lia. change FREE_LIST_CAP with 511 in *.
  rewrite (proj2 (Z.leb_gt _ _)) by lia.
  eexists. split; [done|]. split; [|done]. exists b. cbn [HeadPage HeadSeq TailPage TailSeq].
  rewrite len_cons in Hseq. split_and!; try done; try lia.
  intros i y Hy. destruct (Hq (Datatypes.S i) y Hy) as [Hr Hb]. split; [done|].
  eapply has_at; [exact Hb|]. lia.
Qed.

Lemma push_all_rep ptrs : forall fl s q, fl_rep fl s q ->
  TailSeq fl + len ptrs < FREE_LIST_CAP -> Forall (fun x => 0 <= x < 18446744073709551616) ptrs ->
  exists fl' s', push_all fl s ptrs = Ok (fl', s') /\ fl_rep fl' s' (q ++ ptrs) /\
    HeadSeq fl' = HeadSeq fl.
Proof.
  induction ptrs as [|x ptrs IH]; intros fl s q Hr Hn Hp.
  - exists fl, s. by rewrite app_nil_r.
  - apply Forall_cons in Hp as [Hx Hp]. rewrite len_cons in Hn. pose proof (len_nonneg ptrs).
    destruct (PushTail_rep fl s q x Hr) as (fl1 & s1 & E & Hr1 & Hh1); [lia|done|].
    destruct (IH fl1 s1 (q ++ [x]) Hr1) as (fl2 & s2 & E2 & Hr2 & Hh2); [|done|].
    + destruct Hr as (? & _ & _ & _ & _ & _ & _ & Hs & _). destruct Hr1 as (? & _ & _ & _ & _ & _ & _ & Hs1 & _).
      rewrite len_snoc in Hs1. lia.
    + cbn [push_all]. rewrite E, bind_ok. exists fl2, s2. rewrite <-app_assoc in Hr2.
      split_and!; [exact E2|done|lia].
Qed.

Lemma pop_n_rep ps : forall fl s q, fl_rep fl s (ps ++ q) -> HeadSeq fl + len ps <= 63 ->
  exists fl', pop_n (length ps) fl s = Ok (ps, fl', s) /\ fl_rep fl' s q.
Proof.
  induction ps as [|x ps IH]; intros fl s q Hr Hn; [by exists fl|].
  rewrite len_cons in Hn. pose proof (len_nonneg ps).
  destruct (PopHead_rep fl s x (ps ++ q) Hr) as (fl1 & E & Hr1 & Hh1); [lia|].
  destruct (IH fl1 s q Hr1) as (fl2 & E2 & Hr2); [lia|].
  exists fl2. cbn [length pop_n]. rewrite E, bind_ok. cbv beta iota. rewrite E2, bind_ok. done.
Qed.

(** C25: on a free list whose one page is in the store, over every store in which
    a page that is there can be read and written (the page manager of kv.go is
    one): numbers pushed at the tail come out at the head in the order they went
    in, after those that were in the list before, and the rest stays in the list,
    as long as the pushes stay below slot 511 of the page and the pops below slot
    64. (The first push on an empty list needs a new page, which kv.go cannot
    write: [second_set_faults]; beyond slot 64 entries are lost:
    [freelist_leaks].) *)
Theorem freelist_fifo fl s q ptrs n : fl_rep fl s q ->
  Forall (fun x => 0 <= x < 18446744073709551616) ptrs -> TailSeq fl + len ptrs < FREE_LIST_CAP ->
  (n <= length (q ++ ptrs))%nat -> HeadSeq fl + Z.of_nat n <= 63 ->
  exists fl1 s' fl2, push_all fl s ptrs = Ok (fl1, s') /\
    pop_n n fl1 s' = Ok (take n (q ++ ptrs), fl2, s') /\ fl_rep fl2 s' (drop n (q ++ ptrs)).
Proof.
  intros Hr Hp Hl Hn Hn63.
  destruct (push_all_rep ptrs fl s q Hr Hl Hp) as (fl1 & s1 & E1 & Hr1 & Hh1).
  pose proof (take_drop n (q ++ ptrs)) as Hs. rewrite <-Hs in Hr1.
  destruct (pop_n_rep (take n (q ++ ptrs)) fl1 s1 _ Hr1) as (fl2 & E2 & Hr2).
  { unfold len. rewrite length_take. lia. }
  rewrite length_take, Nat.min_l in E2 by done. by exists fl1, s1, fl2.
Qed.

End rep.

(** A file of two pages; the second is an empty page of the list. *)
Definition list_pm : PageMgr := mkPM (make 8192) (Calls []) 67108864 [67108864] 2 [] ∅.

Lemma list_pm_rep : fl_rep (mkFL 1 0 1 0 0) list_pm [].
Proof.
  exists (make 4096). cbn [HeadPage HeadSeq TailPage TailSeq]. split_and!; try done.
  split_and!; [done|done|]. change (le_bytes 8 0) with (replicate 8 0).
  intros i x [-> Hi]%lookup_replicate. apply lookup_replicate. lia.
Qed.

Lemma freelist_fifo_witness : exists fl1 s' fl2,
  push_all (mkFL 1 0 1 0 0) list_pm [11; 12; 13] = Ok (fl1, s') /\
  pop_n 2 fl1 s' = Ok ([11; 12], fl2, s') /\ fl_rep fl2 s' [13].
Proof.
  apply (freelist_fifo (mkFL 1 0 1 0 0) list_pm [] [11; 12; 13] 2).
  - exact list_pm_rep.
  - repeat constructor; lia.
  - reflexivity.
  - simpl. lia.
  - simpl. lia.
Defined.

(** Beyond those bounds the free list loses pages. Of 65 pushed numbers only
    64 come back, since [PopHead] leaves the page after 64 slots; and a pop on a
    drained list returns 0 but still moves the head, so the page pushed next is
    skipped. *)
Theorem freelist_leaks :
  ('(fl, s) ← push_all empty_list (mkMem ∅) (seqZ 100 65); '(l, _, _) ← pop_n 66 fl s; Ok l)
    = Ok (seqZ 100 64 ++ [0; 0]) /\
  ('(fl, s) ← push_all empty_list (mkMem ∅) [7];
   '(_, fl, s) ← pop_n 2 fl s;
   '(fl, s) ← PushTail fl s 8;
   '(l, _, _) ← pop_n 3 fl s; Ok l) = Ok [0; 0; 0].
Proof. split; vm_compute; reflexivity. Qed.
