(* ===== verification/KV.v ===== *)
(** The key-value store of src/internal/kvstore/kv.go: the tree over the free
    list and the page manager, and the commit protocol of [updateOrRevert]. *)
From S2P Require Import Prelude Keys KVList Node NodeOps Tree TreeRep TreeInsert Overflow Meta PageMgr FreeList Iter.
#[local] Open Scope Z_scope.

(** * The store behind the tree *)

(** What the callbacks of the tree share. *)
Record kvPages := mkKP { kp_free : FreeList; kp_pg : PageMgr }.

(** [db.tree.NewPage]: a page of the free list is overwritten in place. *)
Definition kv_NewPage (s : kvPages) (node : BNode) : res (Z * kvPages) :=
  '(ptr, fl, pg) ← PopHead (kp_free s) (kp_pg s);
  if negb (ptr =? 0) then
    '(page, pg) ← Write pg ptr;
    page ← copy_at page 0 node;
    Ok (ptr, mkKP fl (store_page pg ptr page))
  else
    let '(ptr, pg) := Alloc pg node in
    Ok (ptr, mkKP fl pg).

Definition kv_DelPage (s : kvPages) (ptr : Z) : res kvPages :=
  '(fl, pg) ← PushTail (kp_free s) (kp_pg s) ptr; Ok (mkKP fl pg).

#[global] Instance kv_store : PageStore kvPages := {|
  GetPage s ptr := Read (kp_pg s) ptr;
  NewPage := kv_NewPage;
  DelPage := kv_DelPage;
|}.

(** * The store *)

Inductive SyncMode := SyncOff | SyncNormal | SyncFull.

#[global] Instance SyncMode_eq_dec : EqDecision SyncMode.
Proof. solve_decision. Defined.

(** The struct [KV]; [tree], [free] and [pg] are in the tree and its store. *)
Record KV := mkKV { kv_tree : BTree kvPages; syncMode : SyncMode; failed : bool }.

Inductive kv_error :=
| ErrOpenFile | ErrStat | ErrNotValid | ErrOpenMmap (e : pm_error)
| ErrRecoverMeta | ErrRecoverFsync | ErrFlush (e : pm_error) | ErrFsync1 | ErrWriteMeta | ErrFsync2 | ErrFsync
| ErrClose.

Definition kv_pg (db : KV) : PageMgr := kp_pg (store (kv_tree db)).
Definition kv_free (db : KV) : FreeList := kp_free (store (kv_tree db)).
Definition kv_root (db : KV) : Z := Root (kv_tree db).

Definition set_pg (db : KV) (pg : PageMgr) : KV :=
  mkKV (mkTree (kv_root db) (mkKP (kv_free db) pg)) (syncMode db) (failed db).
Definition set_root (db : KV) (root : Z) : KV :=
  mkKV (mkTree root (store (kv_tree db))) (syncMode db) (failed db).
Definition set_failed (db : KV) (b : bool) : KV := mkKV (kv_tree db) (syncMode db) b.
Definition set_tree (db : KV) (t : BTree kvPages) : KV := mkKV t (syncMode db) (failed db).

(** [Open] on a path whose file holds [file], nothing when it is created; the
    first two calls are those of [os.OpenFile] and [Stat]. *)
Definition Open (file : bytes) (faults : list outcome) (mode : SyncMode) : res (kv_error + KV) :=
  if faults is Fails _ :: _ then Ok (inl ErrOpenFile)
  else if faults is _ :: Fails _ :: _ then Ok (inl ErrStat)
  else
  let pg := NewPageMgr file (drop 2 faults) in
  if len file =? 0 then
    Ok (inr (mkKV (mkTree 0 (mkKP empty_list (ResetTo pg 1))) mode false))
  else
    '(err, pg) ← ExtendMMap pg (len file);
    match err with
    | Some e => Ok (inl (ErrOpenMmap e))
    | None =>
        ptr ← Read pg 0;
        m ← ReadMetaSafe ptr;
        match m with
        | None => Ok (inl ErrNotValid)
        | Some m =>
            let fl := mkFL (m_headPage m) (m_headSeq m) (m_tailPage m) (m_tailSeq m) 0 in
            Ok (inr (mkKV (mkTree (m_root m) (mkKP fl (ResetTo pg (m_flushed m)))) mode false))
        end
    end.

Definition Get (fuel : nat) (db : KV) (key : bytes) : res (option bytes) :=
  Tree.Get fuel (kv_tree db) key.

Definition Seek (fuel : nat) (db : KV) (key : bytes) : res BIter := SeekLE fuel (kv_tree db) key.

Definition buildMeta (db : KV) (root fl : Z) : res bytes :=
  let f := kv_free db in
  WriteMetaFull (make PageSize)
    (mkMeta root fl (HeadPage f) (HeadSeq f) (TailPage f) (TailSeq f)).

Definition saveMeta (db : KV) : res bytes := buildMeta db (kv_root db) (Flushed (kv_pg db)).

Definition rollback (db : KV) (root fl : Z) : KV :=
  let db := set_root db root in
  set_pg db (ClearUpdates (ResetTo (kv_pg db) fl)).

(** [rollback] followed by [db.failed = true]. *)
Definition fail_back (db : KV) (oldRoot oldFlushed : Z) (e : kv_error)
    : res (option kv_error * KV) :=
  Ok (Some e, set_failed (rollback db oldRoot oldFlushed) true).

(** The first part of [updateOrRevert]: restoring the meta page after a failure. *)
Definition recoverMeta (db : KV) (oldRoot oldFlushed : Z) : res (option kv_error * KV) :=
  if failed db then
    meta ← buildMeta db oldRoot oldFlushed;
    let '(ok, pg) := WriteAt (kv_pg db) meta 0 in
    if negb ok then Ok (Some ErrRecoverMeta, set_pg db pg)
    else
      let '(ok, pg) := Fsync pg in
      if negb ok then Ok (Some ErrRecoverFsync, set_pg db pg)
      else Ok (None, set_failed (set_pg db pg) false)
  else Ok (None, db).

(** The last part: the meta page is written and synced. *)
Definition commitMeta (db : KV) (oldRoot oldFlushed : Z) : res (option kv_error * KV) :=
  meta ← saveMeta db;
  let '(ok, pg) := WriteAt (kv_pg db) meta 0 in
  let db := set_pg db pg in
  if negb ok then fail_back db oldRoot oldFlushed ErrWriteMeta
  else
    match syncMode db with
    | SyncFull =>
        let '(ok, pg) := Fsync (kv_pg db) in
        let db := set_pg db pg in
        if negb ok then Ok (Some ErrFsync2, set_failed db true) else Ok (None, db)
    | SyncNormal =>
        let '(ok, pg) := Fsync (kv_pg db) in
        let db := set_pg db pg in
        if negb ok then Ok (Some ErrFsync, set_failed db true) else Ok (None, db)
    | SyncOff => Ok (None, db)
    end.

Definition updateOrRevert (db : KV) (oldRoot oldFlushed : Z) : res (option kv_error * KV) :=
  '(err, db) ← recoverMeta db oldRoot oldFlushed;
  match err with
  | Some e => Ok (Some e, db)
  | None =>
      '(_, err, pg) ← FlushPages (kv_pg db);
      let db := set_pg db pg in
      match err with
      | Some e => fail_back db oldRoot oldFlushed (ErrFlush e)
      | None =>
          let '(ok, pg) := (if bool_decide (syncMode db = SyncOff) then (true, kv_pg db)
                            else Fsync (kv_pg db)) in
          let db := set_pg db pg in
          if negb ok then fail_back db oldRoot oldFlushed ErrFsync1
          else
            let db := set_pg db (ClearUpdates (kv_pg db)) in
            commitMeta db oldRoot oldFlushed
      end
  end.

Definition Set_ (fuel : nat) (db : KV) (key val : bytes) : res (option kv_error * KV) :=
  let oldRoot := kv_root db in
  let oldFlushed := Flushed (kv_pg db) in
  t ← Insert fuel (kv_tree db) key val;
  updateOrRevert (set_tree db t) oldRoot oldFlushed.

Definition Del (fuel : nat) (db : KV) (key : bytes) : res (bool * option kv_error * KV) :=
  let oldRoot := kv_root db in
  let oldFlushed := Flushed (kv_pg db) in
  '(deleted, t) ← Delete fuel (kv_tree db) key;
  let db := set_tree db t in
  if negb deleted then Ok (false, None, db)
  else '(err, db) ← updateOrRevert db oldRoot oldFlushed; Ok (true, err, db).

Definition PageRead (db : KV) (ptr : Z) : res BNode := Read (kv_pg db) ptr.

Definition TreeRoot (db : KV) : Z := kv_root db.

(** [db.file.Close()]: the file is closed also when an error is reported. *)
Definition Close (db : KV) : option kv_error * KV :=
  let '(o, _) := syscall (kv_pg db) in
  (match o with Succeeds => None | Fails _ => Some ErrClose end,
   set_pg db (set_file (kv_pg db) (pm_file (kv_pg db)) ClosedFile)).

(** * Recovery from failures *)

Lemma WriteAt_page0 pm d off ok pm' : PageSize <= off -> WriteAt pm d off = (ok, pm') ->
  file_page (pm_file pm') 0 = file_page (pm_file pm) 0 /\
  flushed pm' = flushed pm /\ temp pm' = temp pm /\ updates pm' = updates pm.
Proof.
  intros Ho. unfold WriteAt. unfold PageSize in Ho. rewrite (proj2 (Z.ltb_ge _ _)) by lia.
  destruct (syscall pm) as [[|k] fs]; intros [= <- <-];
    (split; [by apply file_page0_write|done]).
Qed.

(** Pages other than the meta page, whose offset in the file does not wrap. *)
Definition data_page (p : Z) : Prop := 1 <= p <= 281474976710656.

Lemma data_page_offset p : data_page p -> PageSize <= page_offset p.
Proof.
  unfold data_page. intros Hp. rewrite page_offset_ok; unfold PageSize; [lia|lia|].
  change (2 ^ 60) with 1152921504606846976. lia.
Qed.

Lemma flush_updates_page0 l : forall pm n n' err pm', Forall (fun x => data_page x.1) l ->
  flush_updates pm l n = (n', err, pm') ->
  file_page (pm_file pm') 0 = file_page (pm_file pm) 0 /\
  flushed pm' = flushed pm /\ temp pm' = temp pm.
Proof.
  induction l as [|[p page] l IH]; intros pm n n' err pm' Hl; cbn [flush_updates].
  - by intros [= <- <- <-].
  - apply Forall_cons in Hl as [Hp Hl]. simpl in Hp.
    destruct (WriteAt pm page (page_offset p)) as [ok pm1] eqn:E.
    apply WriteAt_page0 in E as (E1 & E2 & E3 & _); [|by apply data_page_offset].
    destruct (negb ok); [intros [= <- <- <-]; auto|].
    destruct (negb (len page =? PageSize)); [intros [= <- <- <-]; auto|].
    intros Hf. apply IH in Hf as (F1 & F2 & F3); [|exact Hl]. rewrite F1, F2, F3. auto.
Qed.

Lemma ExtendMMap_keeps pm size err pm' : ExtendMMap pm size = Ok (err, pm') ->
  pm_file pm' = pm_file pm /\ flushed pm' = flushed pm /\ temp pm' = temp pm /\ updates pm' = updates pm.
Proof.
  unfold ExtendMMap. destruct (size <=? mmap_total pm); [by intros [= <- <-]|].
  intros (a & _ & E)%bind_ok_inv. destruct (syscall pm) as [[|k] fs]; by injection E as <- <-.
Qed.

(** Whatever the system calls do, a flush does not touch the meta page. *)
Lemma FlushPages_page0 pm n err pm' :
  Forall (fun x => data_page x.1) (map_to_list (updates pm)) -> data_page (flushed pm) ->
  FlushPages pm = Ok (n, err, pm') -> file_page (pm_file pm') 0 = file_page (pm_file pm) 0.
Proof.
  intros Hu Hf. unfold FlushPages. destruct (_ && _); [by intros [= <- <- <-]|].
  intros ([err1 pm1] & E1 & E)%bind_ok_inv. apply ExtendMMap_keeps in E1 as (F1 & F2 & F3 & F4).
  rewrite <-F1. destruct err1; [by injection E as <- <- <-|]. rewrite <-F4 in Hu.
  destruct (flush_updates pm1 (map_to_list (updates pm1)) 0) as [[c err2] pm2] eqn:E2.
  apply flush_updates_page0 in E2 as (G1 & G2 & G3); [|done]. rewrite <-G1.
  destruct err2; [by injection E as <- <- <-|].
  destruct (0 <? len (temp pm2)); [|by injection E as <- <- <-].
  destruct (WriteAt pm2 _ _) as [ok pm3] eqn:E3. apply WriteAt_page0 in E3 as (H1 & _);
    [|rewrite G2, F2; by apply data_page_offset].
  rewrite <-H1. destruct (negb ok); by injection E as <- <- <-.
Qed.

(** Opening a file reads the state from its meta page. *)
Lemma Open_meta f mode m : 0 < len f <= 2 ^ 60 -> ReadMetaSafe (file_page f 0) = Ok (Some m) ->
  exists pg, Open f [] mode = Ok (inr (mkKV (mkTree (m_root m)
      (mkKP (mkFL (m_headPage m) (m_headSeq m) (m_tailPage m) (m_tailSeq m) 0) (ResetTo pg (m_flushed m)))) mode false)) /\
    chunks_ok pg /\ pm_faults pg = Calls [] /\ pm_file pg = f /\ len f <= mmap_total pg.
Proof.
  intros Hl Hr. unfold Open. change (drop 2 []) with (@nil outcome).
  rewrite (proj2 (Z.eqb_neq _ _)) by lia.
  destruct (ExtendMMap_ok (NewPageMgr f []) (len f)) as
    (pg & -> & Hc & Hf & Hs & _ & E1 & E2 & E3 & E4); [by repeat constructor|done|lia|].
  rewrite bind_ok. cbv beta iota. cbn [pm_file NewPageMgr updates] in E1, E4.
  rewrite (Read_spec pg 0 Hc) by done. rewrite E4, lookup_empty, E1. unfold file_read.
  rewrite Z.mul_0_l, !(proj2 (Z.ltb_lt 0 _)) by lia. cbn [andb]. rewrite bind_ok, Hr, bind_ok.
  exists pg. split_and!; done.
Qed.

(** What [fail_back] leaves. *)
Definition rolled_back (db : KV) (root fl : Z) : Prop :=
  kv_root db = root /\ Flushed (kv_pg db) = fl /\ temp (kv_pg db) = [] /\
  updates (kv_pg db) = ∅ /\ failed db = true.

Lemma commit_fails db oldRoot oldFlushed e db' :
  failed db = false -> data_page (Flushed (kv_pg db)) ->
  Forall (fun x => data_page x.1) (map_to_list (updates (kv_pg db))) ->
  updateOrRevert db oldRoot oldFlushed = Ok (Some e, db') ->
  (exists x, e = ErrFlush x) \/ e = ErrFsync1 ->
  rolled_back db' oldRoot oldFlushed /\
  file_page (pm_file (kv_pg db')) 0 = file_page (pm_file (kv_pg db)) 0.
Proof.
  intros Hfail Hfl Hu. unfold updateOrRevert, recoverMeta. rewrite Hfail, bind_ok.
  intros ([[n err] pg] & E & Hr)%bind_ok_inv He.
  pose proof (FlushPages_page0 _ _ _ _ Hu Hfl E) as Hp0. destruct err as [e0|].
  { injection Hr as <- <-. split; [|exact Hp0]. unfold rolled_back. auto. }
  destruct (if bool_decide _ then _ else _) as [ok pg1] eqn:E1.
  assert (pm_file pg1 = pm_file pg) as Hpg1.
  { revert E1. case_bool_decide; [by intros [= _ <-]|]. unfold Fsync.
    destruct (syscall _) as [[|k] fs]; by intros [= _ <-]. }
  destruct (negb ok).
  { injection Hr as <- <-. split; [unfold rolled_back; auto|]. rewrite <-Hp0, <-Hpg1. reflexivity. }
  exfalso. unfold commitMeta in Hr. apply bind_ok_inv in Hr as (meta & _ & Hr).
  revert Hr. clear E E1.
  destruct (WriteAt _ _ _) as [ok2 pg2]. cbv zeta. destruct (negb ok2).
  { intros [= <- <-]. destruct He as [[x He]|He]; discriminate He. }
  destruct (syncMode _); [intros [=]|..]; destruct (Fsync _) as [ok3 pg3];
    (destruct (negb ok3); [|intros [=]]); intros [= <- <-];
    (destruct He as [[x He]|He]; discriminate He).
Qed.

(** C23: a commit that fails before the meta page is written (in the flush or the
    first [fsync]), whatever the outcomes of the system calls, when the commit
    before it did not fail (the [failed] flag is not set; otherwise the meta page
    is first written anew), when the meta page is not among the updated pages and
    the page numbers are at most 2^48: the tree root and the page count are those
    from before the operation, nothing is left to be written, and the meta page
    on disk still is the old one; if it is valid and the file has at most 2^60
    bytes, opening the file again gives the root and the page count that this
    meta page records. *)
Theorem failed_commit_rolls_back db oldRoot oldFlushed e db' :
  failed db = false -> data_page (Flushed (kv_pg db)) ->
  Forall (fun x => data_page x.1) (map_to_list (updates (kv_pg db))) ->
  updateOrRevert db oldRoot oldFlushed = Ok (Some e, db') ->
  (exists x, e = ErrFlush x) \/ e = ErrFsync1 ->
  rolled_back db' oldRoot oldFlushed /\
  file_page (pm_file (kv_pg db')) 0 = file_page (pm_file (kv_pg db)) 0 /\
  forall m mode, ReadMetaSafe (file_page (pm_file (kv_pg db)) 0) = Ok (Some m) ->
    0 < len (pm_file (kv_pg db')) <= 2 ^ 60 ->
    exists db2, Open (pm_file (kv_pg db')) [] mode = Ok (inr db2) /\
      kv_root db2 = m_root m /\ Flushed (kv_pg db2) = m_flushed m.
Proof.
  intros Hfail Hfl Hu Hc He. destruct (commit_fails db oldRoot oldFlushed e db' Hfail Hfl Hu Hc He) as [Hb Hp].
  split; [done|]. split; [done|]. intros m mode Hm Hl. rewrite <-Hp in Hm.
  destruct (Open_meta _ mode m Hl Hm) as (pg & E & _). eexists. split; [exact E|split; reflexivity].
Qed.

(** On a closed file the calls fail and change nothing. *)
Lemma WriteAt_closed pm d off : pm_faults pm = ClosedFile -> WriteAt pm d off = (false, pm).
Proof.
  intros Hc. unfold WriteAt, syscall. destruct (off <? 0); [done|]. rewrite Hc. destruct pm. simpl in *. by subst.
Qed.

Lemma Fsync_closed pm : pm_faults pm = ClosedFile -> Fsync pm = (false, pm).
Proof. intros Hc. unfold Fsync, syscall. rewrite Hc. destruct pm. simpl in *. by subst. Qed.

Lemma FlushPages_closed pm n err pm' : pm_faults pm = ClosedFile -> FlushPages pm = Ok (n, err, pm') -> pm' = pm.
Proof.
  intros Hc. unfold FlushPages. destruct (_ && _); [by intros [= <- <- <-]|].
  intros ([err1 pm1] & E1 & E)%bind_ok_inv. assert (pm1 = pm) as ->.
  { revert E1. unfold ExtendMMap. destruct (_ <=? _); [by intros [= <- <-]|].
    intros (a & _ & E1)%bind_ok_inv. unfold syscall in E1. rewrite Hc in E1. injection E1 as <- <-.
    destruct pm. simpl in *. by subst. }
  destruct err1; [by injection E as <- <- <-|].
  destruct (map_to_list (updates pm)) as [|[p page] l]; cbn [flush_updates] in E.
  - destruct (0 <? _); [|by injection E as <- <- <-]. rewrite WriteAt_closed in E by done. by injection E as <- <- <-.
  - rewrite WriteAt_closed in E by done. by injection E as <- <- <-.
Qed.

(** After [Close] nothing is committed any more: the commit reports an error and
    the file stays as it is. *)
Theorem closed_file_unchanged db oldRoot oldFlushed e db' : pm_faults (kv_pg db) = ClosedFile ->
  updateOrRevert db oldRoot oldFlushed = Ok (e, db') ->
  (exists x, e = Some x) /\ pm_file (kv_pg db') = pm_file (kv_pg db) /\ pm_faults (kv_pg db') = ClosedFile.
Proof.
  intros Hc. unfold updateOrRevert, recoverMeta. destruct (failed db).
  { intros ([e1 db1] & E1 & E)%bind_ok_inv. apply bind_ok_inv in E1 as (meta & _ & E1).
    rewrite WriteAt_closed in E1 by done. injection E1 as <- <-. injection E as <- <-. eauto. }
  rewrite bind_ok. intros ([[n err] pg] & E & Hr)%bind_ok_inv. apply FlushPages_closed in E as ->; [|done].
  destruct err as [e0|]; [injection Hr as <- <-; eauto|].
  change (kv_pg (set_pg db (kv_pg db))) with (kv_pg db) in Hr.
  destruct (bool_decide _); [|rewrite Fsync_closed in Hr by done; injection Hr as <- <-; eauto].
  cbn [negb] in Hr. unfold commitMeta in Hr. apply bind_ok_inv in Hr as (meta & _ & Hr).
  rewrite WriteAt_closed in Hr by done. injection Hr as <- <-. eauto.
Qed.

(** A file with a meta page, and a store whose next write fails after nine bytes. *)
Definition old_meta : Meta := mkMeta 0 1 0 0 0 0.
Definition failing (f : bytes) : KV :=
  mkKV (mkTree 2 (mkKP empty_list (mkPM f (Calls [Fails 9]) 67108864 [67108864] 1 [make PageSize] ∅))) SyncFull false.

Lemma failed_commit_rolls_back_witness : exists meta db' db2,
  let f := write_at [] (0 * PageSize) meta in
  ReadMetaSafe meta = Ok (Some old_meta) /\
  updateOrRevert (failing f) 0 1 = Ok (Some (ErrFlush ErrWriteTemp), db') /\ rolled_back db' 0 1 /\
  Open (pm_file (kv_pg db')) [] SyncFull = Ok (inr db2) /\ kv_root db2 = 0 /\ Flushed (kv_pg db2) = 1.
Proof.
  destruct (WriteMetaFull_read (make PageSize) old_meta) as (meta & _ & Lm & _ & Hr);
    [done|apply make_ok|unfold meta_ok, u64_ok; simpl; lia|].
  set (f := write_at [] (0 * PageSize) meta). change (len (make PageSize)) with PageSize in Lm.
  assert (len f = PageSize) as Lf.
  { unfold f, PageSize in *. rewrite len_write_at by lia. change (len (@nil Z)) with 0. lia. }
  assert (ReadMetaSafe (file_page f 0) = Ok (Some old_meta)) as Hm.
  { unfold f. rewrite file_page_write by done. by rewrite decide_True. }
  set (part := take 9 (make PageSize)).
  set (db' := set_failed (rollback (set_pg (failing f) (set_file (kv_pg (failing f)) (write_at f 4096 part) (Calls []))) 0 1) true).
  assert (updateOrRevert (failing f) 0 1 = Ok (Some (ErrFlush ErrWriteTemp), db')) as E by reflexivity.
  destruct (failed_commit_rolls_back (failing f) 0 1 (ErrFlush ErrWriteTemp) db') as (Hb & _ & Ho).
  - reflexivity.
  - vm_compute. split; discriminate.
  - constructor.
  - exact E.
  - left. eexists. reflexivity.
  - destruct (Ho old_meta SyncFull Hm) as (db2 & H1 & H2 & H3).
    + change (pm_file (kv_pg db')) with (write_at f 4096 part). rewrite len_write_at by (vm_compute; done).
      change (len part) with 9. unfold PageSize in Lf. change (2 ^ 60) with 1152921504606846976. lia.
    + exists meta, db', db2. cbv zeta. fold f. split_and!; [exact Hr|exact E|exact Hb|exact H1|exact H2|exact H3].
Defined.

(** * The first operation on a new file *)

Definition fresh_pg : PageMgr := ResetTo (NewPageMgr [] []) 1.

Definition fresh (mode : SyncMode) : KV := mkKV (mkTree 0 (mkKP empty_list fresh_pg)) mode false.

Lemma Open_fresh mode : Open [] [] mode = Ok (inr (fresh mode)).
Proof. reflexivity. Qed.

(** The page manager once one leaf has been allocated. *)
Definition one_page_pg (b : bytes) : PageMgr := mkPM [] (Calls []) 0 [] 1 [b] ∅.

Lemma Insert_fresh fuel mode key val : len key + len val <= 4078 ->
  exists b, Insert fuel (kv_tree (fresh mode)) key val = Ok (mkTree 1 (mkKP empty_list (one_page_pg b))) /\
    node_rep b BNODE_LEAF (leaf_entries [(key, val)]) /\ len b = PageSize.
Proof.
  intros Hkv. destruct (first_leaf key val Hkv) as (b & E & Hb & _ & Hl).
  exists b. split; [|done]. unfold Insert. cbn [Root kv_tree fresh Z.eqb].
  apply bind_ok_inv in E as (r & -> & E). rewrite bind_ok, E, bind_ok. reflexivity.
Qed.

(** A page manager whose file holds the meta page [meta] and the leaf [b]. *)
Definition two_pages (pg : PageMgr) (meta b : bytes) : Prop :=
  chunks_ok pg /\ pm_faults pg = Calls [] /\ temp pg = [] /\ updates pg = ∅ /\ flushed pg = 2 /\
  len (pm_file pg) = 2 * PageSize /\ 2 * PageSize <= mmap_total pg /\
  file_page (pm_file pg) 0 = meta /\ file_page (pm_file pg) 1 = b.

Lemma one_page_ok b : len b = PageSize -> pm_ok (one_page_pg b).
Proof.
  intros Hb. split.
  - split_and!; [constructor|done|done].
  - by constructor.
  - by apply map_Forall_empty.
  - done.
  - cbn. rewrite len_cons, len_nil. unfold PageSize. done.
Qed.

Lemma two_pages_read pg meta b : two_pages pg meta b -> Read pg 0 = Ok meta /\ Read pg 1 = Ok b.
Proof.
  intros (Hc & _ & _ & Hu & _ & Hl & Ht & H0 & H1). unfold PageSize in *.
  split; rewrite Read_spec by (done || lia); rewrite Hu, lookup_empty; unfold file_read, PageSize;
    rewrite Hl; by rewrite (proj2 (Z.ltb_lt _ (mmap_total pg))), ?H0, ?H1 by lia.
Qed.

Lemma flush_first b : len b = PageSize -> exists n pg1,
  FlushPages (one_page_pg b) = Ok (n, None, pg1) /\ chunks_ok pg1 /\ pm_faults pg1 = Calls [] /\
  flushed pg1 = 2 /\ len (pm_file pg1) = 2 * PageSize /\ 2 * PageSize <= mmap_total pg1 /\
  file_page (pm_file pg1) 1 = b.
Proof.
  intros Hb. destruct (flush_spec _ (one_page_ok b Hb) eq_refl) as
    (n & pg1 & E & Hc & Ht & Hf & Hfl & _ & Hlen & Hm & Hin & Hpage).
  change (len (temp (one_page_pg b))) with 1 in *. change (flushed (one_page_pg b)) with 1 in *.
  change (len (pm_file (one_page_pg b))) with 0 in *.
  specialize (Hin 1 ltac:(right; lia)). unfold PageSize in *. exists n, pg1.
  split_and!; try done; try lia. rewrite Hpage by done. reflexivity.
Qed.

Lemma Fsync_ok pg : pm_faults pg = Calls [] -> Fsync pg = (true, pg).
Proof. intros Hf. unfold Fsync, syscall. rewrite Hf. destruct pg. simpl in *. by subst. Qed.

Lemma set_pg_idem db pg pg' : set_pg (set_pg db pg) pg' = set_pg db pg'.
Proof. reflexivity. Qed.

Definition first_meta : Meta := mkMeta 1 2 0 0 0 0.

Definition first_db (mode : SyncMode) (pg : PageMgr) : KV :=
  mkKV (mkTree 1 (mkKP empty_list pg)) mode false.

Lemma commit_first mode b : len b = PageSize -> exists pg meta,
  updateOrRevert (first_db mode (one_page_pg b)) 0 1 = Ok (None, first_db mode pg) /\
  two_pages pg meta b /\ ReadMetaSafe meta = Ok (Some first_meta) /\ len meta = PageSize.
Proof.
  intros Hb. destruct (flush_first b Hb) as (n & pg1 & E & Hc & Hf & Hfl & Hlen & Hm & Hp1).
  destruct (WriteMetaFull_read (make PageSize) first_meta) as (meta & Em & Lm & _ & Hr);
    [done|apply make_ok|unfold meta_ok, u64_ok; simpl; lia|].
  set (pg2 := ClearUpdates pg1).
  set (pg3 := set_file pg2 (write_at (pm_file pg2) 0 meta) (Calls [])).
  exists pg3, meta. split; [|split; [unfold two_pages; split_and!;
    [exact Hc|reflexivity|reflexivity|reflexivity|exact Hfl| |exact Hm| |]|split; [exact Hr|exact Lm]]].
  - unfold updateOrRevert, recoverMeta.
    change (failed (first_db mode (one_page_pg b))) with false. cbv iota. rewrite bind_ok.
    change (kv_pg (first_db mode (one_page_pg b))) with (one_page_pg b). rewrite E, bind_ok.
    cbv beta iota zeta.
    change (set_pg (first_db mode (one_page_pg b)) pg1) with (first_db mode pg1).
    change (kv_pg (first_db mode pg1)) with pg1. change (syncMode (first_db mode pg1)) with mode.
    assert ((if bool_decide (mode = SyncOff) then (true, pg1) else Fsync pg1) = (true, pg1)) as ->
      by (case_bool_decide; [done|by apply Fsync_ok]).
    cbv beta iota. change (negb true) with false. cbv iota.
    change (set_pg (set_pg (first_db mode pg1) pg1) (ClearUpdates (kv_pg (set_pg (first_db mode pg1) pg1))))
      with (first_db mode pg2).
    unfold commitMeta, saveMeta, buildMeta.
    assert (mkMeta (kv_root (first_db mode pg2)) (Flushed (kv_pg (first_db mode pg2)))
      (HeadPage (kv_free (first_db mode pg2))) (HeadSeq (kv_free (first_db mode pg2)))
      (TailPage (kv_free (first_db mode pg2))) (TailSeq (kv_free (first_db mode pg2))) = first_meta) as Hmeta.
    { unfold first_meta. cbn. unfold Flushed, pg2. cbn. by rewrite Hfl. }
    cbv zeta. rewrite Hmeta, Em, bind_ok. change (kv_pg (first_db mode pg2)) with pg2.
    rewrite (WriteAt_ok pg2) by (done || lia). fold pg3. cbv beta iota. change (negb true) with false. cbv iota.
    change (set_pg (first_db mode pg2) pg3) with (first_db mode pg3).
    change (syncMode (first_db mode pg3)) with mode. change (kv_pg (first_db mode pg3)) with pg3.
    destruct mode; [done|..]; by rewrite (Fsync_ok pg3).
  - unfold pg3, pg2. cbn [pm_file set_file ClearUpdates]. unfold PageSize in *.
    rewrite len_write_at by lia. lia.
  - cbn [pm_file set_file ClearUpdates pg3 pg2].
    change (write_at (pm_file pg1) 0 meta) with (write_at (pm_file pg1) (0 * PageSize) meta).
    rewrite file_page_write by done. by rewrite decide_True.
  - cbn [pm_file set_file ClearUpdates pg3 pg2].
    change (write_at (pm_file pg1) 0 meta) with (write_at (pm_file pg1) (0 * PageSize) meta).
    rewrite file_page_write by done. by rewrite decide_False.
Qed.

Lemma Set_fresh fuel mode key val : len key + len val <= 4078 -> exists pg meta b,
  Set_ fuel (fresh mode) key val = Ok (None, first_db mode pg) /\ two_pages pg meta b /\
  ReadMetaSafe meta = Ok (Some first_meta) /\ len meta = PageSize /\
  node_rep b BNODE_LEAF (leaf_entries [(key, val)]).
Proof.
  intros Hkv. destruct (Insert_fresh fuel mode key val Hkv) as (b & E & Hb & Hl).
  destruct (commit_first mode b Hl) as (pg & meta & Ec & H2 & Hr & Lm).
  exists pg, meta, b. split; [|auto]. unfold Set_. rewrite E, bind_ok. exact Ec.
Qed.

Lemma Get_two_pages fuel mode pg meta b key val k : two_pages pg meta b ->
  node_rep b BNODE_LEAF (leaf_entries [(key, val)]) ->
  Get (S fuel) (first_db mode pg) k = Ok (kv_lookup k [(key, val)]).
Proof.
  intros H2 Hb. unfold Get, Tree.Get. cbn [first_db kv_tree Root Z.eqb].
  change (GetPage (store _) 1) with (Read pg 1). destruct (two_pages_read _ _ _ H2) as [_ ->].
  rewrite bind_ok. apply Get_loop_leaf; [done|done|]. repeat constructor.
Qed.

Lemma Open_two_pages mode' pg meta b : two_pages pg meta b ->
  ReadMetaSafe meta = Ok (Some first_meta) ->
  exists pg', Open (pm_file pg) [] mode' = Ok (inr (first_db mode' pg')) /\ two_pages pg' meta b.
Proof.
  intros (Hc & Hf & _ & _ & _ & Hl & Hm & H0 & H1) Hr. rewrite <-H0 in Hr.
  destruct (Open_meta (pm_file pg) mode' first_meta) as (pg1 & E & Hc1 & Hf1 & E1 & Hs1); [by rewrite Hl|done|].
  exists (ResetTo pg1 2). split; [exact E|]. unfold two_pages.
  cbn [ResetTo pm_file temp updates flushed pm_faults mmap_total]. rewrite E1, <-Hl. split_and!; done.
Qed.

(** C24: the first [Set] on a new file, of a pair of at most 4078 bytes, which is
    what fits in a leaf, and when all system calls succeed, returns without
    error, whatever the sync mode; [Get] then finds exactly that pair, and so it
    does after the file is opened again: the meta page and the leaf are on disk.
    (A longer value is cut, see [large_value_cut].) *)
Theorem first_set_durable mode mode' key val : len key + len val <= 4078 ->
  exists db db' db2, Open [] [] mode = Ok (inr db) /\ Set_ 1 db key val = Ok (None, db') /\
    Open (pm_file (kv_pg db')) [] mode' = Ok (inr db2) /\
    forall k, Get 1 db' k = Ok (if decide (k = key) then Some val else None) /\
      Get 1 db2 k = Ok (if decide (k = key) then Some val else None).
Proof.
  intros Hkv. destruct (Set_fresh 1 mode key val Hkv) as (pg & meta & b & E & H2 & Hr & _ & Hb).
  destruct (Open_two_pages mode' pg meta b H2 Hr) as (pg' & Eo & H2').
  exists (fresh mode), (first_db mode pg), (first_db mode' pg').
  split_and!; [apply Open_fresh|exact E|exact Eo|]. intros k.
  rewrite (Get_two_pages 0 mode pg meta b key val k H2 Hb),
    (Get_two_pages 0 mode' pg' meta b key val k H2' Hb).
  cbn [kv_lookup]. destruct (decide (k = key)) as [->|Hne].
  - by rewrite cmp_refl.
  - rewrite (proj2 (Z.eqb_neq _ _)) by (by rewrite cmp_eq_0). done.
Qed.

(** The pair of the test [TestPersistence]: [hello] and [world]. *)
Definition hello : bytes := [104; 101; 108; 108; 111].
Definition world : bytes := [119; 111; 114; 108; 100].

Lemma first_set_durable_witness : exists db db' db2,
  Open [] [] SyncFull = Ok (inr db) /\ Set_ 1 db hello world = Ok (None, db') /\
  Open (pm_file (kv_pg db')) [] SyncOff = Ok (inr db2) /\
  forall k, Get 1 db' k = Ok (if decide (k = hello) then Some world else None) /\
    Get 1 db2 k = Ok (if decide (k = hello) then Some world else None).
Proof. apply (first_set_durable SyncFull SyncOff hello world). vm_compute. discriminate. Defined.

(** A value that does not fit in a leaf is not refused: the leaf gets as much of it
    as there is room for, and the commit reports success on a file that is
    shorter than the value. *)
Theorem large_value_cut mode : exists db',
  Set_ 1 (fresh mode) hello (make 9000) = Ok (None, db') /\ len (pm_file (kv_pg db')) = 8192.
Proof.
  assert (exists b, Insert 1 (kv_tree (fresh mode)) hello (make 9000) =
    Ok (mkTree 1 (mkKP empty_list (one_page_pg b))) /\ len b = PageSize) as (b & E & Hb).
  { eexists. split; vm_compute; reflexivity. }
  destruct (commit_first mode b Hb) as (pg & meta & Ec & H2 & _). exists (first_db mode pg).
  unfold Set_. rewrite E, bind_ok. split; [exact Ec|]. destruct H2 as (_ & _ & _ & _ & _ & Hl & _). exact Hl.
Qed.

(** C40: after the first [Set] on a new file, of a pair of at most 4078 bytes and
    when all system calls succeed, the next [Set] does not return: freeing the old root needs a page for
    the free list, which is allocated past the end of the file and read through
    the memory map before it has been written. *)
Theorem second_set_faults mode fuel key val key2 val2 : len key + len val <= 4078 ->
  exists db db', Open [] [] mode = Ok (inr db) /\ Set_ 1 db key val = Ok (None, db') /\
    Set_ fuel db' key2 val2 = Panic.
Proof.
  intros Hkv. destruct (Set_fresh 1 mode key val Hkv) as (pg & meta & b & E & H2 & _ & _ & _).
  exists (fresh mode), (first_db mode pg). split_and!; [apply Open_fresh|exact E|].
  unfold Set_, Insert. cbn [first_db kv_tree Root Z.eqb store].
  change (GetPage (mkKP empty_list pg) 1) with (Read pg 1).
  destruct (two_pages_read _ _ _ H2) as [_ ->]. rewrite bind_ok.
  destruct H2 as (Hc & _ & Ht & Hu & Hfl & Hl & _).
  assert (DelPage (mkKP empty_list pg) 1 = Panic) as ->; [|reflexivity].
  change (DelPage (mkKP empty_list pg) 1) with (kv_DelPage (mkKP empty_list pg) 1).
  unfold kv_DelPage, PushTail. cbn [kp_free kp_pg empty_list TailPage Z.eqb].
  assert (exists data, lnode_setNext (make BTREE_PAGE_SIZE) 0 = Ok data) as [data ->]
    by (eexists; vm_compute; reflexivity).
  rewrite bind_ok.
  change (fl_NewPage pg data) with (Ok (Alloc pg data)). unfold Alloc. rewrite Ht, Hfl.
  rewrite bind_ok. cbv beta iota. change (u64 (2 + u64 (len []))) with 2.
  rewrite bind_ok. cbv beta iota. cbn [TailPage].
  set (pg1 := mkPM _ _ _ _ _ _ _). change (fl_SetPage pg1 2) with (Write pg1 2).
  unfold Write. cbn [updates pg1]. rewrite Hu, lookup_empty.
  assert (chunks_ok pg1) as Hc1 by exact Hc.
  rewrite (Read_spec pg1 2 Hc1) by done. cbn [updates pg1 pm_file mmap_total].
  rewrite Hu, lookup_empty. unfold file_read. rewrite Hl, Z.ltb_irrefl, andb_false_r. reflexivity.
Qed.

Lemma second_set_faults_witness : exists db db',
  Open [] [] SyncFull = Ok (inr db) /\ Set_ 1 db hello world = Ok (None, db') /\
  Set_ 5 db' world hello = Panic.
Proof. apply (second_set_faults SyncFull 5 hello world world hello). vm_compute. discriminate. Defined.

(** A chain of overflow pages in this store: the second page cannot be linked to
    the first one, which is not in the file yet, so that reading it faults. *)
Theorem overflow_chain_faults `{PagePut kvPages} :
  allocOverflow (store (kv_tree (fresh SyncFull))) (make 5000) = Panic.
Proof. vm_compute. reflexivity. Qed.
