(* ===== verification/Protocol.v ===== *)
(** The wire protocol: src/internal/protocol/protocol.go, and the decoder of
    results in [printResult] of src/cmd/svacara-cli/main.go. Strings are byte
    lists; lengths are kept at the width the code gives them. *)
From S2P Require Import Prelude Encoding.
#[local] Open Scope Z_scope.

Definition MsgQuery : Z := 1.
Definition MsgPrepare : Z := 2.
Definition MsgExecute : Z := 3.
Definition MsgBegin : Z := 4.
Definition MsgCommit : Z := 5.
Definition MsgAbort : Z := 6.
Definition MsgResult : Z := 16.
Definition MsgError : Z := 17.
Definition MsgRowCount : Z := 18.
Definition MsgReady : Z := 32.

(** * Messages *)

Definition EncodeMessage (msgType : Z) (payload : bytes) : bytes :=
  msgType :: be_bytes 4 (u32 (len payload)) ++ payload.

(** [None] stands for [ok = false]. *)
Definition DecodeMessage (data : bytes) : res (option (Z * bytes)) :=
  if len data <? 5 then Ok None
  else
    msgType ← index data 0;
    hdr ← slice data 1 5;
    length ← be_uint 4 hdr;
    if len data <? 5 + length then Ok None
    else payload ← slice data 5 (u32 (5 + length)); Ok (Some (msgType, payload)).

(** * Strings *)

Definition EncodeString (s : bytes) : bytes := be_bytes 2 (u16 (len s)) ++ s.

(** The string and the number of bytes read; ["", 0] when data is missing. *)
Definition DecodeString (data : bytes) : res (bytes * Z) :=
  if len data <? 2 then Ok ([], 0)
  else
    hdr ← slice_to data 2;
    length ← be_uint 2 hdr;
    if len data <? 2 + length then Ok ([], 0)
    else s ← slice data 2 (u16 (2 + length)); Ok (s, 2 + length).

(** * Results *)

(** A row is a [map[string]string]: a missing column reads as the empty string. *)
Definition row_get (row : gmap bytes bytes) (c : bytes) : bytes := default [] (row !! c).

Definition encode_strings (l : list bytes) : bytes := concat (EncodeString <$> l).

Definition EncodeResult (cols : list bytes) (rows : list (gmap bytes bytes)) : bytes :=
  EncodeMessage MsgResult
    (u8 (len cols) :: encode_strings cols ++
     concat ((fun row => encode_strings (row_get row <$> cols)) <$> rows)).

(** [printResult] reads [n] strings from [pos]; [None] when it gives up. *)
Fixpoint read_fields (n : nat) (data : bytes) (pos : Z) : res (option (list bytes * Z)) :=
  match n with
  | O => Ok (Some ([], pos))
  | S n =>
      if len data <? pos + 2 then Ok None
      else
        rest ← slice_from data pos;
        clen ← be_uint 2 rest;
        let pos := pos + 2 in
        s ← slice data pos (pos + clen);
        r ← read_fields n data (pos + clen);
        Ok (match r with Some (l, pos) => Some (s :: l, pos) | None => None end)
  end.

(** The loop over the rows: the lines that are printed. *)
Fixpoint print_rows (fuel : nat) (ncols : nat) (data : bytes) (pos : Z) : res (list (list bytes)) :=
  if pos <? len data then
    match fuel with
    | O => OutOfFuel
    | S fuel =>
        r ← read_fields ncols data pos;
        match r with
        | None => Ok []
        | Some (row, pos) => rows ← print_rows fuel ncols data pos; Ok (row :: rows)
        end
    end
  else Ok [].

(** The header line and the rows. *)
Definition printResult (fuel : nat) (data : bytes) : res (option (list bytes * list (list bytes))) :=
  if len data <? 1 then Ok None
  else
    ncols ← index data 0;
    r ← read_fields (Z.to_nat ncols) data 1;
    match r with
    | None => Ok None
    | Some (cols, pos) =>
        rows ← print_rows fuel (Z.to_nat ncols) data pos;
        Ok (Some (cols, rows))
    end.

(** * Reading back *)

Lemma slice_app {A} (a b c : list A) lo hi :
  len a = lo -> lo + len b = hi -> slice (a ++ b ++ c) lo hi = Ok b.
Proof.
  intros <- <-. unfold slice. rewrite !len_app. pose proof (len_nonneg a). pose proof (len_nonneg b).
  pose proof (len_nonneg c).
  rewrite (proj2 (Z.leb_le 0 _)), (proj2 (Z.leb_le (len a) _)), (proj2 (Z.leb_le (len a + len b) _)) by lia.
  simpl. replace (len a + len b - len a) with (len b) by lia. unfold len. rewrite !Nat2Z.id.
  by rewrite drop_app_length, take_app_length.
Qed.

Lemma be_uint_app n v r : 0 <= v < 256 ^ Z.of_nat n -> be_uint n (be_bytes n v ++ r) = Ok v.
Proof.
  intros Hv. unfold be_uint. rewrite len_app, len_be_bytes. pose proof (len_nonneg r).
  rewrite (proj2 (Z.leb_le _ _)) by lia. rewrite take_app_length', be_val_bytes; [done|done|].
  pose proof (len_be_bytes n v). unfold len in *. lia.
Qed.

Lemma be_uint_exact n v : 0 <= v < 256 ^ Z.of_nat n -> be_uint n (be_bytes n v) = Ok v.
Proof. intros Hv. rewrite <-(app_nil_r (be_bytes n v)). by apply be_uint_app. Qed.

(** Reading one string out of the middle of a buffer. *)
Lemma read_field s a b : len s < 65536 ->
  (rest ← slice_from (a ++ EncodeString s ++ b) (len a); be_uint 2 rest) = Ok (len s) /\
  slice (a ++ EncodeString s ++ b) (len a + 2) (len a + 2 + len s) = Ok s.
Proof.
  intros Hs. pose proof (len_nonneg s). unfold EncodeString. rewrite u16_id by lia. split.
  - rewrite slice_from_app, bind_ok, <-app_assoc by done. apply be_uint_app.
    change (256 ^ Z.of_nat 2) with 65536. lia.
  - rewrite <-app_assoc, (app_assoc a). apply slice_app; [|done]. by rewrite len_app, len_be_bytes.
Qed.

Lemma len_EncodeString s : len (EncodeString s) = 2 + len s.
Proof. unfold EncodeString. by rewrite len_app, len_be_bytes. Qed.

Definition str_ok (s : bytes) : Prop := len s < 65536.

Lemma read_fields_spec l : forall a b, Forall str_ok l ->
  read_fields (length l) (a ++ encode_strings l ++ b) (len a) =
    Ok (Some (l, len a + len (encode_strings l))).
Proof.
  induction l as [|s l IH]; intros a b Hl; cbn [length read_fields].
  - unfold encode_strings. simpl. rewrite len_nil, Z.add_0_r. done.
  - apply Forall_cons in Hl as [Hs Hl].
    change (encode_strings (s :: l)) with (EncodeString s ++ encode_strings l).
    rewrite <-app_assoc. destruct (read_field s a (encode_strings l ++ b) Hs) as [E1 E2].
    pose proof (len_nonneg s). pose proof (len_nonneg (encode_strings l ++ b)).
    rewrite (proj2 (Z.ltb_ge _ _)) by (rewrite len_app, (len_app (EncodeString s)), len_EncodeString; lia).
    apply bind_ok_inv in E1 as (rest & -> & E1). rewrite bind_ok, E1, bind_ok. cbv zeta.
    rewrite E2, bind_ok.
    replace (len a + 2 + len s) with (len (a ++ EncodeString s)) by (rewrite len_app, len_EncodeString; lia).
    rewrite (app_assoc a), IH by done. rewrite bind_ok. do 3 f_equal.
    rewrite !len_app. lia.
Qed.

Lemma print_rows_spec ncols rows : forall fuel a,
  (length rows <= fuel)%nat -> (0 < ncols)%nat ->
  Forall (fun row => length row = ncols /\ Forall str_ok row) rows ->
  print_rows fuel ncols (a ++ concat (encode_strings <$> rows)) (len a) = Ok rows.
Proof.
  induction rows as [|row rows IH]; intros fuel a Hf Hn Hr.
  - simpl. rewrite app_nil_r. destruct fuel; cbn [print_rows]; by rewrite Z.ltb_irrefl.
  - apply Forall_cons in Hr as [[Hlen Hrow] Hr]. rewrite fmap_cons. cbn [concat].
    destruct fuel as [|fuel]; [simpl in Hf; lia|]. cbn [print_rows].
    assert (0 < len (encode_strings row)) as Hpos.
    { destruct row as [|s row]; [simpl in Hlen; lia|].
      change (encode_strings (s :: row)) with (EncodeString s ++ encode_strings row).
      rewrite len_app, len_EncodeString. pose proof (len_nonneg s).
      pose proof (len_nonneg (encode_strings row)). lia. }
    pose proof (len_nonneg (concat (encode_strings <$> rows))).
    rewrite (proj2 (Z.ltb_lt _ _)) by (rewrite !len_app; lia).
    rewrite <-Hlen, read_fields_spec, bind_ok by done. rewrite Hlen.
    replace (len a + len (encode_strings row)) with (len (a ++ encode_strings row)) by apply len_app.
    rewrite app_assoc, IH by (done || (simpl in Hf; lia)). done.
Qed.

(** * Properties *)

Lemma DecodeMessage_encoded t payload rest : len payload < 4294967291 ->
  DecodeMessage (EncodeMessage t payload ++ rest) = Ok (Some (t, payload)).
Proof.
  intros Hp. pose proof (len_nonneg payload). pose proof (len_nonneg rest).
  unfold DecodeMessage, EncodeMessage in *. rewrite u32_id in * by lia.
  change ((t :: ?x) ++ ?y) with (t :: (x ++ y)). rewrite <-app_assoc.
  rewrite len_cons, !len_app, len_be_bytes. rewrite (proj2 (Z.ltb_ge _ _)) by lia.
  change (index (t :: _) 0) with (Ok t). rewrite bind_ok.
  change (t :: be_bytes 4 (len payload) ++ payload ++ rest)
    with ([t] ++ be_bytes 4 (len payload) ++ (payload ++ rest)).
  rewrite slice_app, bind_ok, be_uint_exact, bind_ok
    by (rewrite ?len_be_bytes; change (256 ^ Z.of_nat 4) with 4294967296; done || lia).
  rewrite (proj2 (Z.ltb_ge _ _)) by lia. rewrite u32_id by lia.
  rewrite (app_assoc [t]), slice_app, bind_ok; [done| |lia].
  rewrite len_app, len_be_bytes. done.
Qed.

Lemma len_EncodeMessage t payload : len (EncodeMessage t payload) = 5 + len payload.
Proof. unfold EncodeMessage. rewrite len_cons, len_app, len_be_bytes. lia. Qed.

Lemma drop_EncodeMessage t a b n : Z.of_nat n = 5 + len a -> drop n (EncodeMessage t (a ++ b)) = b.
Proof.
  intros Hn. unfold EncodeMessage. rewrite app_assoc. change (t :: ?l) with ([t] ++ l). rewrite app_assoc.
  apply drop_app_length'. apply Nat2Z.inj. rewrite Hn. symmetry.
  change (len ([t] ++ be_bytes 4 (u32 (len (a ++ b))) ++ a) = 5 + len a).
  rewrite !len_app, len_be_bytes. unfold len. simpl. lia.
Qed.

(** A part of a message is incomplete. *)
Lemma DecodeMessage_prefix t payload n : len payload < 4294967291 -> (n < length (EncodeMessage t payload))%nat ->
  DecodeMessage (take n (EncodeMessage t payload)) = Ok None.
Proof.
  intros Hp Hn. pose proof (len_nonneg payload).
  unfold DecodeMessage, EncodeMessage in *. rewrite u32_id in * by lia.
  assert (len (take n (t :: be_bytes 4 (len payload) ++ payload)) = Z.of_nat n) as Hl.
  { unfold len at 1. rewrite length_take. lia. }
  rewrite Hl. destruct (Z.ltb_spec (Z.of_nat n) 5) as [|Hge]; [done|].
  destruct n as [|n]; [lia|]. change (index (take (S n) (t :: _)) 0) with (Ok t). rewrite bind_ok.
  assert (take (S n) (t :: be_bytes 4 (len payload) ++ payload) =
    [t] ++ be_bytes 4 (len payload) ++ take (n - 4) payload) as ->.
  { assert (length (be_bytes 4 (len payload)) = 4%nat) as L4
      by (pose proof (len_be_bytes 4 (len payload)) as H4; unfold len at 1 in H4; lia).
    cbn [take app]. f_equal. rewrite take_app, L4. f_equal. apply take_ge. lia. }
  rewrite slice_app, bind_ok, be_uint_exact, bind_ok
    by (rewrite ?len_be_bytes; change (256 ^ Z.of_nat 4) with 4294967296; done || lia).
  rewrite (proj2 (Z.ltb_lt _ _)); [done|].
  apply Nat2Z.inj_lt in Hn. fold (len (t :: be_bytes 4 (len payload) ++ payload)) in Hn.
  rewrite len_cons, len_app, len_be_bytes in Hn. lia.
Qed.

(** A message that was encoded is decoded to its type and payload, whatever
    follows it in the buffer, and every strict prefix of it is reported as
    incomplete. *)
Theorem message_roundtrip t payload rest n :
  len payload < 4294967291 -> (n < length (EncodeMessage t payload))%nat ->
  DecodeMessage (EncodeMessage t payload ++ rest) = Ok (Some (t, payload)) /\
  DecodeMessage (take n (EncodeMessage t payload)) = Ok None.
Proof. intros Hp Hn. split; [by apply DecodeMessage_encoded|by apply DecodeMessage_prefix]. Qed.

(** A string shorter than 65534 bytes is read back from its encoding, with
    the number of bytes it took; at 65534 bytes the 16-bit end index wraps around
    and decoding panics. *)
Theorem string_roundtrip s rest :
  len s <= 65534 ->
  DecodeString (EncodeString s ++ rest) =
    if len s =? 65534 then Panic else Ok (s, 2 + len s).
Proof.
  intros Hs. pose proof (len_nonneg s). pose proof (len_nonneg rest). unfold DecodeString, EncodeString.
  rewrite u16_id by lia. rewrite !len_app, len_be_bytes. rewrite (proj2 (Z.ltb_ge _ _)) by lia.
  rewrite <-app_assoc, slice_to_app, bind_ok, be_uint_exact, bind_ok
    by (rewrite ?len_be_bytes; change (256 ^ Z.of_nat 2) with 65536; done || lia).
  rewrite (proj2 (Z.ltb_ge _ _)) by lia. destruct (Z.eqb_spec (len s) 65534) as [->|Hne].
  - unfold slice. change (u16 (2 + 65534)) with 0. reflexivity.
  - rewrite u16_id by lia. rewrite slice_app, bind_ok; [done|apply len_be_bytes|done].
Qed.

(** The body of a result. *)
Definition result_body (cols : list bytes) (rows : list (gmap bytes bytes)) : bytes :=
  u8 (len cols) :: encode_strings cols ++ concat ((fun row => encode_strings (row_get row <$> cols)) <$> rows).

Lemma printResult_body cols rows fuel :
  (0 < length cols)%nat -> len cols <= 255 -> Forall str_ok cols ->
  Forall (fun row => Forall (fun c => str_ok (row_get row c)) cols) rows ->
  (length rows <= fuel)%nat ->
  printResult fuel (result_body cols rows) = Ok (Some (cols, (fun row => row_get row <$> cols) <$> rows)).
Proof.
  intros H0 H255 Hc Hr Hf. unfold printResult, result_body.
  pose proof (len_nonneg cols). assert (u8 (len cols) = len cols) as -> by (apply Z.mod_small; lia).
  set (body := encode_strings cols ++ _). rewrite len_cons. pose proof (len_nonneg body).
  rewrite (proj2 (Z.ltb_ge _ _)) by lia. change (index (len cols :: body) 0) with (Ok (len cols)).
  rewrite bind_ok. replace (Z.to_nat (len cols)) with (length cols) by (unfold len; lia).
  change (len cols :: body) with ([len cols] ++ body). change 1 with (len [len cols]) at 1.
  unfold body. rewrite read_fields_spec, bind_ok by done. rewrite <-len_app, app_assoc.
  assert ((fun row => encode_strings (row_get row <$> cols)) <$> rows =
    encode_strings <$> ((fun row => row_get row <$> cols) <$> rows)) as ->
    by (by rewrite <-list_fmap_compose).
  rewrite print_rows_spec; [done|by rewrite length_fmap|done|].
  apply Forall_fmap. eapply Forall_impl; [exact Hr|]. intros row Hrow. simpl.
  rewrite length_fmap. split; [done|]. by apply Forall_fmap.
Qed.

(** What the server encodes as a result is what the client prints: the
    column names and, for every row, its value in each column, as long as there
    is at least one column and at most 255 and no string exceeds 65535 bytes. *)
Theorem result_roundtrip cols rows fuel :
  (0 < length cols)%nat -> len cols <= 255 -> Forall str_ok cols ->
  Forall (fun row => Forall (fun c => str_ok (row_get row c)) cols) rows ->
  (length rows <= fuel)%nat ->
  exists payload, EncodeResult cols rows = EncodeMessage MsgResult payload /\
    printResult fuel payload = Ok (Some (cols, (fun row => row_get row <$> cols) <$> rows)).
Proof. intros H0 H255 Hc Hr Hf. exists (result_body cols rows). split; [reflexivity|by apply printResult_body]. Qed.

(** A result without columns sends the client into an endless loop: no
    amount of fuel lets [printResult] return when a byte follows the count. *)
Theorem printResult_no_columns_diverges fuel b rest :
  printResult fuel (0 :: b :: rest) = OutOfFuel.
Proof.
  unfold printResult. rewrite !len_cons. pose proof (len_nonneg rest).
  rewrite (proj2 (Z.ltb_ge _ _)) by lia. change (index (0 :: b :: rest) 0) with (Ok 0).
  rewrite bind_ok. change (Z.to_nat 0) with 0%nat. cbn [read_fields]. rewrite bind_ok.
  assert (print_rows fuel 0 (0 :: b :: rest) 1 = OutOfFuel) as ->; [|done].
  induction fuel as [|fuel IH]; cbn [print_rows]; rewrite !len_cons;
    rewrite (proj2 (Z.ltb_lt _ _)) by lia; [done|].
  cbn [read_fields]. rewrite bind_ok, IH. done.
Qed.

(** * Witnesses *)

Lemma message_roundtrip_witness :
  DecodeMessage (EncodeMessage MsgQuery [65; 66] ++ [9]) = Ok (Some (MsgQuery, [65; 66])) /\
  DecodeMessage (take 6 (EncodeMessage MsgQuery [65; 66])) = Ok None.
Proof. apply (message_roundtrip MsgQuery [65; 66] [9] 6); [reflexivity|simpl; lia]. Defined.

Lemma string_roundtrip_witness : DecodeString (EncodeString [65; 66] ++ [9]) = Ok ([65; 66], 4).
Proof. apply (string_roundtrip [65; 66] [9]). unfold len. simpl. lia. Defined.

Lemma result_roundtrip_witness : exists payload,
  EncodeResult [[105; 100]] [{[ [105; 100] := [49] ]}] = EncodeMessage MsgResult payload /\
  printResult 1 payload = Ok (Some ([[105; 100]], [[[49]]])).
Proof.
  destruct (result_roundtrip [[105; 100]] [{[ [105; 100] := [49] ]}] 1) as (p & E & H).
  - simpl. lia.
  - unfold len. simpl. lia.
  - repeat constructor.
  - repeat constructor.
  - simpl. lia.
  - exists p. split; [exact E|]. rewrite H. vm_compute. reflexivity.
Defined.
