(* ===== verification/Storage.v ===== *)
(** The [Storage] interface of src/internal/kvstore/interface.go.

    The relational layer, transactions, the connection pool and sharding only
    use these operations. [StorageOK] is what they rely on: a storage holds a
    finite map. The key-value store is an implementation of the operations; a
    plain map shows that the laws can be met. *)
From S2P Require Import Prelude Keys KVList Node TreeSpec Iter KV.
#[local] Open Scope Z_scope.

(** The iterator that [Seek] gives reads the pages of the store. *)
Class Storage (S : Type) := {
  st_Get : S -> bytes -> res (option bytes);
  st_Set : S -> bytes -> bytes -> res (option kv_error * S);
  st_Del : S -> bytes -> res (bool * option kv_error * S);
  st_iter : Type;
  st_Seek : S -> bytes -> res st_iter;
  st_Valid : st_iter -> res bool;
  st_Key : st_iter -> res bytes;
  st_Val : st_iter -> res bytes;
  st_Next : S -> st_iter -> res st_iter;
  st_TreeRoot : S -> Z;
  st_PageRead : S -> Z -> res BNode;
  st_Close : S -> option kv_error * S;
}.

(** [var _ Storage = ( *KV)(nil)]; a tree of 64 levels is out of reach. *)
Definition KV_FUEL : nat := 64.

#[global] Instance kv_storage : Storage KV := {|
  st_Get db := KV.Get KV_FUEL db;
  st_Set db := Set_ KV_FUEL db;
  st_Del db := Del KV_FUEL db;
  st_iter := BIter;
  st_Seek db := Seek KV_FUEL db;
  st_Valid := Valid;
  st_Key := Key;
  st_Val := Val;
  st_Next db := Next KV_FUEL (kv_tree db);
  st_TreeRoot := TreeRoot;
  st_PageRead := PageRead;
  st_Close := Close;
|}.

(** * The contract *)

(** [st_rep n s M]: the store holds the map [M] and has room for [n] more writes;
    [st_fits] are the pairs it takes. *)
Class StorageOK (S : Type) `{Storage S} := {
  st_rep : nat -> S -> gmap bytes bytes -> Prop;
  st_fits : bytes -> bytes -> Prop;
  st_rep_le : forall n m s M, (m <= n)%nat -> st_rep n s M -> st_rep m s M;
  st_Get_ok : forall n s M k, st_rep n s M -> st_Get s k = Ok (M !! k);
  st_Set_ok : forall n s M k v, st_rep (Datatypes.S n) s M -> st_fits k v ->
    exists s', st_Set s k v = Ok (None, s') /\ st_rep n s' (<[k := v]> M);
  st_Del_ok : forall n s M k, st_rep (Datatypes.S n) s M ->
    exists s', st_Del s k = Ok (bool_decide (is_Some (M !! k)), None, s') /\ st_rep n s' (delete k M);
}.

(** What a scan relies on, while the store does not change: [Seek] gives an
    iterator on the last key that is not above the given one (on the first pair,
    when all keys are above it), and [Next] goes through the pairs that follow in
    the order of the keys. *)
Class ScanOK (S : Type) `{StorageOK S} := {
  st_at : S -> kvs -> st_iter -> Prop;
  st_Seek_ok : forall n s M k, st_rep n s M -> exists l i it, kv_sorted l /\ kv_map l = M /\
    (l <> [] -> is_le (fst <$> l) k i) /\ st_Seek s k = Ok it /\ st_at s (drop i l) it;
  st_at_nil : forall s it, st_at s [] it -> st_Valid it = Ok false;
  st_at_cons : forall s k v l it, st_at s ((k, v) :: l) it ->
    st_Valid it = Ok true /\ st_Key it = Ok k /\ st_Val it = Ok v /\
    exists it', st_Next s it = Ok it' /\ st_at s l it';
}.

(** Sequences of operations through the interface, an error ending them. *)
Section run.
Context {S : Type} `{Storage S}.

Definition store_step (s : S) (o : op) : res (out * S) :=
  match o with
  | OpInsert k v => '(e, s) ← st_Set s k v; if e is Some _ then Panic else Ok (OutNone, s)
  | OpDelete k => '(b, e, s) ← st_Del s k; if e is Some _ then Panic else Ok (OutFound b, s)
  | OpGet k => v ← st_Get s k; Ok (OutVal v, s)
  end.

Fixpoint store_run (s : S) (os : list op) : res (list out) :=
  match os with
  | [] => Ok []
  | o :: os => '(r, s) ← store_step s o; rs ← store_run s os; Ok (r :: rs)
  end.
End run.

Definition op_fits {S : Type} `{StorageOK S} (o : op) : Prop :=
  match o with OpInsert k v => st_fits k v | _ => True end.

Lemma store_run_spec {S : Type} `{StorageOK S} os : forall s M, st_rep (length os) s M -> Forall op_fits os ->
  store_run s os = Ok (spec_run M os).
Proof.
  induction os as [|o os IH]; intros s M Hr Hf; [done|]. apply Forall_cons in Hf as [Hf Hfs].
  cbn [store_run spec_run length] in *.
  assert (exists s', store_step s o = Ok ((spec_step M o).1, s') /\ st_rep (length os) s' (spec_step M o).2)
    as (s' & -> & Hr').
  { destruct o as [k v|k|k]; cbn [store_step spec_step fst snd].
    - destruct (st_Set_ok _ s M k v Hr Hf) as (s' & -> & ?). by exists s'.
    - destruct (st_Del_ok _ s M k Hr) as (s' & -> & ?). by exists s'.
    - rewrite (st_Get_ok _ s M k Hr). exists s. split; [done|]. eapply st_rep_le; [|done]. lia. }
  rewrite bind_ok. destruct (spec_step M o) as [r M']. cbn [fst snd] in Hr' |- *.
  by rewrite (IH _ _ Hr' Hfs), bind_ok.
Qed.

(** * A map in memory *)

Record mapStore := mkMap { map_kvs : gmap bytes bytes }.

(** The pairs in the order of their keys, and those from the last key that is
    not above [k] on. *)
Definition sorted_kvs (M : gmap bytes bytes) : kvs :=
  foldr (fun kv l => kv_insert kv.1 kv.2 l) [] (map_to_list M).

Fixpoint from_le (l : kvs) (k : bytes) : nat :=
  match l with
  | _ :: ((k', _) :: _) as l' => if cmp k' k <=? 0 then Datatypes.S (from_le l' k) else 0
  | _ => 0
  end.

#[global] Instance map_storage : Storage mapStore := {|
  st_Get s k := Ok (map_kvs s !! k);
  st_Set s k v := Ok (None, mkMap (<[k := v]> (map_kvs s)));
  st_Del s k := Ok (bool_decide (is_Some (map_kvs s !! k)), None, mkMap (delete k (map_kvs s)));
  st_iter := kvs;
  st_Seek s k := let l := sorted_kvs (map_kvs s) in Ok (drop (from_le l k) l);
  st_Valid it := Ok (negb (bool_decide (it = [])));
  st_Key it := if it is (k, _) :: _ then Ok k else Panic;
  st_Val it := if it is (_, v) :: _ then Ok v else Panic;
  st_Next s it := if it is _ :: it then Ok it else Panic;
  st_TreeRoot s := 0;
  st_PageRead s p := Panic;
  st_Close s := (None, s);
|}.

#[global] Instance map_storage_ok : StorageOK mapStore.
Proof.
  refine {| st_rep n s M := map_kvs s = M; st_fits k v := True |}.
  - done.
  - by intros n s M k <-.
  - intros n s M k v <- _. eexists. split; [done|done].
  - intros n s M k <-. eexists. split; [done|done].
Defined.

Lemma sorted_kvs_spec M : kv_sorted (sorted_kvs M) /\ kv_map (sorted_kvs M) = M.
Proof.
  unfold sorted_kvs. rewrite <-(list_to_map_to_list M) at 3. pose proof (NoDup_fst_map_to_list M) as Hnd.
  induction (map_to_list M) as [|[k v] l IH]; simpl; [split; [constructor|done]|].
  apply NoDup_cons in Hnd as [_ Hnd]. destruct (IH Hnd) as [H1 H2].
  split; [by apply kv_insert_sorted|]. by rewrite kv_map_insert, H2.
Qed.

Lemma from_le_spec l k : kv_sorted l -> l <> [] -> is_le (fst <$> l) k (from_le l k).
Proof.
  induction l as [|[k0 v0] l IH]; [done|]. intros Hs _. destruct l as [|[k1 v1] l].
  - split; [by left|]. intros [|j] kj Hj Hk; [simpl in *; lia|done].
  - apply kv_sorted_cons in Hs as [Hs _]. change (from_le _ k) with
      (if cmp k1 k <=? 0 then Datatypes.S (from_le ((k1, v1) :: l) k) else 0%nat).
    destruct (Z.leb_spec (cmp k1 k) 0) as [Hle|Hgt].
    + destruct (IH Hs) as [H1 H2]; [done|]. split.
      * right. destruct H1 as [->|(k' & Hk' & ?)]; [by exists k1|]. by exists k'.
      * intros [|j] kj Hj Hk; [lia|]. apply (H2 j); [done|lia].
    + assert (key_lt k k1) as Hk1 by (unfold key_lt; rewrite cmp_antisym; lia).
      split; [by left|]. intros [|[|j]] kj Hj Hk; [lia|by injection Hj as <-|].
      apply kv_sorted_cons in Hs as [_ Hall]. cbn in Hj. apply list_lookup_fmap_Some in Hj as ([k2 v2] & -> & Hj).
      apply list_elem_of_lookup_2 in Hj. unfold all_gt in Hall. rewrite Forall_forall in Hall.
      apply Hall in Hj. by eapply key_lt_trans.
Qed.

#[global] Instance map_scan_ok : ScanOK mapStore.
Proof.
  refine {| st_at s l it := (it : kvs) = l |}.
  - intros n s M k <-. destruct (sorted_kvs_spec (map_kvs s)) as [H1 H2].
    eexists (sorted_kvs (map_kvs s)), (from_le (sorted_kvs (map_kvs s)) k), _.
    split; [done|]. split; [done|]. split; [|by split]. intros Hne. by apply from_le_spec.
  - by intros s it ->.
  - intros s k v l it ->. split; [done|]. split; [done|]. split; [done|]. by exists l.
Defined.
