(* ===== verification/Tx.v ===== *)
(** Transactions: src/internal/transaction/tx.go.

    [Begin], [Commit] and [Abort] run under the manager's mutex and are atomic
    steps; the reads and writes of a transaction only touch its own record and
    read the live storage. The storage is any implementation of [Storage]. *)
From S2P Require Import Prelude Keys Iter KV Storage.
#[local] Open Scope Z_scope.

(** * The code *)

Definition ReadCommitted : Z := 1.
Definition SnapshotIsolation : Z := 2.
Definition Serializable : Z := 3.

(** An empty [Stop] means that the range has no end. *)
Record KeyRange := mkRange { Start : bytes; Stop : bytes }.

Record CommittedTX := mkCommitted { ct_version : Z; ct_writes : list KeyRange }.

(** [pending] maps a key to its new value, [None] for a deletion. *)
Record Tx := mkTx {
  tx_version : Z; isolation : Z; pending : gmap bytes (option bytes); reads : list KeyRange;
  snapshot_root : Z; committed : bool; aborted : bool }.

Inductive tx_error :=
| ErrFinished | ErrConflict | ErrCommitDel (e : kv_error) | ErrCommitSet (e : kv_error).

(** The ranges overlap: both ends are checked unless they are open. *)
Definition keyRangeOverlap (a b : KeyRange) : bool :=
  if (0 <? len (Stop b)) && (0 <? CompareKeys (Start a) (Stop b)) then false
  else if (0 <? len (Stop a)) && (0 <? CompareKeys (Start b) (Stop a)) then false
  else true.

Definition rangesOverlap (rs ws : list KeyRange) : bool :=
  existsb (fun r => existsb (keyRangeOverlap r) ws) rs.

Definition versionBefore (a b : Z) : bool := a <? b.

(** The loop of [detectConflicts], over the history from its end. *)
Fixpoint detect_loop (tx : Tx) (l : list CommittedTX) : bool :=
  match l with
  | [] => false
  | h :: l =>
      if negb (versionBefore (tx_version tx) (ct_version h)) then false
      else if rangesOverlap (reads tx) (ct_writes h) then true
      else detect_loop tx l
  end.

Section code.
Context {S : Type} `{Storage S}.

Record Manager := mkMgr {
  m_kv : S; m_version : Z; ongoing : gset Z; history : list CommittedTX; minVer : Z }.

Definition NewManager (kv : S) : Manager := mkMgr kv 0 ∅ [] 0.

Definition Begin (m : Manager) (iso : Z) : Tx * Manager :=
  let ver := u64 (m_version m + 1) in
  (mkTx ver iso ∅ [] (st_TreeRoot (m_kv m)) false false,
   mkMgr (m_kv m) ver ({[ver]} ∪ ongoing m) (history m) (minVer m)).

Definition detectConflicts (m : Manager) (tx : Tx) : bool := detect_loop tx (rev (history m)).

Definition updateMinVer (m : Manager) : Manager :=
  mkMgr (m_kv m) (m_version m) (ongoing m) (history m)
    (foldr Z.min (m_version m) (elements (ongoing m))).

(** The index [cut] of [trimHistory]: the first entry that is not below [minVer]. *)
Fixpoint first_from (l : list CommittedTX) (v : Z) (i : nat) : nat :=
  match l with
  | [] => 0
  | h :: l => if v <=? ct_version h then i else first_from l v (Datatypes.S i)
  end.

Definition trimHistory (m : Manager) : Manager :=
  mkMgr (m_kv m) (m_version m) (ongoing m) (drop (first_from (history m) (minVer m) 0) (history m))
    (minVer m).

Definition finish (m : Manager) (tx : Tx) : Manager :=
  mkMgr (m_kv m) (m_version m) (ongoing m ∖ {[tx_version tx]}) (history m) (minVer m).

Definition set_aborted (tx : Tx) : Tx :=
  mkTx (tx_version tx) (isolation tx) (pending tx) (reads tx) (snapshot_root tx) (committed tx) true.
Definition set_committed (tx : Tx) : Tx :=
  mkTx (tx_version tx) (isolation tx) (pending tx) (reads tx) (snapshot_root tx) true (aborted tx).

(** The loop that writes the pending pairs, in the order of the list: the Go
    order over the map is not specified. *)
Fixpoint apply_pending (kv : S) (l : list (bytes * option bytes)) : res (option tx_error * S) :=
  match l with
  | [] => Ok (None, kv)
  | (k, None) :: l =>
      '(_, err, kv) ← st_Del kv k;
      match err with Some e => Ok (Some (ErrCommitDel e), kv) | None => apply_pending kv l end
  | (k, Some v) :: l =>
      '(err, kv) ← st_Set kv k v;
      match err with Some e => Ok (Some (ErrCommitSet e), kv) | None => apply_pending kv l end
  end.

Definition Commit (m : Manager) (tx : Tx) : res (option tx_error * Tx * Manager) :=
  if committed tx || aborted tx then Ok (Some ErrFinished, tx, m)
  else if (Serializable <=? isolation tx) && detectConflicts m tx then
    Ok (Some ErrConflict, set_aborted tx, finish m tx)
  else if bool_decide (pending tx = ∅) then
    Ok (None, set_committed tx, updateMinVer (finish m tx))
  else
    let ws := (fun kv => mkRange kv.1 kv.1) <$> map_to_list (pending tx) in
    let hist := history m ++ [mkCommitted (tx_version tx) ws] in
    '(err, kv) ← apply_pending (m_kv m) (map_to_list (pending tx));
    let m := mkMgr kv (m_version m) (ongoing m) hist (minVer m) in
    match err with
    | Some e => Ok (Some e, tx, m)
    | None => Ok (None, set_committed tx, trimHistory (updateMinVer (finish m tx)))
    end.

Definition Abort (m : Manager) (tx : Tx) : Tx * Manager :=
  if committed tx || aborted tx then (tx, m)
  else (set_aborted tx, updateMinVer (finish m tx)).

Definition add_read (tx : Tx) (r : KeyRange) : Tx :=
  mkTx (tx_version tx) (isolation tx) (pending tx) (reads tx ++ [r]) (snapshot_root tx)
    (committed tx) (aborted tx).
Definition set_pending (tx : Tx) (p : gmap bytes (option bytes)) : Tx :=
  mkTx (tx_version tx) (isolation tx) p (reads tx) (snapshot_root tx) (committed tx) (aborted tx).

Definition Tx_Get (kv : S) (tx : Tx) (key : bytes) : res (option bytes * Tx) :=
  let tx := add_read tx (mkRange key key) in
  match pending tx !! key with
  | Some val => Ok (val, tx)
  | None => v ← st_Get kv key; Ok (v, tx)
  end.

(** [val] is [None] for a nil slice, which deletes. *)
Definition Tx_Set (tx : Tx) (key : bytes) (val : option bytes) : Tx :=
  set_pending tx (<[key := val]> (pending tx)).

Definition Tx_Del (tx : Tx) (key : bytes) : Tx := set_pending tx (<[key := None]> (pending tx)).

Definition Tx_Seek (kv : S) (tx : Tx) (key : bytes) : res (st_iter * Tx) :=
  it ← st_Seek kv key; Ok (it, add_read tx (mkRange key [])).

End code.
Arguments Manager _ : clear implicits.

(** * Ranges *)

Definition in_range (r : KeyRange) (k : bytes) : Prop :=
  key_le (Start r) k /\ (Stop r = [] \/ key_le k (Stop r)).

(** Ranges as the code builds them: a single key, or from a key on. *)
Definition range_ok (r : KeyRange) : Prop := Stop r = [] \/ key_le (Start r) (Stop r).

Lemma Stop_empty (r : KeyRange) : (0 <? len (Stop r)) = negb (bool_decide (Stop r = [])).
Proof.
  destruct (Stop r) as [|x l]; [done|]. rewrite len_cons. pose proof (len_nonneg l).
  rewrite (proj2 (Z.ltb_lt _ _)) by lia. done.
Qed.

Lemma key_le_total a b : key_le a b \/ key_le b a.
Proof. unfold key_le. rewrite (cmp_antisym a b). lia. Qed.

Lemma key_le_trans a b c : key_le a b -> key_le b c -> key_le a c.
Proof.
  intros [H| ->]%key_le_lt_eq H2; [|done]. apply key_le_lt_eq. left. by eapply key_lt_le_trans.
Qed.

Lemma key_le_refl a : key_le a a.
Proof. unfold key_le. rewrite cmp_refl. lia. Qed.

Lemma overlap_bounds a b : keyRangeOverlap a b = true <->
  (Stop b = [] \/ key_le (Start a) (Stop b)) /\ (Stop a = [] \/ key_le (Start b) (Stop a)).
Proof.
  unfold keyRangeOverlap, CompareKeys, key_le. rewrite !Stop_empty.
  destruct (Z.ltb_spec 0 (cmp (Start a) (Stop b))), (Z.ltb_spec 0 (cmp (Start b) (Stop a)));
    repeat case_bool_decide; simpl; split; intuition (try done; try lia).
Qed.

Lemma keyRangeOverlap_spec a b : range_ok a -> range_ok b ->
  keyRangeOverlap a b = true <-> exists k, in_range a k /\ in_range b k.
Proof.
  intros Ha Hb. rewrite overlap_bounds. unfold in_range, range_ok in *. split.
  - intros [H1 H2]. destruct (key_le_total (Start a) (Start b)) as [H|H].
    + exists (Start b). split; [done|]. split; [apply key_le_refl|done].
    + exists (Start a). split; [|done]. split; [apply key_le_refl|done].
  - intros (k & (A1 & A2) & (B1 & B2)). split.
    + destruct B2 as [?|B2]; [by left|right]. by eapply key_le_trans.
    + destruct A2 as [?|A2]; [by left|right]. by eapply key_le_trans.
Qed.

Lemma rangesOverlap_true rs ws : rangesOverlap rs ws = true <->
  exists r w, r ∈ rs /\ w ∈ ws /\ keyRangeOverlap r w = true.
Proof.
  unfold rangesOverlap. rewrite existsb_exists. setoid_rewrite existsb_exists. split.
  - intros (r & Hr%list_elem_of_In & w & Hw%list_elem_of_In & E). eauto.
  - intros (r & w & Hr & Hw & E). exists r. split; [by apply list_elem_of_In|].
    exists w. split; [by apply list_elem_of_In|done].
Qed.

(** * Conflicts *)

Lemma StronglySorted_rev {A} (R : A -> A -> Prop) l :
  StronglySorted R l -> StronglySorted (flip R) (rev l).
Proof.
  induction 1 as [|a l Hs IH Ha]; [constructor|]. simpl. apply StronglySorted_app_2.
  - intros x y Hx%list_elem_of_In%in_rev%list_elem_of_In ->%list_elem_of_singleton.
    rewrite Forall_forall in Ha. by apply Ha.
  - done.
  - by repeat constructor.
Qed.

(** A committed transaction that began after [tx] wrote a key [tx] has read. *)
Definition conflicts (tx : Tx) (h : CommittedTX) : Prop :=
  tx_version tx < ct_version h /\ exists r w k, r ∈ reads tx /\ w ∈ ct_writes h /\ in_range r k /\ in_range w k.

Lemma detect_loop_sound tx l : Forall range_ok (reads tx) -> Forall (fun h => Forall range_ok (ct_writes h)) l ->
  detect_loop tx l = true -> exists h, h ∈ l /\ conflicts tx h.
Proof.
  intros Hr. induction 1 as [|h l Hh Hl IH]; [done|]. cbn [detect_loop]. unfold versionBefore.
  destruct (Z.ltb_spec (tx_version tx) (ct_version h)) as [Hv|Hv]; [simpl|done].
  destruct (rangesOverlap (reads tx) (ct_writes h)) eqn:E.
  - intros _. apply rangesOverlap_true in E as (r & w & Hir & Hiw & E).
    rewrite Forall_forall in Hr, Hh. apply keyRangeOverlap_spec in E as (k & Hk1 & Hk2); [|auto..].
    exists h. split; [left|]. split; [done|]. by exists r, w, k.
  - intros Ht. destruct (IH Ht) as (h' & Hin & Hc). exists h'. split; [by right|done].
Qed.

Lemma detect_loop_complete tx l : Forall range_ok (reads tx) -> Forall (fun h => Forall range_ok (ct_writes h)) l ->
  StronglySorted (fun a b => ct_version b <= ct_version a) l ->
  (exists h, h ∈ l /\ conflicts tx h) -> detect_loop tx l = true.
Proof.
  intros Hr Hl Hs. induction Hs as [|h l Hs IH Hh]; [intros (h & Hin & _); set_solver|].
  apply Forall_cons in Hl as [Hw Hl]. intros (h' & Hin & Hv & r & w & k & Hir & Hiw & Hk1 & Hk2).
  cbn [detect_loop]. unfold versionBefore.
  assert (tx_version tx < ct_version h) as Hvh.
  { apply elem_of_cons in Hin as [->|Hin]; [done|]. rewrite Forall_forall in Hh. apply Hh in Hin. lia. }
  rewrite (proj2 (Z.ltb_lt _ _)) by done. simpl.
  destruct (rangesOverlap (reads tx) (ct_writes h)) eqn:E; [done|].
  apply IH; [done|]. apply elem_of_cons in Hin as [->|Hin].
  - exfalso. apply not_true_iff_false in E. apply E, rangesOverlap_true. exists r, w.
    split_and!; try done. rewrite Forall_forall in Hr, Hw. apply keyRangeOverlap_spec; [auto..|]. by exists k.
  - exists h'. split; [done|]. split; [done|]. by exists r, w, k.
Qed.

(** * Committing *)

Section proofs.
Context {S : Type} `{StorageOK S}.
Implicit Types (m : Manager S) (tx : Tx).

(** The map after the pending pairs have been written. *)
Definition overlay (P : gmap bytes (option bytes)) (M : gmap bytes bytes) (k : bytes) : option bytes :=
  match P !! k with Some v => v | None => M !! k end.

(** The pairs that a transaction writes are ones the storage takes. *)
Definition writes_fit (P : gmap bytes (option bytes)) : Prop :=
  forall k v, P !! k = Some (Some v) -> st_fits k v.

Lemma apply_pending_ok n l : forall kv M, st_rep (n + length l) kv M -> NoDup l.*1 ->
  (forall k v, (k, Some v) ∈ l -> st_fits k v) ->
  exists kv' M', apply_pending kv l = Ok (None, kv') /\ st_rep n kv' M' /\
    forall k, M' !! k = overlay (list_to_map l) M k.
Proof.
  unfold overlay. induction l as [|[k v] l IH]; intros kv M Hr Hnd Hfit; cbn [length] in Hr;
    rewrite ?Nat.add_0_r, ?Nat.add_succ_r in Hr.
  - exists kv, M. split_and!; try done.
  - apply NoDup_cons in Hnd as [Hk Hnd]. simpl in Hk.
    assert (forall k v, (k, Some v) ∈ l -> st_fits k v) as Hfit' by (intros; apply Hfit; by right).
    destruct v as [v|]; cbn [apply_pending].
    + destruct (st_Set_ok _ kv M k v Hr (Hfit k v ltac:(left))) as (kv1 & -> & Hr1). rewrite bind_ok. cbv beta iota.
      destruct (IH kv1 _ Hr1 Hnd Hfit') as (kv2 & M2 & -> & Hr2 & HM). exists kv2, M2. split_and!; try done.
      intros k'. rewrite HM. simpl. destruct (decide (k' = k)) as [->|Hne].
      * rewrite lookup_insert_eq, (not_elem_of_list_to_map_1 _ _ Hk). by rewrite lookup_insert_eq.
      * rewrite !lookup_insert_ne by done. done.
    + destruct (st_Del_ok _ kv M k Hr) as (kv1 & -> & Hr1). rewrite bind_ok. cbv beta iota.
      destruct (IH kv1 _ Hr1 Hnd Hfit') as (kv2 & M2 & -> & Hr2 & HM). exists kv2, M2. split_and!; try done.
      intros k'. rewrite HM. simpl. destruct (decide (k' = k)) as [->|Hne].
      * rewrite lookup_insert_eq, (not_elem_of_list_to_map_1 _ _ Hk). by rewrite lookup_delete_eq.
      * rewrite lookup_insert_ne, lookup_delete_ne by done. done.
Qed.

(** C26: committing an unfinished transaction that has no conflict succeeds over
    any storage that keeps its contract and takes the pairs that are written: the storage then holds every pending
    write and deletion and is unchanged elsewhere, the transaction is finished,
    and its own reads before the commit already saw exactly that state. *)
Theorem Commit_applies n m tx M :
  st_rep (n + size (pending tx)) (m_kv m) M -> writes_fit (pending tx) -> committed tx = false -> aborted tx = false ->
  (Serializable <= isolation tx -> detectConflicts m tx = false) ->
  exists tx' m' M', Commit m tx = Ok (None, tx', m') /\ committed tx' = true /\
    (tx_version tx ∉ ongoing m') /\ st_rep n (m_kv m') M' /\
    forall k, M' !! k = overlay (pending tx) M k /\
      exists tx'', Tx_Get (m_kv m) tx k = Ok (M' !! k, tx'').
Proof.
  intros Hr Hfit Hc Ha Hd. unfold Commit. rewrite Hc, Ha. simpl.
  assert ((Serializable <=? isolation tx) && detectConflicts m tx = false) as ->.
  { destruct (Z.leb_spec Serializable (isolation tx)); [|done]. simpl. auto. }
  assert (forall M' : gmap bytes bytes, (forall k, M' !! k = overlay (pending tx) M k) ->
    forall k, M' !! k = overlay (pending tx) M k /\ exists tx'', Tx_Get (m_kv m) tx k = Ok (M' !! k, tx'')) as Hget.
  { intros M' HM' k. split; [done|]. rewrite HM'. unfold Tx_Get, overlay. cbn [pending add_read].
    destruct (pending tx !! k); [by eexists|]. rewrite (st_Get_ok _ _ M _ Hr). rewrite bind_ok. by eexists. }
  case_bool_decide as Hp.
  - eexists _, _, M. split; [done|]. split_and!; [done|simpl; set_solver|eapply st_rep_le; [|exact Hr]; lia|].
    apply Hget. intros k. unfold overlay. by rewrite Hp, lookup_empty.
  - destruct (apply_pending_ok n (map_to_list (pending tx)) (m_kv m) M) as (kv' & M' & -> & Hr' & HM').
    { by rewrite length_map_to_list. }
    { apply NoDup_fst_map_to_list. }
    { intros k v Hk%elem_of_map_to_list. by apply Hfit. }
    rewrite bind_ok. cbv beta iota zeta. eexists _, _, M'. split; [done|].
    split_and!; [done|simpl; set_solver|done|]. apply Hget.
    intros k. by rewrite HM', list_to_map_to_list.
Qed.

(** * History *)

Lemma min_ongoing_le (l : list Z) d : foldr Z.min d l <= d /\ forall v, v ∈ l -> foldr Z.min d l <= v.
Proof.
  induction l as [|x l [IH1 IH2]]; simpl; [split; [lia|set_solver]|].
  split; [lia|]. intros v [->|Hv]%elem_of_cons; [lia|]. specialize (IH2 v Hv). lia.
Qed.

Lemma first_from_keeps l v : forall i, exists j, first_from l v i = 0%nat \/
  (first_from l v i = (i + j)%nat /\ Forall (fun h => ct_version h < v) (take j l)).
Proof.
  induction l as [|h l IH]; intros i; cbn [first_from]; [by exists 0%nat; left|].
  destruct (Z.leb_spec v (ct_version h)) as [Hle|Hgt].
  - exists 0%nat. right. split; [lia|constructor].
  - destruct (IH (Datatypes.S i)) as (j & [?|[E Hj]]); [exists 0%nat; by left|].
    exists (Datatypes.S j). right. split; [lia|]. simpl. by constructor.
Qed.

Lemma Commit_committed m tx tx' m' : Commit m tx = Ok (None, tx', m') -> committed tx' = true.
Proof.
  unfold Commit. destruct (_ || _); [done|]. destruct (_ && _); [done|].
  case_bool_decide; [by intros [= <- _]|]. intros ([[e|] kv] & _ & E)%bind_ok_inv; [done|].
  cbv beta iota in E. by injection E as <- _.
Qed.

(** The entry that a commit adds to the history. *)
Definition committed_entry (tx : Tx) : CommittedTX :=
  mkCommitted (tx_version tx) ((fun kv => mkRange kv.1 kv.1) <$> map_to_list (pending tx)).

Lemma trimHistory_cut m : exists d, history m = d ++ history (trimHistory m) /\
  Forall (fun h => ct_version h < minVer m) d.
Proof.
  cbn [history trimHistory]. destruct (first_from_keeps (history m) (minVer m) 0) as (j & [->|[-> Hj]]).
  - exists []. split; [done|constructor].
  - exists (take j (history m)). split; [|done]. symmetry. apply take_drop.
Qed.

(** C28: the history after a commit. A commit without writes leaves it as it is. A
    commit with writes adds the entry of the transaction at the end and then
    drops some entries from the front (its own may be among them); every dropped
    one is older than every transaction still in progress, so none of them can
    conflict with it, and all other entries stay, in order. *)
Theorem Commit_keeps_history m tx m' tx' : Commit m tx = Ok (None, tx', m') ->
  (pending tx = ∅ -> history m' = history m) /\
  (pending tx <> ∅ -> exists dropped, history m ++ [committed_entry tx] = dropped ++ history m' /\
     Forall (fun h => forall t, tx_version t ∈ ongoing m' -> ct_version h < tx_version t /\ ~ conflicts t h) dropped).
Proof.
  unfold Commit. destruct (_ || _); [done|]. destruct (_ && _); [done|].
  case_bool_decide as Hp; [by intros [= _ <-]|].
  intros ([err kv] & _ & E)%bind_ok_inv. cbv beta iota in E. destruct err; [done|]. injection E as _ <-.
  split; [done|]. intros _. set (m1 := updateMinVer _). destruct (trimHistory_cut m1) as (d & Hd & Hlt).
  exists d. split; [exact Hd|]. eapply Forall_impl; [exact Hlt|]. intros h Hh t Ht.
  destruct (min_ongoing_le (elements (ongoing m1)) (m_version m1)) as [_ Hmin].
  specialize (Hmin (tx_version t)). rewrite elem_of_elements in Hmin. specialize (Hmin Ht).
  assert (minVer m1 <= tx_version t) as Hle by exact Hmin. cbv beta in Hh. split; [lia|]. unfold conflicts. intros [Hc _]. lia.
Qed.

(** C27: under [Serializable], when the history is in the order of the versions,
    the check finds a conflict exactly when a transaction that began later has
    committed a write to a key in one of the read ranges. *)
Theorem detectConflicts_correct m tx :
  Forall range_ok (reads tx) -> Forall (fun h => Forall range_ok (ct_writes h)) (history m) ->
  StronglySorted (fun a b => ct_version a <= ct_version b) (history m) ->
  detectConflicts m tx = true <-> exists h, h ∈ history m /\ conflicts tx h.
Proof.
  intros Hr Hw Hs. unfold detectConflicts.
  assert (Forall (fun h => Forall range_ok (ct_writes h)) (rev (history m))) as Hw' by (by apply Forall_rev).
  assert (forall h, h ∈ rev (history m) <-> h ∈ history m) as Hin.
  { intros h. by rewrite !list_elem_of_In, <-in_rev. }
  split.
  - intros (h & Hh%Hin & Hc)%detect_loop_sound; try done. eauto.
  - intros (h & Hh & Hc). apply detect_loop_complete; try done; [|exists h; by rewrite Hin].
    by apply StronglySorted_rev in Hs.
Qed.

(** * The manager as a state machine *)

(** The manager with the transactions it has handed out, in the order of the calls
    of [Begin]. A step is one call; the calls of different transactions interleave
    freely. The counter of the versions has 64 bits: a step does not begin a
    transaction when it would wrap around. *)
Definition sys : Type := Manager S * list Tx.

Inductive tx_step : sys -> sys -> Prop :=
| step_Begin m T iso tx m' :
    m_version m < 2 ^ 64 - 1 -> Begin m iso = (tx, m') -> tx_step (m, T) (m', T ++ [tx])
| step_Commit m T v tx err tx' m' :
    T !! v = Some tx -> Commit m tx = Ok (err, tx', m') -> tx_step (m, T) (m', <[v := tx']> T)
| step_Abort m T v tx tx' m' :
    T !! v = Some tx -> Abort m tx = (tx', m') -> tx_step (m, T) (m', <[v := tx']> T)
| step_Get m T v tx k r tx' :
    T !! v = Some tx -> Tx_Get (m_kv m) tx k = Ok (r, tx') -> tx_step (m, T) (m, <[v := tx']> T)
| step_Set m T v tx k x :
    T !! v = Some tx -> tx_step (m, T) (m, <[v := Tx_Set tx k x]> T)
| step_Del m T v tx k :
    T !! v = Some tx -> tx_step (m, T) (m, <[v := Tx_Del tx k]> T)
| step_Seek m T v tx k it tx' :
    T !! v = Some tx -> Tx_Seek (m_kv m) tx k = Ok (it, tx') -> tx_step (m, T) (m, <[v := tx']> T).

Definition unfinished (tx : Tx) : Prop := committed tx = false /\ aborted tx = false.

(** The ranges a commit records: one key each. *)
Definition point_writes (h : CommittedTX) : Prop :=
  ct_writes h <> [] /\ Forall (fun w => Start w = Stop w) (ct_writes h).

Record mgr_inv (m : Manager S) (T : list Tx) : Prop := {
  inv_version : forall i tx, T !! i = Some tx -> tx_version tx = Z.of_nat i + 1;
  inv_count : m_version m = len T /\ len T < 2 ^ 64;
  inv_ongoing : forall v, v ∈ ongoing m <-> exists tx, tx ∈ T /\ tx_version tx = v /\ unfinished tx;
  inv_once : forall tx, tx ∈ T -> committed tx && aborted tx = false;
  inv_min : 0 <= minVer m <= m_version m /\ forall v, v ∈ ongoing m -> minVer m <= v;
  inv_history : forall h, h ∈ history m -> 0 < ct_version h <= m_version m /\ point_writes h }.

Lemma inv_bound m T i tx : mgr_inv m T -> T !! i = Some tx -> 0 < tx_version tx <= m_version m.
Proof.
  intros HI Hi. pose proof (lookup_lt_Some _ _ _ Hi). destruct (inv_count _ _ HI) as [-> _].
  rewrite (inv_version _ _ HI _ _ Hi). unfold len. lia.
Qed.

Lemma minVer_updated m T : mgr_inv m T -> forall ms : gset Z, ms ⊆ ongoing m ->
  let v := foldr Z.min (m_version m) (elements ms) in
  0 <= v <= m_version m /\ forall w, w ∈ ms -> v <= w.
Proof.
  intros HI ms Hms v. destruct (min_ongoing_le (elements ms) (m_version m)) as [H1 H2].
  assert (0 <= v).
  { assert (forall l : list Z, 0 <= m_version m -> Forall (fun x => 0 <= x) l ->
      0 <= foldr Z.min (m_version m) l) as Hf.
    { intros l Hd. induction 1; simpl; lia. }
    apply Hf; [destruct (inv_count _ _ HI) as [-> _]; apply len_nonneg|].
    apply Forall_forall. intros x Hx%elem_of_elements%Hms.
    apply (inv_ongoing _ _ HI) in Hx as (tx & [i Hi]%list_elem_of_lookup & <- & _).
    apply (inv_bound _ _ _ _ HI) in Hi. lia. }
  split; [subst v; lia|]. intros w Hw. apply H2. by apply elem_of_elements.
Qed.

(** The transactions once the [i]-th one has become [tx']. *)
Lemma elem_of_update (T : list Tx) i tx tx' t : T !! i = Some tx ->
  t ∈ <[i := tx']> T <-> t = tx' \/ exists j, j <> i /\ T !! j = Some t.
Proof.
  intros Hi. pose proof (lookup_lt_Some _ _ _ Hi) as Hl. rewrite list_elem_of_lookup. split.
  - intros [j Hj]. destruct (decide (j = i)) as [->|Hne].
    + rewrite list_lookup_insert_eq in Hj by done. injection Hj as <-. by left.
    + rewrite list_lookup_insert_ne in Hj by done. eauto.
  - intros [->|(j & Hne & Hj)]; [exists i; by apply list_lookup_insert_eq|].
    exists j. by rewrite list_lookup_insert_ne.
Qed.

Lemma update_version m T i tx tx' : mgr_inv m T -> T !! i = Some tx -> tx_version tx' = tx_version tx ->
  forall j t, <[i := tx']> T !! j = Some t -> tx_version t = Z.of_nat j + 1.
Proof.
  intros HI Hi E j t. destruct (decide (j = i)) as [->|Hne].
  - rewrite list_lookup_insert_eq by (by eapply lookup_lt_Some). intros [= <-]. rewrite E. by apply (inv_version _ _ HI).
  - rewrite list_lookup_insert_ne by done. apply HI.
Qed.

(** Replacing a transaction by one with the same version and state. *)
Lemma inv_same m T i tx tx' : mgr_inv m T -> T !! i = Some tx ->
  tx_version tx' = tx_version tx -> committed tx' = committed tx -> aborted tx' = aborted tx ->
  mgr_inv m (<[i := tx']> T).
Proof.
  intros HI Hi E1 E2 E3. pose proof (list_elem_of_lookup_2 _ _ _ Hi) as Hin. split; try apply HI.
  - by eapply update_version.
  - unfold len. rewrite length_insert. apply HI.
  - intros v. rewrite (inv_ongoing _ _ HI v). unfold unfinished. setoid_rewrite (elem_of_update T i tx tx'); [|done].
    split.
    + intros (t & [j Hj]%list_elem_of_lookup & Hv & Hu). destruct (decide (j = i)) as [->|Hne]; [|eauto 8].
      exists tx'. assert (t = tx) as -> by congruence. rewrite E1, E2, E3. auto.
    + intros (t & [->|(j & _ & Hj%list_elem_of_lookup_2)] & Hv & Hu); [|by eauto].
      exists tx. rewrite E1, E2, E3 in *. auto.
  - intros t [->|(j & _ & Hj%list_elem_of_lookup_2)]%(elem_of_update T i tx); [|by apply HI|done].
    rewrite E2, E3. by apply (inv_once _ _ HI).
Qed.

(** Finishing a transaction, with a new history and lower bound. *)
Lemma inv_finish m T i tx tx' kv hist mv : mgr_inv m T -> T !! i = Some tx -> unfinished tx ->
  tx_version tx' = tx_version tx -> committed tx' <> aborted tx' ->
  (forall h, h ∈ hist -> 0 < ct_version h <= m_version m /\ point_writes h) ->
  (0 <= mv <= m_version m /\ forall w, w ∈ ongoing m ∖ {[tx_version tx]} -> mv <= w) ->
  mgr_inv (mkMgr kv (m_version m) (ongoing m ∖ {[tx_version tx]}) hist mv) (<[i := tx']> T).
Proof.
  intros HI Hi Hu E1 E2 Hh Hm. split; try done.
  - by eapply update_version.
  - unfold len. rewrite length_insert. apply HI.
  - intros v. cbn [ongoing]. rewrite elem_of_difference, elem_of_singleton, (inv_ongoing _ _ HI v).
    setoid_rewrite (elem_of_update T i tx tx'); [|done]. split.
    + intros [(t & [j Hj]%list_elem_of_lookup & <- & Ht) Hne]. exists t. split; [|done]. right. exists j. split; [|done].
      intros ->. assert (t = tx) as -> by congruence. done.
    + intros (t & [->|(j & Hne & Hj)] & <- & Hf); [destruct Hf as [Hc Ha]; congruence|].
      split; [exists t; split; [by eapply list_elem_of_lookup_2|done]|].
      rewrite (inv_version _ _ HI _ _ Hj), (inv_version _ _ HI _ _ Hi). lia.
  - intros t [->|(j & _ & Hj%list_elem_of_lookup_2)]%(elem_of_update T i tx); [|by apply (inv_once _ _ HI)|done].
    destruct (committed tx'), (aborted tx'); done.
Qed.

Lemma inv_Begin m T iso tx m' : mgr_inv m T -> m_version m < 2 ^ 64 - 1 -> Begin m iso = (tx, m') ->
  mgr_inv m' (T ++ [tx]).
Proof.
  intros HI Hv. unfold Begin. destruct (inv_count _ _ HI) as [Hm Hl]. pose proof (len_nonneg T).
  rewrite u64_id by lia. intros [= <- <-]. set (tx := mkTx _ _ _ _ _ _ _).
  split; cbn [m_version ongoing minVer history].
  - intros i t Hi. apply lookup_snoc_Some in Hi as [[_ Hi]|[-> <-]]; [by apply HI|]. unfold len in Hm. cbn. lia.
  - rewrite len_snoc. lia.
  - intros v. rewrite elem_of_union, elem_of_singleton, (inv_ongoing _ _ HI v). split.
    + intros [->|(t & Ht & Hu)]; [exists tx|exists t]; rewrite elem_of_app, list_elem_of_singleton; [|by auto].
      split; [by right|done].
    + intros (t & [Ht| ->%list_elem_of_singleton]%elem_of_app & Hu); [right; by exists t|left; symmetry; apply Hu].
  - intros t [Ht| ->%list_elem_of_singleton]%elem_of_app; [by apply HI|done].
  - destruct (inv_min _ _ HI) as [Hm1 Hm2]. split; [lia|].
    intros w [->%elem_of_singleton|Hw]%elem_of_union; [lia|auto].
  - intros h Hh. apply (inv_history _ _ HI) in Hh. split; [lia|apply Hh].
Qed.

Lemma committed_entry_points tx : pending tx <> ∅ -> point_writes (committed_entry tx).
Proof.
  intros Hp. split; simpl.
  - intros E%fmap_nil_inv. by apply map_to_list_empty_iff in E.
  - apply Forall_forall. intros w (kv & -> & _)%list_elem_of_fmap. done.
Qed.

Lemma inv_Commit m T i tx err tx' m' : mgr_inv m T -> T !! i = Some tx ->
  Commit m tx = Ok (err, tx', m') -> mgr_inv m' (<[i := tx']> T).
Proof.
  intros HI Hi. pose proof (inv_bound _ _ _ _ HI Hi) as Hle. unfold Commit.
  destruct (committed tx) eqn:Ec; [intros [= <- <- <-]; by rewrite list_insert_id|].
  destruct (aborted tx) eqn:Ea; [intros [= <- <- <-]; by rewrite list_insert_id|]. cbn [orb].
  assert (unfinished tx) as Hu by done.
  pose proof (minVer_updated m T HI (ongoing m ∖ {[tx_version tx]}) ltac:(set_solver)) as Hmin.
  destruct (_ && _); [|case_bool_decide as Hp].
  - intros [= <- <- <-]. apply (inv_finish m T _ tx); try done; [simpl; congruence|apply HI|].
    split; [apply HI|]. intros w [Hw _]%elem_of_difference. by apply HI.
  - intros [= <- <- <-]. apply (inv_finish m T _ tx); try done; [simpl; congruence|apply HI].
  - fold (committed_entry tx).
    assert (forall h, h ∈ history m ++ [committed_entry tx] -> 0 < ct_version h <= m_version m /\ point_writes h) as Hh.
    { intros h [Hh| ->%list_elem_of_singleton]%elem_of_app; [by apply HI|].
      split; [done|]. by apply committed_entry_points. }
    intros ([e kv] & _ & E)%bind_ok_inv. cbv beta iota in E. destruct e as [e|].
    + injection E as <- <- <-. rewrite list_insert_id by done. split; try apply HI. exact Hh.
    + injection E as <- <- <-. apply (inv_finish m T _ tx); try done; [simpl; congruence|].
      intros h Hin. apply Hh. cbn [history updateMinVer finish] in Hin.
      apply list_elem_of_lookup in Hin as [j Hj]. rewrite lookup_drop in Hj. by eapply list_elem_of_lookup_2.
Qed.

Lemma inv_Abort m T i tx tx' m' : mgr_inv m T -> T !! i = Some tx ->
  Abort m tx = (tx', m') -> mgr_inv m' (<[i := tx']> T).
Proof.
  intros HI Hi. unfold Abort.
  destruct (committed tx) eqn:Ec; [intros [= <- <-]; by rewrite list_insert_id|].
  destruct (aborted tx) eqn:Ea; [intros [= <- <-]; by rewrite list_insert_id|]. cbn [orb].
  intros [= <- <-]. apply (inv_finish m T _ tx); try done; [simpl; congruence|apply HI|].
  apply (minVer_updated m T HI). set_solver.
Qed.

Lemma step_inv s s' : tx_step s s' -> mgr_inv s.1 s.2 -> mgr_inv s'.1 s'.2.
Proof.
  destruct 1 as [m T iso tx m' Hv E|m T i tx err tx' m' Hv E|m T i tx tx' m' Hv E|m T i tx k r tx' Hv E
    |m T i tx k x Hv|m T i tx k Hv|m T i tx k it tx' Hv E]; cbn [fst snd]; intros HI.
  - by eapply inv_Begin.
  - by eapply inv_Commit.
  - by eapply inv_Abort.
  - apply (inv_same m T i tx); [done..| | |]; unfold Tx_Get in E;
      (destruct (pending _ !! k); [by injection E as <- <-|apply bind_ok_inv in E as (? & _ & [= <- <-]); done]).
  - by apply (inv_same m T i tx).
  - by apply (inv_same m T i tx).
  - unfold Tx_Seek in E. apply bind_ok_inv in E as (? & _ & [= <- <-]). by apply (inv_same m T i tx).
Qed.

Lemma init_inv kv : mgr_inv (NewManager kv) [].
Proof.
  split; simpl; try done; try (intros ? ?%elem_of_nil; done).
  - intros v. split; [set_solver|]. intros (tx & Hx & _). by apply elem_of_nil in Hx.
Qed.

(** C6: in every state that any interleaving of calls reaches from a new manager,
    as long as fewer than 2^64 transactions have been begun (the counter of the
    versions then does not wrap around): the versions are given out in increasing
    order, the i-th transaction that was begun has version i, so no two have the
    same; the ongoing set is exactly the set of the versions of the unfinished
    transactions; no transaction is both committed and aborted; [minVer] is a
    lower bound of the ongoing versions; and the history holds non-empty write
    sets of single keys. *)
Theorem manager_invariant kv m T : rtc tx_step (NewManager kv, []) (m, T) -> mgr_inv m T.
Proof.
  intros Hs. remember (NewManager kv, []) as s0 eqn:E0. remember (m, T) as s1 eqn:E1.
  assert (mgr_inv s1.1 s1.2) as HI; [|by rewrite E1 in HI]. clear E1.
  assert (forall x y, rtc tx_step x y -> mgr_inv x.1 x.2 -> mgr_inv y.1 y.2) as Hrun.
  { induction 1; [done|]. intros Hx. eauto using step_inv. }
  apply (Hrun s0); [done|]. subst s0. apply init_inv.
Qed.
End proofs.

(** * Runs over a map in memory *)

Definition store0 : mapStore := mkMap {[ [1] := [7] ]}.
Definition mgr0 : Manager mapStore := NewManager store0.

Lemma Commit_applies_witness : exists tx' m' M',
  Commit (Begin mgr0 Serializable).2 (Tx_Set (Begin mgr0 Serializable).1 [2] (Some [9])) = Ok (None, tx', m') /\
  committed tx' = true /\ (1 ∉ ongoing m') /\ st_rep 5 (m_kv m') M' /\
  forall k, M' !! k = overlay {[ [2] := Some [9] ]} {[ [1] := [7] ]} k /\
    exists tx'', Tx_Get (m_kv (Begin mgr0 Serializable).2) (Tx_Set (Begin mgr0 Serializable).1 [2] (Some [9])) k
      = Ok (M' !! k, tx'').
Proof.
  apply (Commit_applies 5 (Begin mgr0 Serializable).2 (Tx_Set (Begin mgr0 Serializable).1 [2] (Some [9]))
    {[ [1] := [7] ]}); [reflexivity|done|reflexivity..].
Defined.

(** Two transactions, the second commits a write while the first goes on. *)
Definition mgr2 : Manager mapStore := (Begin (Begin mgr0 Serializable).2 Serializable).2.
Definition tx1 : Tx := (Begin mgr0 Serializable).1.
Definition tx2 : Tx := Tx_Set (Begin (Begin mgr0 Serializable).2 Serializable).1 [1] (Some [8]).
Definition mgr3 : Manager mapStore :=
  mkMgr (mkMap {[ [1] := [8] ]}) 3 {[ 1; 3 ]} [mkCommitted 2 [mkRange [1] [1]]] 1.

(** Entries of the versions 1 and 5; the transactions 3 and 4 are in progress, and 3 commits. *)
Definition old_entry : CommittedTX := mkCommitted 1 [mkRange [6] [6]].
Definition new_entry : CommittedTX := mkCommitted 5 [mkRange [1] [1]].
Definition mgr5 : Manager mapStore := mkMgr store0 5 {[ 3; 4 ]} [old_entry; new_entry] 1.
Definition tx3 : Tx := mkTx 3 Serializable {[ [2] := Some [9] ]} [] 0 false false.
Definition mgr5' : Manager mapStore :=
  mkMgr (mkMap {[ [1] := [7]; [2] := [9] ]}) 5 {[ 4 ]} [new_entry; committed_entry tx3] 4.

Lemma Commit_keeps_history_witness : exists dropped,
  history mgr5 ++ [committed_entry tx3] = dropped ++ history mgr5' /\
  Forall (fun h => forall t, tx_version t ∈ ongoing mgr5' -> ct_version h < tx_version t /\ ~ conflicts t h) dropped.
Proof.
  apply (Commit_keeps_history mgr5 tx3 mgr5' (set_committed tx3)).
  - vm_compute. reflexivity.
  - discriminate.
Defined.

Lemma detectConflicts_correct_witness :
  detectConflicts mgr3 (add_read tx1 (mkRange [1] [1])) = true <->
  exists h, h ∈ history mgr3 /\ conflicts (add_read tx1 (mkRange [1] [1])) h.
Proof.
  apply detectConflicts_correct.
  - apply Forall_singleton. right. apply key_le_refl.
  - apply Forall_singleton, Forall_singleton. right. apply key_le_refl.
  - repeat constructor.
Defined.

(** Two transactions begin, the second writes and commits. *)
Definition mgr2' : Manager mapStore := mkMgr (mkMap {[ [1] := [8] ]}) 2 {[ 1 ]} [committed_entry tx2] 1.

Lemma manager_invariant_witness : mgr_inv mgr2' [tx1; set_committed tx2].
Proof.
  apply (manager_invariant store0). eapply rtc_l; [|eapply rtc_l; [|eapply rtc_l; [|apply rtc_once]]].
  - by apply (step_Begin mgr0 [] Serializable tx1 (Begin mgr0 Serializable).2).
  - exact (step_Begin (Begin mgr0 Serializable).2 [tx1] Serializable
      (Begin (Begin mgr0 Serializable).2 Serializable).1 mgr2 eq_refl eq_refl).
  - exact (step_Set mgr2 [tx1; (Begin (Begin mgr0 Serializable).2 Serializable).1] 1
      (Begin (Begin mgr0 Serializable).2 Serializable).1 [1] (Some [8]) eq_refl).
  - apply (step_Commit mgr2 [tx1; tx2] 1 tx2 None (set_committed tx2) mgr2'); [reflexivity|].
    vm_compute. reflexivity.
Defined.

(** A transaction that adds one to the byte under key [1]: the read and the
    write; the commit is separate. *)
Definition incr (m : Manager mapStore) (tx : Tx) : res Tx :=
  '(v, tx) ← Tx_Get (m_kv m) tx [1];
  Ok (Tx_Set tx [1] (Some (match v with Some (b :: _) => [b + 1] | _ => [1] end))).

(** Both transactions read, then both commit. *)
Definition run_interleaved (m : Manager mapStore) (iso : Z) :
  res (option tx_error * option tx_error * option bytes) :=
  let '(t1, m) := Begin m iso in
  let '(t2, m) := Begin m iso in
  t1 ← incr m t1; t2 ← incr m t2;
  '(e1, t1, m) ← Commit m t1; '(e2, t2, m) ← Commit m t2;
  Ok (e1, e2, map_kvs (m_kv m) !! ([1] : bytes)).

(** The second transaction begins after the first has committed. *)
Definition run_serial (m : Manager mapStore) (iso : Z) :
  res (option tx_error * option tx_error * option bytes) :=
  let '(t1, m) := Begin m iso in
  t1 ← incr m t1; '(e1, t1, m) ← Commit m t1;
  let '(t2, m) := Begin m iso in
  t2 ← incr m t2; '(e2, t2, m) ← Commit m t2;
  Ok (e1, e2, map_kvs (m_kv m) !! ([1] : bytes)).

(** An update is lost under [Serializable]. Two transactions that each
    increment a counter both commit without an error, and the counter grows by
    one; run one after the other, it grows by two. The history records the
    version at which a transaction began, so a transaction that began earlier
    and committed in between is not seen as a conflict. *)
Theorem serializable_lost_update :
  run_interleaved mgr0 Serializable = Ok (None, None, Some [8]) /\
  run_serial mgr0 Serializable = Ok (None, None, Some [9]).
Proof. split; vm_compute; reflexivity. Qed.

(** The same key read twice, around a commit of another transaction. *)
Definition run_reread (m : Manager mapStore) (iso : Z) :
  res (option bytes * option bytes * option tx_error) :=
  let '(t1, m) := Begin m iso in
  '(v1, t1) ← Tx_Get (m_kv m) t1 [1];
  let '(t2, m) := Begin m iso in
  '(_, _, m) ← Commit m (Tx_Set t2 [1] (Some [8]));
  '(v2, t1) ← Tx_Get (m_kv m) t1 [1];
  '(e, _, m) ← Commit m t1;
  Ok (v1, v2, e).

(** Reads under [SnapshotIsolation] are not repeatable: the snapshot taken
    by [Begin] is never read, so the second read of a key sees a value that
    another transaction committed in between, and the commit reports nothing.
    Under [Serializable] the same run fails at the commit. *)
Theorem snapshot_not_repeatable :
  run_reread mgr0 SnapshotIsolation = Ok (Some [7], Some [8], None) /\
  run_reread mgr0 Serializable = Ok (Some [7], Some [8], Some ErrConflict).
Proof. split; vm_compute; reflexivity. Qed.
