(* ===== verification/Shard.v ===== *)
(** Sharding: src/internal/shard/shard.go.

    A database is one store or a list of stores; a key is routed by its hash or
    by ranges of keys. The stores are any [Storage], in the program the
    key-value store. When the stores keep the contract of [StorageOK], the
    sharded database keeps it too, so that every client of the interface works
    over it. *)
From S2P Require Import Prelude Keys Node TreeSpec Iter Meta KV Storage.
#[local] Open Scope Z_scope.

(** * The code *)

Definition HashShard : Z := 1.
Definition RangeShard : Z := 2.

Record RangeBound := mkBound { rb_Start : bytes; rb_End : bytes; rb_Shard : Z }.

Record ShardConfig := mkSC {
  Strategy : Z; sc_Shards : Z; KeyCol : bytes; Ranges : list RangeBound }.

Inductive shard_error :=
| ErrKV (e : kv_error) | ErrReadDir | ErrOpenShard (i : nat) (e : kv_error).

(** The ASCII codes of the slash and of [shard-0.db]. *)
Definition slash : bytes := [47].
Definition shard0 : bytes := [115; 104; 97; 114; 100; 45; 48; 46; 100; 98].

Section code.
Context {S : Type} `{Storage S}.

Record DB := mkDB { shards : list S; config : ShardConfig; single : bool; singleKV : option S }.

Definition set_single (db : DB) (s : S) : DB := mkDB (shards db) (config db) (single db) (Some s).
Definition set_shard (db : DB) (i : Z) (s : S) : DB :=
  mkDB (<[Z.to_nat i := s]> (shards db)) (config db) (single db) (singleKV db).

(** The loop over [db.config.Ranges]. *)
Fixpoint range_shard (rs : list RangeBound) (key : bytes) : option Z :=
  match rs with
  | [] => None
  | r :: rs =>
      if (0 <=? cmp key (rb_Start r)) && (cmp key (rb_End r) <=? 0) then Some (rb_Shard r)
      else range_shard rs key
  end.

(** [int(h) % len(db.shards)] panics without shards. *)
Definition shardForKey (db : DB) (key : bytes) : res Z :=
  if single db then Ok 0
  else if Strategy (config db) =? HashShard then
    if len (shards db) =? 0 then Panic
    else Ok (ChecksumIEEE key mod len (shards db))
  else if Strategy (config db) =? RangeShard then
    Ok (match range_shard (Ranges (config db)) key with
        | Some i => i
        | None => len (shards db) - 1
        end)
  else Ok 0.

Definition Get (db : DB) (key : bytes) : res (option bytes) :=
  if single db then kv ← of_option (singleKV db); st_Get kv key
  else i ← shardForKey db key; kv ← index (shards db) i; st_Get kv key.

Definition Set_ (db : DB) (key val : bytes) : res (option kv_error * DB) :=
  if single db then
    kv ← of_option (singleKV db); '(e, kv) ← st_Set kv key val; Ok (e, set_single db kv)
  else
    i ← shardForKey db key; kv ← index (shards db) i;
    '(e, kv) ← st_Set kv key val; Ok (e, set_shard db i kv).

Definition Del (db : DB) (key : bytes) : res (bool * option kv_error * DB) :=
  if single db then
    kv ← of_option (singleKV db); '(b, e, kv) ← st_Del kv key; Ok (b, e, set_single db kv)
  else
    i ← shardForKey db key; kv ← index (shards db) i;
    '(b, e, kv) ← st_Del kv key; Ok (b, e, set_shard db i kv).

(** The iterator, with the shard whose pages it reads. *)
Definition Seek (db : DB) (key : bytes) : res (Z * st_iter) :=
  if single db then kv ← of_option (singleKV db); it ← st_Seek kv key; Ok (0, it)
  else i ← shardForKey db key; kv ← index (shards db) i; it ← st_Seek kv key; Ok (i, it).

(** [iter.Next()] on the tree of its shard. *)
Definition iter_Next (db : DB) (it : Z * st_iter) : res (Z * st_iter) :=
  kv ← (if single db then of_option (singleKV db) else index (shards db) it.1);
  it' ← st_Next kv it.2; Ok (it.1, it').

(** A [nil] single store would panic; [Open] never builds one. *)
Definition TreeRoot (db : DB) : Z :=
  if single db then match singleKV db with Some kv => st_TreeRoot kv | None => 0 end else 0.

Definition PageRead (db : DB) (ptr : Z) : res BNode :=
  if single db then kv ← of_option (singleKV db); st_PageRead kv ptr else Panic.

(** The loop of [Close]: it stops at the first error. *)
Fixpoint close_loop (l : list S) : option kv_error * list S :=
  match l with
  | [] => (None, [])
  | s :: l =>
      match st_Close s with
      | (Some e, s) => (Some e, s :: l)
      | (None, s) => let '(e, l) := close_loop l in (e, s :: l)
      end
  end.

Definition Close (db : DB) : option kv_error * DB :=
  if single db then
    match singleKV db with
    | Some kv => let '(e, kv) := st_Close kv in (e, set_single db kv)
    | None => (None, db)
    end
  else let '(e, l) := close_loop (shards db) in (e, mkDB l (config db) (single db) (singleKV db)).

#[global] Instance shard_storage : Storage DB := {|
  st_Get := Get; st_Set := Set_; st_Del := Del; st_iter := Z * st_iter; st_Seek := Seek;
  st_Valid it := st_Valid it.2; st_Key it := st_Key it.2; st_Val it := st_Val it.2; st_Next := iter_Next;
  st_TreeRoot := TreeRoot; st_PageRead := PageRead; st_Close := Close |}.

(** * Opening *)

(** Opening the store at a path. *)
Variable kvOpen : bytes -> SyncMode -> res (kv_error + S).

(** The loop of [OpenSharded]; [opened] are the stores before this one, which
    are closed when an open fails. *)
Fixpoint open_loop (paths : list bytes) (opened : list S) : res (shard_error * list S + list S) :=
  match paths with
  | [] => Ok (inr opened)
  | p :: paths =>
      r ← kvOpen p SyncFull;
      match r with
      | inl e => Ok (inl (ErrOpenShard (length opened) e, (st_Close <$> opened).*2))
      | inr kv => open_loop paths (opened ++ [kv])
      end
  end.

Definition shard_paths (dir : bytes) (entries : list (bytes * bool)) : list bytes :=
  let paths := omap (fun e : bytes * bool => if e.2 then None else Some (dir ++ slash ++ e.1)) entries in
  if len paths =? 0 then [dir ++ slash ++ shard0] else paths.

(** [entries] is the result of [os.ReadDir]: names, and whether a name is a
    directory. The number of shards is set in [cfg] after [cfg] was copied. *)
Definition OpenSharded (dir : bytes) (cfg : ShardConfig) (entries : option (list (bytes * bool)))
    : res (shard_error + DB) :=
  match entries with
  | None => Ok (inl ErrReadDir)
  | Some entries =>
      r ← open_loop (shard_paths dir entries) [];
      match r with
      | inl (e, _) => Ok (inl e)
      | inr l => Ok (inr (mkDB l cfg false None))
      end
  end.

(** [stat] is the result of [os.Stat]: whether the path is a directory. *)
Definition Open (path : bytes) (mode : SyncMode) (stat : option bool)
    (entries : option (list (bytes * bool))) : res (shard_error + DB) :=
  match stat with
  | Some true => OpenSharded path (mkSC HashShard 4 [] []) entries
  | _ =>
      r ← kvOpen path mode;
      match r with
      | inl e => Ok (inl (ErrKV e))
      | inr kv => Ok (inr (mkDB [] (mkSC 0 0 [] []) true (Some kv)))
      end
  end.
End code.
Arguments DB _ : clear implicits.

(** [kvstore.Open] over the files of a disk; a missing file is created. *)
Definition kv_open (disk : gmap bytes bytes) (path : bytes) (mode : SyncMode) : res (kv_error + KV) :=
  KV.Open (default [] (disk !! path)) [] mode.

(** * Routing *)

Section routing.
Context {S : Type} `{Storage S}.
Implicit Types db : DB S.

Definition ranges_ok db : Prop :=
  Strategy (config db) = RangeShard -> Forall (fun r => 0 <= rb_Shard r < len (shards db)) (Ranges (config db)).

Lemma range_shard_in rs key i : range_shard rs key = Some i ->
  exists r, r ∈ rs /\ rb_Shard r = i /\ key_le (rb_Start r) key /\ key_le key (rb_End r).
Proof.
  induction rs as [|r rs IH]; simpl; [done|].
  destruct (Z.leb_spec 0 (cmp key (rb_Start r))), (Z.leb_spec (cmp key (rb_End r)) 0); simpl;
    try (intros (r' & Hr & ?)%IH; exists r'; split; [by right|done]).
  intros [= <-]. exists r. unfold key_le. rewrite (cmp_antisym key (rb_Start r)). split; [left|].
  split; [done|]. lia.
Qed.

Lemma shardForKey_in db key : single db = false -> shards db <> [] -> ranges_ok db ->
  exists i, shardForKey db key = Ok i /\ 0 <= i < len (shards db).
Proof.
  intros Hs Hne Hr. unfold shardForKey. rewrite Hs.
  assert (0 < len (shards db)) as Hl.
  { destruct (shards db) as [|x l]; [done|]. rewrite len_cons. pose proof (len_nonneg l). lia. }
  destruct (Z.eqb_spec (Strategy (config db)) HashShard) as [Hh|Hh].
  - rewrite (proj2 (Z.eqb_neq _ _)) by lia. eexists. split; [done|]. apply Z.mod_pos_bound. lia.
  - destruct (Z.eqb_spec (Strategy (config db)) RangeShard) as [Hk|Hk]; [|exists 0; split; [done|lia]].
    destruct (range_shard _ key) as [i|] eqn:E; eexists; (split; [done|]); [|lia].
    apply range_shard_in in E as (r & Hin & <- & _). specialize (Hr Hk).
    rewrite Forall_forall in Hr. by apply Hr.
Qed.

(** The routing looks at the configuration and the number of shards only. *)
Lemma shardForKey_set db i s key : shardForKey (set_shard db i s) key = shardForKey db key.
Proof. unfold shardForKey, set_shard, len. simpl. by rewrite length_insert. Qed.
End routing.

(** * The sharded database keeps the contract of its shards *)

Section proofs.
Context {S : Type} `{StorageOK S}.
Implicit Types (db : DB S) (M : gmap bytes bytes).

(** Every key lives in the map of the shard it is routed to. *)
Definition shard_rep (n : nat) db M : Prop :=
  if single db then exists kv, singleKV db = Some kv /\ st_rep n kv M
  else shards db <> [] /\ ranges_ok db /\
    exists Ms, Forall2 (st_rep n) (shards db) Ms /\
      forall k i, shardForKey db k = Ok i -> M !! k = Ms !! Z.to_nat i ≫= (fun Mi => Mi !! k).

Lemma shard_rep_le n m db M : (m <= n)%nat -> shard_rep n db M -> shard_rep m db M.
Proof.
  intros Hle. unfold shard_rep. destruct (single db).
  - intros (kv & E & Hr). exists kv. split; [done|]. by eapply st_rep_le.
  - intros (Hne & Hr & Ms & HF & HM). split; [done|]. split; [done|]. exists Ms. split; [|done].
    eapply Forall2_impl; [exact HF|]. intros s M'. by apply st_rep_le.
Qed.

Lemma shard_lookup n db M Ms k : single db = false -> shards db <> [] -> ranges_ok db ->
  Forall2 (st_rep n) (shards db) Ms ->
  exists i kv Mi, shardForKey db k = Ok i /\ 0 <= i < len (shards db) /\
    index (shards db) i = Ok kv /\ shards db !! Z.to_nat i = Some kv /\
    Ms !! Z.to_nat i = Some Mi /\ st_rep n kv Mi.
Proof.
  intros Hs Hne Hr HF. destruct (shardForKey_in db k Hs Hne Hr) as (i & Hi & Hb).
  destruct (lookup_lt_is_Some_2 (shards db) (Z.to_nat i)) as [kv Hkv]; [unfold len in Hb; lia|].
  destruct (Forall2_lookup_l _ _ _ _ _ HF Hkv) as (Mi & HMi & Hrep).
  exists i, kv, Mi. split_and!; try done; try lia.
  unfold index. rewrite (proj2 (Z.leb_le _ _)) by lia. by rewrite Hkv.
Qed.

(** Replacing the map of one shard, the others being as they were. *)
Lemma shard_rep_set n db M Ms i k kv' Mi Mi' M' :
  single db = false -> shards db <> [] -> ranges_ok db -> Forall2 (st_rep n) (shards db) Ms ->
  (forall k i, shardForKey db k = Ok i -> M !! k = Ms !! Z.to_nat i ≫= (fun Mi => Mi !! k)) ->
  shardForKey db k = Ok i -> 0 <= i < len (shards db) -> Ms !! Z.to_nat i = Some Mi -> st_rep n kv' Mi' ->
  (forall k', k' <> k -> Mi' !! k' = Mi !! k' /\ M' !! k' = M !! k') -> M' !! k = Mi' !! k ->
  shard_rep n (set_shard db i kv') M'.
Proof.
  intros Hs Hne Hr HF HM Hi Hb HMi Hrep Hoth Hk. unfold shard_rep. cbn [single set_shard]. rewrite Hs.
  assert (Z.to_nat i < length Ms)%nat as HlM by (by eapply lookup_lt_Some). split; [|split].
  - intros E%(f_equal length). simpl in E. rewrite length_insert in E. by destruct (shards db).
  - intros Hst. unfold len. simpl. rewrite length_insert. by apply Hr.
  - exists (<[Z.to_nat i := Mi']> Ms). split; [by apply Forall2_insert|].
    intros k' i'. rewrite shardForKey_set. intros Hi'.
    destruct (shardForKey_in db k' Hs Hne Hr) as (i'' & E & Hb'). rewrite Hi' in E. injection E as <-.
    destruct (decide (k' = k)) as [->|Hkk].
    + rewrite Hi in Hi'. injection Hi' as <-. rewrite list_lookup_insert_eq by done. exact Hk.
    + destruct (Hoth k' Hkk) as [H1 ->]. rewrite (HM _ _ Hi'). destruct (decide (i' = i)) as [->|Hii].
      * rewrite list_lookup_insert_eq, HMi by done. simpl. by rewrite H1.
      * rewrite list_lookup_insert_ne by lia. done.
Qed.

Lemma shard_Get n db M k : shard_rep n db M -> Get db k = Ok (M !! k).
Proof.
  unfold shard_rep, Get. destruct (single db) eqn:Hs.
  - intros (kv & -> & Hr). cbn. by eapply st_Get_ok.
  - intros (Hne & Hr & Ms & HF & HM).
    destruct (shard_lookup _ db M Ms k Hs Hne Hr HF) as (i & kv & Mi & Hi & _ & Hx & _ & HMi & Hrep).
    rewrite Hi, bind_ok, Hx, bind_ok. rewrite (HM _ _ Hi), HMi. simpl. by eapply st_Get_ok.
Qed.

(** The shards that are not written keep their room. *)
Lemma shards_weaken n l Ms : Forall2 (st_rep (Datatypes.S n)) l Ms -> Forall2 (st_rep n) l Ms.
Proof. intros HF. eapply Forall2_impl; [exact HF|]. intros s M. apply st_rep_le. lia. Qed.

Lemma shard_Set n db M k v : shard_rep (Datatypes.S n) db M -> st_fits k v ->
  exists db', Set_ db k v = Ok (None, db') /\ shard_rep n db' (<[k := v]> M).
Proof.
  intros HR Hfit. pose proof HR as HR0. revert HR. unfold shard_rep at 1, Set_. destruct (single db) eqn:Hs.
  - intros (kv & -> & Hr). cbn [of_option]. rewrite bind_ok.
    destruct (st_Set_ok _ kv M k v Hr Hfit) as (kv' & -> & Hr'). rewrite bind_ok. eexists. split; [done|].
    unfold shard_rep. cbn [single set_single]. rewrite Hs. by eexists.
  - intros (Hne & Hr & Ms & HF & HM).
    destruct (shard_lookup _ db M Ms k Hs Hne Hr HF) as (i & kv & Mi & Hi & Hb & Hx & _ & HMi & Hrep).
    rewrite Hi, bind_ok, Hx, bind_ok. destruct (st_Set_ok _ kv Mi k v Hrep Hfit) as (kv' & -> & Hr').
    rewrite bind_ok. eexists. split; [done|].
    eapply (shard_rep_set n db M Ms i k kv' Mi); try done; [by apply shards_weaken|..].
    + intros k' Hk'. by rewrite !lookup_insert_ne.
    + by rewrite !lookup_insert_eq.
Qed.

Lemma shard_Del n db M k : shard_rep (Datatypes.S n) db M ->
  exists db', Del db k = Ok (bool_decide (is_Some (M !! k)), None, db') /\ shard_rep n db' (delete k M).
Proof.
  unfold shard_rep at 1, Del. destruct (single db) eqn:Hs.
  - intros (kv & -> & Hr). cbn [of_option]. rewrite bind_ok.
    destruct (st_Del_ok _ kv M k Hr) as (kv' & -> & Hr'). rewrite bind_ok. eexists. split; [done|].
    unfold shard_rep. cbn [single set_single]. rewrite Hs. by eexists.
  - intros (Hne & Hr & Ms & HF & HM).
    destruct (shard_lookup _ db M Ms k Hs Hne Hr HF) as (i & kv & Mi & Hi & Hb & Hx & _ & HMi & Hrep).
    rewrite Hi, bind_ok, Hx, bind_ok. destruct (st_Del_ok _ kv Mi k Hrep) as (kv' & -> & Hr').
    rewrite bind_ok. rewrite (HM _ _ Hi), HMi. eexists. split; [done|].
    eapply (shard_rep_set n db M Ms i k kv' Mi); try done; [by apply shards_weaken|..].
    + intros k' Hk'. by rewrite !lookup_delete_ne.
    + by rewrite !lookup_delete_eq.
Qed.

#[global] Instance shard_storage_ok : StorageOK (DB S) := {|
  st_rep := shard_rep; st_fits := st_fits; st_rep_le := shard_rep_le; st_Get_ok := shard_Get; st_Set_ok := shard_Set; st_Del_ok := shard_Del |}.
End proofs.

(** * Opened databases *)

Section opened.
Context {S : Type} `{StorageOK S}.
Variable kvOpen : bytes -> SyncMode -> res (kv_error + S).

Lemma open_loop_length paths : forall opened l,
  open_loop kvOpen paths opened = Ok (inr l) -> length l = (length opened + length paths)%nat.
Proof.
  induction paths as [|p paths IH]; intros opened l; cbn [open_loop].
  - intros [= <-]. simpl. lia.
  - intros ([e|kv] & _ & E)%bind_ok_inv; [done|]. apply IH in E. rewrite E, length_app. simpl. lia.
Qed.

Lemma shard_paths_pos dir entries : 0 < len (shard_paths dir entries).
Proof.
  unfold shard_paths. set (l := omap _ _). cbv zeta. pose proof (len_nonneg l).
  destruct (Z.eqb_spec (len l) 0); [done|lia].
Qed.

Lemma open_loop_fresh n paths : (forall p mode, exists kv, kvOpen p mode = Ok (inr kv) /\ st_rep n kv ∅) ->
  forall opened, Forall (fun kv => st_rep n kv ∅) opened ->
  exists l, open_loop kvOpen paths opened = Ok (inr l) /\ Forall (fun kv => st_rep n kv ∅) l.
Proof.
  intros Hop. induction paths as [|p paths IH]; intros opened Ho; cbn [open_loop]; [by exists opened|].
  destruct (Hop p SyncFull) as (kv & -> & Hkv). rewrite bind_ok. apply IH.
  apply Forall_app. by repeat constructor.
Qed.

(** C30: a database opened over a directory has one shard per file of the
    directory and at least one, and routes every key to one of its shards: under
    the hash strategy always, under the range strategy when the configured
    shards exist. *)
Theorem OpenSharded_routes_in_bounds dir cfg entries db :
  OpenSharded kvOpen dir cfg (Some entries) = Ok (inr db) ->
  (Strategy cfg = RangeShard ->
    Forall (fun r => 0 <= rb_Shard r < len (shard_paths dir entries)) (Ranges cfg)) ->
  len (shards db) = len (shard_paths dir entries) /\ 0 < len (shards db) /\
  forall key, exists i, shardForKey db key = Ok i /\ 0 <= i < len (shards db).
Proof.
  unfold OpenSharded. intros ([[e l]|l] & E & [= <-])%bind_ok_inv Hr. apply open_loop_length in E.
  assert (len l = len (shard_paths dir entries)) as Hl by (unfold len; simpl in E; lia).
  pose proof (shard_paths_pos dir entries). cbn [shards]. split; [done|]. split; [lia|].
  intros key. apply shardForKey_in; [done| |].
  - intros E0. cbn [shards] in E0. subst l. rewrite len_nil in Hl. lia.
  - intros Hst. cbn [shards config] in *. rewrite Hl. by apply Hr.
Qed.

(** C7: sharding is invisible: when the stores opened for the shards are empty,
    keep the contract of the interface and have room for the operations, a database opened over a directory
    answers every sequence of sets, deletions and lookups as one map does. *)
Theorem sharded_refines_map dir cfg entries os :
  Strategy cfg = HashShard ->
  (forall p mode, exists kv, kvOpen p mode = Ok (inr kv) /\ st_rep (length os) kv ∅) ->
  Forall (op_fits (S:=S)) os ->
  exists db, OpenSharded kvOpen dir cfg (Some entries) = Ok (inr db) /\
    store_run db os = Ok (spec_run ∅ os).
Proof.
  intros Hh Hop Hfit. destruct (open_loop_fresh _ (shard_paths dir entries) Hop []) as (l & E & Hl); [constructor|].
  unfold OpenSharded. rewrite E, bind_ok. eexists. split; [done|]. apply store_run_spec; [|exact Hfit].
  apply open_loop_length in E. cbn. unfold shard_rep. cbn [single shards]. split; [|split].
  - intros ->. pose proof (shard_paths_pos dir entries) as Hp. unfold len in Hp. simpl in E. lia.
  - intros Hst. cbn [config] in Hst. rewrite Hh in Hst. done.
  - exists (replicate (length l) ∅). split.
    + clear -Hl. induction Hl; simpl; by constructor.
    + intros k i _. rewrite lookup_empty. destruct (replicate _ _ !! Z.to_nat i) as [Mi|] eqn:E2; [|done].
      apply lookup_replicate in E2 as [-> _]. done.
Qed.
End opened.

(** * Runs over maps in memory *)

Definition open_map (p : bytes) (mode : SyncMode) : res (kv_error + mapStore) := Ok (inr (mkMap ∅)).
Definition two_files : list (bytes * bool) := [([97], false); ([98], true); ([99], false)].

Lemma OpenSharded_routes_in_bounds_witness :
  let db := mkDB [mkMap ∅; mkMap ∅] (mkSC HashShard 4 [] []) false None in
  len (shards db) = 2 /\ 0 < len (shards db) /\
  forall key, exists i, shardForKey db key = Ok i /\ 0 <= i < len (shards db).
Proof.
  apply (OpenSharded_routes_in_bounds open_map [100] (mkSC HashShard 4 [] []) two_files).
  - reflexivity.
  - intros [=].
Defined.

Definition some_ops : list op := [OpInsert [1] [7]; OpInsert [2] [8]; OpDelete [1]; OpGet [1]; OpGet [2]].

Lemma sharded_refines_map_witness : exists db,
  OpenSharded open_map [100] (mkSC HashShard 4 [] []) (Some two_files) = Ok (inr db) /\
  store_run db some_ops = Ok [OutNone; OutNone; OutFound true; OutVal None; OutVal (Some [8])].
Proof.
  apply (sharded_refines_map open_map [100] (mkSC HashShard 4 [] []) two_files some_ops).
  - reflexivity.
  - intros p mode. exists (mkMap ∅). split; reflexivity.
  - by repeat constructor.
Defined.
