(* ===== verification/Pool.v ===== *)
(** The connection pool: src/internal/pool/pool.go.

    Connections are objects shared by the slices [conns] and [free] and by the
    clients: they live in a heap, by the identifier that [createConn] gives
    them, and the slices hold the identifiers. [Acquire], [Release] and [Close]
    run under the mutex of the pool. The times are in nanoseconds and are
    arguments, in the order in which the code reads the clock. *)
From S2P Require Import Prelude KV Storage Tx.
#[local] Open Scope Z_scope.

(** * The code *)

Definition SessionMode : Z := 0.
Definition TransactionMode : Z := 1.

Record Conn := mkConn {
  c_id : Z; c_tx : option Tx; createdAt : Z; lastUsed : Z; inUse : bool }.

Record Config := mkConf {
  MaxConns : Z; MinConns : Z; MaxIdleTime : Z; MaxLifetime : Z; Mode : Z }.

Inductive pool_error := ErrPoolClosed | ErrNoConns.
Inductive conn_error := ErrInProgress | ErrNoTx | ErrTx (e : tx_error).

Definition Minute : Z := 60000000000.

(** The defaults of [NewPool]. *)
Definition with_defaults (c : Config) : Config :=
  mkConf (if MaxConns c =? 0 then 50 else MaxConns c) (if MinConns c =? 0 then 2 else MinConns c)
    (if MaxIdleTime c =? 0 then 10 * Minute else MaxIdleTime c)
    (if MaxLifetime c =? 0 then 60 * Minute else MaxLifetime c) (Mode c).

Definition conn_used (c : Conn) (t : Z) (b : bool) : Conn :=
  mkConn (c_id c) (c_tx c) (createdAt c) t b.
Definition conn_set_tx (c : Conn) (tx : option Tx) : Conn :=
  mkConn (c_id c) tx (createdAt c) (lastUsed c) (inUse c).

Section code.
Context {S : Type} `{Storage S}.

(** The store is the one of the transaction manager. *)
Record Pool := mkPool {
  p_config : Config; p_mgr : Manager S; conns : list Z; free : list Z;
  heap : gmap Z Conn; nextID : Z; p_closed : bool }.

Definition set_conns (p : Pool) (l : list Z) : Pool :=
  mkPool (p_config p) (p_mgr p) l (free p) (heap p) (nextID p) (p_closed p).
Definition set_free (p : Pool) (l : list Z) : Pool :=
  mkPool (p_config p) (p_mgr p) (conns p) l (heap p) (nextID p) (p_closed p).
Definition set_conn (p : Pool) (c : Z) (o : Conn) : Pool :=
  mkPool (p_config p) (p_mgr p) (conns p) (free p) (<[c := o]> (heap p)) (nextID p) (p_closed p).
Definition set_mgr (p : Pool) (m : Manager S) : Pool :=
  mkPool (p_config p) m (conns p) (free p) (heap p) (nextID p) (p_closed p).

Definition createConn (p : Pool) (t1 t2 : Z) : Z * Pool :=
  let id := u64 (nextID p + 1) in
  (id, mkPool (p_config p) (p_mgr p) (conns p ++ [id]) (free p ++ [id])
         (<[id := mkConn id None t1 t2 false]> (heap p)) id (p_closed p)).

Fixpoint create_loop (p : Pool) (ts : list (Z * Z)) : Pool :=
  match ts with
  | [] => p
  | (t1, t2) :: ts => create_loop (createConn p t1 t2).2 ts
  end.

(** [clock i] are the two readings of the clock for connection [i]. *)
Definition NewPool (db : S) (config : Config) (clock : nat -> Z * Z) : Pool :=
  let config := with_defaults config in
  create_loop (mkPool config (NewManager db) [] [] ∅ 0 false)
    (clock <$> seq 0 (Z.to_nat (MinConns config))).

(** [removeConn]: [p.conns[idx+1:]] panics beyond the end. *)
Definition removeConn (p : Pool) (idx : Z) : res Pool :=
  l ← slice_to (conns p) idx; r ← slice_from (conns p) (idx + 1); Ok (set_conns p (l ++ r)).

(** The loop of [Acquire] from index [i]: the connection found, if any. The
    index is stepped back after a removal, so it is the same again. *)
Fixpoint acquire_loop (fuel : nat) (p : Pool) (now : Z) (i : Z) : res (option Z * Pool) :=
  if i <? len (free p) then
    match fuel with
    | O => OutOfFuel
    | Datatypes.S fuel =>
        c ← index (free p) i;
        o ← of_option (heap p !! c);
        if (MaxIdleTime (p_config p) <? now - lastUsed o) && (MinConns (p_config p) <? len (conns p)) then
          p ← removeConn p i; acquire_loop fuel p now i
        else if MaxLifetime (p_config p) <? now - createdAt o then
          p ← removeConn p i; acquire_loop fuel p now i
        else if negb (inUse o) then
          l ← slice_to (free p) i; r ← slice_from (free p) (i + 1);
          Ok (Some c, set_free (set_conn p c (conn_used o now true)) (l ++ r))
        else acquire_loop fuel p now (i + 1)
    end
  else Ok (None, p).

(** Each turn removes a connection, moves on or returns. *)
Definition acquire_fuel (p : Pool) : nat := Datatypes.S (length (free p) + length (conns p)).

(** A panic ends the process, so the pool beside it is only a placeholder: the
    one before the call. *)
Definition Acquire (p : Pool) (now t1 t2 : Z) : res (pool_error + Z) * Pool :=
  if p_closed p then (Ok (inl ErrPoolClosed), p)
  else
    match acquire_loop (acquire_fuel p) p now 0 with
    | Ok (Some c, p) => (Ok (inr c), p)
    | Ok (None, p) =>
        if len (conns p) <? MaxConns (p_config p) then
          let '(c, p) := createConn p t1 t2 in
          match heap p !! c, slice_to (free p) (len (free p) - 1) with
          | Some o, Ok l => (Ok (inr c), set_free (set_conn p c (conn_used o (lastUsed o) true)) l)
          | _, _ => (Panic, p)
          end
        else (Ok (inl ErrNoConns), p)
    | Panic => (Panic, p)
    | OutOfFuel => (OutOfFuel, p)
    end.

Definition Release (p : Pool) (c : Z) (now : Z) : res Pool :=
  o ← of_option (heap p !! c);
  if negb (inUse o) then Ok p
  else
    let '(o, p) :=
      match c_tx o with
      | Some tx =>
          if Mode (p_config p) =? TransactionMode
          then (conn_set_tx o None, set_mgr p (Abort (p_mgr p) tx).2) else (o, p)
      | None => (o, p)
      end in
    Ok (set_free (set_conn p c (conn_used o now false)) (free p ++ [c])).

Definition PoolClose (p : Pool) : Pool :=
  mkPool (p_config p) (p_mgr p) [] [] (heap p) (nextID p) true.

(** * The methods of a connection *)

Definition ConnBegin (m : Manager S) (c : Conn) (isolation : Z) : option conn_error * Conn * Manager S :=
  match c_tx c with
  | Some _ => (Some ErrInProgress, c, m)
  | None => let '(tx, m) := Begin m isolation in (None, conn_set_tx c (Some tx), m)
  end.

(** The transaction stays in the connection when it is committed. *)
Definition ConnCommit (m : Manager S) (c : Conn) : res (option conn_error * Conn * Manager S) :=
  match c_tx c with
  | None => Ok (Some ErrNoTx, c, m)
  | Some tx =>
      '(e, tx, m) ← Commit m tx; Ok (option_map ErrTx e, conn_set_tx c (Some tx), m)
  end.

Definition ConnAbort (m : Manager S) (c : Conn) : Conn * Manager S :=
  match c_tx c with
  | Some tx => (conn_set_tx c None, (Abort m tx).2)
  | None => (c, m)
  end.

Definition ConnGet (m : Manager S) (c : Conn) (key : bytes) : res (option bytes * Conn) :=
  match c_tx c with
  | Some tx => '(v, tx) ← Tx_Get (m_kv m) tx key; Ok (v, conn_set_tx c (Some tx))
  | None => v ← st_Get (m_kv m) key; Ok (v, c)
  end.

(** Outside a transaction the value is written at once; [nil] is the empty value. *)
Definition ConnSet (m : Manager S) (c : Conn) (key : bytes) (val : option bytes)
    : res (option kv_error * Conn * Manager S) :=
  match c_tx c with
  | Some tx => Ok (None, conn_set_tx c (Some (Tx_Set tx key val)), m)
  | None =>
      '(e, kv) ← st_Set (m_kv m) key (default [] val);
      Ok (e, c, mkMgr kv (m_version m) (ongoing m) (history m) (minVer m))
  end.
End code.
Arguments Pool _ : clear implicits.

(** * The invariant *)

Section proofs.
Context {S : Type} `{Storage S}.
Implicit Types p : Pool S.

(** The pool with the connections its clients hold: what [Acquire] returned and
    [Release] was not yet called on. *)
Record pool_inv p (held : gset Z) : Prop := {
  pi_free : NoDup (free p);
  pi_idle : forall c, c ∈ free p -> exists o, heap p !! c = Some o /\ inUse o = false;
  pi_held : forall c, c ∈ held <-> exists o, heap p !! c = Some o /\ inUse o = true;
  pi_ids : forall c o, heap p !! c = Some o -> 0 < c <= nextID p;
  pi_next : 0 <= nextID p < 2 ^ 64;
  pi_min : 0 <= MinConns (p_config p);
  pi_conns : len (conns p) <= Z.max (MaxConns (p_config p)) (MinConns (p_config p)) }.

(** Only the list of connections differs. *)
Lemma inv_set_conns p held l : pool_inv p held -> len l <= len (conns p) -> pool_inv (set_conns p l) held.
Proof. intros HI Hl. split; try apply HI. simpl. pose proof (pi_conns _ _ HI). lia. Qed.

Lemma inv_fresh p held : pool_inv p held -> nextID p < 2 ^ 64 - 1 ->
  u64 (nextID p + 1) = nextID p + 1 /\ heap p !! (nextID p + 1) = None /\
  (nextID p + 1 ∉ free p) /\ (nextID p + 1 ∉ held).
Proof.
  intros HI Hn. pose proof (pi_next _ _ HI). split; [apply u64_id; lia|].
  assert (heap p !! (nextID p + 1) = None) as E.
  { destruct (heap p !! _) eqn:E; [|done]. apply (pi_ids _ _ HI) in E. lia. }
  split; [done|]. split.
  - intros (o & Ho & _)%(pi_idle _ _ HI). congruence.
  - intros (o & Ho & _)%(pi_held _ _ HI). congruence.
Qed.

(** Handing out a connection: it is in use, and no longer free. *)
Lemma inv_hand_out p held c o t l : pool_inv p held -> heap p !! c = Some o -> NoDup l ->
  (forall x, x ∈ l -> x ∈ free p /\ x <> c) ->
  pool_inv (set_free (set_conn p c (conn_used o t true)) l) ({[c]} ∪ held).
Proof.
  intros HI Hc Hl Hsub. split; cbn [free set_free set_conn heap nextID conns p_config]; try apply HI; try done.
  - intros x Hx. destruct (Hsub x Hx) as [Hf Hne]. rewrite lookup_insert_ne by done. by apply HI.
  - intros x. rewrite elem_of_union, elem_of_singleton. destruct (decide (x = c)) as [->|Hne].
    + rewrite lookup_insert_eq. split; [|by left]. intros _. eexists. by split.
    + rewrite lookup_insert_ne, <-(pi_held _ _ HI) by done. naive_solver.
  - intros x o'. destruct (decide (x = c)) as [->|Hne].
    + rewrite lookup_insert_eq. intros _. by apply (pi_ids _ _ HI c o).
    + rewrite lookup_insert_ne by done. apply HI.
Qed.

(** [createConn] adds an idle connection. *)
Lemma inv_create p held t1 t2 : pool_inv p held -> nextID p < 2 ^ 64 - 1 ->
  len (conns p) + 1 <= Z.max (MaxConns (p_config p)) (MinConns (p_config p)) ->
  pool_inv (createConn p t1 t2).2 held.
Proof.
  intros HI Hn Hl. destruct (inv_fresh p held HI Hn) as (Hu & Hh & Hf & Hd).
  pose proof (pi_next _ _ HI). unfold createConn. rewrite Hu. cbn [snd].
  split; cbn [free heap conns nextID p_config]; try lia.
  - apply NoDup_app. split; [apply HI|]. split; [|by apply NoDup_singleton].
    intros x Hx ->%list_elem_of_singleton. done.
  - intros x [Hx| ->%list_elem_of_singleton]%elem_of_app.
    + rewrite lookup_insert_ne by (intros <-; done). by apply HI.
    + rewrite lookup_insert_eq. eexists. by split.
  - intros x. destruct (decide (x = nextID p + 1)) as [->|Hne].
    + rewrite lookup_insert_eq. split; [done|]. by intros (o & [= <-] & ?).
    + rewrite lookup_insert_ne by done. apply HI.
  - intros x o'. destruct (decide (x = nextID p + 1)) as [->|Hne].
    + intros _. lia.
    + rewrite lookup_insert_ne by done. intros Hx%(pi_ids _ _ HI). lia.
  - apply HI.
  - rewrite len_app, len_cons, len_nil. lia.
Qed.

Lemma removeConn_0 p : 0 < len (conns p) ->
  exists x l, conns p = x :: l /\ removeConn p 0 = Ok (set_conns p l).
Proof.
  destruct (conns p) as [|x l] eqn:E; [done|]. intros _. exists x, l. split; [done|].
  unfold removeConn, slice_to, slice_from. rewrite E, len_cons. pose proof (len_nonneg l).
  rewrite !(proj2 (Z.leb_le _ _)) by lia. done.
Qed.

Lemma removeConn_nil p : conns p = [] -> removeConn p 0 = Panic.
Proof. intros E. unfold removeConn. by rewrite E. Qed.

(** What the loop of [Acquire] does: it looks at the first free connection,
    removes connections from the front of [conns] while that one has been idle
    too long and more than [MinConns] are left, and hands it out. *)
Definition trimmed p (now : Z) (o : Conn) (l : list Z) : Prop :=
  exists k, conns p = k ++ l /\
    (k <> [] -> MaxIdleTime (p_config p) < now - lastUsed o /\ MinConns (p_config p) <= len l).

Lemma acquire_loop_first held n : forall fuel p now c rest o, pool_inv p held ->
  length (conns p) = n -> (n < fuel)%nat ->
  free p = c :: rest -> heap p !! c = Some o -> 0 <= MinConns (p_config p) ->
  now - createdAt o <= MaxLifetime (p_config p) ->
  exists l, trimmed p now o l /\
    acquire_loop fuel p now 0 =
      Ok (Some c, set_free (set_conn (set_conns p l) c (conn_used o now true)) rest).
Proof.
  induction n as [|n IH]; intros [|fuel] p now c rest o HI Hn Hf Hfree Hc Hmin Hlife; try lia;
    cbn [acquire_loop]; rewrite Hfree, len_cons; pose proof (len_nonneg rest);
    rewrite (proj2 (Z.ltb_lt 0 _)) by lia; change (index (c :: rest) 0) with (Ok (A := Z) c);
    rewrite bind_ok, Hc; cbn [of_option]; rewrite bind_ok.
  - apply length_zero_iff_nil in Hn. rewrite Hn, len_nil.
    rewrite (proj2 (Z.ltb_ge (MinConns (p_config p)) 0)), andb_false_r by lia.
    rewrite (proj2 (Z.ltb_ge (MaxLifetime (p_config p)) _)) by lia.
    destruct (pi_idle _ _ HI c) as (o' & Ho' & Hu); [rewrite Hfree; left|].
    rewrite Hc in Ho'. injection Ho' as <-. rewrite Hu. cbn [negb].
    exists []. split; [by exists []|]. unfold slice_to, slice_from. rewrite len_cons.
    rewrite !(proj2 (Z.leb_le _ _)) by lia. simpl. destruct p; simpl in *. by subst.
  - destruct (Z.ltb_spec (MaxIdleTime (p_config p)) (now - lastUsed o)),
      (Z.ltb_spec (MinConns (p_config p)) (len (conns p))); cbn [andb].
    1: { destruct (removeConn_0 p) as (x & l & El & ->); [lia|]. rewrite bind_ok.
      assert (len (conns p) = 1 + len l) as Hll by (rewrite El; apply len_cons).
      destruct (IH fuel (set_conns p l) now c rest o) as (l' & (k & Ek & Hk) & ->); try done; try lia.
      - apply inv_set_conns; [done|]. lia.
      - simpl. rewrite El in Hn. simpl in Hn. lia.
      - cbn [conns set_conns p_config] in *. exists l'. split; [|done]. exists (x :: k).
        split; [by rewrite El, Ek|]. intros _. split; [done|].
        destruct k; [simpl in Ek; subst l'; lia|by apply Hk]. }
    all: rewrite (proj2 (Z.ltb_ge (MaxLifetime (p_config p)) _)) by lia;
      destruct (pi_idle _ _ HI c) as (o' & Ho' & Hu); [rewrite Hfree; left|];
      rewrite Hc in Ho'; injection Ho' as <-; rewrite Hu; cbn [negb];
      exists (conns p); (split; [by exists []|]); unfold slice_to, slice_from; rewrite len_cons;
      rewrite !(proj2 (Z.leb_le _ _)) by lia; simpl; destruct p; simpl in *; by subst.
Qed.

(** A first free connection that has outlived [MaxLifetime]: the loop removes
    every connection and panics. *)
Lemma acquire_loop_expired n : forall fuel p now c rest o, length (conns p) = n -> (n < fuel)%nat ->
  free p = c :: rest -> heap p !! c = Some o -> MaxLifetime (p_config p) < now - createdAt o ->
  acquire_loop fuel p now 0 = Panic.
Proof.
  induction n as [|n IH]; intros [|fuel] p now c rest o Hn Hf Hfree Hc Hlife; try lia;
    cbn [acquire_loop]; rewrite Hfree, len_cons; pose proof (len_nonneg rest);
    rewrite (proj2 (Z.ltb_lt 0 _)) by lia; change (index (c :: rest) 0) with (Ok (A := Z) c);
    rewrite bind_ok, Hc; cbn [of_option]; rewrite bind_ok, (proj2 (Z.ltb_lt (MaxLifetime _) _)) by lia.
  - apply length_zero_iff_nil in Hn. rewrite removeConn_nil by done. by destruct (_ && _).
  - destruct (removeConn_0 p) as (x & l & El & ->); [unfold len; lia|]. rewrite bind_ok.
    rewrite (IH fuel (set_conns p l) now c rest o); try done; try lia; [by destruct (_ && _)|].
    simpl. rewrite El in Hn. simpl in Hn. lia.
Qed.

Lemma acquire_loop_none fuel p now : free p = [] -> acquire_loop fuel p now 0 = Ok (None, p).
Proof. intros E. destruct fuel; simpl; by rewrite E. Qed.

(** The new connection of [Acquire], in use at once. *)
Lemma Acquire_new p held now t1 t2 : pool_inv p held -> p_closed p = false -> nextID p < 2 ^ 64 - 1 ->
  free p = [] -> len (conns p) < MaxConns (p_config p) ->
  exists p', Acquire p now t1 t2 = (Ok (inr (nextID p + 1)), p') /\ pool_inv p' ({[nextID p + 1]} ∪ held).
Proof.
  intros HI Hcl Hn Hf Hl. pose proof (inv_create p held t1 t2 HI Hn ltac:(lia)) as HI'.
  unfold Acquire. rewrite Hcl, acquire_loop_none by done. rewrite (proj2 (Z.ltb_lt _ _)) by lia.
  destruct (inv_fresh p held HI Hn) as (Hu & _ & _ & _). revert HI'. unfold createConn. rewrite Hu, Hf.
  cbn [app heap free]. rewrite lookup_insert_eq. intros HI'. eexists. split; [done|].
  apply (inv_hand_out _ held (nextID p + 1) _ _ [] HI'); [apply lookup_insert_eq|constructor|set_solver].
Qed.

Lemma Acquire_first p held now t1 t2 c rest o : pool_inv p held -> p_closed p = false ->
  0 <= MinConns (p_config p) -> free p = c :: rest -> heap p !! c = Some o ->
  now - createdAt o <= MaxLifetime (p_config p) ->
  exists p', Acquire p now t1 t2 = (Ok (inr c), p') /\ free p' = rest /\ nextID p' = nextID p /\
    pool_inv p' ({[c]} ∪ held).
Proof.
  intros HI Hcl Hmin Hf Hc Hlife.
  destruct (acquire_loop_first held _ (acquire_fuel p) p now c rest o HI eq_refl) as (l & (k & Ek & _) & E);
    try done; [unfold acquire_fuel; lia|].
  unfold Acquire. rewrite Hcl, E. eexists. split; [done|]. split; [done|]. split; [done|].
  pose proof (pi_free _ _ HI) as Hnd. rewrite Hf in Hnd. apply NoDup_cons in Hnd as [Hnin Hnd].
  apply inv_hand_out; [|done|done|].
  - apply inv_set_conns; [done|]. rewrite Ek, len_app. pose proof (len_nonneg k). lia.
  - intros x Hx. simpl. rewrite Hf. split; [by right|]. intros ->. done.
Qed.

Lemma not_held p held c : pool_inv p held -> c ∈ free p -> c ∉ held.
Proof.
  intros HI (o & Ho & Hu)%(pi_idle _ _ HI) (o' & Ho' & Hu')%(pi_held _ _ HI). congruence.
Qed.

(** The outcome of [Acquire] on each of its branches. *)
Definition acquire_outcome p (held : gset Z) (now : Z) (r : res (pool_error + Z) * Pool S) : Prop :=
  if p_closed p then r = (Ok (inl ErrPoolClosed), p)
  else match free p with
  | [] =>
      if len (conns p) <? MaxConns (p_config p) then
        r.1 = Ok (inr (nextID p + 1)) /\ (nextID p + 1 ∉ held) /\ pool_inv r.2 ({[nextID p + 1]} ∪ held)
      else r = (Ok (inl ErrNoConns), p)
  | c :: rest =>
      exists o, heap p !! c = Some o /\
        if now - createdAt o <=? MaxLifetime (p_config p) then
          r.1 = Ok (inr c) /\ (c ∉ held) /\ free r.2 = rest /\ pool_inv r.2 ({[c]} ∪ held)
        else r = (Panic, p)
  end.

Lemma Acquire_spec p held now t1 t2 : pool_inv p held -> nextID p < 2 ^ 64 - 1 ->
  acquire_outcome p held now (Acquire p now t1 t2).
Proof.
  intros HI Hn. unfold acquire_outcome. set (r := Acquire p now t1 t2).
  destruct (p_closed p) eqn:Hcl; [subst r; unfold Acquire; by rewrite Hcl|].
  destruct (free p) as [|c rest] eqn:Hf.
  - destruct (Z.ltb_spec (len (conns p)) (MaxConns (p_config p))) as [Hl|Hl].
    + destruct (Acquire_new p held now t1 t2 HI Hcl Hn Hf Hl) as (p' & E & HI'). subst r. rewrite E.
      destruct (inv_fresh p held HI Hn) as (_ & _ & _ & Hd). done.
    + subst r. unfold Acquire. rewrite Hcl, acquire_loop_none by done. by rewrite (proj2 (Z.ltb_ge _ _)).
  - assert (c ∈ free p) as Hin by (rewrite Hf; left).
    destruct (pi_idle _ _ HI c Hin) as (o & Ho & _). exists o. split; [done|].
    destruct (Z.leb_spec (now - createdAt o) (MaxLifetime (p_config p))) as [Hl|Hl].
    + destruct (Acquire_first p held now t1 t2 c rest o HI Hcl (pi_min _ _ HI) Hf Ho Hl)
        as (p' & E & Hr & _ & HI').
      subst r. rewrite E. pose proof (not_held p held c HI Hin). done.
    + subst r. unfold Acquire. rewrite Hcl.
      erewrite acquire_loop_expired; try done. unfold acquire_fuel. lia.
Qed.

(** C29: [Acquire] always returns or panics within the fuel, and each of its
    branches is known: an error on a closed pool and on a full one, a new
    connection when none is free, else the first free connection, which no
    client holds; when that one is older than [MaxLifetime] it panics. The
    invariant of the pool holds afterwards. *)
Theorem Acquire_cases p held now t1 t2 :
  pool_inv p held -> nextID p < 2 ^ 64 - 1 -> acquire_outcome p held now (Acquire p now t1 t2).
Proof. apply Acquire_spec. Qed.

(** * The pool and its clients as a state machine *)

(** A call of a method of the connection. *)
Inductive conn_call (m : Manager S) (o : Conn) : Manager S -> Conn -> Prop :=
| call_Begin iso e o' m' : ConnBegin m o iso = (e, o', m') -> conn_call m o m' o'
| call_Commit e o' m' : ConnCommit m o = Ok (e, o', m') -> conn_call m o m' o'
| call_Abort o' m' : ConnAbort m o = (o', m') -> conn_call m o m' o'
| call_Get k v o' : ConnGet m o k = Ok (v, o') -> conn_call m o m o'
| call_Set k v e o' m' : ConnSet m o k v = Ok (e, o', m') -> conn_call m o m' o'.

(** Clients release and use only connections they hold. *)
Inductive pool_step : Pool S * gset Z -> Pool S * gset Z -> Prop :=
| step_Acquire p held now t1 t2 c p' :
    nextID p < 2 ^ 64 - 1 -> Acquire p now t1 t2 = (Ok (inr c), p') -> pool_step (p, held) (p', {[c]} ∪ held)
| step_Acquire_error p held now t1 t2 e p' :
    nextID p < 2 ^ 64 - 1 -> Acquire p now t1 t2 = (Ok (inl e), p') -> pool_step (p, held) (p', held)
| step_Release p held c now p' :
    c ∈ held -> Release p c now = Ok p' -> pool_step (p, held) (p', held ∖ {[c]})
| step_Close p held : pool_step (p, held) (PoolClose p, held)
| step_call p held c o m o' :
    c ∈ held -> heap p !! c = Some o -> conn_call (p_mgr p) o m o' ->
    pool_step (p, held) (set_mgr (set_conn p c o') m, held).

Lemma conn_call_inUse m o m' o' : conn_call m o m' o' -> inUse o' = inUse o.
Proof.
  destruct 1 as [iso e o' m' E|e o' m' E|o' m' E|k v o' E|k v e o' m' E].
  - unfold ConnBegin, Begin in E. destruct (c_tx o); injection E as <- <- <-; done.
  - unfold ConnCommit in E. destruct (c_tx o); [|by injection E as <- <- <-].
    by apply bind_ok_inv in E as ([[] ?] & _ & [= <- <- <-]).
  - unfold ConnAbort in E. destruct (c_tx o); injection E as <- <-; done.
  - unfold ConnGet in E. destruct (c_tx o); apply bind_ok_inv in E as (x & _ & E); [destruct x|];
      injection E as <- <-; done.
  - unfold ConnSet in E. destruct (c_tx o); [by injection E as <- <- <-|].
    by apply bind_ok_inv in E as ([] & _ & [= <- <- <-]).
Qed.

Lemma inv_Acquire p held now t1 t2 c p' : pool_inv p held -> nextID p < 2 ^ 64 - 1 ->
  Acquire p now t1 t2 = (Ok (inr c), p') -> pool_inv p' ({[c]} ∪ held).
Proof.
  intros HI Hn E. pose proof (Acquire_spec p held now t1 t2 HI Hn) as Ho. unfold acquire_outcome in Ho.
  rewrite E in Ho. cbn [fst snd] in Ho. destruct (p_closed p); [done|]. destruct (free p) as [|x rest].
  - destruct (_ <? _); [|done]. by destruct Ho as ([= ->] & _ & ?).
  - destruct Ho as (o & _ & Ho). destruct (_ <=? _); [|done]. by destruct Ho as ([= ->] & _ & _ & ?).
Qed.

Lemma inv_Acquire_error p held now t1 t2 e p' : pool_inv p held -> nextID p < 2 ^ 64 - 1 ->
  Acquire p now t1 t2 = (Ok (inl e), p') -> p' = p.
Proof.
  intros HI Hn E. pose proof (Acquire_spec p held now t1 t2 HI Hn) as Ho. unfold acquire_outcome in Ho.
  rewrite E in Ho. cbn [fst snd] in Ho. destruct (p_closed p); [by injection Ho|].
  destruct (free p) as [|x rest].
  - destruct (_ <? _); [by destruct Ho|by injection Ho].
  - destruct Ho as (o & _ & Ho). destruct (_ <=? _); [by destruct Ho|done].
Qed.

Lemma Acquire_takes p held now t1 t2 c p' : pool_inv p held -> nextID p < 2 ^ 64 - 1 ->
  Acquire p now t1 t2 = (Ok (inr c), p') -> pool_inv p' ({[c]} ∪ held) /\ c ∉ held.
Proof.
  intros HI Hn E. split; [by eapply inv_Acquire|].
  pose proof (Acquire_spec p held now t1 t2 HI Hn) as Ho. unfold acquire_outcome in Ho. rewrite E in Ho.
  cbn [fst snd] in Ho. destruct (p_closed _); [done|]. destruct (free p) as [|x l].
  - destruct (_ <? _); [|done]. by destruct Ho as ([= <-] & ? & _).
  - destruct Ho as (o & _ & Ho). destruct (_ <=? _); [|done]. by destruct Ho as ([= <-] & ? & _).
Qed.

(** Updating a connection without changing whether it is in use. *)
Lemma inv_update p held c o o' m : pool_inv p held -> heap p !! c = Some o -> inUse o' = inUse o ->
  pool_inv (set_mgr (set_conn p c o') m) held.
Proof.
  intros HI Hc E. split; try apply HI; cbn [set_mgr set_conn heap free].
  - intros x Hx. destruct (pi_idle _ _ HI x Hx) as (ox & Hox & Hu). destruct (decide (x = c)) as [->|Hne].
    + rewrite lookup_insert_eq. eexists. split; [done|]. congruence.
    + rewrite lookup_insert_ne by done. eauto.
  - intros x. rewrite (pi_held _ _ HI). destruct (decide (x = c)) as [->|Hne].
    + rewrite lookup_insert_eq, Hc. split; intros (? & [= <-] & ?); eexists; (split; [done|congruence]).
    + by rewrite lookup_insert_ne.
  - intros x ox. destruct (decide (x = c)) as [->|Hne].
    + intros _. by apply (pi_ids _ _ HI c o).
    + rewrite lookup_insert_ne by done. apply HI.
Qed.

(** Giving a connection back. *)
Lemma inv_give_back p held c o t : pool_inv p held -> heap p !! c = Some o -> inUse o = true ->
  pool_inv (set_free (set_conn p c (conn_used o t false)) (free p ++ [c])) (held ∖ {[c]}).
Proof.
  intros HI Hc Hu. assert (c ∉ free p) as Hnf.
  { intros (o' & Ho' & Hu')%(pi_idle _ _ HI). congruence. }
  split; try apply HI; cbn [set_free set_conn heap free].
  - apply NoDup_app. split; [apply HI|]. split; [|apply NoDup_singleton].
    intros x Hx ->%list_elem_of_singleton. done.
  - intros x [Hx| ->%list_elem_of_singleton]%elem_of_app.
    + rewrite lookup_insert_ne by (intros ->; done). by apply HI.
    + rewrite lookup_insert_eq. eexists. by split.
  - intros x. rewrite elem_of_difference, elem_of_singleton. destruct (decide (x = c)) as [->|Hne].
    + rewrite lookup_insert_eq. split; [by intros []|]. by intros (? & [= <-] & ?).
    + rewrite lookup_insert_ne, <-(pi_held _ _ HI) by done. naive_solver.
  - intros x ox. destruct (decide (x = c)) as [->|Hne].
    + intros _. by apply (pi_ids _ _ HI c o).
    + rewrite lookup_insert_ne by done. apply HI.
Qed.

Lemma Release_held p held c o now : pool_inv p held -> heap p !! c = Some o -> inUse o = true ->
  exists p' o', Release p c now = Ok p' /\ pool_inv p' (held ∖ {[c]}) /\ free p' = free p ++ [c] /\
    heap p' = <[c := o']> (heap p) /\ createdAt o' = createdAt o /\
    p_config p' = p_config p /\ p_closed p' = p_closed p /\ nextID p' = nextID p.
Proof.
  intros HI Hc Hu. unfold Release. rewrite Hc. cbn [of_option]. rewrite bind_ok, Hu. cbn [negb].
  assert (exists q o', match c_tx o with
      | Some tx => if Mode (p_config p) =? TransactionMode
          then (conn_set_tx o None, set_mgr p (Abort (p_mgr p) tx).2) else (o, p)
      | None => (o, p) end = (o', q) /\ (exists m, q = set_mgr p m) /\ inUse o' = true /\
      createdAt o' = createdAt o) as (q & o' & -> & (m & ->) & Hu' & Hcr).
  { assert (p = set_mgr p (p_mgr p)) as Ep by (by destruct p).
    destruct (c_tx o) as [tx|]; [destruct (_ =? _)|];
      (eexists _, _; split; [reflexivity|]; split; [eexists; (reflexivity || exact Ep)|done]). }
  eexists _, (conn_used o' now false). split; [reflexivity|]. split_and!; try done.
  pose proof (inv_update p held c o o' m HI Hc ltac:(congruence)) as HI'.
  pose proof (inv_give_back _ _ c o' now HI' (lookup_insert_eq _ _ _) Hu') as HI2.
  cbn [set_free set_conn set_mgr heap free] in HI2 |- *. unfold set_free, set_conn, set_mgr in *.
  cbn in *. rewrite insert_insert_eq in HI2. exact HI2.
Qed.

Lemma pool_step_inv s s' : pool_step s s' -> pool_inv s.1 s.2 -> pool_inv s'.1 s'.2.
Proof.
  destruct 1 as [p held now t1 t2 c p' Hn E|p held now t1 t2 e p' Hn E|p held c now p' Hc E|p held
    |p held c o m o' Hc Ho Hcall]; cbn [fst snd]; intros HI.
  - by eapply inv_Acquire.
  - apply (inv_Acquire_error p held now t1 t2 e p') in E; [|done..]. by subst.
  - apply (pi_held _ _ HI) in Hc as (o & Ho & Hu).
    destruct (Release_held p held c o now HI Ho Hu) as (p2 & o' & E2 & HI' & _).
    rewrite E in E2. by injection E2 as <-.
  - split; try apply HI; cbn [PoolClose free conns].
    + constructor.
    + intros c Hc. by apply elem_of_nil in Hc.
    + rewrite len_nil. cbn. pose proof (pi_min _ _ HI). lia.
  - eapply inv_update; [done..|]. by eapply conn_call_inUse.
Qed.

Lemma create_loop_inv ts : forall p, pool_inv p ∅ -> nextID p = len (conns p) ->
  len (conns p) + len ts <= MinConns (p_config p) -> MinConns (p_config p) < 2 ^ 64 ->
  pool_inv (create_loop p ts) ∅.
Proof.
  induction ts as [|[t1 t2] ts IH]; intros p HI Hid Hl Hm; cbn [create_loop]; [done|].
  rewrite len_cons in Hl. pose proof (len_nonneg ts). pose proof (len_nonneg (conns p)).
  apply IH; cbn [createConn snd conns p_config nextID]; try done.
  - apply inv_create; [done|lia|lia].
  - rewrite u64_id by lia. rewrite len_app, len_cons, len_nil. lia.
  - rewrite len_app, len_cons, len_nil. lia.
Qed.

Lemma NewPool_inv db config clock : 0 <= MinConns config < 2 ^ 64 -> pool_inv (NewPool db config clock) ∅.
Proof.
  intros Hm. unfold NewPool. assert (0 <= MinConns (with_defaults config) < 2 ^ 64) as Hd.
  { unfold with_defaults. cbn [MinConns]. destruct (_ =? 0); lia. }
  apply create_loop_inv; cbn [conns p_config nextID]; try done; try apply Hd.
  - split; cbn [free heap conns p_config nextID]; try lia.
    + constructor.
    + intros c Hc. by apply elem_of_nil in Hc.
    + intros c. split; [set_solver|]. intros (o & Ho & _). by rewrite lookup_empty in Ho.
    + intros c o Ho. by rewrite lookup_empty in Ho.
    + rewrite len_nil. lia.
  - rewrite len_nil. unfold len. rewrite length_fmap, length_seq. lia.
Qed.

(** C8: in every state that clients of a new pool can reach, by acquiring
    connections, using and releasing those they hold, and closing the pool, in any
    order and at any times, with the counter of the connections below 2^64: the
    clients hold exactly the connections marked in use, no free connection is held
    or listed twice, and the list [conns] of the pool has at most [MaxConns]
    entries (or [MinConns], when that is more). This is no bound on the
    connections in use: [Acquire] drops entries of [conns] whose connections live
    on ([pool_overcommits]). *)
Theorem pool_invariant db config clock p held : 0 <= MinConns config < 2 ^ 64 ->
  rtc pool_step (NewPool db config clock, ∅) (p, held) -> pool_inv p held.
Proof.
  intros Hm Hs.
  assert (forall x y, rtc pool_step x y -> pool_inv x.1 x.2 -> pool_inv y.1 y.2) as Hrun.
  { induction 1; [done|]. intros Hx. eauto using pool_step_inv. }
  apply (Hrun _ _ Hs). by apply NewPool_inv.
Qed.

(** A client that waits for a connection gets one: once a held connection is
    released, and while no connection is older than [MaxLifetime], the next
    [Acquire] of an open pool succeeds. *)
Theorem released_is_acquired p held c t now t1 t2 :
  pool_inv p held -> p_closed p = false -> nextID p < 2 ^ 64 - 1 -> c ∈ held ->
  (forall x o, heap p !! x = Some o -> now - createdAt o <= MaxLifetime (p_config p)) ->
  exists p1 p2 c', Release p c t = Ok p1 /\ Acquire p1 now t1 t2 = (Ok (inr c'), p2) /\
    (c' ∉ held ∖ {[c]}) /\ pool_inv p2 ({[c']} ∪ held ∖ {[c]}).
Proof.
  intros HI Hcl Hn Hc Hage. pose proof Hc as (o & Ho & Hu)%(pi_held _ _ HI).
  destruct (Release_held p held c o t HI Ho Hu) as (p1 & o1 & E & HI1 & Hf & Hh & Hcr & Hcf & Hcl1 & Hid).
  destruct (free p1) as [|x rest] eqn:Hf1; [by destruct (free p)|].
  assert (x ∈ free p1) as Hx by (rewrite Hf1; left). destruct (pi_idle _ _ HI1 x Hx) as (ox & Hox & _).
  destruct (Acquire_first p1 _ now t1 t2 x rest ox HI1) as (p2 & E2 & _ & _ & HI2); try done.
  - congruence.
  - apply (pi_min _ _ HI1).
  - rewrite Hcf. rewrite Hh in Hox. destruct (decide (x = c)) as [->|Hne].
    + rewrite lookup_insert_eq in Hox. injection Hox as <-. rewrite Hcr. by apply (Hage c).
    + rewrite lookup_insert_ne in Hox by done. by apply (Hage x).
  - exists p1, p2, x. split_and!; try done. by apply (not_held p1 _ x HI1).
Qed.

(** After a transaction has been committed on a connection, the connection
    still carries it: a second commit fails, and so does beginning another
    transaction, until the first is aborted. *)
Theorem committed_connection_is_stuck (m : Manager S) c iso m1 c1 m2 c2 iso' :
  ConnBegin m c iso = (None, c1, m1) -> ConnCommit m1 c1 = Ok (None, c2, m2) ->
  ConnBegin m2 c2 iso' = (Some ErrInProgress, c2, m2) /\
  ConnCommit m2 c2 = Ok (Some (ErrTx ErrFinished), c2, m2) /\
  exists c3 m3, ConnBegin (ConnAbort m2 c2).2 (ConnAbort m2 c2).1 iso' = (None, c3, m3).
Proof.
  unfold ConnBegin, ConnCommit, ConnAbort. destruct (c_tx c) as [tx|] eqn:Ec; [done|].
  unfold Begin at 1. intros [= <- <-]. cbn [c_tx conn_set_tx].
  intros ([[e tx] m'] & E & E2)%bind_ok_inv. cbv beta iota in E2. destruct e; [done|].
  injection E2 as <- <-. apply Commit_committed in E. cbn [c_tx conn_set_tx]. split; [done|]. split.
  - unfold Commit. by rewrite E.
  - by eexists _, _.
Qed.
End proofs.

(** * Runs *)

Definition conf12 : Config := mkConf 2 1 (10 * Minute) 0 SessionMode.
Definition pool0 : Pool mapStore := NewPool store0 conf12 (fun _ => (0, 0)).

Lemma Acquire_cases_witness : acquire_outcome pool0 ∅ 5 (Acquire pool0 5 5 5).
Proof. apply (Acquire_cases pool0 ∅ 5 5 5); [by apply NewPool_inv|reflexivity]. Defined.

Definition pool1 : Pool mapStore := (Acquire pool0 5 5 5).2.

Lemma pool_invariant_witness : pool_inv pool1 {[1]}.
Proof.
  apply (pool_invariant store0 conf12 (fun _ => (0, 0))); [done|]. apply rtc_once.
  replace ({[1]} : gset Z) with ({[1]} ∪ ∅ : gset Z) by set_solver.
  apply (step_Acquire pool0 ∅ 5 5 5 1 pool1); reflexivity.
Defined.

Lemma released_is_acquired_witness : exists p1 p2 c',
  Release pool1 1 7 = Ok p1 /\ Acquire p1 9 9 9 = (Ok (inr c'), p2) /\
  (c' ∉ ({[1]} : gset Z) ∖ {[1]}) /\ pool_inv p2 ({[c']} ∪ ({[1]} : gset Z) ∖ {[1]}).
Proof.
  apply (released_is_acquired pool1 {[1]} 1 7 9 9 9).
  - exact pool_invariant_witness.
  - reflexivity.
  - reflexivity.
  - set_solver.
  - intros x o Hx. change (heap pool1) with ({[1 := mkConn 1 None 0 5 true]} : gmap Z Conn) in Hx.
    apply lookup_singleton_Some in Hx as [_ <-]. by vm_compute.
Defined.

Definition conn0 : Conn := mkConn 1 None 0 0 true.
Definition begun := ConnBegin mgr0 conn0 Serializable.

Lemma committed_connection_is_stuck_witness : exists c2 m2,
  ConnCommit begun.2 begun.1.2 = Ok (None, c2, m2) /\
  ConnBegin m2 c2 Serializable = (Some ErrInProgress, c2, m2).
Proof.
  eexists _, _. split; [vm_compute; reflexivity|].
  eapply (committed_connection_is_stuck mgr0 conn0 Serializable begun.2 begun.1.2);
    [reflexivity|vm_compute; reflexivity].
Defined.

(** Two connections used and given back, then three taken after the idle time. *)
Definition overcommit : res (list Z) :=
  let '(r1, p) := Acquire pool0 1 1 1 in let '(r2, p) := Acquire p 1 1 1 in
  p ← Release p 1 2; p ← Release p 2 2;
  let late := 11 * Minute in
  let '(r1, p) := Acquire p late late late in let '(r2, p) := Acquire p late late late in
  let '(r3, p) := Acquire p late late late in
  Ok (List.filter (fun c => if heap p !! c is Some o then inUse o else false) [1; 2; 3]).

(** The limit of connections does not hold when idle ones are dropped: with
    [MaxConns] two, three connections are in use at once, because the connection
    that [Acquire] drops from the pool is one it then hands out. *)
Theorem pool_overcommits : MaxConns (p_config pool0) = 2 /\ overcommit = Ok [1; 2; 3].
Proof. split; vm_compute; reflexivity. Qed.
