(* ===== verification/Relational.v ===== *)
(** The relational layer: src/internal/relational/types.go and table.go.

    A row is one pair of the store: its key encodes the prefix of the table and
    the values of the primary key, its value the values of the other columns.
    The tables are kept by name; a table definition is reached through the map,
    so that changing it there is what the pointers of the code do. *)
From S2P Require Import Prelude Keys Encoding KV Storage.
#[local] Open Scope Z_scope.

(** * Types (types.go) *)

Definition TInt64 : Z := 1.
Definition TBytes : Z := 2.
Definition TBool : Z := 3.
Definition TFloat64 : Z := 4.

Record ColumnDef := mkCol { c_Name : bytes; c_Type : Z }.
Record IndexDef := mkIndex { i_Name : bytes; i_Keys : list bytes; i_Unique : bool }.
Record TableDef := mkTable {
  t_Name : bytes; t_Cols : list ColumnDef; PKeys : Z; Indexes : list IndexDef; Prefix : Z }.

(** The struct [Record]. *)
Record Rec := mkRec { r_Cols : list bytes; r_Vals : list Value }.

#[global] Instance Rec_eq_dec : EqDecision Rec.
Proof. solve_decision. Defined.

Inductive rel_error :=
| ErrTableExists (t : bytes) | ErrNoPrimaryKey | ErrTableNotFound (t : bytes)
| ErrColumnNotFound (c : bytes) | ErrMissingKey (c : bytes) | ErrStore (e : kv_error).

(** The zero [Value]. *)
Definition no_value : Value := zero_value 0.

Fixpoint Rec_Get_loop (cols : list bytes) (vals : list Value) (i : Z) (col : bytes) : res (Value * Z) :=
  match cols with
  | [] => Ok (no_value, -1)
  | c :: cols =>
      if bool_decide (c = col) then v ← index vals i; Ok (v, i)
      else Rec_Get_loop cols vals (i + 1) col
  end.

Definition Rec_Get (r : Rec) (col : bytes) : res (Value * Z) := Rec_Get_loop (r_Cols r) (r_Vals r) 0 col.

(** The index of the first column of that name. *)
Fixpoint find_col (cols : list ColumnDef) (name : bytes) : option nat :=
  match cols with
  | [] => None
  | c :: cols => if bool_decide (c_Name c = name) then Some 0%nat else Datatypes.S <$> find_col cols name
  end.

(** The loop over the columns of the record in [checkRecord]. *)
Fixpoint fill (tdef : TableDef) (names : list bytes) (rvals : list Value) (i : Z) (vals : list Value)
    : res (rel_error + list Value) :=
  match names with
  | [] => Ok (inr vals)
  | col :: names =>
      match find_col (t_Cols tdef) col with
      | None => Ok (inl (ErrColumnNotFound col))
      | Some j => v ← index rvals i; fill tdef names rvals (i + 1) (<[j := v]> vals)
      end
  end.

(** The loop over the primary key from column [i] on; [n] columns are left. *)
Fixpoint check_keys (tdef : TableDef) (vals : list Value) (n : nat) (i : Z) : res (option rel_error) :=
  match n with
  | O => Ok None
  | Datatypes.S n =>
      v ← index vals i;
      if v_type v =? 0 then c ← index (t_Cols tdef) i; Ok (Some (ErrMissingKey (c_Name c)))
      else check_keys tdef vals n (i + 1)
  end.

Definition default_vals (tdef : TableDef) : list Value :=
  (fun c => zero_value (TypeByColType (u8 (c_Type c)))) <$> t_Cols tdef.

Definition checkRecord (tdef : TableDef) (rec : Rec) (n : Z) : res (rel_error + list Value) :=
  r ← fill tdef (r_Cols rec) (r_Vals rec) 0 (default_vals tdef);
  match r with
  | inl e => Ok (inl e)
  | inr vals =>
      if n =? PKeys tdef then l ← slice_to vals (PKeys tdef); Ok (inr l)
      else
        e ← check_keys tdef vals (Z.to_nat (PKeys tdef)) 0;
        Ok (match e with Some e => inl e | None => inr vals end)
  end.

(** * Tables (table.go) *)

Definition hash_byte (h c : Z) : Z := u32 (u32 (u32 (Z.shiftl h 5) + h) + c).
Definition hashTableName (name : bytes) : Z := foldl hash_byte 5381 name.

Definition underscore : Z := 95.

(** The values of the columns of the index; an unknown column is left out. *)
Fixpoint indexKeyVals (tdef : TableDef) (keys : list bytes) (row : list Value) : res (list Value) :=
  match keys with
  | [] => Ok []
  | k :: keys =>
      match find_col (t_Cols tdef) k with
      | Some j => v ← index row (Z.of_nat j); vs ← indexKeyVals tdef keys row; Ok (v :: vs)
      | None => indexKeyVals tdef keys row
      end
  end.

(** The key of an index entry. *)
Definition index_key (tdef : TableDef) (idx : IndexDef) (vals : list Value) : res bytes :=
  kvals ← indexKeyVals tdef (i_Keys idx) vals;
  EncodeKey [] (hashTableName (t_Name tdef ++ underscore :: i_Name idx)) kvals.

Section code.
Context {S : Type} `{Storage S}.

Record DB := mkDB { db_kv : S; tables : gmap bytes TableDef }.

Definition OpenDB (kv : S) : DB := mkDB kv ∅.

Definition TableDef_ (db : DB) (name : bytes) : option TableDef := tables db !! name.

Definition set_kv (db : DB) (kv : S) : DB := mkDB kv (tables db).
Definition set_table (db : DB) (t : TableDef) : DB := mkDB (db_kv db) (<[t_Name t := t]> (tables db)).

Definition CreateTable (db : DB) (tdef : TableDef) : option rel_error * DB :=
  match tables db !! t_Name tdef with
  | Some _ => (Some (ErrTableExists (t_Name tdef)), db)
  | None =>
      if PKeys tdef <? 1 then (Some ErrNoPrimaryKey, db)
      else (None, set_table db (mkTable (t_Name tdef) (t_Cols tdef) (PKeys tdef) (Indexes tdef)
                                  (hashTableName (t_Name tdef))))
  end.

(** The record after a hit holds the decoded value under the names of all columns. *)
Definition dbGet (db : DB) (tdef : TableDef) (rec : Rec) : res ((rel_error + bool) * Rec) :=
  r ← checkRecord tdef rec (PKeys tdef);
  match r with
  | inl e => Ok (inl e, rec)
  | inr vals =>
      key ← EncodeKey [] (Prefix tdef) vals;
      v ← st_Get (db_kv db) key;
      match v with
      | None => Ok (inr false, rec)
      | Some val => vs ← DecodeValues val []; Ok (inr true, mkRec (c_Name <$> t_Cols tdef) vs)
      end
  end.

Definition Get (db : DB) (table : bytes) (rec : Rec) : res ((rel_error + bool) * Rec) :=
  match tables db !! table with
  | None => Ok (inl (ErrTableNotFound table), rec)
  | Some tdef => dbGet db tdef rec
  end.

(** The [mode] is not used. *)
Definition updateIndex (kv : S) (tdef : TableDef) (idx : IndexDef) (vals : list Value) (mode : Z)
    : res (option kv_error * S) :=
  ikey ← index_key tdef idx vals;
  pk ← slice_to vals (PKeys tdef);
  ival ← EncodeValues [] pk;
  st_Set kv ikey ival.

Definition deleteIndex (kv : S) (tdef : TableDef) (idx : IndexDef) (vals : list Value)
    : res (option kv_error * S) :=
  ikey ← index_key tdef idx vals;
  '(_, err, kv) ← st_Del kv ikey; Ok (err, kv).

(** The loops over the indexes of a table: the first error ends them. *)
Fixpoint each_index (f : S -> IndexDef -> res (option kv_error * S)) (kv : S) (l : list IndexDef)
    : res (option kv_error * S) :=
  match l with
  | [] => Ok (None, kv)
  | idx :: l =>
      '(err, kv) ← f kv idx;
      match err with Some e => Ok (Some e, kv) | None => each_index f kv l end
  end.

Definition dbUpdate (db : DB) (tdef : TableDef) (rec : Rec) (mode : Z) : res ((rel_error + bool) * DB) :=
  r ← checkRecord tdef rec (len (t_Cols tdef));
  match r with
  | inl e => Ok (inl e, db)
  | inr vals =>
      pk ← slice_to vals (PKeys tdef);
      key ← EncodeKey [] (Prefix tdef) pk;
      rest ← slice_from vals (PKeys tdef);
      val ← EncodeValues [] rest;
      old ← (if mode =? 0 then st_Get (db_kv db) key else Ok None);
      match old with
      | Some _ => Ok (inr false, db)
      | None =>
          '(err, kv) ← st_Set (db_kv db) key val;
          match err with
          | Some e => Ok (inl (ErrStore e), set_kv db kv)
          | None =>
              '(err, kv) ← each_index (fun kv idx => updateIndex kv tdef idx vals mode) kv (Indexes tdef);
              match err with
              | Some e => Ok (inl (ErrStore e), set_kv db kv)
              | None => Ok (inr true, set_kv db kv)
              end
          end
      end
  end.

Definition Insert (db : DB) (table : bytes) (rec : Rec) : res ((rel_error + bool) * DB) :=
  match tables db !! table with
  | None => Ok (inl (ErrTableNotFound table), db)
  | Some tdef => dbUpdate db tdef rec 0
  end.

Definition Update (db : DB) (table : bytes) (rec : Rec) : res ((rel_error + bool) * DB) :=
  match tables db !! table with
  | None => Ok (inl (ErrTableNotFound table), db)
  | Some tdef => dbUpdate db tdef rec 1
  end.

(** The old values: the primary key in a slice of all columns, to which the
    decoded columns are appended. *)
Definition old_vals (tdef : TableDef) (pk : list Value) (oldVal : bytes) : res (list Value) :=
  DecodeValues oldVal (take (length (t_Cols tdef)) pk ++
    replicate (length (t_Cols tdef) - length pk) no_value).

Definition dbDelete (db : DB) (tdef : TableDef) (rec : Rec) : res ((rel_error + bool) * DB) :=
  r ← checkRecord tdef rec (PKeys tdef);
  match r with
  | inl e => Ok (inl e, db)
  | inr vals =>
      key ← EncodeKey [] (Prefix tdef) vals;
      old ← st_Get (db_kv db) key;
      match old with
      | None => Ok (inr false, db)
      | Some oldVal =>
          '(deleted, err, kv) ← st_Del (db_kv db) key;
          match err with
          | Some e => Ok (inl (ErrStore e), set_kv db kv)
          | None =>
              if negb deleted then Ok (inr false, set_kv db kv)
              else if 0 <? len (Indexes tdef) then
                oldVals ← old_vals tdef vals oldVal;
                '(err, kv) ← each_index (fun kv idx => deleteIndex kv tdef idx oldVals) kv (Indexes tdef);
                match err with
                | Some e => Ok (inl (ErrStore e), set_kv db kv)
                | None => Ok (inr true, set_kv db kv)
                end
              else Ok (inr true, set_kv db kv)
          end
      end
  end.

Definition Delete (db : DB) (table : bytes) (rec : Rec) : res ((rel_error + bool) * DB) :=
  match tables db !! table with
  | None => Ok (inl (ErrTableNotFound table), db)
  | Some tdef => dbDelete db tdef rec
  end.

(** * Scanning *)

Record Scanner := mkScanner { sc_tdef : TableDef; sc_iter : st_iter; sc_stop : bytes }.

Definition Scan (db : DB) (tdef : TableDef) (start stop : list Value) (cmp1 cmp2 : Z) : res Scanner :=
  key1 ← (if 0 <? len start then EncodeKeyPartial [] (Prefix tdef) start cmp1
          else EncodeKey [] (Prefix tdef) []);
  key2 ← (if 0 <? len stop then EncodeKeyPartial [] (Prefix tdef) stop cmp2 else Ok []);
  it ← st_Seek (db_kv db) key1;
  Ok (mkScanner tdef it key2).

Definition Scanner_Valid (s : Scanner) : res bool :=
  ok ← st_Valid (sc_iter s);
  if negb ok then Ok false
  else
    past ← (if 0 <? len (sc_stop s) then k ← st_Key (sc_iter s); Ok (0 <? CompareKeys k (sc_stop s))
            else Ok false);
    if past : bool then Ok false
    else
      k ← st_Key (sc_iter s);
      p ← slice_to k 4;
      u ← be_uint 4 p;
      Ok (u =? Prefix (sc_tdef s)).

Definition Scanner_Next (db : DB) (s : Scanner) : res Scanner :=
  it ← st_Next (db_kv db) (sc_iter s); Ok (mkScanner (sc_tdef s) it (sc_stop s)).

Definition Scanner_Record (s : Scanner) : res Rec :=
  v ← st_Val (sc_iter s);
  vs ← DecodeValues v [];
  Ok (mkRec (c_Name <$> t_Cols (sc_tdef s)) vs).
End code.
Arguments DB _ : clear implicits.
Arguments Scanner _ {_}.
