(* ===== verification/RelSpec.v ===== *)
(** Correctness of the relational layer.

    The rows of the tables refine a map from primary keys to the other columns,
    over any store that keeps the contract of [StorageOK]; a record with values
    of the types of its columns gives a row of the types of the table. *)
From S2P Require Import Prelude Keys Encoding KV Storage Relational.
#[local] Open Scope Z_scope.

#[global] Instance Value_countable : Countable Value.
Proof.
  refine (inj_countable' (fun v => (v_type v, v_i64 v, v_str v, v_bool v, v_f64 v))
    (fun '(t, i, s, b, f) => mkValue t i s b f) _). by intros [].
Defined.

(** * Typed rows *)

Definition names (cols : list ColumnDef) : list bytes := c_Name <$> cols.

(** A value of the type of the column, with nothing in the other fields. *)
Definition of_type (c : ColumnDef) (v : Value) : Prop :=
  v_type v = c_Type c /\ value_ok v /\ canon v = v.

Abbreviation typed := (Forall2 of_type).

#[global] Instance of_type_dec c v : Decision (of_type c v).
Proof. unfold of_type. apply _. Defined.

Record table_ok (t : TableDef) : Prop := {
  to_names : NoDup (names (t_Cols t));
  to_types : Forall (fun c => 1 <= c_Type c <= 4) (t_Cols t);
  to_keys : 1 <= PKeys t <= len (t_Cols t);
  to_prefix : 0 <= Prefix t < 2 ^ 32 }.

Lemma find_col_Some cols name j : find_col cols name = Some j ->
  exists c, cols !! j = Some c /\ c_Name c = name.
Proof.
  revert j. induction cols as [|c cols IH]; intros j; simpl; [done|].
  case_bool_decide as E; [intros [= <-]; by exists c|].
  intros (j' & Hj & ->)%fmap_Some_1. by apply IH.
Qed.

Lemma find_col_lookup cols j c : NoDup (names cols) -> cols !! j = Some c -> find_col cols (c_Name c) = Some j.
Proof.
  revert j. induction cols as [|c0 cols IH]; intros j Hnd; [done|]. apply NoDup_cons in Hnd as [Hn Hnd].
  destruct j as [|j]; simpl; [intros [= ->]; by rewrite bool_decide_true|].
  intros Hj. rewrite bool_decide_false; [by rewrite (IH j)|]. intros E. apply Hn. rewrite E.
  apply list_elem_of_fmap. exists c. split; [done|]. by eapply list_elem_of_lookup_2.
Qed.

Lemma find_col_In cols name : name ∈ names cols -> is_Some (find_col cols name).
Proof.
  intros (c & -> & Hc)%list_elem_of_fmap. induction Hc as [c cols|c c' cols Hc IH]; simpl.
  - by rewrite bool_decide_true.
  - case_bool_decide; [done|]. destruct IH as [j ->]. done.
Qed.

(** The value that a record gives to a column: the one under its name. *)
Fixpoint rec_lookup (cols : list bytes) (vals : list Value) (name : bytes) : option Value :=
  match cols, vals with
  | c :: cols, v :: vals => if bool_decide (c = name) then Some v else rec_lookup cols vals name
  | _, _ => None
  end.

(** The row that a record stands for: columns it does not name have the zero
    value of their type. *)
Definition row_of (tdef : TableDef) (rec : Rec) : list Value :=
  (fun c => default (zero_value (c_Type c)) (rec_lookup (r_Cols rec) (r_Vals rec) (c_Name c))) <$> t_Cols tdef.

(** The loop of [checkRecord] puts every value of the record in its column. *)
Lemma fill_spec tdef ns : NoDup (names (t_Cols tdef)) -> forall rvals pre ws vals,
  NoDup ns -> (forall n, n ∈ ns -> n ∈ names (t_Cols tdef)) -> length ws = length ns -> rvals = pre ++ ws ->
  length vals = length (t_Cols tdef) ->
  exists vals', fill tdef ns rvals (len pre) vals = Ok (inr vals') /\ length vals' = length (t_Cols tdef) /\
    forall j c, t_Cols tdef !! j = Some c ->
      vals' !! j = match rec_lookup ns ws (c_Name c) with Some v => Some v | None => vals !! j end.
Proof.
  intros Hnd. induction ns as [|n ns IH]; intros rvals pre ws vals Hns Hin Hlen -> Hv; cbn [fill].
  - exists vals. split; [done|]. split; [done|]. by intros.
  - apply NoDup_cons in Hns as [Hn Hns]. destruct ws as [|w ws]; [done|].
    destruct (find_col_In (t_Cols tdef) n) as [j Hj]; [apply Hin; left|]. rewrite Hj.
    destruct (find_col_Some _ _ _ Hj) as (cj & Hcj & Ecj).
    assert (index (pre ++ w :: ws) (len pre) = Ok w) as ->.
    { unfold index. pose proof (len_nonneg pre). rewrite (proj2 (Z.leb_le _ _)) by done.
      unfold len. rewrite Nat2Z.id. by rewrite list_lookup_middle. }
    rewrite bind_ok. replace (len pre + 1) with (len (pre ++ [w])) by len_lia.
    destruct (IH (pre ++ w :: ws) (pre ++ [w]) ws (<[j := w]> vals)) as (vals' & -> & Hl' & Hv'); try done.
    + intros m Hm. apply Hin. by right.
    + by injection Hlen.
    + by rewrite <-app_assoc.
    + by rewrite length_insert.
    + exists vals'. split; [done|]. split; [done|]. intros i c Hc. rewrite (Hv' _ _ Hc). cbn [rec_lookup].
      assert (j < length vals)%nat by (rewrite Hv; by eapply lookup_lt_Some).
      case_bool_decide as E.
      * assert (i = j) as -> by (pose proof (find_col_lookup _ _ _ Hnd Hc) as E2; rewrite <-E, Hj in E2; congruence).
        assert (rec_lookup ns ws (c_Name c) = None) as ->.
        { rewrite <-E. clear -Hn. revert ws. induction ns as [|m ns IH]; intros [|w ws]; simpl; try done.
          apply not_elem_of_cons in Hn as [Hm Hn]. rewrite bool_decide_false by congruence. by apply IH. }
        by apply list_lookup_insert_eq.
      * destruct (rec_lookup ns ws (c_Name c)); [done|]. apply list_lookup_insert_ne.
        intros ->. rewrite Hcj in Hc. injection Hc as ->. congruence.
Qed.

Lemma TypeByColType_id c : 1 <= c_Type c <= 4 -> TypeByColType (u8 (c_Type c)) = c_Type c.
Proof.
  intros Hc. assert (c_Type c = 1 \/ c_Type c = 2 \/ c_Type c = 3 \/ c_Type c = 4) as [-> |[-> |[-> | ->]]] by lia;
    reflexivity.
Qed.

Lemma default_vals_lookup tdef j c : table_ok tdef -> t_Cols tdef !! j = Some c ->
  default_vals tdef !! j = Some (zero_value (c_Type c)).
Proof.
  intros Ht Hj. unfold default_vals. rewrite list_lookup_fmap, Hj. simpl. rewrite TypeByColType_id; [done|].
  pose proof (to_types _ Ht) as Hf. rewrite Forall_forall in Hf. apply Hf. by eapply list_elem_of_lookup_2.
Qed.

(** A record whose names are columns of the table, with a value for each. *)
Definition rec_ok (tdef : TableDef) (rec : Rec) : Prop :=
  NoDup (r_Cols rec) /\ (forall n, n ∈ r_Cols rec -> n ∈ names (t_Cols tdef)) /\
  length (r_Vals rec) = length (r_Cols rec).

Lemma fill_row tdef rec : table_ok tdef -> rec_ok tdef rec ->
  fill tdef (r_Cols rec) (r_Vals rec) 0 (default_vals tdef) = Ok (inr (row_of tdef rec)).
Proof.
  intros Ht (H1 & H2 & H3).
  destruct (fill_spec tdef (r_Cols rec) (to_names _ Ht) (r_Vals rec) [] (r_Vals rec) (default_vals tdef))
    as (vals & E & Hl & Hv); try done.
  { unfold default_vals. by rewrite length_fmap. }
  rewrite len_nil in E. rewrite E. do 2 f_equal. apply list_eq. intros j. unfold row_of. rewrite list_lookup_fmap.
  destruct (t_Cols tdef !! j) as [c|] eqn:Hj; simpl.
  - rewrite (Hv _ _ Hj), (default_vals_lookup _ _ _ Ht Hj). by destruct (rec_lookup _ _ _).
  - apply lookup_ge_None in Hj. apply lookup_ge_None. lia.
Qed.

(** The values of the record have the types of their columns. *)
Definition rec_typed (tdef : TableDef) (rec : Rec) : Prop :=
  forall c v, c ∈ t_Cols tdef -> rec_lookup (r_Cols rec) (r_Vals rec) (c_Name c) = Some v -> of_type c v.

Lemma zero_of_type c : 1 <= c_Type c <= 4 -> of_type c (zero_value (c_Type c)).
Proof.
  intros Hc. unfold of_type, value_ok.
  assert (c_Type c = 1 \/ c_Type c = 2 \/ c_Type c = 3 \/ c_Type c = 4) as [-> |[-> |[-> | ->]]] by lia;
    (split; [done|]); (split; [|done]).
  - left. split; [done|]. simpl. lia.
  - right. left. split; [done|]. constructor.
  - right. right. by left.
  - right. right. right. split; [done|]. unfold f64_ok, SIGN. simpl. split; [lia|]. split; [lia|done].
Qed.

Lemma row_of_typed tdef rec : table_ok tdef -> rec_typed tdef rec -> typed (t_Cols tdef) (row_of tdef rec).
Proof.
  intros Ht Hr. unfold row_of, rec_typed in *. pose proof (to_types _ Ht) as Hty.
  induction Hty as [|c cols Hc Hty IH]; simpl; constructor.
  - destruct (rec_lookup _ _ (c_Name c)) as [v|] eqn:E; simpl; [|by apply zero_of_type].
    apply Hr; [left|done].
  - apply IH. intros c' v Hc'. apply Hr. by right.
Qed.

Lemma typed_length cols vs : typed cols vs -> length vs = length cols.
Proof. intros H. symmetry. by eapply Forall2_length. Qed.

Lemma check_keys_ok tdef vals : Forall (fun v => v_type v <> 0) vals ->
  forall n i, 0 <= i -> i + Z.of_nat n <= len vals -> check_keys tdef vals n i = Ok None.
Proof.
  intros Hv. induction n as [|n IH]; intros i Hi Hn; cbn [check_keys]; [done|].
  destruct (lookup_lt_is_Some_2 vals (Z.to_nat i)) as [v Hvi]; [unfold len in Hn; lia|].
  unfold index. rewrite (proj2 (Z.leb_le _ _)) by lia. rewrite Hvi. cbn [of_option]. rewrite bind_ok.
  rewrite Forall_forall in Hv. rewrite (proj2 (Z.eqb_neq _ _)) by (apply Hv; by eapply list_elem_of_lookup_2).
  apply IH; lia.
Qed.

Lemma typed_nonzero cols vs : Forall (fun c => 1 <= c_Type c <= 4) cols -> typed cols vs ->
  Forall (fun v => v_type v <> 0) vs.
Proof.
  intros Hc Hv. induction Hv as [|c v cols vs [E _] Hv IH]; constructor.
  - apply Forall_cons in Hc as [Hc _]. lia.
  - apply IH. by apply Forall_cons in Hc as [_ Hc].
Qed.

Lemma slice_to_take {A} (l : list A) n : 0 <= n <= len l -> slice_to l n = Ok (take (Z.to_nat n) l).
Proof. intros Hn. unfold slice_to. by rewrite !(proj2 (Z.leb_le _ _)) by lia. Qed.

Lemma slice_from_drop {A} (l : list A) n : 0 <= n <= len l -> slice_from l n = Ok (drop (Z.to_nat n) l).
Proof. intros Hn. unfold slice_from. by rewrite !(proj2 (Z.leb_le _ _)) by lia. Qed.

Lemma row_len tdef rec : len (row_of tdef rec) = len (t_Cols tdef).
Proof. unfold row_of, len. by rewrite length_fmap. Qed.

(** All columns are asked for. *)
Lemma checkRecord_row tdef rec : table_ok tdef -> rec_ok tdef rec -> rec_typed tdef rec ->
  checkRecord tdef rec (len (t_Cols tdef)) = Ok (inr (row_of tdef rec)).
Proof.
  intros Ht Hr Hty. unfold checkRecord. rewrite fill_row by done. rewrite bind_ok.
  pose proof (to_keys _ Ht). pose proof (row_len tdef rec) as Hl.
  destruct (Z.eqb_spec (len (t_Cols tdef)) (PKeys tdef)) as [E|E].
  - rewrite slice_to_take by lia. rewrite bind_ok, <-E, <-Hl, take_to_len. done.
  - rewrite check_keys_ok; [done| |lia|lia].
    eapply typed_nonzero; [apply Ht|]. by apply row_of_typed.
Qed.

(** Only the primary key is asked for. *)
Lemma checkRecord_key tdef rec : table_ok tdef -> rec_ok tdef rec ->
  checkRecord tdef rec (PKeys tdef) = Ok (inr (take (Z.to_nat (PKeys tdef)) (row_of tdef rec))).
Proof.
  intros Ht Hr. unfold checkRecord. rewrite fill_row by done. rewrite bind_ok, Z.eqb_refl.
  pose proof (to_keys _ Ht). pose proof (row_len tdef rec). by rewrite slice_to_take by lia.
Qed.

(** C31: a record that names columns of the table, each once and in any order,
    with values of their types, passes [checkRecord], and the result is a row
    of the types of the table: under each column the value of the record, or the
    zero value of the type of the column where the record has none. *)
Theorem checkRecord_typed tdef rec : table_ok tdef -> rec_ok tdef rec -> rec_typed tdef rec ->
  checkRecord tdef rec (len (t_Cols tdef)) = Ok (inr (row_of tdef rec)) /\
  typed (t_Cols tdef) (row_of tdef rec).
Proof. intros Ht Hr Hty. split; [by apply checkRecord_row|by apply row_of_typed]. Qed.

(** A record with an unknown column is rejected with that column, whatever
    the columns before it hold, and an unknown table is reported by every
    operation; the database is left alone. *)
Theorem unknown_names_rejected {S : Type} `{Storage S} (db : DB S) table tdef rec col rest :
  table_ok tdef -> rec_ok tdef rec -> tables db !! table = Some tdef -> (col ∉ names (t_Cols tdef)) ->
  let bad := mkRec (r_Cols rec ++ col :: rest) (r_Vals rec) in
  Insert db table bad = Ok (inl (ErrColumnNotFound col), db) /\
  Update db table bad = Ok (inl (ErrColumnNotFound col), db) /\
  Delete db table bad = Ok (inl (ErrColumnNotFound col), db) /\
  Get db table bad = Ok (inl (ErrColumnNotFound col), bad) /\
  forall t, tables db !! t = None ->
    Insert db t rec = Ok (inl (ErrTableNotFound t), db) /\ Update db t rec = Ok (inl (ErrTableNotFound t), db) /\
    Delete db t rec = Ok (inl (ErrTableNotFound t), db) /\ Get db t rec = Ok (inl (ErrTableNotFound t), rec).
Proof.
  intros Ht (H1 & H2 & H3) Hdb Hcol bad.
  assert (forall ns rvals i vals, length rvals = (Z.to_nat i + length ns)%nat -> 0 <= i ->
    (forall n, n ∈ ns -> n ∈ names (t_Cols tdef)) ->
    fill tdef (ns ++ col :: rest) rvals i vals = Ok (inl (ErrColumnNotFound col))) as Hfill.
  { induction ns as [|n ns IH]; intros rvals i vals Hl Hi Hin; simpl.
    - destruct (find_col _ col) as [j|] eqn:E; [|done]. exfalso. apply Hcol.
      apply find_col_Some in E as (c & Hc & <-). apply list_elem_of_fmap. exists c. split; [done|].
      by eapply list_elem_of_lookup_2.
    - destruct (find_col_In _ n (Hin n ltac:(left))) as [j ->]. simpl in Hl.
      destruct (lookup_lt_is_Some_2 rvals (Z.to_nat i)) as [v Hv]; [lia|].
      unfold index. rewrite (proj2 (Z.leb_le _ _)), Hv by lia. cbn [of_option]. rewrite bind_ok.
      apply IH; [lia|lia|]. intros m Hm. apply Hin. by right. }
  assert (forall n, checkRecord tdef bad n = Ok (inl (ErrColumnNotFound col))) as Hck.
  { intros n. unfold checkRecord, bad. cbn [r_Cols r_Vals]. by rewrite Hfill. }
  unfold Insert, Update, Delete, Get, dbUpdate, dbDelete, dbGet. rewrite Hdb, !Hck, !bind_ok.
  split_and!; try done. intros t Ht'. by rewrite Ht'.
Qed.

(** * The tables as maps *)

(** For each table the rows: the primary key and the other columns. *)
Abbreviation rows_map := (gmap (list Value) (list Value)).
Abbreviation abs_db := (gmap bytes rows_map).

Definition rows (A : abs_db) (t : bytes) : rows_map := default ∅ (A !! t).
Definition set_rows (A : abs_db) (t : bytes) (R : rows_map) : abs_db := <[t := R]> A.

Inductive rel_op := RInsert (t : bytes) (r : Rec) | RUpdate (t : bytes) (r : Rec)
| RDelete (t : bytes) (r : Rec) | RGet (t : bytes) (r : Rec).

Inductive rel_out := RDone (b : bool) | RFound (b : bool) (r : Rec).

Definition op_table (o : rel_op) : bytes :=
  match o with RInsert t _ | RUpdate t _ | RDelete t _ | RGet t _ => t end.
Definition op_rec (o : rel_op) : Rec :=
  match o with RInsert _ r | RUpdate _ r | RDelete _ r | RGet _ r => r end.

Definition pk_of (d : TableDef) (r : Rec) : list Value := take (Z.to_nat (PKeys d)) (row_of d r).
Definition rest_of (d : TableDef) (r : Rec) : list Value := drop (Z.to_nat (PKeys d)) (row_of d r).

(** What an operation does to the table it names. *)
Definition rel_spec (d : TableDef) (R : rows_map) (o : rel_op) : rel_out * rows_map :=
  match o with
  | RInsert _ r =>
      match R !! pk_of d r with
      | Some _ => (RDone false, R)
      | None => (RDone true, <[pk_of d r := rest_of d r]> R)
      end
  | RUpdate _ r => (RDone true, <[pk_of d r := rest_of d r]> R)
  | RDelete _ r => (RDone (bool_decide (is_Some (R !! pk_of d r))), delete (pk_of d r) R)
  | RGet _ r =>
      match R !! pk_of d r with
      | Some vs => (RFound true (mkRec (names (t_Cols d)) vs), R)
      | None => (RFound false r, R)
      end
  end.

Fixpoint rel_spec_run (T : gmap bytes TableDef) (A : abs_db) (os : list rel_op) : list rel_out :=
  match os with
  | [] => []
  | o :: os =>
      match T !! op_table o with
      | Some d =>
          let '(r, R) := rel_spec d (rows A (op_table o)) o in
          r :: rel_spec_run T (set_rows A (op_table o) R) os
      | None => []
      end
  end.

Definition rel_op_ok (T : gmap bytes TableDef) (o : rel_op) : Prop :=
  exists d, T !! op_table o = Some d /\ rec_ok d (op_rec o) /\ rec_typed d (op_rec o).

Section refinement.
Context {S : Type} `{StorageOK S}.
Implicit Types (db : DB S) (M : gmap bytes bytes).

(** An error ends the run. *)
Definition rel_step db (o : rel_op) : res (rel_out * DB S) :=
  match o with
  | RInsert t r => '(x, db) ← Insert db t r; if x is inr b then Ok (RDone b, db) else Panic
  | RUpdate t r => '(x, db) ← Update db t r; if x is inr b then Ok (RDone b, db) else Panic
  | RDelete t r => '(x, db) ← Delete db t r; if x is inr b then Ok (RDone b, db) else Panic
  | RGet t r => '(x, r) ← Get db t r; if x is inr b then Ok (RFound b r, db) else Panic
  end.

Fixpoint rel_run db (os : list rel_op) : res (list rel_out) :=
  match os with
  | [] => Ok []
  | o :: os => '(r, db) ← rel_step db o; rs ← rel_run db os; Ok (r :: rs)
  end.

Definition key_of (d : TableDef) (pk : list Value) : bytes := be_bytes 4 (Prefix d) ++ encs pk.

Abbreviation key_cols d := (take (Z.to_nat (PKeys d)) (t_Cols d)).
Abbreviation rest_cols d := (drop (Z.to_nat (PKeys d)) (t_Cols d)).

(** Tables without indexes, whose names hash to different prefixes. *)
Definition tables_ok (T : gmap bytes TableDef) : Prop :=
  (forall t d, T !! t = Some d -> table_ok d /\ Indexes d = []) /\
  (forall t t' d d', T !! t = Some d -> T !! t' = Some d' -> Prefix d = Prefix d' -> t = t').

(** The store holds the rows of every table, and they have its types. *)
Definition holds (T : gmap bytes TableDef) (A : abs_db) M : Prop :=
  forall t d, T !! t = Some d ->
    (forall pk, typed (key_cols d) pk -> M !! key_of d pk = encs <$> (rows A t !! pk)) /\
    (forall pk vs, rows A t !! pk = Some vs -> typed (key_cols d) pk /\ typed (rest_cols d) vs).

(** The store holds nothing else. *)
Definition covered (T : gmap bytes TableDef) (A : abs_db) M : Prop :=
  forall k v, M !! k = Some v -> exists t d pk vs, T !! t = Some d /\ rows A t !! pk = Some vs /\
    k = key_of d pk /\ v = encs vs.

Definition rel_rep (n : nat) db (A : abs_db) : Prop :=
  tables_ok (tables db) /\ exists M, st_rep n (db_kv db) M /\ holds (tables db) A M /\ covered (tables db) A M.

(** The store takes the pair that an operation may write. *)
Definition rel_op_fits (T : gmap bytes TableDef) (o : rel_op) : Prop :=
  match o with
  | RInsert t r | RUpdate t r =>
      forall d, T !! t = Some d -> st_fits (key_of d (pk_of d r)) (encs (rest_of d r))
  | _ => True
  end.

Lemma typed_value_ok cols vs : typed cols vs -> Forall value_ok vs.
Proof. induction 1 as [|c v cols vs (_ & ? & _)]; by constructor. Qed.

Lemma typed_canon cols vs : typed cols vs -> canon <$> vs = vs.
Proof. induction 1 as [|c v cols vs (_ & _ & E) _ IH]; [done|]. rewrite fmap_cons. by rewrite E, IH. Qed.

Lemma decode_encs cols vs : typed cols vs -> DecodeValues (encs vs) [] = Ok vs.
Proof.
  intros Hv. unfold DecodeValues. rewrite DecodeValues_encs by (done || by eapply typed_value_ok).
  by rewrite app_nil_l, (typed_canon cols).
Qed.

Lemma encs_inj cols cols' vs ws : typed cols vs -> typed cols' ws -> encs vs = encs ws -> vs = ws.
Proof.
  intros Hv Hw E. pose proof (decode_encs _ _ Hv) as E1. rewrite E, (decode_encs _ _ Hw) in E1. congruence.
Qed.

Lemma key_of_inj d d' pk pk' : table_ok d -> table_ok d' ->
  typed (key_cols d) pk -> typed (key_cols d') pk' ->
  key_of d pk = key_of d' pk' -> Prefix d = Prefix d' /\ pk = pk'.
Proof.
  intros Hd Hd' Hp Hp' E. unfold key_of in E. apply app_inj_1 in E as [E1 E2].
  - split; [|by eapply encs_inj]. pose proof (to_prefix _ Hd). pose proof (to_prefix _ Hd').
    apply (f_equal be_val) in E1. by rewrite !be_val_bytes in E1.
  - pose proof (len_be_bytes 4 (Prefix d)). pose proof (len_be_bytes 4 (Prefix d')). unfold len in *. lia.
Qed.

Lemma EncodeKey_typed d pk : typed (key_cols d) pk -> EncodeKey [] (Prefix d) pk = Ok (key_of d pk).
Proof. intros Hp. unfold EncodeKey. rewrite EncodeValues_encs by (by eapply typed_value_ok). done. Qed.

Lemma EncodeValues_typed cols vs : typed cols vs -> EncodeValues [] vs = Ok (encs vs).
Proof. intros Hv. by rewrite EncodeValues_encs by (by eapply typed_value_ok). Qed.

Lemma pk_typed d r : table_ok d -> rec_typed d r -> typed (key_cols d) (pk_of d r).
Proof. intros Hd Hr. apply Forall2_take. by apply row_of_typed. Qed.

Lemma rest_typed d r : table_ok d -> rec_typed d r -> typed (rest_cols d) (rest_of d r).
Proof. intros Hd Hr. apply Forall2_drop. by apply row_of_typed. Qed.

(** A change of one row in the store is a change of one row of the table. *)
Lemma holds_set T A M t d pk x R : tables_ok T -> holds T A M -> T !! t = Some d ->
  typed (key_cols d) pk -> (forall vs, x = Some vs -> typed (rest_cols d) vs) ->
  (forall pk', R !! pk' = if decide (pk' = pk) then x else rows A t !! pk') ->
  holds T (set_rows A t R) (partial_alter (fun _ => encs <$> x) (key_of d pk) M).
Proof.
  intros [HT1 HT2] HM Ht Hpk Hx HR t' d' Ht'. unfold rows, set_rows.
  destruct (HT1 _ _ Ht) as [Hd _]. destruct (HT1 _ _ Ht') as [Hd' _]. destruct (HM _ _ Ht') as [H1 H2].
  destruct (decide (t' = t)) as [->|Hne].
  - assert (d' = d) as -> by congruence. rewrite lookup_insert_eq. simpl. split.
    + intros pk' Hpk'. rewrite HR. destruct (decide (pk' = pk)) as [->|Hp]; [apply lookup_partial_alter_eq|].
      rewrite lookup_partial_alter_ne; [by apply H1|].
      intros E. apply Hp. symmetry. by eapply (key_of_inj d d).
    + intros pk' vs. rewrite HR. destruct (decide (pk' = pk)) as [->|]; [intros ->; auto|apply H2].
  - rewrite lookup_insert_ne by done. split; [|done]. intros pk' Hpk'.
    rewrite lookup_partial_alter_ne; [by apply H1|]. intros E. apply Hne. symmetry.
    eapply HT2; [done..|]. by eapply key_of_inj.
Qed.

Lemma covered_set T A M t d pk x R : covered T A M -> T !! t = Some d ->
  (forall pk', R !! pk' = if decide (pk' = pk) then x else rows A t !! pk') ->
  covered T (set_rows A t R) (partial_alter (fun _ => encs <$> x) (key_of d pk) M).
Proof.
  intros HO Ht HR k v. unfold rows, set_rows. destruct (decide (k = key_of d pk)) as [->|Hk].
  - rewrite lookup_partial_alter_eq. intros (vs & -> & ->)%fmap_Some. exists t, d, pk, vs.
    rewrite lookup_insert_eq. cbn. rewrite HR, decide_True by done. done.
  - rewrite lookup_partial_alter_ne by done. intros (t' & d' & pk' & vs & Ht' & Hr & -> & ->)%HO.
    exists t', d', pk', vs. split; [done|]. split; [|done]. destruct (decide (t' = t)) as [->|Hne]; [|by rewrite lookup_insert_ne].
    rewrite lookup_insert_eq. cbn. assert (d' = d) as -> by congruence.
    rewrite HR, decide_False; [done|]. by intros ->.
Qed.

(** The parts of [dbUpdate] before the store is written. *)
Lemma dbUpdate_row n db t d r mode A M : tables_ok (tables db) -> tables db !! t = Some d ->
  st_rep n (db_kv db) M -> holds (tables db) A M -> rec_ok d r -> rec_typed d r ->
  dbUpdate db d r mode =
    match (if mode =? 0 then rows A t !! pk_of d r else None) with
    | Some _ => Ok (inr false, db)
    | None =>
        '(err, kv) ← st_Set (db_kv db) (key_of d (pk_of d r)) (encs (rest_of d r));
        match err with
        | Some e => Ok (inl (ErrStore e), set_kv db kv)
        | None => Ok (inr true, set_kv db kv)
        end
    end.
Proof.
  intros [HT _] Ht Hst HM Hr Hty. destruct (HT _ _ Ht) as [Hd Hi]. unfold dbUpdate.
  rewrite checkRecord_row by done. rewrite bind_ok. pose proof (to_keys _ Hd) as Hk. pose proof (row_len d r) as Hl.
  rewrite slice_to_take, bind_ok by lia. change (take _ _) with (pk_of d r).
  pose proof (pk_typed d r Hd Hty) as Hpk. rewrite EncodeKey_typed, bind_ok by done.
  rewrite slice_from_drop, bind_ok by lia. change (drop _ _) with (rest_of d r).
  rewrite (EncodeValues_typed (rest_cols d)), bind_ok by (by apply rest_typed). rewrite Hi. cbn [each_index].
  destruct (mode =? 0); [|done]. rewrite (st_Get_ok _ _ M _ Hst). rewrite bind_ok.
  destruct (HM _ _ Ht) as [H1 _]. rewrite H1 by done. by destruct (rows A t !! pk_of d r).
Qed.

Lemma rel_put n db t d r A M : tables_ok (tables db) -> tables db !! t = Some d ->
  st_rep (Datatypes.S n) (db_kv db) M -> holds (tables db) A M -> covered (tables db) A M -> rec_typed d r ->
  st_fits (key_of d (pk_of d r)) (encs (rest_of d r)) ->
  exists kv, st_Set (db_kv db) (key_of d (pk_of d r)) (encs (rest_of d r)) = Ok (None, kv) /\
    rel_rep n (set_kv db kv) (set_rows A t (<[pk_of d r := rest_of d r]> (rows A t))).
Proof.
  intros HT Ht Hst HM HO Hty Hfit. destruct HT as [HT1 HT2] eqn:E. destruct (HT1 _ _ Ht) as [Hd _].
  destruct (st_Set_ok _ _ M (key_of d (pk_of d r)) (encs (rest_of d r)) Hst Hfit) as (kv & -> & Hst').
  assert (forall pk', <[pk_of d r := rest_of d r]> (rows A t) !! pk' =
    if decide (pk' = pk_of d r) then Some (rest_of d r) else rows A t !! pk') as HR.
  { intros pk'. destruct (decide (pk' = pk_of d r)) as [->|]; [by rewrite lookup_insert_eq|]. by rewrite lookup_insert_ne. }
  exists kv. split; [done|]. split; [done|]. eexists. split; [exact Hst'|]. split.
  - apply (holds_set _ A M t d (pk_of d r) (Some (rest_of d r))); try done; [by apply pk_typed|].
    intros vs [= <-]. by apply rest_typed.
  - by apply (covered_set _ A M t d (pk_of d r) (Some (rest_of d r))).
Qed.

Lemma set_rows_same n db A t : rel_rep n db A -> rel_rep n db (set_rows A t (rows A t)).
Proof.
  intros (HT & M & Hst & HM & HO). split; [done|]. exists M. split; [done|].
  assert (forall t', rows (set_rows A t (rows A t)) t' = rows A t') as Hsame.
  { intros t'. unfold rows, set_rows. destruct (decide (t' = t)) as [->|]; [by rewrite lookup_insert_eq|].
    by rewrite lookup_insert_ne. }
  split; [intros t' d' Ht'|intros k v Hk]; setoid_rewrite Hsame; [by apply HM|by apply HO].
Qed.

Lemma rel_rep_le n m db A : (m <= n)%nat -> rel_rep n db A -> rel_rep m db A.
Proof. intros Hle (HT & M & Hst & HM & HO). split; [done|]. exists M. split; [by eapply st_rep_le|done]. Qed.

Lemma rel_delete n db t d r A : rel_rep (Datatypes.S n) db A -> tables db !! t = Some d -> rec_ok d r -> rec_typed d r ->
  exists db', dbDelete db d r = Ok (inr (bool_decide (is_Some (rows A t !! pk_of d r))), db') /\
    tables db' = tables db /\ rel_rep n db' (set_rows A t (delete (pk_of d r) (rows A t))).
Proof.
  intros HR Ht Hr Hty. pose proof HR as (HT & M & Hst & HM & HO). pose proof HT as [HT1 _].
  destruct (HT1 _ _ Ht) as [Hd Hi]. unfold dbDelete. rewrite checkRecord_key, bind_ok by done.
  change (take _ _) with (pk_of d r). pose proof (pk_typed d r Hd Hty) as Hpk.
  rewrite EncodeKey_typed, bind_ok by done. rewrite (st_Get_ok _ _ M _ Hst), bind_ok.
  destruct (HM _ _ Ht) as [H1 _]. rewrite (H1 _ Hpk).
  destruct (rows A t !! pk_of d r) as [vs|] eqn:E; cbn [fmap option_fmap option_map].
  - destruct (st_Del_ok _ _ M (key_of d (pk_of d r)) Hst) as (kv & -> & Hst'). rewrite bind_ok, (H1 _ Hpk), E, Hi.
    assert (forall pk', delete (pk_of d r) (rows A t) !! pk' =
      if decide (pk' = pk_of d r) then None else rows A t !! pk') as HD.
    { intros pk'. destruct (decide (pk' = pk_of d r)) as [->|]; [by rewrite lookup_delete_eq|]. by rewrite lookup_delete_ne. }
    cbn. eexists. split; [done|]. split; [done|]. split; [done|]. eexists. split; [exact Hst'|]. split.
    + by apply (holds_set _ A M t d (pk_of d r) None).
    + by apply (covered_set _ A M t d (pk_of d r) None).
  - eexists. split; [done|]. split; [done|]. rewrite delete_id by done. apply set_rows_same. eapply rel_rep_le; [|done]. lia.
Qed.

Lemma rel_get n db t d r A : rel_rep n db A -> tables db !! t = Some d -> rec_ok d r -> rec_typed d r ->
  dbGet db d r = Ok (match rows A t !! pk_of d r with
    | Some vs => (inr true, mkRec (names (t_Cols d)) vs)
    | None => (inr false, r) end).
Proof.
  intros (HT & M & Hst & HM & HO) Ht Hr Hty. pose proof HT as [HT1 _]. destruct (HT1 _ _ Ht) as [Hd Hi].
  unfold dbGet. rewrite checkRecord_key, bind_ok by done. change (take _ _) with (pk_of d r).
  pose proof (pk_typed d r Hd Hty) as Hpk. rewrite EncodeKey_typed, bind_ok by done. rewrite (st_Get_ok _ _ M _ Hst), bind_ok.
  destruct (HM _ _ Ht) as [H1 H2]. rewrite (H1 _ Hpk).
  destruct (rows A t !! pk_of d r) as [vs|] eqn:E; cbn [fmap option_fmap option_map]; [|done].
  by rewrite (decode_encs (rest_cols d)), bind_ok by (by eapply H2).
Qed.

Lemma rel_step_spec n db A o d : rel_rep (Datatypes.S n) db A -> tables db !! op_table o = Some d ->
  rec_ok d (op_rec o) -> rec_typed d (op_rec o) -> rel_op_fits (tables db) o ->
  exists db', rel_step db o = Ok ((rel_spec d (rows A (op_table o)) o).1, db') /\ tables db' = tables db /\
    rel_rep n db' (set_rows A (op_table o) (rel_spec d (rows A (op_table o)) o).2).
Proof.
  intros HR Ht Hr Hty Hfit. pose proof HR as (HT & M & Hst & HM & HO).
  assert (rel_rep n db (set_rows A (op_table o) (rows A (op_table o)))) as Hsame
    by (eapply rel_rep_le; [|by apply set_rows_same]; lia).
  destruct o as [t r|t r|t r|t r]; cbn [op_table op_rec rel_step rel_spec rel_op_fits] in *.
  - unfold Insert. rewrite Ht, (dbUpdate_row _ db t d r 0 A M HT Ht Hst HM Hr Hty). cbn [Z.eqb].
    destruct (rows A t !! pk_of d r) eqn:E; cbn [fst snd]; [by exists db|].
    destruct (rel_put n db t d r A M) as (kv & -> & HR'); try done; [by apply Hfit|]. rewrite !bind_ok. by eexists.
  - unfold Update. rewrite Ht, (dbUpdate_row _ db t d r 1 A M HT Ht Hst HM Hr Hty). cbn [Z.eqb fst snd].
    destruct (rel_put n db t d r A M) as (kv & -> & HR'); try done; [by apply Hfit|]. rewrite !bind_ok. by eexists.
  - unfold Delete. rewrite Ht. destruct (rel_delete n db t d r A HR Ht Hr Hty) as (db' & -> & Ht' & HR').
    rewrite bind_ok. by eexists.
  - unfold Get. rewrite Ht, (rel_get _ db t d r A HR Ht Hr Hty), bind_ok. exists db.
    destruct (rows A t !! pk_of d r); cbn [fst snd]; by split.
Qed.

Lemma rel_run_spec os : forall db A, rel_rep (length os) db A -> Forall (rel_op_ok (tables db)) os ->
  Forall (rel_op_fits (tables db)) os -> rel_run db os = Ok (rel_spec_run (tables db) A os).
Proof.
  induction os as [|o os IH]; intros db A HR Ho Hf; [done|]. apply Forall_cons in Ho as [(d & Hd & Hr & Hty) Ho].
  apply Forall_cons in Hf as [Hfit Hf]. destruct (rel_step_spec (length os) db A o d HR Hd Hr Hty Hfit) as (db' & E & Et & HR').
  cbn [rel_run rel_spec_run]. rewrite E, bind_ok, Hd.
  destruct (rel_spec d (rows A (op_table o)) o) as [x R]. cbn [fst snd] in *.
  rewrite (IH db' _ HR'), bind_ok by (by rewrite Et). by rewrite Et.
Qed.

Lemma rel_rep_empty (n : nat) (kv : S) (T : gmap bytes TableDef) : st_rep n kv ∅ -> tables_ok T -> rel_rep n (mkDB kv T) ∅.
Proof.
  intros Hst HT. split; [done|]. exists ∅. split; [done|]. split; [|intros k v Hk; by rewrite lookup_empty in Hk].
  intros t d Ht. unfold rows. rewrite lookup_empty. simpl. split.
  - intros pk _. by rewrite !lookup_empty.
  - intros pk vs Hp. by rewrite lookup_empty in Hp.
Qed.

Lemma rel_run_empty (kv : S) (T : gmap bytes TableDef) os :
  st_rep (length os) kv ∅ -> tables_ok T -> Forall (rel_op_ok T) os -> Forall (rel_op_fits T) os ->
  rel_run (mkDB kv T) os = Ok (rel_spec_run T ∅ os).
Proof. intros Hst HT Ho Hf. apply (rel_run_spec os (mkDB kv T) ∅); [by apply rel_rep_empty|done|done]. Qed.

End refinement.

(** * Concrete tables *)

(** [id INT64, name BYTES, age INT64], with the key [id]. *)
Definition c_id : bytes := [105; 100].
Definition c_name : bytes := [110; 97; 109; 101].
Definition c_age : bytes := [97; 103; 101].
Definition user_cols : list ColumnDef := [mkCol c_id TInt64; mkCol c_name TBytes; mkCol c_age TInt64].
Definition table (name : bytes) (idx : list IndexDef) : TableDef :=
  mkTable name user_cols 1 idx (hashTableName name).
Definition users : bytes := [117; 115; 101; 114; 115].
Definition alice : list Value := [Int64 1; Bytes [65; 108]; Int64 30].
Definition full (vs : list Value) : Rec := mkRec (names user_cols) vs.
Definition by_id (i : Z) : Rec := mkRec [c_id] [Int64 i].

Definition users_tables : gmap bytes TableDef := {[ users := table users [] ]}.

Lemma users_ok : table_ok (table users []).
Proof.
  split.
  - apply (bool_decide_unpack _). vm_compute. exact I.
  - apply (bool_decide_unpack _). vm_compute. exact I.
  - by vm_compute.
  - by vm_compute.
Qed.

Lemma users_rec_ok (r : Rec) :
  bool_decide (NoDup (r_Cols r)) = true -> forallb (fun n => bool_decide (n ∈ names user_cols)) (r_Cols r) = true ->
  length (r_Vals r) = length (r_Cols r) -> rec_ok (table users []) r.
Proof.
  intros H1%bool_decide_eq_true H2 H3. split; [done|]. split; [|done]. intros n Hn.
  rewrite forallb_forall in H2. apply list_elem_of_In, H2, bool_decide_eq_true in Hn. done.
Qed.

Lemma users_rec_typed (r : Rec) :
  forallb (fun c => match rec_lookup (r_Cols r) (r_Vals r) (c_Name c) with
    | Some v => bool_decide (of_type c v) | None => true end) user_cols = true ->
  rec_typed (table users []) r.
Proof.
  intros H c v Hc Hv. rewrite forallb_forall in H. apply list_elem_of_In, H in Hc. rewrite Hv in Hc.
  by apply bool_decide_eq_true in Hc.
Qed.

Lemma checkRecord_typed_witness :
  checkRecord (table users []) (mkRec [c_age; c_id] [Int64 30; Int64 1]) 3 =
    Ok (inr [Int64 1; Bytes []; Int64 30]) /\
  typed user_cols [Int64 1; Bytes []; Int64 30].
Proof.
  apply (checkRecord_typed (table users []) (mkRec [c_age; c_id] [Int64 30; Int64 1])).
  - exact users_ok.
  - apply users_rec_ok; reflexivity.
  - apply users_rec_typed. reflexivity.
Defined.

Definition some_rel_ops : list rel_op :=
  [RInsert users (full alice); RInsert users (full alice); RGet users (by_id 1); RDelete users (by_id 1);
   RGet users (by_id 1)].


Definition users_db : DB mapStore := mkDB (mkMap ∅) users_tables.

Lemma unknown_names_rejected_witness :
  Insert users_db users (mkRec [c_id; [120]] [Int64 1]) = Ok (inl (ErrColumnNotFound [120]), users_db).
Proof.
  apply (unknown_names_rejected users_db users (table users []) (by_id 1) [120] []).
  - exact users_ok.
  - apply users_rec_ok; reflexivity.
  - reflexivity.
  - apply (bool_decide_unpack _). vm_compute. exact I.
Defined.

(** The names [Ez] and [FY] have the same hash. *)
Definition Ez : bytes := [69; 122].
Definition FY : bytes := [70; 89].

(** A row written to one table is found in another one whose name has the same
    hash: the prefix of a table is the only thing that separates the tables. *)
Theorem colliding_tables_share_rows :
  let db := (CreateTable (CreateTable (OpenDB (mkMap ∅)) (table Ez [])).2 (table FY [])).2 in
  Ez <> FY /\
  ('(_, db) ← Insert db Ez (full alice); Get db FY (by_id 1)) =
    Ok (inr true, full [Bytes [65; 108]; Int64 30]).
Proof. split; [done|]. vm_compute. reflexivity. Qed.

(** Deleting a row of a table that has an index on a column outside the primary
    key panics: the old values are appended behind empty ones, and the encoding
    rejects a value without type. *)
Theorem indexed_delete_panics :
  let db := mkDB (mkMap ∅) {[ users := table users [mkIndex c_name [c_name] false] ]} in
  ('(_, db) ← Insert db users (full alice); Delete db users (by_id 1)) = Panic.
Proof. vm_compute. reflexivity. Qed.
