(* ===== verification/TreeStore.v ===== *)
(** The layers put together: tables over the B+tree.

    The operations of the tree, seen through the interface [Storage], keep the
    contract of [StorageOK] over every page store with the laws of
    [PageStoreOK]. The theorems about the clients of the interface then hold for
    tables whose rows are kept in the pages of a tree. (The store of kv.go has in
    addition the commit of its pages to the file: [KV].) *)
From S2P Require Import Prelude Keys KVList Node Tree TreeRep TreeInsert TreeDelete TreeSpec Iter.
From S2P Require Import Encoding KV Storage Relational RelSpec.
#[local] Open Scope Z_scope.

(** * The tree as a store *)

(** A tree for keys of [L] bytes; [fuel] bounds its height. *)
Record treeStore (S : Type) (fuel : nat) (L : Z) := mkTS { ts_tree : BTree S }.
Arguments mkTS {S} fuel L ts_tree.
Arguments ts_tree {S fuel L} _.

Section store.
Context {S : Type} `{PageStoreOK S} (fuel : nat) (L : Z).
Abbreviation ts := (treeStore S fuel L).

#[global] Instance tree_storage : Storage ts := {|
  st_Get s k := Tree.Get fuel (ts_tree s) k;
  st_Set s k v := t ← Tree.Insert fuel (ts_tree s) k v; Ok (None, mkTS fuel L t);
  st_Del s k := '(b, t) ← Tree.Delete fuel (ts_tree s) k; Ok (b, None, mkTS fuel L t);
  st_iter := BIter;
  st_Seek s k := SeekLE fuel (ts_tree s) k;
  st_Valid := Valid;
  st_Key := Key;
  st_Val := Val;
  st_Next s := Next fuel (ts_tree s);
  st_TreeRoot s := Root (ts_tree s);
  st_PageRead s p := GetPage (store (ts_tree s)) p;
  st_Close s := (None, s);
|}.

(** The tree holds the map, and its height and the page store leave room for [n]
    more operations. *)
Definition ts_rep (n : nat) (s : ts) (M : gmap bytes bytes) : Prop :=
  exists h, tree_map L h (ts_tree s) M /\ (h + n < fuel)%nat /\
    (size (pages (store (ts_tree s))) + room n h <= page_cap)%nat.

Lemma room_step n h h' : (h' <= Datatypes.S h)%nat -> (2 * h + 3 + room n h' <= room (Datatypes.S n) h)%nat.
Proof. unfold room. intros Hh. assert (n * h' <= n * Datatypes.S h)%nat by nia. nia. Qed.

Lemma room_mono n m h : (m <= n)%nat -> (room m h <= room n h)%nat.
Proof. unfold room. intros Hle. nia. Qed.

(** One operation of the tree, as [tree_step_spec] has it. *)
Lemma ts_step n s M o : ts_rep (Datatypes.S n) s M -> op_ok L o ->
  exists t, tree_step fuel (ts_tree s) o = Ok ((spec_step M o).1, t) /\ ts_rep n (mkTS fuel L t) (spec_step M o).2.
Proof.
  intros (h & Ht & Hf & Hc) Ho.
  pose proof (room_step n h h ltac:(lia)).
  destruct (tree_step_spec L fuel h (ts_tree s) M o Ht Ho) as (h' & t' & E & Ht' & Hh & Hsz); [lia|lia|].
  exists t'. split; [done|]. exists h'. split; [done|]. cbn [ts_tree].
  pose proof (room_step n h h' Hh). lia.
Qed.

#[global] Instance tree_storage_ok : StorageOK ts.
Proof.
  refine {| st_rep := ts_rep; st_fits k v := kv_ok (k, v) /\ len k = L |}.
  - intros n m s M Hle (h & Ht & Hf & Hc). exists h. split; [done|]. pose proof (room_mono n m h Hle). lia.
  - intros n s M k (h & (m & Ht & _ & <-) & Hf & _). rewrite kv_map_lookup. apply (Get_spec h); [done|lia].
  - intros n s M k v Hr Hfit. destruct (ts_step n s M (OpInsert k v) Hr Hfit) as (t & E & Hr').
    cbn [tree_step] in E. apply bind_ok_inv in E as (t1 & E & [= ->]). exists (mkTS fuel L t).
    cbn [st_Set tree_storage]. by rewrite E.
  - intros n s M k Hr. destruct (ts_step n s M (OpDelete k) Hr I) as (t & E & Hr').
    cbn [tree_step spec_step fst] in E. apply bind_ok_inv in E as ([b t1] & E & [= -> ->]). exists (mkTS fuel L t).
    cbn [st_Del tree_storage]. by rewrite E.
Defined.

Lemma ts_rep_empty n t : Root t = 0 -> pages (store t) = ∅ -> (n < fuel)%nat -> (room n 0 <= page_cap)%nat ->
  ts_rep n (mkTS fuel L t) ∅.
Proof.
  intros Hr Hp Hf Hc. exists 0%nat. cbn [ts_tree]. rewrite Hp, map_size_empty. split; [|lia].
  exists []. split_and!; [|constructor|done]. split_and!; [constructor|constructor|by left].
Qed.
End store.

(** * Tables with an integer key *)

(** The key of such a table has 13 bytes: the prefix, the type and the number. *)
Definition int_key (d : TableDef) : Prop := PKeys d = 1 /\ (c_Type <$> head (t_Cols d)) = Some TInt64.

Lemma int_key_len d pk : int_key d -> typed (take (Z.to_nat (PKeys d)) (t_Cols d)) pk -> len (key_of d pk) = 13.
Proof.
  intros [Hk Hc]. rewrite Hk. destruct (t_Cols d) as [|c cols]; [done|]. injection Hc as Hc. cbn.
  intros Hp. inversion Hp as [|? v ? l Hv Hl]; subst. inversion Hl; subst.
  destruct Hv as (Ht & Hok & _). rewrite Hc in Ht.
  unfold key_of. rewrite len_app, len_be_bytes. cbn [encs].
  unfold encodePayload. rewrite Ht. change (TypeByColType (u8 TInt64) =? TypeInt64) with true. cbv iota.
  cbn. rewrite app_nil_r, len_cons, len_be_bytes. done.
Qed.

(** The tables have an integer key, and the encoded columns of the rows fit. *)
Definition rel_op_small (T : gmap bytes TableDef) (o : rel_op) : Prop :=
  forall d, T !! op_table o = Some d -> int_key d /\ len (encs (rest_of d (op_rec o))) <= 987.

Section tables.
Context {S : Type} `{PageStoreOK S} (fuel : nat).

Lemma small_fits (T : gmap bytes TableDef) o : tables_ok T -> rel_op_ok T o -> rel_op_small T o ->
  rel_op_fits (S:=treeStore S fuel 13) T o.
Proof.
  intros [HT _] (d & Hd & _ & Hty) Hs. destruct (Hs d Hd) as [Hi Hl]. destruct (HT _ _ Hd) as [Hok _].
  pose proof (int_key_len d _ Hi (pk_typed d _ Hok Hty)) as Hk.
  destruct o as [t r|t r|t r|t r]; cbn [rel_op_fits op_table op_rec] in *; try done; intros d' Hd';
    assert (d' = d) as -> by congruence; (split; [|done]); unfold kv_ok; cbn [fst snd]; rewrite Hk; lia.
Qed.

End tables.

(** Two rows, the first twice, a deletion and lookups, in the pages of a tree. *)
Definition tree_ops : list rel_op :=
  some_rel_ops ++ [RUpdate users (full [Int64 2; Bytes [66]; Int64 7]); RGet users (by_id 2)].

Lemma users_ops_ok os :
  forallb (fun o => bool_decide (op_table o = users) && bool_decide (NoDup (r_Cols (op_rec o))) &&
    forallb (fun n => bool_decide (n ∈ names user_cols)) (r_Cols (op_rec o)) &&
    (length (r_Vals (op_rec o)) =? length (r_Cols (op_rec o)))%nat &&
    forallb (fun c => match rec_lookup (r_Cols (op_rec o)) (r_Vals (op_rec o)) (c_Name c) with
      | Some v => bool_decide (of_type c v) | None => true end) user_cols &&
    (len (encs (rest_of (RelSpec.table users []) (op_rec o))) <=? 987)) os = true ->
  Forall (rel_op_ok users_tables) os /\ Forall (rel_op_small users_tables) os.
Proof.
  rewrite forallb_forall. intros Hall. split; apply Forall_forall; intros o Ho;
    apply list_elem_of_In, Hall in Ho;
    rewrite !andb_true_iff in Ho; destruct Ho as [[[[[Ht H1] H2] H3] H4] H5].
  - apply bool_decide_eq_true in Ht. exists (RelSpec.table users []). rewrite Ht. split; [apply lookup_singleton_eq|].
    split; [apply users_rec_ok; [done|done|by apply Nat.eqb_eq]|by apply users_rec_typed].
  - apply bool_decide_eq_true in Ht. intros d Hd. rewrite Ht in Hd.
    unfold users_tables in Hd. apply lookup_singleton_Some in Hd as [_ <-]. split; [done|lia].
Qed.

Lemma users_tables_ok : tables_ok users_tables.
Proof.
  split.
  - unfold users_tables. intros t d Ht. apply lookup_singleton_Some in Ht as [_ <-]. split; [exact users_ok|reflexivity].
  - unfold users_tables. intros t t' d d' Ht Ht' _. apply lookup_singleton_Some in Ht as [<- _].
    by apply lookup_singleton_Some in Ht' as [<- _].
Qed.

