(* ===== verification/Ast.v ===== *)
(** The syntax trees of src/internal/sql/ast.go and the index choice of
    src/internal/sql/planner.go. *)
From S2P Require Import Prelude Relational.
#[local] Open Scope Z_scope.

(** * Syntax (ast.go) *)

Definition QLUnknown : Z := 0.
Definition QLIdent : Z := 1.
Definition QLI64 : Z := 2.
Definition QLStr : Z := 3.
Definition QLAdd : Z := 4.
Definition QLSub : Z := 5.
Definition QLMul : Z := 6.
Definition QLDiv : Z := 7.
Definition QLMod : Z := 8.
Definition QLAnd : Z := 9.
Definition QLOr : Z := 10.
Definition QLNot : Z := 11.
Definition QLLT : Z := 12.
Definition QLLE : Z := 13.
Definition QLGT : Z := 14.
Definition QLGE : Z := 15.
Definition QLEQ : Z := 16.
Definition QLNE : Z := 17.
Definition QLLike : Z := 18.
Definition QLFunc : Z := 19.
Definition QLIndex : Z := 20.
Definition QLNeg : Z := 21.

Inductive QLNode := mkNode (n_Type : Z) (n_I64 : Z) (n_Str : bytes) (n_Cmp : Z) (n_Kids : list QLNode).

Definition n_Type (n : QLNode) : Z := let 'mkNode t _ _ _ _ := n in t.
Definition n_I64 (n : QLNode) : Z := let 'mkNode _ i _ _ _ := n in i.
Definition n_Str (n : QLNode) : bytes := let 'mkNode _ _ s _ _ := n in s.
Definition n_Kids (n : QLNode) : list QLNode := let 'mkNode _ _ _ _ k := n in k.

(** The composite literals of the code, the other fields being zero. *)
Definition no_node : QLNode := mkNode QLUnknown 0 [] 0 [].
Definition op_node (t : Z) (kids : list QLNode) : QLNode := mkNode t 0 [] 0 kids.
Definition str_node (t : Z) (s : bytes) : QLNode := mkNode t 0 s 0 [].
Definition int_node (i : Z) : QLNode := mkNode QLI64 i [] 0 [].
Definition func_node (s : bytes) (kids : list QLNode) : QLNode := mkNode QLFunc 0 s 0 kids.

Record QLScan := mkScan {
  s_Table : bytes; Key1 : QLNode; Key2 : QLNode; Filter : QLNode; Offset : Z; Limit : Z;
  GroupBy : list bytes; OrderBy : list bytes }.

Record QLSelect := mkSelect { sel_Scan : QLScan; sel_Names : list bytes; Output : list QLNode }.
Record QLInsert := mkInsert { ins_Table : bytes; ins_Names : list bytes; ins_Values : list QLNode }.
Record QLUpdate := mkUpdate { upd_Scan : QLScan; upd_Names : list bytes; upd_Values : list QLNode }.
Record QLDelete := mkDelete { del_Scan : QLScan }.
Record ColSpec := mkColSpec { cs_Name : bytes; cs_Type : Z }.
Record QLCreateTable := mkCreateTable { ct_Table : bytes; ct_Cols : list ColSpec; ct_PKeys : list bytes }.
Record QLCreateIndex := mkCreateIndex {
  ci_Table : bytes; ci_Name : bytes; ci_Keys : list bytes; ci_Unique : bool }.

Definition empty_scan : QLScan := mkScan [] no_node no_node no_node 0 0 [] [].

(** * Choosing an index (planner.go) *)

(** [None] is the nil slice: a node that names no column. [node.Kids[i]] panics
    when there is no such child; the recursion is on the tree. *)
Fixpoint filterColumns (node : QLNode) : res (option (list bytes)) :=
  let 'mkNode t _ _ _ kids := node in
  if t =? QLAnd then
    match kids with
    | l :: r :: _ =>
        left ← filterColumns l; right ← filterColumns r;
        let both := default [] left ++ default [] right in
        Ok (if bool_decide (both = []) then left else Some both)
    | [l] => left ← filterColumns l; Panic
    | [] => Panic
    end
  else if (QLLT <=? t) && (t <=? QLNE) then
    match kids with
    | mkNode t0 _ s0 _ _ :: _ => Ok (if t0 =? QLIdent then Some [s0] else None)
    | [] => Panic
    end
  else Ok None.

(** How many of the first columns of the index the filter names. *)
Fixpoint indexMatch (indexKeys filterCols : list bytes) : nat :=
  match indexKeys with
  | [] => 0
  | ik :: indexKeys => if bool_decide (ik ∈ filterCols) then Datatypes.S (indexMatch indexKeys filterCols) else 0
  end.

(** The loop over the indexes: the best so far and its match. *)
Fixpoint best_index (l : list IndexDef) (cols : list bytes) (best : option IndexDef) (bestMatch : nat)
    : option IndexDef * nat :=
  match l with
  | [] => (best, bestMatch)
  | idx :: l =>
      let m := indexMatch (i_Keys idx) cols in
      if (bestMatch <? m)%nat then best_index l cols (Some idx) m else best_index l cols best bestMatch
  end.

Definition selectIndex (tdef : TableDef) (filter : QLNode) : res (option IndexDef) :=
  if n_Type filter =? 0 then Ok None
  else
    cols ← filterColumns filter;
    match cols with
    | None => Ok None
    | Some cols =>
        let '(best, m) := best_index (Indexes tdef) cols None 0 in
        Ok (if (0 <? m)%nat then best else None)
    end.

(** * The index that is chosen *)

Lemma best_index_spec l cols : forall best m, exists best' m', best_index l cols best m = (best', m') /\
  (m <= m')%nat /\ (forall idx, idx ∈ l -> indexMatch (i_Keys idx) cols <= m')%nat /\
  ((best', m') = (best, m) \/ exists l1 idx l2, l = l1 ++ idx :: l2 /\ best' = Some idx /\
    m' = indexMatch (i_Keys idx) cols /\ (m < m')%nat /\
    forall x, x ∈ l1 -> (indexMatch (i_Keys x) cols < m')%nat).
Proof.
  induction l as [|idx l IH]; intros best m; cbn [best_index].
  { exists best, m. split; [done|]. split; [done|]. split; [set_solver|by left]. }
  destruct (Nat.ltb_spec m (indexMatch (i_Keys idx) cols)) as [Hlt|Hge].
  - destruct (IH (Some idx) (indexMatch (i_Keys idx) cols)) as (b & n & -> & Hle & Hall & Hb).
    exists b, n. split; [done|]. split; [lia|]. split.
    { intros x [->|Hx]%elem_of_cons; [done|auto]. }
    right. destruct Hb as [[= -> ->]|(l1 & x & l2 & -> & -> & -> & Hx & Hl1)].
    + exists [], idx, l. split_and!; try done. intros x Hx. set_solver.
    + exists (idx :: l1), x, l2. split_and!; try done; [lia|].
      intros y [->|Hy]%elem_of_cons; [lia|auto].
  - destruct (IH best m) as (b & n & -> & Hle & Hall & Hb). exists b, n. split; [done|]. split; [done|]. split.
    { intros x [->|Hx]%elem_of_cons; [lia|auto]. }
    destruct Hb as [?|(l1 & x & l2 & -> & -> & -> & Hx & Hl1)]; [by left|].
    right. exists (idx :: l1), x, l2. split_and!; try done. intros y [->|Hy]%elem_of_cons; [lia|auto].
Qed.

(** A column that the filter compares: it is on the left of a comparison that is
    the filter or one of the two sides of an AND, at any depth. *)
Inductive compares : QLNode -> bytes -> Prop :=
| compares_op t i s m k kids : QLLT <= t <= QLNE -> n_Type k = QLIdent -> compares (mkNode t i s m (k :: kids)) (n_Str k)
| compares_left i s m l r kids c : compares l c -> compares (mkNode QLAnd i s m (l :: r :: kids)) c
| compares_right i s m l r kids c : compares r c -> compares (mkNode QLAnd i s m (l :: r :: kids)) c.

(** An AND has two sides and a comparison a left one. *)
Fixpoint filter_shaped (node : QLNode) : bool :=
  let 'mkNode t _ _ _ kids := node in
  if t =? QLAnd then match kids with l :: r :: _ => filter_shaped l && filter_shaped r | _ => false end
  else if (QLLT <=? t) && (t <=? QLNE) then negb (bool_decide (kids = [])) else true.

(** [n] is the length of the longest prefix of the columns that have the property. *)
Definition longest_prefix (P : bytes -> Prop) (keys : list bytes) (n : nat) : Prop :=
  (n <= length keys)%nat /\ Forall P (take n keys) /\ forall c, keys !! n = Some c -> ~ P c.

Lemma longest_prefix_cons P k keys n : longest_prefix P (k :: keys) n <->
  match n with O => ~ P k | Datatypes.S n => P k /\ longest_prefix P keys n end.
Proof.
  unfold longest_prefix. destruct n as [|n]; cbn [take lookup list_lookup length].
  - split; [intros (_ & _ & Hc); by apply Hc|]. intros Hk. split_and!; [lia|constructor|by intros c [= <-]].
  - rewrite Forall_cons. split; [intros (? & [? ?] & ?)|intros (? & ? & ? & ?)]; split_and!; done || lia.
Qed.

Lemma longest_prefix_unique P keys : forall n m, longest_prefix P keys n -> longest_prefix P keys m -> n = m.
Proof.
  induction keys as [|k keys IH]; intros n m; [intros [Hn _] [Hm _]; cbn in *; lia|].
  rewrite !longest_prefix_cons. destruct n, m; try tauto. intros [_ Hn] [_ Hm]. f_equal. by apply IH.
Qed.

Lemma longest_prefix_iff P Q keys n : (forall c, P c <-> Q c) -> longest_prefix P keys n -> longest_prefix Q keys n.
Proof.
  intros HPQ (Hn & Hf & Hc). split_and!; [done| |intros c E; rewrite <-HPQ; by apply Hc].
  eapply Forall_impl; [exact Hf|]. intros c. apply HPQ.
Qed.

(** [indexMatch] counts the columns of that prefix. *)
Lemma indexMatch_prefix keys cols : longest_prefix (fun c => c ∈ cols) keys (indexMatch keys cols).
Proof.
  induction keys as [|k keys IH]; cbn [indexMatch].
  - split_and!; [done|constructor|done].
  - by case_bool_decide; apply longest_prefix_cons.
Qed.

(** [filterColumns] collects the columns that the filter compares. *)
Lemma filterColumns_spec : forall node,
  if filter_shaped node then exists cols, filterColumns node = Ok cols /\ forall c, c ∈ default [] cols <-> compares node c
  else filterColumns node = Panic.
Proof.
  fix IH 1. intros [t i s m kids]. cbn [filter_shaped filterColumns]. destruct (Z.eqb_spec t QLAnd) as [->|Ht].
  - destruct kids as [|l [|r kids]]; [done| |].
    { pose proof (IH l) as Hl. destruct (filter_shaped l); [by destruct Hl as (? & -> & _)|by rewrite Hl]. }
    pose proof (IH l) as Hl. pose proof (IH r) as Hr. destruct (filter_shaped l); cbn [andb]; [|by rewrite Hl].
    destruct Hl as (cl & -> & Hcl). rewrite bind_ok. destruct (filter_shaped r); [|by rewrite Hr].
    destruct Hr as (cr & -> & Hcr). rewrite bind_ok. eexists. split; [done|]. intros c.
    transitivity (c ∈ default [] cl ++ default [] cr).
    { case_bool_decide as Hb; [|done]. by rewrite Hb, (proj1 (app_eq_nil _ _ Hb)). }
    rewrite elem_of_app, Hcl, Hcr. split.
    + intros [Hc|Hc]; [by apply compares_left|by apply compares_right].
    + inversion 1 as [t' i' s' m' k kids' Hop| |]; subst; auto. unfold QLLT, QLAnd in Hop. lia.
  - destruct (Z.leb_spec QLLT t) as [H1|H1]; cbn [andb]; [destruct (Z.leb_spec t QLNE) as [H2|H2]|].
    + destruct kids as [|[t0 i0 s0 m0 k0] kids]; [done|]. rewrite bool_decide_false by done. cbn [negb].
      eexists. split; [done|]. intros c. destruct (Z.eqb_spec t0 QLIdent) as [->|Hne]; cbn [default from_option id].
      * rewrite list_elem_of_singleton. split; [intros ->; by apply (compares_op t i s m (mkNode QLIdent i0 s0 m0 k0))|].
        by inversion 1; subst.
      * split; [set_solver|]. inversion 1; by subst.
    + exists None. split; [done|]. intros c. split; [set_solver|]. inversion 1; subst; done || lia.
    + exists None. split; [done|]. intros c. split; [set_solver|]. inversion 1; subst; done || lia.
Qed.


