(* ===== verification/Parser.v ===== *)
(** The SQL parser: src/internal/sql/parser.go.

    The state of a [Parser] is what is left of its input, [p.input[p.pos:]]: the
    code only moves [pos] forward or back to a saved position. A parsing
    function returns its result and the new state. Recursion and loops that can
    go round more than once per byte of input are bounded by fuel; [Parse] gives
    enough of it. *)
From S2P Require Import Prelude Ast.
From Stdlib Require Import Ascii String.
#[local] Open Scope Z_scope.

(** * Bytes of string literals *)

Definition byte_of (c : ascii) : Z := Z.of_N (N_of_ascii c).

Definition str (s : string) : bytes := byte_of <$> list_ascii_of_string s.

(** * The scanner *)

Abbreviation Parser := bytes.

Definition peek (p : Parser) : Z := match p with [] => 0 | c :: _ => c end.

Definition next (p : Parser) : Parser := match p with [] => [] | _ :: p => p end.

Definition is_ws (c : Z) : bool := (c =? 32) || (c =? 9) || (c =? 10) || (c =? 13).

Fixpoint skipWS (p : Parser) : Parser :=
  match p with
  | c :: p' => if is_ws c then skipWS p' else p
  | [] => []
  end.

(** The inner loop of [skipComments]: up to the end of the line. *)
Fixpoint skipLine (p : Parser) : Parser :=
  match p with
  | c :: p' => if c =? 10 then p else skipLine p'
  | [] => []
  end.

(** Each turn drops at least the two dashes. *)
Fixpoint skipComments_loop (fuel : nat) (p : Parser) : Parser :=
  match fuel, p with
  | S fuel, 45 :: 45 :: p' => skipComments_loop fuel (skipWS (skipLine p))
  | _, _ => p
  end.

Definition skipComments (p : Parser) : Parser :=
  let p := skipWS p in skipComments_loop (List.length p) p.

Definition lower (c : Z) : Z := if (65 <=? c) && (c <=? 90) then c + 32 else c.

(** The loop over the characters of one keyword. *)
Fixpoint match_kw (p : Parser) (kw : bytes) : option Parser :=
  match kw with
  | [] => Some p
  | c :: kw => if lower (peek p) =? c then match_kw (next p) kw else None
  end.

Fixpoint match_kws (p : Parser) (kws : list bytes) : option Parser :=
  match kws with
  | [] => Some p
  | kw :: kws => p ← match_kw (skipWS p) kw; match_kws p kws
  end.

Definition pKeyword (p : Parser) (keywords : list string) : bool * Parser :=
  match match_kws (skipComments p) (str <$> keywords) with
  | Some p => (true, p)
  | None => (false, p)
  end.

(** Whether the keyword is there; the text of the error is never used. *)
Definition pExpect (p : Parser) (keyword : string) : bool * Parser := pKeyword p [keyword].

Definition is_sym (c : Z) : bool :=
  ((97 <=? c) && (c <=? 122)) || ((65 <=? c) && (c <=? 90)) || ((48 <=? c) && (c <=? 57))
  || (c =? 95) || (c =? 64).

Definition is_digit (c : Z) : bool := (48 <=? c) && (c <=? 57).

(** The longest prefix of characters of the class, and the rest. *)
Fixpoint take_class (f : Z -> bool) (p : Parser) : bytes * Parser :=
  match p with
  | c :: p' => if f c then let '(l, r) := take_class f p' in (c :: l, r) else ([], p)
  | [] => ([], [])
  end.

Definition pMustSym (p : Parser) : bytes * Parser := take_class is_sym (skipComments p).

(** [strconv.ParseInt] of decimal digits, clamped to 64 bits. *)
Definition dec_val (l : bytes) : Z := foldl (fun n c => 10 * n + (c - 48)) 0 l.

Definition parse_int (neg : bool) (digits : bytes) : Z :=
  let n := if neg then - dec_val digits else dec_val digits in
  Z.max (-9223372036854775808) (Z.min n 9223372036854775807).

Definition pNum (p : Parser) : option Z * Parser :=
  let start := skipComments p in
  let neg := peek start =? 45 in
  let '(digits, p) := take_class is_digit (if neg then next start else start) in
  if bool_decide (digits = []) then (None, start) else (Some (parse_int neg digits), p).

(** The loop of [pStr] after the quote. *)
Fixpoint pStr_loop (quote : Z) (p : Parser) : option bytes * Parser :=
  match p with
  | [] => (None, [])
  | c :: p =>
      if c =? quote then (Some [], p)
      else
        match p with
        | d :: p' =>
            if c =? 92 then let '(s, r) := pStr_loop quote p' in (cons d <$> s, r)
            else let '(s, r) := pStr_loop quote p in (cons c <$> s, r)
        | [] => (None, [])
        end
  end.

Definition pStr (p : Parser) : option bytes * Parser :=
  let p := skipComments p in
  if negb (peek p =? 39) && negb (peek p =? 34) then (None, p)
  else pStr_loop (peek p) (next p).

(** What is left, for the error messages. *)
Definition rest (p : Parser) : bytes :=
  if len p =? 0 then str "<EOF>"
  else if 30 <? len p then take 30 p ++ str "..." else p.

(** * Expressions *)

(** The first keyword of the list that is there: its operator. *)
Fixpoint pOp (p : Parser) (ops : list (string * Z)) : Z * Parser :=
  match ops with
  | [] => (0, p)
  | (kw, op) :: ops => let '(ok, p') := pKeyword p [kw] in if ok : bool then (op, p') else pOp p ops
  end.

Definition cmp_ops : list (string * Z) :=
  [("<=", QLLE); (">=", QLGE); ("!=", QLNE); ("<>", QLNE); ("=", QLEQ); ("==", QLEQ); ("<", QLLT);
   (">", QLGT); ("like", QLLike)]%string.
Definition add_ops : list (string * Z) := [("+", QLAdd); ("-", QLSub)]%string.
Definition mul_ops : list (string * Z) := [("*", QLMul); ("/", QLDiv); ("%", QLMod)]%string.

Definition to_lower (s : bytes) : bytes := lower <$> s.

Fixpoint pExprOr (fuel : nat) (p : Parser) : res (QLNode * Parser) :=
  match fuel with
  | O => OutOfFuel
  | S fuel => '(lhs, p) ← pExprAnd fuel p; or_loop fuel lhs p
  end
with or_loop (fuel : nat) (lhs : QLNode) (p : Parser) : res (QLNode * Parser) :=
  match fuel with
  | O => OutOfFuel
  | S fuel =>
      match pKeyword p ["or"%string] with
      | (true, p) => '(rhs, p) ← pExprAnd fuel p; or_loop fuel (op_node QLOr [lhs; rhs]) p
      | (false, p) => Ok (lhs, p)
      end
  end
with pExprAnd (fuel : nat) (p : Parser) : res (QLNode * Parser) :=
  match fuel with
  | O => OutOfFuel
  | S fuel => '(lhs, p) ← pExprCmp fuel p; and_loop fuel lhs p
  end
with and_loop (fuel : nat) (lhs : QLNode) (p : Parser) : res (QLNode * Parser) :=
  match fuel with
  | O => OutOfFuel
  | S fuel =>
      match pKeyword p ["and"%string] with
      | (true, p) => '(rhs, p) ← pExprCmp fuel p; and_loop fuel (op_node QLAnd [lhs; rhs]) p
      | (false, p) => Ok (lhs, p)
      end
  end
with pExprCmp (fuel : nat) (p : Parser) : res (QLNode * Parser) :=
  match fuel with
  | O => OutOfFuel
  | S fuel =>
      '(lhs, p) ← pExprAdd fuel p;
      let '(op, p) := pOp p cmp_ops in
      if negb (op =? 0) then '(rhs, p) ← pExprAdd fuel p; Ok (op_node op [lhs; rhs], p)
      else Ok (lhs, p)
  end
with pExprAdd (fuel : nat) (p : Parser) : res (QLNode * Parser) :=
  match fuel with
  | O => OutOfFuel
  | S fuel => '(lhs, p) ← pExprMul fuel p; add_loop fuel lhs p
  end
with add_loop (fuel : nat) (lhs : QLNode) (p : Parser) : res (QLNode * Parser) :=
  match fuel with
  | O => OutOfFuel
  | S fuel =>
      let '(op, p) := pOp p add_ops in
      if op =? 0 then Ok (lhs, p)
      else '(rhs, p) ← pExprMul fuel p; add_loop fuel (op_node op [lhs; rhs]) p
  end
with pExprMul (fuel : nat) (p : Parser) : res (QLNode * Parser) :=
  match fuel with
  | O => OutOfFuel
  | S fuel => '(lhs, p) ← pExprAtom fuel p; mul_loop fuel lhs p
  end
with mul_loop (fuel : nat) (lhs : QLNode) (p : Parser) : res (QLNode * Parser) :=
  match fuel with
  | O => OutOfFuel
  | S fuel =>
      let '(op, p) := pOp p mul_ops in
      if op =? 0 then Ok (lhs, p)
      else '(rhs, p) ← pExprAtom fuel p; mul_loop fuel (op_node op [lhs; rhs]) p
  end
with pExprAtom (fuel : nat) (p : Parser) : res (QLNode * Parser) :=
  match fuel with
  | O => OutOfFuel
  | S fuel =>
      match pKeyword p ["not"%string] with
      | (true, p) => '(e, p) ← pExprAtom fuel p; Ok (op_node QLNot [e], p)
      | (false, p) =>
      match pKeyword p ["("%string] with
      | (true, p) => '(e, p) ← pExprOr fuel p; Ok (e, (pExpect p ")").2)
      | (false, p) =>
      match pNum p with
      | (Some n, p) => Ok (int_node n, p)
      | (None, p) =>
      match pStr p with
      | (Some s, p) => Ok (str_node QLStr s, p)
      | (None, p) =>
          let '(name, p) := pMustSym p in
          if bool_decide (name = []) then Ok (no_node, p)
          else
            match pKeyword p ["("%string] with
            | (true, p) =>
                match pKeyword p [")"%string] with
                | (true, p) => Ok (func_node (to_lower name) [], p)
                | (false, p) =>
                    '(kids, p) ← args_loop fuel [] p;
                    Ok (func_node (to_lower name) kids, (pExpect p ")").2)
                end
            | (false, p) => Ok (str_node QLIdent name, p)
            end
      end end end end
  end
with args_loop (fuel : nat) (kids : list QLNode) (p : Parser) : res (list QLNode * Parser) :=
  match fuel with
  | O => OutOfFuel
  | S fuel =>
      '(e, p) ← pExprOr fuel p;
      match pKeyword p [","%string] with
      | (true, p) => args_loop fuel (kids ++ [e]) p
      | (false, p) => Ok (kids ++ [e], p)
      end
  end.

(** * Statements *)

Inductive Stmt :=
| StCreateTable (s : QLCreateTable) | StCreateIndex (s : QLCreateIndex) | StSelect (s : QLSelect)
| StInsert (s : QLInsert) | StUpdate (s : QLUpdate) | StDelete (s : QLDelete)
| StExplain (s : QLSelect)       (* the text [EXPLAIN: ...] that prints [s] *)
| StText (s : bytes) | StUnknown (rest : bytes).

(** A list of symbols separated by commas. *)
Fixpoint sym_list (fuel : nat) (l : list bytes) (p : Parser) : res (list bytes * Parser) :=
  match fuel with
  | O => OutOfFuel
  | S fuel =>
      let '(s, p) := pMustSym p in
      match pKeyword p [","%string] with
      | (true, p) => sym_list fuel (l ++ [s]) p
      | (false, p) => Ok (l ++ [s], p)
      end
  end.

Fixpoint first_kw (p : Parser) (kws : list string) : bool * Parser :=
  match kws with
  | [] => (false, p)
  | kw :: kws => match pKeyword p [kw] with (true, p) => (true, p) | (false, p) => first_kw p kws end
  end.

Definition pType (p : Parser) : Z * Parser :=
  match first_kw p ["int64"; "int"]%string with
  | (true, p) => (QLI64, p)
  | (false, p) =>
  match first_kw p ["bytes"; "text"; "string"]%string with
  | (true, p) => (QLStr, p)
  | (false, p) =>
  match first_kw p ["bool"]%string with
  | (true, p) => (QLAnd, p)
  | (false, p) =>
  match first_kw p ["float64"; "float"]%string with
  | (true, p) => (999, p)
  | (false, p) => (0, p)
  end end end end.

(** The loop over the columns and the primary key of a table. *)
Fixpoint cols_loop (fuel : nat) (cols : list ColSpec) (pkeys : list bytes) (p : Parser)
    : res (list ColSpec * list bytes * Parser) :=
  match fuel with
  | O => OutOfFuel
  | S fuel =>
      match pKeyword p ["primary"; "key"]%string with
      | (true, p) =>
          let '(_, p) := pExpect p "(" in
          '(pkeys, p) ← sym_list fuel pkeys p;
          let '(_, p) := pExpect p ")" in
          match pKeyword p [","%string] with
          | (true, p) => cols_loop fuel cols pkeys p
          | (false, p) => Ok (cols, pkeys, p)
          end
      | (false, p) =>
          let '(name, p) := pMustSym p in
          let '(ty, p) := pType p in
          let cols := cols ++ [mkColSpec name ty] in
          match pKeyword p [","%string] with
          | (true, p) => cols_loop fuel cols pkeys p
          | (false, p) => Ok (cols, pkeys, p)
          end
      end
  end.

Definition pCreateTable (fuel : nat) (p : Parser) : res (QLCreateTable * Parser) :=
  let '(table, p) := pMustSym p in
  match pExpect p "(" with
  | (false, p) => Ok (mkCreateTable table [] [], p)
  | (true, p) =>
      '(cols, pkeys, p) ← cols_loop fuel [] [] p;
      Ok (mkCreateTable table cols pkeys, (pExpect p ")").2)
  end.

Definition pCreateIndex (fuel : nat) (p : Parser) : res (QLCreateIndex * Parser) :=
  let '(unique, p) := pKeyword p ["unique"%string] in
  let '(name, p) := pMustSym p in
  match pExpect p "on" with
  | (false, p) => Ok (mkCreateIndex [] name [] unique, p)
  | (true, p) =>
      let '(table, p) := pMustSym p in
      match pExpect p "(" with
      | (false, p) => Ok (mkCreateIndex table name [] unique, p)
      | (true, p) =>
          '(keys, p) ← sym_list fuel [] p;
          Ok (mkCreateIndex table name keys unique, (pExpect p ")").2)
      end
  end.

Definition add_output (s : QLSelect) (name : bytes) : QLSelect :=
  mkSelect (sel_Scan s) (sel_Names s ++ [name]) (Output s ++ [str_node QLIdent name]).

Definition pSelectExpr (p : Parser) (node : QLSelect) : QLSelect * Parser :=
  match pKeyword p ["*"%string] with
  | (true, p) => (add_output node (str "*"), p)
  | (false, p) =>
      let '(name, p) := pMustSym p in
      match pKeyword p ["as"%string] with
      | (true, p) => let '(name, p) := pMustSym p in (add_output node name, p)
      | (false, p) => (add_output node name, p)
      end
  end.

Fixpoint select_loop (fuel : nat) (p : Parser) (node : QLSelect) : res (QLSelect * Parser) :=
  match fuel with
  | O => OutOfFuel
  | S fuel =>
      match pKeyword p [","%string] with
      | (true, p) => let '(node, p) := pSelectExpr p node in select_loop fuel p node
      | (false, p) => Ok (node, p)
      end
  end.

Definition pSelectExprList (fuel : nat) (p : Parser) (node : QLSelect) : res (QLSelect * Parser) :=
  let '(node, p) := pSelectExpr p node in select_loop fuel p node.

Definition with_keys (s : QLScan) (k1 k2 : QLNode) : QLScan :=
  mkScan (s_Table s) k1 k2 (Filter s) (Offset s) (Limit s) (GroupBy s) (OrderBy s).
Definition with_filter (s : QLScan) (f : QLNode) : QLScan :=
  mkScan (s_Table s) (Key1 s) (Key2 s) f (Offset s) (Limit s) (GroupBy s) (OrderBy s).
Definition with_limits (s : QLScan) (offset limit : Z) : QLScan :=
  mkScan (s_Table s) (Key1 s) (Key2 s) (Filter s) offset limit (GroupBy s) (OrderBy s).
Definition with_table (s : QLScan) (t : bytes) : QLScan :=
  mkScan t (Key1 s) (Key2 s) (Filter s) (Offset s) (Limit s) (GroupBy s) (OrderBy s).

Definition pIndexBy (fuel : nat) (p : Parser) (node : QLScan) : res (QLScan * Parser) :=
  '(k1, p) ← pExprCmp fuel p;
  match first_kw p ["and"; ","]%string with
  | (true, p) => '(k2, p) ← pExprCmp fuel p; Ok (with_keys node k1 k2, p)
  | (false, p) => Ok (with_keys node k1 (Key2 node), p)
  end.

Definition pLimit (p : Parser) (node : QLScan) : QLScan * Parser :=
  let '(n, p) := pNum p in
  let limit := default (Limit node) n in
  match pKeyword p ["offset"%string] with
  | (true, p) =>
      let '(n, p) := pNum p in (with_limits node (default (Offset node) n) limit, p)
  | (false, p) => (with_limits node (Offset node) limit, p)
  end.

Definition MaxInt64 : Z := 9223372036854775807.

Definition pScan (fuel : nat) (p : Parser) (node : QLScan) : res (QLScan * Parser) :=
  '(node, p) ← match pKeyword p ["index"; "by"]%string with
               | (true, p) => pIndexBy fuel p node
               | (false, p) => Ok (node, p)
               end;
  '(node, p) ← match pKeyword p ["filter"%string] with
               | (true, p) => '(e, p) ← pExprOr fuel p; Ok (with_filter node e, p)
               | (false, p) => Ok (node, p)
               end;
  let node := with_limits node 0 MaxInt64 in
  match pKeyword p ["limit"%string] with
  | (true, p) => Ok (pLimit p node)
  | (false, p) => Ok (node, p)
  end.

Definition pSelect (fuel : nat) (p : Parser) : res (QLSelect * Parser) :=
  '(s, p) ← pSelectExprList fuel p (mkSelect empty_scan [] []);
  match pExpect p "from" with
  | (false, p) => Ok (s, p)
  | (true, p) =>
      let '(table, p) := pMustSym p in
      '(scan, p) ← pScan fuel p (with_table (sel_Scan s) table);
      Ok (mkSelect scan (sel_Names s) (Output s), p)
  end.

Definition pInsert (fuel : nat) (p : Parser) : res (QLInsert * Parser) :=
  let '(table, p) := pMustSym p in
  '(names, p) ← match pKeyword p ["("%string] with
                | (true, p) => '(l, p) ← sym_list fuel [] p; Ok (l, (pExpect p ")").2)
                | (false, p) => Ok ([], p)
                end;
  let '(_, p) := pExpect p "values" in
  let '(_, p) := pExpect p "(" in
  '(vals, p) ← args_loop fuel [] p;
  Ok (mkInsert table names vals, (pExpect p ")").2).

(** The loop over the assignments of an update. *)
Fixpoint set_loop (fuel : nat) (names : list bytes) (vals : list QLNode) (p : Parser)
    : res (list bytes * list QLNode * Parser) :=
  match fuel with
  | O => OutOfFuel
  | S fuel =>
      let '(name, p) := pMustSym p in
      let '(_, p) := pExpect p "=" in
      '(v, p) ← pExprOr fuel p;
      match pKeyword p [","%string] with
      | (true, p) => set_loop fuel (names ++ [name]) (vals ++ [v]) p
      | (false, p) => Ok (names ++ [name], vals ++ [v], p)
      end
  end.

Definition pUpdate (fuel : nat) (p : Parser) : res (QLUpdate * Parser) :=
  let '(table, p) := pMustSym p in
  let '(_, p) := pExpect p "set" in
  '(names, vals, p) ← set_loop fuel [] [] p;
  let '(_, p) := pExpect p "where" in
  '(scan, p) ← pScan fuel p (with_table empty_scan table);
  Ok (mkUpdate scan names vals, p).

Definition pDelete (fuel : nat) (p : Parser) : res (QLDelete * Parser) :=
  let '(table, p) := pMustSym p in
  match pKeyword p ["where"%string] with
  | (true, p) => '(scan, p) ← pScan fuel p (with_table empty_scan table); Ok (mkDelete scan, p)
  | (false, p) => Ok (mkDelete (with_table empty_scan table), p)
  end.

Definition wrap {A} (f : A -> Stmt) (r : res (A * Parser)) : res (Stmt * Parser) :=
  '(x, p) ← r; Ok (f x, p).

Definition pStmt (fuel : nat) (p : Parser) : res (Stmt * Parser) :=
  match pKeyword p ["create"; "table"]%string with (true, p) => wrap StCreateTable (pCreateTable fuel p) | (false, p) =>
  match pKeyword p ["create"; "index"]%string with (true, p) => wrap StCreateIndex (pCreateIndex fuel p) | (false, p) =>
  match pKeyword p ["select"%string] with (true, p) => wrap StSelect (pSelect fuel p) | (false, p) =>
  match pKeyword p ["insert"; "into"]%string with (true, p) => wrap StInsert (pInsert fuel p) | (false, p) =>
  match pKeyword p ["update"%string] with (true, p) => wrap StUpdate (pUpdate fuel p) | (false, p) =>
  match pKeyword p ["delete"; "from"]%string with (true, p) => wrap StDelete (pDelete fuel p) | (false, p) =>
  match pKeyword p ["explain"%string] with (true, p) => wrap StExplain (pSelect fuel p) | (false, p) =>
  match pKeyword p ["begin"%string] with (true, p) => Ok (StText (str "BEGIN"), p) | (false, p) =>
  match pKeyword p ["commit"%string] with (true, p) => Ok (StText (str "COMMIT"), p) | (false, p) =>
  match pKeyword p ["abort"%string] with (true, p) => Ok (StText (str "ABORT"), p) | (false, p) =>
  Ok (StUnknown (rest p), p)
  end end end end end end end end end end.

(** The fuel for an input: ten calls for each byte are enough. *)
Definition parse_fuel (input : bytes) : nat := (10 * List.length input + 20)%nat.

(** [inl] is the error about trailing input. *)
Definition Parse (input : bytes) : res (bytes + Stmt) :=
  '(s, p) ← pStmt (parse_fuel input) input;
  let p := skipWS p in
  if 0 <? len p then Ok (inl (rest p)) else Ok (inr s).

Example parse_ex1 : Parse (str "SELECT a, b FROM t FILTER a + 1 < 3 LIMIT 5 OFFSET 2") =
  Ok (inr (StSelect (mkSelect (mkScan (str "t") no_node no_node
    (op_node QLLT [op_node QLAdd [str_node QLIdent (str "a"); int_node 1]; int_node 3]) 2 5 [] [])
    [str "a"; str "b"] [str_node QLIdent (str "a"); str_node QLIdent (str "b")]))).
Proof. vm_compute. reflexivity. Qed.

Example parse_ex2 : Parse (str "CREATE TABLE users (id INT64, name BYTES, age INT64, PRIMARY KEY (id))") =
  Ok (inr (StCreateTable (mkCreateTable (str "users")
    [mkColSpec (str "id") QLI64; mkColSpec (str "name") QLStr; mkColSpec (str "age") QLI64] [str "id"]))).
Proof. vm_compute. reflexivity. Qed.

Example parse_ex3 : Parse (str "INSERT INTO users (id, name) VALUES (1, 'Al\'x')") =
  Ok (inr (StInsert (mkInsert (str "users") [str "id"; str "name"] [int_node 1; str_node QLStr (str "Al'x")]))).
Proof. vm_compute. reflexivity. Qed.

(** * Termination *)

Abbreviation size p := (List.length (p : Parser)).

Lemma skipWS_le p : (size (skipWS p) <= size p)%nat.
Proof. induction p as [|c p IH]; simpl; [done|]. destruct (is_ws c); simpl; lia. Qed.

Lemma skipLine_le p : (size (skipLine p) <= size p)%nat.
Proof. induction p as [|c p IH]; simpl; [done|]. destruct (c =? 10); simpl; lia. Qed.

Lemma skipComments_loop_le fuel : forall p, (size (skipComments_loop fuel p) <= size p)%nat.
Proof.
  induction fuel as [|fuel IH]; intros p; [done|]. cbn [skipComments_loop].
  repeat (case_match; try done). etrans; [apply IH|]. etrans; [apply skipWS_le|]. apply skipLine_le.
Qed.

Lemma skipComments_le p : (size (skipComments p) <= size p)%nat.
Proof. unfold skipComments. etrans; [apply skipComments_loop_le|apply skipWS_le]. Qed.

(** Keywords have no NUL byte, so every character matched is consumed. *)
Definition kw_ok (kw : bytes) : bool := forallb (fun c => negb (c =? 0)) kw && negb (bool_decide (kw = [])).

Lemma match_kw_le kw : forall p p', forallb (fun c => negb (c =? 0)) kw = true ->
  match_kw p kw = Some p' -> (size p' + List.length kw <= size p)%nat.
Proof.
  induction kw as [|c kw IH]; intros p p' Hk; simpl; [intros [= ->]; lia|].
  simpl in Hk. apply andb_true_iff in Hk as [Hc Hk]. destruct (Z.eqb_spec (lower (peek p)) c) as [E|]; [|done].
  intros Hm. destruct p as [|x p]; simpl in *; [exfalso; by subst c|]. apply IH in Hm; [lia|done].
Qed.

Lemma match_kws_le kws : forall p p', Forall (fun kw => kw_ok kw = true) kws ->
  match_kws p kws = Some p' -> (size p' + List.length kws <= size p)%nat.
Proof.
  induction kws as [|kw kws IH]; intros p p' Hk; simpl; [intros [= ->]; lia|].
  apply Forall_cons in Hk as [Hk Hks]. intros (q & Hq & Hm)%bind_Some.
  unfold kw_ok in Hk. apply andb_true_iff in Hk as [H1 H2]. apply match_kw_le in Hq; [|done].
  apply IH in Hm; [|done]. pose proof (skipWS_le p). destruct kw; [done|]. simpl in *. lia.
Qed.

Lemma pKeyword_le p kws ok p' : Forall (fun kw => kw_ok kw = true) (str <$> kws) -> kws <> [] ->
  pKeyword p kws = (ok, p') -> (size p' <= size p)%nat /\ (ok = true -> size p' < size p)%nat.
Proof.
  intros Hk Hne. unfold pKeyword. destruct (match_kws _ _) as [q|] eqn:E; intros [= <- <-]; [|split; [lia|done]].
  apply match_kws_le in E; [|done]. rewrite length_fmap in E. pose proof (skipComments_le p).
  destruct kws; [done|]. simpl in E. lia.
Qed.

Lemma take_class_le f p : (List.length (take_class f p).1 + size (take_class f p).2 <= size p)%nat.
Proof.
  induction p as [|c p IH]; simpl; [done|]. destruct (f c); simpl; [|lia]. destruct (take_class f p). simpl in *. lia.
Qed.

Lemma pMustSym_le p s p' : pMustSym p = (s, p') -> (List.length s + size p' <= size p)%nat.
Proof.
  unfold pMustSym. intros E. pose proof (take_class_le is_sym (skipComments p)) as H. rewrite E in H. simpl in H.
  pose proof (skipComments_le p). lia.
Qed.

Lemma pNum_le p n p' : pNum p = (n, p') -> (size p' <= size p)%nat.
Proof.
  unfold pNum. pose proof (skipComments_le p) as Hc. set (st := skipComments p) in *.
  pose proof (take_class_le is_digit (if peek st =? 45 then next st else st)) as Ht.
  destruct (take_class _ _) as [d r]. simpl in Ht. assert (size (next st) <= size st)%nat by (destruct st; simpl; lia).
  case_bool_decide; intros [= <- <-]; [done|]. destruct (peek st =? 45); lia.
Qed.

Lemma pStr_loop_le q n : forall p, (size p <= n)%nat -> (size (pStr_loop q p).2 <= size p)%nat.
Proof.
  induction n as [|n IH]; intros [|c p] Hn; simpl in *; try lia. destruct (c =? q); simpl; [lia|].
  destruct p as [|d p]; simpl in *; [lia|]. destruct (c =? 92).
  - pose proof (IH p ltac:(lia)). destruct (pStr_loop q p). simpl in *. lia.
  - pose proof (IH (d :: p) ltac:(simpl; lia)) as H. cbn [pStr_loop] in H.
    destruct (_ : option bytes * Parser) as [s r] in H |- *. simpl in *. lia.
Qed.

Lemma pStr_le p s p' : pStr p = (s, p') -> (size p' <= size p)%nat.
Proof.
  unfold pStr. pose proof (skipComments_le p) as Hc. set (st := skipComments p) in *.
  assert (size (next st) <= size st)%nat by (destruct st; simpl; lia).
  destruct (_ && _); [intros [= <- <-]; done|]. intros E.
  pose proof (pStr_loop_le (peek st) _ (next st) ltac:(reflexivity)) as H2. rewrite E in H2. simpl in H2. lia.
Qed.

(** The call returns, and leaves no more input than there was. *)
Definition total {A} (p : Parser) (r : res (A * Parser)) : Prop :=
  exists x p', r = Ok (x, p') /\ (size p' <= size p)%nat.

Lemma total_ok {A} (x : A) p p' : (size p' <= size p)%nat -> total p (Ok (x, p')).
Proof. intros H. by exists x, p'. Qed.

Lemma total_bind {A B} p q (r : res (A * Parser)) (f : A * Parser -> res (B * Parser)) :
  (size q <= size p)%nat -> total q r ->
  (forall x p', (size p' <= size q)%nat -> total p (f (x, p'))) -> total p (r ≫= f).
Proof. intros Hq (x & p' & -> & Hp) Hf. rewrite bind_ok. by apply Hf. Qed.

Lemma total_weaken {A} p q (r : res (A * Parser)) : (size q <= size p)%nat -> total q r -> total p r.
Proof. intros Hq (x & p' & -> & Hp). exists x, p'. split; [done|lia]. Qed.

Lemma pOp_le ops p : Forall (fun x => kw_ok (str x.1) = true) ops ->
  (size (pOp p ops).2 <= size p)%nat /\ ((pOp p ops).1 <> 0 -> (size (pOp p ops).2 < size p)%nat).
Proof.
  induction 1 as [|[kw op] ops Hk Hops IH]; simpl; [split; [lia|done]|].
  destruct (pKeyword p [kw]) as [[] p'] eqn:E; simpl; [|done].
  apply pKeyword_le in E as [H1 H2]; [|by repeat constructor|done]. specialize (H2 eq_refl). lia.
Qed.

Ltac kw_ok_tac := solve [repeat constructor].

(** Case analysis on a call of the scanner, with what it consumes. *)
Ltac kw p' :=
  match goal with
  | |- context [pKeyword ?p ?l] =>
      let E := fresh "E" in let H1 := fresh "Hle" in let H2 := fresh "Hlt" in
      destruct (pKeyword p l) as [[] p'] eqn:E; (apply pKeyword_le in E as [H1 H2]; [|kw_ok_tac|done]);
      [specialize (H2 eq_refl)|clear H2]
  end.

Ltac op p' :=
  match goal with
  | |- context [pOp ?p ?l] =>
      let H1 := fresh "Hle" in let H2 := fresh "Hlt" in let o := fresh "o" in
      destruct (pOp_le l p) as [H1 H2]; [kw_ok_tac|];
      destruct (pOp p l) as [o p']; cbn [fst snd] in H1, H2;
      destruct (Z.eqb_spec o 0); [clear H2|specialize (H2 ltac:(assumption))]; cbn [negb]
  end.

(** The fuel each of the functions needs on an input [p]. *)
Definition enough (fuel c : nat) (p : Parser) : Prop := (10 * size p + c <= fuel)%nat.

Definition expr_total (fuel : nat) : Prop :=
  (forall p, enough fuel 6 p -> total p (pExprOr fuel p)) /\
  (forall l p, enough fuel 1 p -> total p (or_loop fuel l p)) /\
  (forall p, enough fuel 5 p -> total p (pExprAnd fuel p)) /\
  (forall l p, enough fuel 1 p -> total p (and_loop fuel l p)) /\
  (forall p, enough fuel 4 p -> total p (pExprCmp fuel p)) /\
  (forall p, enough fuel 3 p -> total p (pExprAdd fuel p)) /\
  (forall l p, enough fuel 1 p -> total p (add_loop fuel l p)) /\
  (forall p, enough fuel 2 p -> total p (pExprMul fuel p)) /\
  (forall l p, enough fuel 1 p -> total p (mul_loop fuel l p)) /\
  (forall p, enough fuel 1 p -> total p (pExprAtom fuel p)) /\
  (forall ks p, enough fuel 7 p -> total p (args_loop fuel ks p)).

Lemma atom_total fuel : expr_total fuel -> forall p, enough (S fuel) 1 p -> total p (pExprAtom (S fuel) p).
Proof.
  intros (Hor & _ & _ & _ & _ & _ & _ & _ & _ & Hatom & Hargs) p Hf. unfold enough in *. cbn [pExprAtom].
  kw p1.
  { eapply (total_bind p p1); [lia|apply Hatom; lia|]. intros e p2 H2. apply total_ok. lia. }
  kw p2.
  { eapply (total_bind p p2); [lia|apply Hor; lia|]. intros e p3 H3. apply total_ok.
    unfold pExpect. kw p4; simpl; lia. }
  destruct (pNum p2) as [n p3] eqn:En. apply pNum_le in En. destruct n as [n|]; [apply total_ok; lia|].
  destruct (pStr p3) as [s p4] eqn:Es. apply pStr_le in Es. destruct s as [s|]; [apply total_ok; lia|].
  destruct (pMustSym p4) as [name p5] eqn:Em. apply pMustSym_le in Em.
  case_bool_decide as Hn; [apply total_ok; lia|].
  assert (0 < List.length name)%nat by (destruct name; [done|simpl; lia]).
  kw p6; [|apply total_ok; lia]. kw p7; [apply total_ok; lia|].
  eapply (total_bind p p7); [lia|apply Hargs; lia|]. intros ks p8 H8. apply total_ok.
  unfold pExpect. kw p9; simpl; lia.
Qed.

Lemma args_total fuel : expr_total fuel -> forall ks p, enough (S fuel) 7 p -> total p (args_loop (S fuel) ks p).
Proof.
  intros (Hor & _ & _ & _ & _ & _ & _ & _ & _ & _ & Hargs) ks p Hf. unfold enough in *. cbn [args_loop].
  eapply (total_bind p p); [lia|apply Hor; lia|]. intros e p1 H1.
  kw p2; [|apply total_ok; lia]. eapply (total_weaken _ p2); [lia|]. apply Hargs. lia.
Qed.

Lemma exprs_total fuel : expr_total fuel.
Proof.
  induction fuel as [|fuel IH]; [unfold expr_total, enough; split_and!; intros; lia|].
  pose proof (atom_total fuel IH) as Ha. pose proof (args_total fuel IH) as Hb.
  destruct IH as (H1 & H2 & H3 & H4 & H5 & H6 & H7 & H8 & H9 & H10 & H11).
  unfold expr_total, enough in *. split_and!; try assumption; intros;
    cbn [pExprOr or_loop pExprAnd and_loop pExprCmp pExprAdd add_loop pExprMul mul_loop].
  - eapply total_bind; [reflexivity|apply H3; lia|]. intros. eapply total_weaken; [done|]. apply H2. lia.
  - kw q; [|apply total_ok; lia]. eapply (total_bind p q); [lia|apply H3; lia|]. intros.
    eapply (total_weaken _ p'); [lia|]. apply H2. lia.
  - eapply total_bind; [reflexivity|apply H5; lia|]. intros. eapply total_weaken; [done|]. apply H4. lia.
  - kw q; [|apply total_ok; lia]. eapply (total_bind p q); [lia|apply H5; lia|]. intros.
    eapply (total_weaken _ p'); [lia|]. apply H4. lia.
  - eapply total_bind; [reflexivity|apply H6; lia|]. intros l p1 Hp1. op q; [apply total_ok; lia|].
    eapply (total_bind p q); [lia|apply H6; lia|]. intros. apply total_ok. lia.
  - eapply total_bind; [reflexivity|apply H8; lia|]. intros. eapply total_weaken; [done|]. apply H7. lia.
  - op q; [apply total_ok; lia|]. eapply (total_bind p q); [lia|apply H8; lia|]. intros.
    eapply (total_weaken _ p'); [lia|]. apply H7. lia.
  - eapply total_bind; [reflexivity|apply H10; lia|]. intros. eapply total_weaken; [done|]. apply H9. lia.
  - op q; [apply total_ok; lia|]. eapply (total_bind p q); [lia|apply H10; lia|]. intros.
    eapply (total_weaken _ p'); [lia|]. apply H9. lia.
Qed.

Lemma pExprOr_total fuel p : enough fuel 6 p -> total p (pExprOr fuel p).
Proof. apply exprs_total. Qed.
Lemma pExprCmp_total fuel p : enough fuel 4 p -> total p (pExprCmp fuel p).
Proof. apply exprs_total. Qed.
Lemma args_loop_total fuel ks p : enough fuel 7 p -> total p (args_loop fuel ks p).
Proof. apply exprs_total. Qed.

Ltac sym s p' :=
  match goal with
  | |- context [pMustSym ?p] =>
      let E := fresh "E" in destruct (pMustSym p) as [s p'] eqn:E; apply pMustSym_le in E
  end.
Ltac num n p' :=
  match goal with
  | |- context [pNum ?p] =>
      let E := fresh "E" in destruct (pNum p) as [n p'] eqn:E; apply pNum_le in E
  end.

Lemma sym_list_total fuel : forall l p, enough fuel 1 p -> total p (sym_list fuel l p).
Proof.
  unfold enough. induction fuel as [|fuel IH]; intros l p Hf; [lia|]. cbn [sym_list].
  sym s p1. kw p2; [|apply total_ok; lia]. eapply (total_weaken _ p2); [lia|]. apply IH. lia.
Qed.

Lemma first_kw_le kws : Forall (fun kw => kw_ok (str kw) = true) kws -> forall p,
  (size (first_kw p kws).2 <= size p)%nat.
Proof.
  induction 1 as [|k kws Hk Hks IH]; intros p; simpl; [done|].
  destruct (pKeyword p [k]) as [[] q] eqn:E; apply pKeyword_le in E as [H1 _]; try done;
    try (by repeat constructor). specialize (IH q). lia.
Qed.

Ltac fkw ok p' :=
  match goal with
  | |- context [first_kw ?p ?l] =>
      let H := fresh "Hle" in pose proof (first_kw_le l ltac:(kw_ok_tac) p) as H;
      destruct (first_kw p l) as [ok p']; cbn [snd] in H
  end.

Lemma pType_le p : (size (pType p).2 <= size p)%nat.
Proof.
  unfold pType. fkw o1 p1. destruct o1; [simpl; lia|]. fkw o2 p2. destruct o2; [simpl; lia|].
  fkw o3 p3. destruct o3; [simpl; lia|]. fkw o4 p4. destruct o4; simpl; lia.
Qed.

Lemma cols_loop_total fuel : forall cols pks p, enough fuel 2 p -> total p (cols_loop fuel cols pks p).
Proof.
  unfold enough. induction fuel as [|fuel IH]; intros cols pks p Hf; [lia|]. cbn [cols_loop]. unfold pExpect.
  kw p1.
  - kw p2; (eapply (total_bind p p2); [lia|apply sym_list_total; unfold enough; lia|]; intros l p3 H3;
      kw p4; (kw p5; [eapply (total_weaken _ p5); [lia|]; apply IH; lia|apply total_ok; lia])).
  - sym s p2. pose proof (pType_le p2) as Ht. destruct (pType p2) as [ty p3]. cbn [snd] in Ht.
    kw p4; [|apply total_ok; lia]. eapply (total_weaken _ p4); [lia|]. apply IH. lia.
Qed.

Lemma pCreateTable_total fuel p : enough fuel 2 p -> total p (pCreateTable fuel p).
Proof.
  unfold enough, pCreateTable, pExpect. intros Hf. sym s p1. kw p2; [|apply total_ok; lia].
  eapply (total_bind p p2); [lia|apply cols_loop_total; unfold enough; lia|]. intros [cols pks] p3 H3.
  apply total_ok. kw p4; simpl; lia.
Qed.

Lemma pCreateIndex_total fuel p : enough fuel 2 p -> total p (pCreateIndex fuel p).
Proof.
  unfold enough, pCreateIndex, pExpect. intros Hf.
  kw p1; (sym s p2; kw p3; [|apply total_ok; lia]; sym t p4; kw p5; [|apply total_ok; lia];
    eapply (total_bind p p5); [lia|apply sym_list_total; unfold enough; lia|]; intros l p6 H6;
    apply total_ok; kw p7; simpl; lia).
Qed.

Lemma pSelectExpr_le p node : (size (pSelectExpr p node).2 <= size p)%nat.
Proof. unfold pSelectExpr. kw p1; [simpl; lia|]. sym s p2. kw p3; [sym t p4|]; simpl; lia. Qed.

Lemma select_loop_total fuel : forall p node, enough fuel 1 p -> total p (select_loop fuel p node).
Proof.
  unfold enough. induction fuel as [|fuel IH]; intros p node Hf; [lia|]. cbn [select_loop].
  kw p1; [|apply total_ok; lia]. pose proof (pSelectExpr_le p1 node) as Hs.
  destruct (pSelectExpr p1 node) as [node' p2]. cbn [snd] in Hs.
  eapply (total_weaken _ p2); [lia|]. apply IH. lia.
Qed.

Lemma pLimit_le p node : (size (pLimit p node).2 <= size p)%nat.
Proof. unfold pLimit. num n p1. kw p2; [num m p3|]; simpl; lia. Qed.

Lemma pIndexBy_total fuel p node : enough fuel 4 p -> total p (pIndexBy fuel p node).
Proof.
  unfold enough, pIndexBy. intros Hf. eapply total_bind; [reflexivity|by apply pExprCmp_total|].
  intros k1 p1 H1. fkw o p2. destruct o; [|apply total_ok; lia].
  eapply (total_bind p p2); [lia|apply pExprCmp_total; unfold enough; lia|]. intros k2 p3 H3. apply total_ok. lia.
Qed.

Lemma pScan_total fuel p node : enough fuel 6 p -> total p (pScan fuel p node).
Proof.
  unfold pScan. intros Hf. apply (total_bind p p); [done| |].
  { unfold enough in *. kw p1; [|apply total_ok; lia]. eapply (total_weaken _ p1); [lia|].
    apply pIndexBy_total. unfold enough. lia. }
  intros n1 p1 H1. apply (total_bind p p1); [done| |].
  { unfold enough in *. kw p2; [|apply total_ok; lia]. eapply (total_bind p1 p2); [lia|apply pExprOr_total; unfold enough; lia|].
    intros e p3 H3. apply total_ok. lia. }
  intros n2 p2 H2. kw p3; [|apply total_ok; lia].
  pose proof (pLimit_le p3 (with_limits n2 0 MaxInt64)) as Hl. destruct (pLimit _ _) as [n3 p4]. cbn [snd] in Hl.
  apply total_ok. lia.
Qed.

Lemma pSelect_total fuel p : enough fuel 6 p -> total p (pSelect fuel p).
Proof.
  unfold pSelect, pSelectExprList, pExpect. intros Hf. apply (total_bind p p); [done| |].
  { pose proof (pSelectExpr_le p (mkSelect empty_scan [] [])) as Hs. destruct (pSelectExpr p _) as [s1 p1].
    cbn [snd] in Hs. eapply (total_weaken _ p1); [lia|]. apply select_loop_total. unfold enough in *. lia. }
  intros s p1 H1. kw p2; [|apply total_ok; lia]. sym t p3.
  eapply (total_bind p p3); [lia|apply pScan_total; unfold enough in *; lia|]. intros sc p4 H4. apply total_ok. lia.
Qed.

Lemma pInsert_total fuel p : enough fuel 7 p -> total p (pInsert fuel p).
Proof.
  unfold pInsert, pExpect. intros Hf. sym t p1. apply (total_bind p p1); [lia| |].
  { kw p2; [|apply total_ok; lia]. eapply (total_bind p1 p2); [lia|apply sym_list_total; unfold enough in *; lia|].
    intros l p3 H3. apply total_ok. kw p4; simpl; lia. }
  intros names p2 H2. kw p3; (kw p4; (eapply (total_bind p p4); [lia|apply args_loop_total; unfold enough in *; lia|];
    intros vs p5 H5; apply total_ok; kw p6; simpl; lia)).
Qed.

Lemma set_loop_total fuel : forall ns vs p, enough fuel 7 p -> total p (set_loop fuel ns vs p).
Proof.
  unfold enough. induction fuel as [|fuel IH]; intros ns vs p Hf; [lia|]. cbn [set_loop]. unfold pExpect.
  sym s p1. kw p2; (eapply (total_bind p p2); [lia|apply pExprOr_total; unfold enough; lia|]; intros v p3 H3;
    kw p4; [eapply (total_weaken _ p4); [lia|]; apply IH; lia|apply total_ok; lia]).
Qed.

Lemma pUpdate_total fuel p : enough fuel 7 p -> total p (pUpdate fuel p).
Proof.
  unfold pUpdate, pExpect. intros Hf. sym t p1.
  kw p2; (eapply (total_bind p p2); [lia|apply set_loop_total; unfold enough in *; lia|]; intros [ns vs] p3 H3;
    kw p4; (eapply (total_bind p p4); [lia|apply pScan_total; unfold enough in *; lia|]; intros sc p5 H5;
      apply total_ok; lia)).
Qed.

Lemma pDelete_total fuel p : enough fuel 6 p -> total p (pDelete fuel p).
Proof.
  unfold pDelete. intros Hf. sym t p1. kw p2; [|apply total_ok; lia].
  eapply (total_bind p p2); [lia|apply pScan_total; unfold enough in *; lia|]. intros sc p3 H3. apply total_ok. lia.
Qed.

Lemma wrap_total {A} (f : A -> Stmt) p q r : (size q <= size p)%nat -> total q r -> total p (wrap f r).
Proof. intros Hq Hr. eapply total_bind; [done..|]. intros x p' H. apply total_ok. lia. Qed.

Lemma pStmt_total fuel p : enough fuel 7 p -> total p (pStmt fuel p).
Proof.
  unfold pStmt. intros Hf.
  kw p1; [apply (wrap_total _ _ p1); [lia|]; apply pCreateTable_total; unfold enough in *; lia|].
  kw p2; [apply (wrap_total _ _ p2); [lia|]; apply pCreateIndex_total; unfold enough in *; lia|].
  kw p3; [apply (wrap_total _ _ p3); [lia|]; apply pSelect_total; unfold enough in *; lia|].
  kw p4; [apply (wrap_total _ _ p4); [lia|]; apply pInsert_total; unfold enough in *; lia|].
  kw p5; [apply (wrap_total _ _ p5); [lia|]; apply pUpdate_total; unfold enough in *; lia|].
  kw p6; [apply (wrap_total _ _ p6); [lia|]; apply pDelete_total; unfold enough in *; lia|].
  kw p7; [apply (wrap_total _ _ p7); [lia|]; apply pSelect_total; unfold enough in *; lia|].
  kw p8; [apply total_ok; lia|]. kw p9; [apply total_ok; lia|]. kw p10; apply total_ok; lia.
Qed.

(** C35: the parser terminates and never panics on any input: every one of its
    loops and recursive calls consumes input, so that fuel linear in the length
    of the input is enough. *)
Theorem Parse_terminates input : exists r, Parse input = Ok r.
Proof.
  destruct (pStmt_total (parse_fuel input) input) as (s & p & E & _).
  { unfold enough, parse_fuel. lia. }
  unfold Parse. rewrite E, bind_ok. destruct (0 <? _); by eexists.
Qed.
