(* ===== verification/ParserSpec.v ===== *)
(** The parser reads back what a printer writes.

    Expressions are printed with parentheses around every operator; an INSERT
    statement over them is parsed to the statement it was printed from. *)
From S2P Require Import Prelude Ast Parser.
From Stdlib Require Import Ascii String.
#[local] Open Scope Z_scope.

(** * The printer *)

Inductive binop :=
| OMul | ODiv | OMod | OAdd | OSub | OLe | OGe | ONe | OEq | OLt | OGt | OLike | OAnd | OOr.

Definition op_type (o : binop) : Z :=
  match o with
  | OMul => QLMul | ODiv => QLDiv | OMod => QLMod | OAdd => QLAdd | OSub => QLSub | OLe => QLLE
  | OGe => QLGE | ONe => QLNE | OEq => QLEQ | OLt => QLLT | OGt => QLGT | OLike => QLLike
  | OAnd => QLAnd | OOr => QLOr
  end.

Definition op_text (o : binop) : bytes :=
  str (match o with
  | OMul => "*" | ODiv => "/" | OMod => "%" | OAdd => "+" | OSub => "-" | OLe => "<="
  | OGe => ">=" | ONe => "!=" | OEq => "=" | OLt => "<" | OGt => ">" | OLike => "LIKE"
  | OAnd => "AND" | OOr => "OR"
  end).

Inductive expr :=
| EInt (n : Z) | EStr (s : bytes) | EIdent (s : bytes) | ENot (e : expr) | EBin (o : binop) (l r : expr).

Fixpoint node_of (e : expr) : QLNode :=
  match e with
  | EInt n => int_node n
  | EStr s => str_node QLStr s
  | EIdent s => str_node QLIdent s
  | ENot e => op_node QLNot [node_of e]
  | EBin o l r => op_node (op_type o) [node_of l; node_of r]
  end.

(** Decimal digits, the last in front; 20 digits hold every 64-bit number. *)
Fixpoint digits (fuel : nat) (n : Z) : bytes :=
  match fuel with
  | O => []
  | S fuel => if n <? 10 then [48 + n] else digits fuel (n / 10) ++ [48 + n mod 10]
  end.

Definition dec (n : Z) : bytes := if n <? 0 then 45 :: digits 20 (- n) else digits 20 n.

(** The quote and the backslash are escaped. *)
Fixpoint escape (s : bytes) : bytes :=
  match s with
  | [] => []
  | c :: s => (if (c =? 39) || (c =? 92) then [92; c] else [c]) ++ escape s
  end.

Fixpoint print (e : expr) : bytes :=
  match e with
  | EInt n => dec n
  | EStr s => [39] ++ escape s ++ [39]
  | EIdent s => s
  | ENot e => str "NOT " ++ print e
  | EBin o l r => [40] ++ print l ++ [32] ++ op_text o ++ [32] ++ print r ++ [41]
  end.

(** An identifier: letters, digits, [_] and [@], not starting with a digit. *)
Definition ident_ok (s : bytes) : bool :=
  negb (bool_decide (s = [])) && forallb is_sym s && negb (is_digit (peek s)).

(** As an expression it must not start with [not] in any case: the parser does
    not look for the end of a keyword. *)
Definition no_not (s : bytes) : bool := negb (bool_decide (is_Some (match_kw s (str "not")))).

Fixpoint expr_ok (e : expr) : bool :=
  match e with
  | EInt n => (-9223372036854775808 <=? n) && (n <=? 9223372036854775807)
  | EStr s => true
  | EIdent s => ident_ok s && no_not s
  | ENot e => expr_ok e
  | EBin o l r => expr_ok l && expr_ok r
  end.

(** * Numbers *)

Lemma digits_ok fuel : forall n, 0 <= n < 10 ^ Z.of_nat fuel -> (0 < fuel)%nat ->
  Forall (fun c => is_digit c = true) (digits fuel n) /\ digits fuel n <> [] /\ dec_val (digits fuel n) = n.
Proof.
  induction fuel as [|fuel IH]; intros n Hn Hf; [lia|]. cbn [digits].
  destruct (Z.ltb_spec n 10) as [Hs|Hs].
  - split; [|split; [done|]].
    + constructor; [|constructor]. unfold is_digit. rewrite !(proj2 (Z.leb_le _ _)) by lia. done.
    + unfold dec_val. simpl. lia.
  - rewrite Nat2Z.inj_succ, Z.pow_succ_r in Hn by lia.
    destruct (IH (n / 10)) as (H1 & H2 & H3); [dlia|destruct fuel; [simpl in Hn; lia|lia]|].
    split; [|split].
    + apply Forall_app. split; [done|]. constructor; [|constructor]. unfold is_digit.
      rewrite !(proj2 (Z.leb_le _ _)) by dlia. done.
    + intros E%app_eq_nil. by destruct E.
    + unfold dec_val in *. rewrite foldl_app, H3. simpl. dlia.
Qed.

Arguments digits : simpl never.

Lemma take_class_app f l r : Forall (fun c => f c = true) l -> (r = [] \/ f (peek r) = false) ->
  take_class f (l ++ r) = (l, r).
Proof.
  induction 1 as [|c l Hc Hl IH]; intros Hr; simpl.
  - destruct r as [|c r]; [done|]. destruct Hr as [|Hr]; [done|]. simpl in *. by rewrite Hr.
  - by rewrite Hc, IH.
Qed.

(** No space and no comment at the front. *)
Definition at_token (p : bytes) : Prop :=
  match p with [] => True | c :: p => is_ws c = false /\ (c = 45 -> peek p <> 45) end.

Lemma skipWS_token p : at_token p -> skipWS p = p.
Proof. destruct p as [|c p]; [done|]. intros [H _]. simpl. by rewrite H. Qed.

Lemma skipComments_token p : at_token p -> skipComments p = p.
Proof.
  intros H. unfold skipComments. rewrite skipWS_token by done. destruct p as [|c p]; [done|].
  destruct H as [_ H]. cbn [List.length skipComments_loop].
  destruct (decide (c = 45)) as [->|Hc].
  - destruct p as [|d p]; [done|]. simpl in H. destruct (decide (d = 45)) as [->|Hd]; [by destruct H|].
    repeat (case_match; try done).
  - repeat (case_match; try done).
Qed.

Lemma skipComments_space p : skipComments (32 :: p) = skipComments p.
Proof. done. Qed.

(** What may follow a printed expression. *)
Definition follow (r : bytes) : Prop := (r = [] \/ is_sym (peek r) = false) /\ pKeyword r ["("%string] = (false, r).

Lemma digit_sym c : is_digit c = true -> is_sym c = true.
Proof. unfold is_digit, is_sym. intros ->. by rewrite !orb_true_r. Qed.

Lemma pNum_dec n r : -9223372036854775808 <= n <= 9223372036854775807 -> (r = [] \/ is_sym (peek r) = false) ->
  at_token (dec n ++ r) /\ pNum (dec n ++ r) = (Some n, r).
Proof.
  intros Hn Hr. assert (r = [] \/ is_digit (peek r) = false) as Hd.
  { destruct Hr as [?|Hr]; [by left|right]. destruct (is_digit (peek r)) eqn:E; [|done].
    apply digit_sym in E. congruence. }
  assert (forall m, 0 <= m <= 9223372036854775808 -> exists c l, digits 20 m = c :: l /\ is_digit c = true /\
    take_class is_digit (digits 20 m ++ r) = (digits 20 m, r) /\ dec_val (digits 20 m) = m) as Hdig.
  { intros m Hm. destruct (digits_ok 20 m) as (H1 & H2 & H3); [change (10 ^ Z.of_nat 20) with 100000000000000000000; lia|lia|].
    destruct (digits 20 m) as [|c l] eqn:E; [done|]. exists c, l. split; [done|].
    split; [by apply Forall_cons in H1 as [? _]|]. split; [by apply take_class_app|done]. }
  unfold dec. destruct (Z.ltb_spec n 0) as [Hneg|Hpos].
  - destruct (Hdig (- n)) as (c & l & E & Hc & Ht & Hv); [lia|].
    assert (at_token ((45 :: digits 20 (- n)) ++ r)) as Htok.
    { split; [done|]. intros _. rewrite E. simpl. intros ->. done. }
    split; [done|]. unfold pNum. rewrite skipComments_token by done.
    change ((45 :: digits 20 (- n)) ++ r) with (45 :: digits 20 (- n) ++ r). cbn [peek next].
    rewrite Z.eqb_refl, Ht. rewrite bool_decide_false by (by rewrite E).
    unfold parse_int. rewrite Hv. do 2 f_equal. lia.
  - destruct (Hdig n) as (c & l & E & Hc & Ht & Hv); [lia|].
    assert (c <> 45 /\ is_ws c = false) as [Hc45 Hws].
    { unfold is_digit in Hc. apply andb_true_iff in Hc as [H1%Z.leb_le H2%Z.leb_le]. unfold is_ws.
      rewrite !(proj2 (Z.eqb_neq _ _)) by lia. split; [lia|done]. }
    assert (at_token (digits 20 n ++ r)) as Htok by (rewrite E; split; [done|by intros ->]).
    split; [done|]. unfold pNum. rewrite skipComments_token by done.
    assert ((peek (digits 20 n ++ r) =? 45) = false) as -> by (rewrite E; by apply Z.eqb_neq).
    rewrite Ht. rewrite bool_decide_false by (by rewrite E).
    unfold parse_int. rewrite Hv. do 2 f_equal. lia.
Qed.

Lemma pStr_print s r : pStr ([39] ++ escape s ++ [39] ++ r) = (Some s, r).
Proof.
  unfold pStr. rewrite skipComments_token by (split; done). simpl peek. change (39 =? 39) with true. cbn [negb andb].
  simpl next. induction s as [|c s IH]; [done|]. cbn [escape].
  destruct (Z.eqb_spec c 39) as [->|H39]; [simpl; by rewrite IH|].
  destruct (Z.eqb_spec c 92) as [->|H92]; [simpl; by rewrite IH|]. simpl orb. cbv iota. simpl app in *.
  cbn [pStr_loop]. rewrite (proj2 (Z.eqb_neq c 39)), (proj2 (Z.eqb_neq c 92)) by done.
  destruct (escape s ++ 39 :: r) as [|d t] eqn:E; [by destruct (escape s)|]. by rewrite IH.
Qed.

(** * Running the parser *)

(** With at least [F] fuel, the function reads [n] and leaves [t]. *)
Definition runs (g : nat -> Parser -> res (QLNode * Parser)) (F : nat) (p : Parser) (n : QLNode) (t : Parser) : Prop :=
  forall f, (F <= f)%nat -> g f p = Ok (n, t).

(** No operator of the list at the front. *)
Definition no_op (ops : list (string * Z)) (t : Parser) : Prop := pOp t ops = (0, t).
Definition no_kw (kw : string) (t : Parser) : Prop := pKeyword t [kw] = (false, t).

(** Nothing that would continue an expression. *)
Definition ends (t : Parser) : Prop :=
  no_op mul_ops t /\ no_op add_ops t /\ no_op cmp_ops t /\ no_kw "and" t /\ no_kw "or" t.

Section runs.
Implicit Types (p t : Parser) (n : QLNode) (F : nat).

Lemma up_mul F p n t : runs pExprAtom F p n t -> no_op mul_ops t -> runs pExprMul (F + 2) p n t.
Proof.
  intros H Ho [|[|f]] Hf; try lia. cbn [pExprMul]. rewrite H, bind_ok by lia. cbn [mul_loop]. by rewrite Ho.
Qed.

Lemma up_add F p n t : runs pExprMul F p n t -> no_op add_ops t -> runs pExprAdd (F + 2) p n t.
Proof.
  intros H Ho [|[|f]] Hf; try lia. cbn [pExprAdd]. rewrite H, bind_ok by lia. cbn [add_loop]. by rewrite Ho.
Qed.

Lemma up_cmp F p n t : runs pExprAdd F p n t -> no_op cmp_ops t -> runs pExprCmp (F + 2) p n t.
Proof. intros H Ho [|[|f]] Hf; try lia. cbn [pExprCmp]. rewrite H, bind_ok by lia. by rewrite Ho. Qed.

Lemma up_and F p n t : runs pExprCmp F p n t -> no_kw "and" t -> runs pExprAnd (F + 2) p n t.
Proof.
  intros H Ho [|[|f]] Hf; try lia. cbn [pExprAnd]. rewrite H, bind_ok by lia. cbn [and_loop]. by rewrite Ho.
Qed.

Lemma up_or F p n t : runs pExprAnd F p n t -> no_kw "or" t -> runs pExprOr (F + 2) p n t.
Proof.
  intros H Ho [|[|f]] Hf; try lia. cbn [pExprOr]. rewrite H, bind_ok by lia. cbn [or_loop]. by rewrite Ho.
Qed.

(** An operand, then an operator of the level, then the other operand. *)
Lemma bin_mul F p n t o t1 m t2 : runs pExprAtom F p n t -> pOp t mul_ops = (o, t1) -> o <> 0 ->
  runs pExprAtom F t1 m t2 -> no_op mul_ops t2 -> runs pExprMul (F + 3) p (op_node o [n; m]) t2.
Proof.
  intros H Ho H0 H1 H2 [|[|[|f]]] Hf; try lia. cbn [pExprMul]. rewrite H, bind_ok by lia.
  cbn [mul_loop]. rewrite Ho, (proj2 (Z.eqb_neq _ _)), H1, bind_ok by (done || lia). cbn [mul_loop]. by rewrite H2.
Qed.

Lemma bin_add F p n t o t1 m t2 : runs pExprMul F p n t -> pOp t add_ops = (o, t1) -> o <> 0 ->
  runs pExprMul F t1 m t2 -> no_op add_ops t2 -> runs pExprAdd (F + 3) p (op_node o [n; m]) t2.
Proof.
  intros H Ho H0 H1 H2 [|[|[|f]]] Hf; try lia. cbn [pExprAdd]. rewrite H, bind_ok by lia.
  cbn [add_loop]. rewrite Ho, (proj2 (Z.eqb_neq _ _)), H1, bind_ok by (done || lia). cbn [add_loop]. by rewrite H2.
Qed.

Lemma bin_cmp F p n t o t1 m t2 : runs pExprAdd F p n t -> pOp t cmp_ops = (o, t1) -> o <> 0 ->
  runs pExprAdd F t1 m t2 -> runs pExprCmp (F + 3) p (op_node o [n; m]) t2.
Proof.
  intros H Ho H0 H1 [|[|[|f]]] Hf; try lia. cbn [pExprCmp]. rewrite H, bind_ok by lia.
  rewrite Ho, (proj2 (Z.eqb_neq _ _)), H1 by (done || lia). done.
Qed.

Lemma bin_and F p n t t1 m t2 : runs pExprCmp F p n t -> pKeyword t ["and"%string] = (true, t1) ->
  runs pExprCmp F t1 m t2 -> no_kw "and" t2 -> runs pExprAnd (F + 3) p (op_node QLAnd [n; m]) t2.
Proof.
  intros H Ho H1 H2 [|[|[|f]]] Hf; try lia. cbn [pExprAnd]. rewrite H, bind_ok by lia.
  cbn [and_loop]. rewrite Ho, H1, bind_ok by lia. cbn [and_loop]. by rewrite H2.
Qed.

Lemma bin_or F p n t t1 m t2 : runs pExprAnd F p n t -> pKeyword t ["or"%string] = (true, t1) ->
  runs pExprAnd F t1 m t2 -> no_kw "or" t2 -> runs pExprOr (F + 3) p (op_node QLOr [n; m]) t2.
Proof.
  intros H Ho H1 H2 [|[|[|f]]] Hf; try lia. cbn [pExprOr]. rewrite H, bind_ok by lia.
  cbn [or_loop]. rewrite Ho, H1, bind_ok by lia. cbn [or_loop]. by rewrite H2.
Qed.
End runs.

Lemma ends_close r : ends (41 :: r).
Proof. split_and!; reflexivity. Qed.

Lemma ends_comma r : ends (44 :: r).
Proof. split_and!; reflexivity. Qed.

Lemma runs_or F p n t : runs pExprAtom F p n t -> ends t -> runs pExprOr (F + 10) p n t.
Proof.
  intros H (H1 & H2 & H3 & H4 & H5). replace (F + 10)%nat with (F + 2 + 2 + 2 + 2 + 2)%nat by lia.
  auto 10 using up_mul, up_add, up_cmp, up_and, up_or.
Qed.

(** A binary expression between parentheses, after the opening one. *)
Lemma runs_bin o F p n m t t1 r :
  t = 32 :: op_text o ++ 32 :: t1 ->
  runs pExprAtom F p n t -> runs pExprAtom F (32 :: t1) m (41 :: r) ->
  runs pExprOr (F + 11) p (op_node (op_type o) [n; m]) (41 :: r).
Proof.
  intros -> H1 H2. destruct (ends_close r) as (E1 & E2 & E3 & E4 & E5).
  replace (F + 11)%nat with (F + 3 + 2 + 2 + 2 + 2)%nat by lia.
  destruct o; cbn [op_type].
  1-3: apply up_or; [apply up_and; [apply up_cmp; [apply up_add; [eapply bin_mul; [exact H1|reflexivity|done|exact H2|done]|done]|done]|done]|done].
  1-2: replace (F + 3 + 2 + 2 + 2 + 2)%nat with (F + 2 + 3 + 2 + 2 + 2)%nat by lia;
    apply up_or; [apply up_and; [apply up_cmp; [eapply bin_add; [eapply up_mul; [exact H1|reflexivity]|reflexivity|done|eapply up_mul; [exact H2|done]|done]|done]|done]|done].
  1-7: replace (F + 3 + 2 + 2 + 2 + 2)%nat with (F + 2 + 2 + 3 + 2 + 2)%nat by lia;
    apply up_or; [apply up_and; [eapply bin_cmp; [eapply up_add; [eapply up_mul; [exact H1|reflexivity]|reflexivity]|reflexivity|done|eapply up_add; [eapply up_mul; [exact H2|done]|done]]|done]|done].
  - replace (F + 3 + 2 + 2 + 2 + 2)%nat with (F + 2 + 2 + 2 + 3 + 2)%nat by lia.
    apply up_or; [|done]. eapply (bin_and _ _ _ (32 :: op_text OAnd ++ 32 :: t1)); [|reflexivity| |done];
      (eapply up_cmp; [eapply up_add; [eapply up_mul; [done|done]|done]|done]).
  - replace (F + 3 + 2 + 2 + 2 + 2)%nat with (F + 2 + 2 + 2 + 2 + 3)%nat by lia.
    eapply (bin_or _ _ _ (32 :: op_text OOr ++ 32 :: t1)); [|reflexivity| |done];
      (eapply up_and; [eapply up_cmp; [eapply up_add; [eapply up_mul; [done|done]|done]|done]|done]).
Qed.

(** * Atoms *)

Lemma pKeyword_space p kws : pKeyword (32 :: p) kws =
  match pKeyword p kws with (true, q) => (true, q) | (false, _) => (false, 32 :: p) end.
Proof. unfold pKeyword. rewrite skipComments_space. by destruct (match_kws _ _). Qed.

(** A space before an atom makes no difference. *)
Lemma atom_space f p : pExprAtom f (32 :: p) = pExprAtom f p.
Proof.
  destruct f as [|f]; [done|]. cbn [pExprAtom]. rewrite !pKeyword_space.
  assert (forall q kws r, pKeyword q kws = (false, r) -> r = q) as Hf.
  { intros q kws r. unfold pKeyword. by destruct (match_kws _ _); intros [= <-]. }
  destruct (pKeyword p ["not"%string]) as [[] q] eqn:E; [done|]. apply Hf in E as ->.
  rewrite pKeyword_space. destruct (pKeyword p ["("%string]) as [[] q] eqn:E; [done|]. apply Hf in E as ->.
  unfold pNum. by rewrite skipComments_space.
Qed.

(** A keyword that starts with another character is not there. *)
Lemma no_keyword p kw c l : at_token p -> str kw = c :: l -> lower (peek p) <> c -> pKeyword p [kw] = (false, p).
Proof.
  intros Ht E Hc. unfold pKeyword. rewrite skipComments_token by done. cbn [fmap list_fmap match_kws].
  rewrite skipWS_token, E by done. cbn [match_kw]. by rewrite (proj2 (Z.eqb_neq _ _)).
Qed.

Lemma match_kw_app kw : forall s r, Forall (fun c => 97 <= c <= 122) kw -> (r = [] \/ is_sym (peek r) = false) ->
  match_kw s kw = None -> match_kw (s ++ r) kw = None.
Proof.
  induction kw as [|c kw IH]; intros s r Hk Hr; [done|]. apply Forall_cons in Hk as [Hc Hk].
  destruct s as [|d s]; cbn [match_kw app peek next].
  - intros _. destruct (Z.eqb_spec (lower (peek r)) c) as [E|]; [|done]. exfalso.
    destruct Hr as [->|Hr]; [simpl in E; unfold lower in E; simpl in E; lia|].
    unfold is_sym in Hr. apply orb_false_iff in Hr as [Hr _]. apply orb_false_iff in Hr as [Hr _].
    apply orb_false_iff in Hr as [Hr _]. apply orb_false_iff in Hr as [H1 H2].
    unfold lower in E. rewrite H2 in E. subst c. rewrite !(proj2 (Z.leb_le _ _)) in H1 by lia. done.
  - destruct (lower d =? c); [by apply IH|done].
Qed.

Lemma sym_not_ws c : is_sym c = true -> is_ws c = false /\ c <> 45 /\ c <> 40 /\ c <> 39 /\ c <> 34.
Proof.
  unfold is_sym, is_ws. intros H.
  assert (48 <= c <= 57 \/ 64 <= c <= 90 \/ c = 95 \/ 97 <= c <= 122) as Hc.
  { destruct (Z.leb_spec 97 c), (Z.leb_spec c 122), (Z.leb_spec 65 c), (Z.leb_spec c 90), (Z.leb_spec 48 c),
      (Z.leb_spec c 57), (Z.eqb_spec c 95), (Z.eqb_spec c 64); simpl in H; try done; lia. }
  rewrite !(proj2 (Z.eqb_neq _ _)) by lia. split; [done|lia].
Qed.

Lemma lower_40 c : lower c = 40 -> c = 40.
Proof. unfold lower. destruct (Z.leb_spec 65 c), (Z.leb_spec c 90); simpl; lia. Qed.

(** An identifier is read whole. *)
Lemma ident_token s r : ident_ok s = true -> (r = [] \/ is_sym (peek r) = false) ->
  at_token (s ++ r) /\ is_sym (peek (s ++ r)) = true /\ is_digit (peek (s ++ r)) = false /\ pMustSym (s ++ r) = (s, r).
Proof.
  unfold ident_ok. intros H Hr. apply andb_true_iff in H as [H Hd]. apply andb_true_iff in H as [Hne Hs].
  destruct s as [|c s]; [done|]. apply negb_true_iff in Hd.
  assert (Forall (fun c => is_sym c = true) (c :: s)) as Hall.
  { apply Forall_forall. intros x Hx%list_elem_of_In. rewrite forallb_forall in Hs. by apply Hs. }
  pose proof Hall as [Hc _]%Forall_cons. destruct (sym_not_ws c Hc) as (Hw & H45 & _).
  assert (at_token ((c :: s) ++ r)) as Ht by (split; [done|by intros ->]).
  split; [done|]. split; [done|]. split; [done|].
  unfold pMustSym. rewrite skipComments_token by done. by apply take_class_app.
Qed.

Lemma pNum_none p : at_token p -> peek p <> 45 -> is_digit (peek p) = false -> pNum p = (None, p).
Proof.
  intros Ht H1 H2. unfold pNum. rewrite skipComments_token by done. rewrite (proj2 (Z.eqb_neq _ _)) by done.
  destruct p as [|c p]; [done|]. cbn [take_class]. simpl peek in H2. by rewrite H2.
Qed.

Lemma atom_ident s r f : ident_ok s = true -> no_not s = true -> follow r ->
  pExprAtom (S f) (s ++ r) = Ok (str_node QLIdent s, r).
Proof.
  intros Hs Hn [Hr Hp]. destruct (ident_token s r Hs Hr) as (Ht & Hy & Hd & Hm).
  destruct (sym_not_ws _ Hy) as (Hw & H45 & H40 & H39 & H34). cbn [pExprAtom].
  assert (pKeyword (s ++ r) ["not"%string] = (false, s ++ r)) as ->.
  { unfold pKeyword. rewrite skipComments_token by done. cbn [fmap list_fmap match_kws].
    rewrite skipWS_token by done. rewrite match_kw_app; [done|by repeat constructor|done|].
    unfold no_not in Hn. apply negb_true_iff, bool_decide_eq_false in Hn. by apply eq_None_not_Some. }
  rewrite (no_keyword _ "(" 40 []); [|done|done|by intros ?%lower_40].
  rewrite pNum_none by done. unfold pStr. rewrite skipComments_token by done.
  rewrite (proj2 (Z.eqb_neq _ 39)), (proj2 (Z.eqb_neq _ 34)) by done. cbn [negb andb].
  rewrite Hm. rewrite bool_decide_false by (intros ->; done). by rewrite Hp.
Qed.

(** The fuel an expression needs. *)
Fixpoint need (e : expr) : nat :=
  match e with
  | ENot e => S (need e)
  | EBin _ l r => 12 + need l + need r
  | _ => 1
  end.

Lemma follow_close r : follow (41 :: r).
Proof. split; [by right|done]. Qed.

Lemma follow_comma r : follow (44 :: r).
Proof. split; [by right|done]. Qed.

Lemma follow_op o t : follow (32 :: op_text o ++ 32 :: t).
Proof. split; [by right|]. by destruct o. Qed.

Lemma atom_int n r f : -9223372036854775808 <= n <= 9223372036854775807 -> follow r ->
  pExprAtom (S f) (dec n ++ r) = Ok (int_node n, r).
Proof.
  intros Hn [Hr _]. destruct (pNum_dec n r Hn Hr) as [Ht E]. cbn [pExprAtom].
  assert (lower (peek (dec n ++ r)) <> 110 /\ lower (peek (dec n ++ r)) <> 40) as [H1 H2].
  { destruct (decide (peek (dec n ++ r) = 45)) as [->|H45]; [done|].
    destruct (is_digit (peek (dec n ++ r))) eqn:Ed; [|rewrite (pNum_none _ Ht H45 Ed) in E; done].
    unfold is_digit in Ed. apply andb_true_iff in Ed as [?%Z.leb_le ?%Z.leb_le]. unfold lower.
    destruct (Z.leb_spec 65 (peek (dec n ++ r))); simpl; lia. }
  rewrite (no_keyword _ "not" 110 [111; 116]), (no_keyword _ "(" 40 []) by done. by rewrite E.
Qed.

Lemma atom_str s r f : pExprAtom (S f) (print (EStr s) ++ r) = Ok (str_node QLStr s, r).
Proof.
  cbn [print]. rewrite <-!app_assoc. cbn [pExprAtom].
  assert (at_token ([39] ++ escape s ++ [39] ++ r)) as Ht by (split; done).
  rewrite (no_keyword _ "not" 110 [111; 116]), (no_keyword _ "(" 40 []) by done.
  rewrite pNum_none by done. by rewrite pStr_print.
Qed.

Lemma atom_print e : expr_ok e = true -> forall r, follow r -> runs pExprAtom (need e) (print e ++ r) (node_of e) r.
Proof.
  induction e as [n|s|s|e IH|o l IHl r0 IHr]; cbn [expr_ok need node_of]; intros Hok r Hr f Hf.
  - apply andb_true_iff in Hok as [?%Z.leb_le ?%Z.leb_le]. destruct f as [|f]; [lia|]. by apply atom_int.
  - destruct f as [|f]; [lia|]. apply atom_str.
  - apply andb_true_iff in Hok as [H1 H2]. destruct f as [|f]; [lia|]. by apply atom_ident.
  - destruct f as [|f]; [lia|]. cbn [print]. rewrite <-app_assoc. cbn [pExprAtom].
    change (pKeyword (str "NOT " ++ print e ++ r) ["not"%string]) with (true, 32 :: print e ++ r).
    cbv iota beta. rewrite atom_space, IH by (done || lia). done.
  - apply andb_true_iff in Hok as [H1 H2]. destruct f as [|f]; [lia|]. cbn [print].
    assert (([40] ++ print l ++ [32] ++ op_text o ++ [32] ++ print r0 ++ [41]) ++ r =
      40 :: print l ++ 32 :: op_text o ++ 32 :: print r0 ++ 41 :: r) as ->.
    { simpl. rewrite <-!app_assoc. simpl. rewrite <-!app_assoc. simpl. by rewrite <-!app_assoc. }
    cbn [pExprAtom]. set (t := print l ++ 32 :: op_text o ++ 32 :: print r0 ++ 41 :: r).
    change (pKeyword (40 :: t) ["not"%string]) with (false, 40 :: t). cbv iota beta.
    change (pKeyword (40 :: t) ["("%string]) with (true, t). cbv iota beta. subst t.
    rewrite (runs_bin o (need l + need r0) _ (node_of l) (node_of r0) _ (print r0 ++ 41 :: r) r eq_refl); [done|..|lia].
    + intros g Hg. apply IHl; [done|apply follow_op|lia].
    + intros g Hg. rewrite atom_space. apply IHr; [done|apply follow_close|lia].
Qed.

Lemma print_or e sp t : expr_ok e = true -> (sp = [] \/ sp = [32]) -> follow t -> ends t ->
  runs pExprOr (need e + 10) (sp ++ print e ++ t) (node_of e) t.
Proof.
  intros He Hsp Hf Ht. apply runs_or; [|done]. intros f Hn. destruct Hsp as [-> | ->]; cbn [app].
  - by apply atom_print.
  - rewrite atom_space. by apply atom_print.
Qed.

(** * INSERT statements *)

Fixpoint sep (l : list bytes) : bytes :=
  match l with
  | [] => []
  | [x] => x
  | x :: l => x ++ [44; 32] ++ sep l
  end.

Definition print_insert (s : QLInsert) (vals : list expr) : bytes :=
  str "INSERT INTO " ++ ins_Table s ++ str " (" ++ sep (ins_Names s) ++ str ") VALUES (" ++
  sep (print <$> vals) ++ str ")".

Lemma pMustSym_space p : pMustSym (32 :: p) = pMustSym p.
Proof. done. Qed.

(** A list of identifiers up to the closing parenthesis. *)
Lemma sym_list_sep l : l <> [] -> forallb ident_ok l = true -> forall fuel acc r sp, (sp = [] \/ sp = [32]) ->
  (List.length l <= fuel)%nat -> sym_list fuel acc (sp ++ sep l ++ 41 :: r) = Ok (acc ++ l, 41 :: r).
Proof.
  induction l as [|x l IH]; [done|]. intros _ Hl fuel acc r sp Hsp Hf. simpl in Hl, Hf.
  apply andb_true_iff in Hl as [Hx Hl]. destruct fuel as [|fuel]; [lia|]. cbn [sym_list].
  assert (forall q, pMustSym (sp ++ q) = pMustSym q) as Hs by (intros q; by destruct Hsp as [-> | ->]).
  rewrite Hs. destruct l as [|y l].
  - cbn [sep]. destruct (ident_token x (41 :: r) Hx) as (_ & _ & _ & ->); [by right|]. done.
  - change (sep (x :: y :: l)) with (x ++ [44; 32] ++ sep (y :: l)). rewrite <-!app_assoc.
    destruct (ident_token x ([44; 32] ++ sep (y :: l) ++ 41 :: r) Hx) as (_ & _ & _ & ->); [by right|].
    cbn [app]. change (pKeyword (44 :: 32 :: sep (y :: l) ++ 41 :: r) [","%string]) with
      (true, 32 :: sep (y :: l) ++ 41 :: r). cbv iota beta.
    change (32 :: sep (y :: l) ++ 41 :: r) with ([32] ++ sep (y :: l) ++ 41 :: r).
    rewrite IH; [|done|done|by right|simpl in *; lia]. by rewrite <-app_assoc.
Qed.

Definition need_list (l : list expr) : nat := foldr (fun e n => need e + 11 + n)%nat 0%nat l.

Lemma args_loop_sep l : l <> [] -> forallb expr_ok l = true -> forall fuel acc r sp, (sp = [] \/ sp = [32]) ->
  (need_list l <= fuel)%nat ->
  args_loop fuel acc (sp ++ sep (print <$> l) ++ 41 :: r) = Ok (acc ++ (node_of <$> l), 41 :: r).
Proof.
  induction l as [|e l IH]; [done|]. intros _ Hl fuel acc r sp Hsp Hf. simpl in Hl, Hf.
  apply andb_true_iff in Hl as [He Hl]. destruct fuel as [|fuel]; [lia|]. cbn [args_loop].
  destruct l as [|e2 l].
  - cbn [fmap list_fmap sep]. rewrite print_or; [done|done|done|apply follow_close|apply ends_close|simpl in Hf; lia].
  - change (sep (print <$> e :: e2 :: l)) with (print e ++ [44; 32] ++ sep (print <$> e2 :: l)).
    set (t := sep (print <$> e2 :: l) ++ 41 :: r) in *.
    replace ((print e ++ [44; 32] ++ sep (print <$> e2 :: l)) ++ 41 :: r) with (print e ++ 44 :: 32 :: t)
      by (subst t; by rewrite <-!app_assoc).
    rewrite print_or; [|done|done|apply follow_comma|apply ends_comma|lia]. rewrite bind_ok.
    change (pKeyword (44 :: 32 :: t) [","%string]) with (true, 32 :: t). cbv iota beta.
    change (32 :: t) with ([32] ++ t). subst t.
    rewrite IH; [|done|done|by right|simpl in *; lia]. by rewrite <-app_assoc.
Qed.

Lemma need_print e : expr_ok e = true -> (need e <= 10 * List.length (print e))%nat.
Proof.
  induction e as [n|s|s|e IH|o l IHl r IHr]; cbn [expr_ok need print]; intros Hok.
  - apply andb_true_iff in Hok as [?%Z.leb_le ?%Z.leb_le]. unfold dec.
    destruct (Z.ltb_spec n 0); [simpl; lia|]. destruct (digits_ok 20 n) as (_ & H2 & _);
      [change (10 ^ Z.of_nat 20) with 100000000000000000000; lia|lia|]. destruct (digits 20 n); [done|simpl; lia].
  - simpl. lia.
  - destruct s as [|c s]; [done|]. simpl. lia.
  - rewrite length_app. change (List.length (str "NOT ")) with 4%nat. specialize (IH Hok). lia.
  - apply andb_true_iff in Hok as [H1 H2]. specialize (IHl H1). specialize (IHr H2).
    rewrite !length_app. cbn [List.length]. lia.
Qed.

Lemma sep_cons x y l : sep (x :: y :: l) = x ++ [44; 32] ++ sep (y :: l).
Proof. done. Qed.

Lemma need_list_sep l : forallb expr_ok l = true ->
  (need_list l <= 10 * List.length (sep (print <$> l)) + 11)%nat.
Proof.
  induction l as [|e l IH]; [simpl; lia|]. cbn [forallb]. intros [He Hl]%andb_true_iff. specialize (IH Hl).
  pose proof (need_print e He). change (need_list (e :: l)) with (need e + 11 + need_list l)%nat.
  destruct l as [|e2 l]; [cbn in *; lia|]. rewrite !fmap_cons in *. rewrite sep_cons, !length_app.
  cbn [List.length]. lia.
Qed.

Lemma length_sep l : forallb ident_ok l = true -> (List.length l <= List.length (sep l))%nat.
Proof.
  induction l as [|x l IH]; [simpl; lia|]. cbn [forallb]. intros [Hx Hl]%andb_true_iff. specialize (IH Hl).
  assert (0 < List.length x)%nat by (destruct x; [done|simpl; lia]).
  destruct l as [|y l]; [simpl in *; lia|]. rewrite sep_cons, !length_app. cbn [List.length] in *. lia.
Qed.

(** The statement after [INSERT INTO]. *)
Lemma pInsert_print t ns vs fuel : ident_ok t = true -> ns <> [] -> forallb ident_ok ns = true ->
  vs <> [] -> forallb expr_ok vs = true -> (List.length ns <= fuel)%nat -> (need_list vs <= fuel)%nat ->
  pInsert fuel (32 :: t ++ str " (" ++ sep ns ++ str ") VALUES (" ++ sep (print <$> vs) ++ str ")") =
    Ok (mkInsert t ns (node_of <$> vs), []).
Proof.
  intros Ht Hn Hns Hv Hvs Hf1 Hf2. unfold pInsert. rewrite pMustSym_space.
  set (q := sep ns ++ str ") VALUES (" ++ sep (print <$> vs) ++ str ")").
  destruct (ident_token t (str " (" ++ q) Ht) as (_ & _ & _ & ->); [by right|]. cbv iota beta.
  change (pKeyword (str " (" ++ q) ["("%string]) with (true, q). cbv iota beta. subst q.
  set (q := sep (print <$> vs) ++ str ")").
  change (sep ns ++ str ") VALUES (" ++ q) with ([] ++ sep ns ++ 41 :: (str " VALUES (" ++ q)).
  rewrite sym_list_sep; [|done|done|by left|done]. rewrite !bind_ok. cbv iota beta.
  change (pExpect (41 :: (str " VALUES (" ++ q)) ")") with (true, str " VALUES (" ++ q). cbn [snd].
  change (pExpect (str " VALUES (" ++ q) "values") with (true, str " (" ++ q). cbv iota beta.
  change (pExpect (str " (" ++ q) "(") with (true, q). cbv iota beta. subst q.
  change (sep (print <$> vs) ++ str ")") with ([] ++ sep (print <$> vs) ++ 41 :: []).
  rewrite args_loop_sep; [|done|done|by left|done]. rewrite bind_ok. done.
Qed.

(** Parsing the text of an INSERT statement gives the statement back: the
    table, the columns in order, and for each value its expression tree, with
    integers over the whole 64-bit range, strings of any bytes, and operators of
    all levels nested in parentheses. *)
Theorem Parse_insert_roundtrip t ns vs :
  ident_ok t = true -> ns <> [] -> forallb ident_ok ns = true -> vs <> [] -> forallb expr_ok vs = true ->
  Parse (print_insert (mkInsert t ns []) vs) = Ok (inr (StInsert (mkInsert t ns (node_of <$> vs)))).
Proof.
  intros Ht Hn Hns Hv Hvs. unfold Parse, print_insert. cbn [ins_Table ins_Names].
  set (q := t ++ str " (" ++ sep ns ++ str ") VALUES (" ++ sep (print <$> vs) ++ str ")").
  set (fuel := parse_fuel _).
  assert (pStmt fuel (str "INSERT INTO " ++ q) = wrap StInsert (pInsert fuel (32 :: q))) as -> by reflexivity.
  subst q. rewrite pInsert_print; try done.
  - pose proof (length_sep ns Hns). subst fuel. unfold parse_fuel. rewrite !length_app. lia.
  - pose proof (need_list_sep vs Hvs). subst fuel. unfold parse_fuel. rewrite !length_app. lia.
Qed.

Lemma Parse_insert_roundtrip_witness :
  Parse (print_insert (mkInsert (str "users") [str "id"; str "name"] [])
    [EBin OAdd (EInt (-1)) (EBin OLike (EIdent (str "a")) (EStr (str "it's"))); EStr []]) =
  Ok (inr (StInsert (mkInsert (str "users") [str "id"; str "name"]
    [op_node QLAdd [int_node (-1); op_node QLLike [str_node QLIdent (str "a"); str_node QLStr (str "it's")]];
     str_node QLStr []]))).
Proof.
  apply (Parse_insert_roundtrip (str "users") [str "id"; str "name"]
    [EBin OAdd (EInt (-1)) (EBin OLike (EIdent (str "a")) (EStr (str "it's"))); EStr []]);
    first [reflexivity | discriminate].
Defined.

(** * What the parser does not read *)

(** The statements of the README end in a semicolon, which is left over. *)
Theorem semicolon_rejected :
  Parse (str "SELECT * FROM users;") = Ok (inl (str ";")).
Proof. vm_compute. reflexivity. Qed.

(** [COUNT] of the README is read as a column name, and the statement stops. *)
Theorem count_star_rejected :
  Parse (str "SELECT COUNT(*) FROM users") = Ok (inl (str "(*) FROM users")).
Proof. vm_compute. reflexivity. Qed.

(** The end of a keyword is not looked for: [notes] is [NOT es]; and [==] is
    read as [=]. *)
Theorem keywords_have_no_end :
  Parse (str "SELECT a FROM t FILTER notes") =
    Ok (inr (StSelect (mkSelect (mkScan (str "t") no_node no_node
      (op_node QLNot [str_node QLIdent (str "es")]) 0 MaxInt64 [] []) [str "a"] [str_node QLIdent (str "a")]))) /\
  Parse (str "SELECT a FROM t FILTER a == 1") = Ok (inl (str "= 1")).
Proof. split; vm_compute; reflexivity. Qed.
