(* ===== verification/StmtSpec.v ===== *)
(** Statements: every statement of the SQL dialect is read back from its text.

    A statement is printed with its keywords in capitals and its expressions in
    parentheses; [Parse] gives the tree of the statement back. Names must not
    begin with the keywords that the parser looks for in their place, because it
    does not look for the end of a keyword. *)
From Stdlib Require Import Ascii String.
From S2P Require Import Prelude Ast Parser ParserSpec.
#[local] Open Scope Z_scope.

(** * Statements and their text *)

(** The part after the table: the keys of INDEX BY, FILTER, LIMIT and OFFSET. *)
Record scan := mkScanOf {
  sc_keys : option (expr * option expr); sc_filter : option expr; sc_limit : option (Z * option Z) }.

Inductive coltype := CInt | CBytes | CBool | CFloat.

Inductive stmt :=
| SCreateTable (t : bytes) (cols : list (bytes * coltype)) (pkeys : list bytes)
| SCreateIndex (unique : bool) (name t : bytes) (keys : list bytes)
| SSelect (names : list (option bytes)) (t : bytes) (s : scan)
| SInsert (t : bytes) (names : list bytes) (vals : list expr)
| SUpdate (t : bytes) (sets : list (bytes * expr)) (s : scan)
| SDelete (t : bytes) (s : option scan).

Definition type_text (c : coltype) : bytes :=
  str (match c with CInt => "INT64" | CBytes => "BYTES" | CBool => "BOOL" | CFloat => "FLOAT64" end).
Definition type_code (c : coltype) : Z :=
  match c with CInt => QLI64 | CBytes => QLStr | CBool => QLAnd | CFloat => 999 end.

Definition print_limit (l : option (Z * option Z)) : bytes :=
  match l with
  | None => []
  | Some (n, None) => str " LIMIT " ++ dec n
  | Some (n, Some m) => str " LIMIT " ++ dec n ++ str " OFFSET " ++ dec m
  end.

Definition print_filter (f : option expr) : bytes :=
  match f with None => [] | Some e => str " FILTER " ++ print e end.

Definition print_keys (k : option (expr * option expr)) : bytes :=
  match k with
  | None => []
  | Some (e, None) => str " INDEX BY " ++ print e
  | Some (e, Some e') => str " INDEX BY " ++ print e ++ str " AND " ++ print e'
  end.

Definition print_scan (s : scan) : bytes := print_keys (sc_keys s) ++ print_filter (sc_filter s) ++ print_limit (sc_limit s).

Definition print_col (c : bytes * coltype) : bytes := c.1 ++ [32] ++ type_text c.2.
Definition print_name (n : option bytes) : bytes := default (str "*") n.
Definition print_set (x : bytes * expr) : bytes := x.1 ++ str " = " ++ print x.2.

Definition print_stmt (s : stmt) : bytes :=
  match s with
  | SCreateTable t cols pkeys =>
      str "CREATE TABLE " ++ t ++ str " (" ++ sep (print_col <$> cols) ++ str ", PRIMARY KEY (" ++ sep pkeys ++ str "))"
  | SCreateIndex unique name t keys =>
      str "CREATE INDEX " ++ (if unique then str "UNIQUE " else []) ++ name ++ str " ON " ++ t ++ str " (" ++
      sep keys ++ str ")"
  | SSelect names t s => str "SELECT " ++ sep (print_name <$> names) ++ str " FROM " ++ t ++ print_scan s
  | SInsert t names vals => print_insert (mkInsert t names []) vals
  | SUpdate t sets s => str "UPDATE " ++ t ++ str " SET " ++ sep (print_set <$> sets) ++ str " WHERE" ++ print_scan s
  | SDelete t s => str "DELETE FROM " ++ t ++ match s with Some s => str " WHERE" ++ print_scan s | None => [] end
  end.

(** * The trees *)

Definition scan_of (t : bytes) (s : scan) : QLScan :=
  mkScan t
    (match sc_keys s with Some (e, _) => node_of e | None => no_node end)
    (match sc_keys s with Some (_, Some e) => node_of e | _ => no_node end)
    (match sc_filter s with Some e => node_of e | None => no_node end)
    (match sc_limit s with Some (_, Some m) => m | _ => 0 end)
    (match sc_limit s with Some (n, _) => n | None => MaxInt64 end) [] [].

Definition stmt_of (s : stmt) : Stmt :=
  match s with
  | SCreateTable t cols pkeys =>
      StCreateTable (mkCreateTable t ((fun c => mkColSpec c.1 (type_code c.2)) <$> cols) pkeys)
  | SCreateIndex unique name t keys => StCreateIndex (mkCreateIndex t name keys unique)
  | SSelect names t s =>
      StSelect (mkSelect (scan_of t s) (print_name <$> names) (str_node QLIdent ∘ print_name <$> names))
  | SInsert t names vals => StInsert (mkInsert t names (node_of <$> vals))
  | SUpdate t sets s => StUpdate (mkUpdate (scan_of t s) sets.*1 (node_of <$> sets.*2))
  | SDelete t s => StDelete (mkDelete match s with Some s => scan_of t s | None => with_table empty_scan t end)
  end.

(** * Well-formed statements *)

(** The text does not begin with the keyword. *)
Definition not_kw (kw : string) (s : bytes) : bool := negb (bool_decide (is_Some (match_kw s (str kw)))).

Definition i64_ok (n : Z) : bool := (-9223372036854775808 <=? n) && (n <=? 9223372036854775807).

Definition scan_ok (s : scan) : bool :=
  match sc_keys s with Some (e, o) => expr_ok e && match o with Some e => expr_ok e | None => true end | None => true end &&
  match sc_filter s with Some e => expr_ok e | None => true end &&
  match sc_limit s with Some (n, o) => i64_ok n && match o with Some m => i64_ok m | None => true end | None => true end.

Definition stmt_ok (s : stmt) : bool :=
  match s with
  | SCreateTable t cols pkeys =>
      ident_ok t && forallb (fun c => ident_ok c.1 && not_kw "primary" c.1) cols && negb (bool_decide (cols = [])) &&
      forallb ident_ok pkeys && negb (bool_decide (pkeys = []))
  | SCreateIndex unique name t keys =>
      ident_ok name && not_kw "unique" name && ident_ok t && forallb ident_ok keys && negb (bool_decide (keys = []))
  | SSelect names t s =>
      forallb (fun n => match n with Some n => ident_ok n | None => true end) names && negb (bool_decide (names = [])) &&
      ident_ok t && scan_ok s
  | SInsert t names vals =>
      ident_ok t && forallb ident_ok names && negb (bool_decide (names = [])) &&
      forallb expr_ok vals && negb (bool_decide (vals = []))
  | SUpdate t sets s =>
      ident_ok t && forallb (fun x => ident_ok x.1 && expr_ok x.2) sets && negb (bool_decide (sets = [])) && scan_ok s
  | SDelete t s => ident_ok t && match s with Some s => scan_ok s | None => true end
  end.

(** * Scans *)

(** What ends an expression of a scan. *)
Definition stops (r : bytes) : Prop := follow r /\ ends r /\ first_kw r ["and"; ","]%string = (false, r).

Lemma stops_limit l : stops (print_limit l).
Proof.
  destruct l as [[n [m|]]|]; cbn [print_limit];
    (split; [split; [first [by left|by right]|reflexivity]|]; split; [split_and!; reflexivity|reflexivity]).
Qed.

Lemma stops_filter f l : stops (print_filter f ++ print_limit l).
Proof.
  destruct f as [e|]; [|apply stops_limit]. cbn [print_filter].
  split; [split; [by right|reflexivity]|]. split; [split_and!; reflexivity|reflexivity].
Qed.

Lemma runs_cmp F p n t : runs pExprAtom F p n t -> ends t -> runs pExprCmp (F + 6) p n t.
Proof.
  intros H (H1 & H2 & H3 & _ & _). replace (F + 6)%nat with (F + 2 + 2 + 2)%nat by lia. auto using up_mul, up_add, up_cmp.
Qed.

Lemma print_cmp e t : expr_ok e = true -> follow t -> no_op mul_ops t -> no_op add_ops t -> no_op cmp_ops t ->
  runs pExprCmp (need e + 6) (32 :: print e ++ t) (node_of e) t.
Proof.
  intros He Hf H1 H2 H3. replace (need e + 6)%nat with (need e + 2 + 2 + 2)%nat by lia.
  apply up_cmp, H3. apply up_add, H2. apply up_mul, H1. intros f Hn. rewrite atom_space. by apply atom_print.
Qed.

Lemma pNum_space p : pNum (32 :: p) = pNum p.
Proof. done. Qed.

Lemma i64_ok_iff n : i64_ok n = true -> -9223372036854775808 <= n <= 9223372036854775807.
Proof. unfold i64_ok. intros [H1 H2]%andb_true_iff. lia. Qed.

Definition scan_need (s : scan) : nat :=
  (match sc_keys s with Some (e, o) => need e + 6 + match o with Some e => need e + 6 | None => 0 end | None => 0 end +
   match sc_filter s with Some e => need e + 10 | None => 0 end)%nat.

Lemma pScan_print t s fuel : scan_ok s = true -> (scan_need s <= fuel)%nat ->
  pScan fuel (print_scan s) (with_table empty_scan t) = Ok (scan_of t s, []).
Proof.
  intros Hok Hf. destruct s as [k f l]. unfold scan_ok, scan_need, print_scan in *. cbn [sc_keys sc_filter sc_limit] in *.
  apply andb_true_iff in Hok as [[Hk Hfi]%andb_true_iff Hl].
  set (k1 := match k with Some (e, _) => node_of e | None => no_node end).
  set (k2 := match k with Some (_, Some e) => node_of e | _ => no_node end).
  set (node := with_keys (with_table empty_scan t) k1 k2).
  assert (match pKeyword (print_keys k ++ print_filter f ++ print_limit l) ["index"; "by"]%string with
    | (true, p) => pIndexBy fuel p (with_table empty_scan t)
    | (false, p) => Ok (with_table empty_scan t, p) end = Ok (node, print_filter f ++ print_limit l)) as E1.
  { destruct (stops_filter f l) as (Hs1 & Hs2 & Hs3). set (r := print_filter f ++ print_limit l) in *.
    destruct k as [[e [e'|]]|]; cbn [print_keys].
    - apply andb_true_iff in Hk as [He He']. rewrite <-!app_assoc.
      change (pKeyword (str " INDEX BY " ++ print e ++ str " AND " ++ print e' ++ r) ["index"; "by"]%string)
        with (true, 32 :: print e ++ str " AND " ++ print e' ++ r). cbv iota beta. unfold pIndexBy.
      rewrite print_cmp; [|done|split; [by right|reflexivity]|reflexivity|reflexivity|reflexivity|lia]. rewrite bind_ok.
      change (first_kw (str " AND " ++ print e' ++ r) ["and"; ","]%string) with (true, 32 :: print e' ++ r). cbv iota beta.
      destruct Hs2 as (N1 & N2 & N3 & _ & _). rewrite print_cmp by (done || lia). done.
    - apply andb_true_iff in Hk as [He _]. rewrite <-!app_assoc.
      change (pKeyword (str " INDEX BY " ++ print e ++ r) ["index"; "by"]%string) with (true, 32 :: print e ++ r).
      cbv iota beta. unfold pIndexBy. destruct Hs2 as (N1 & N2 & N3 & _ & _).
      rewrite print_cmp by (done || lia). rewrite bind_ok, Hs3. done.
    - cbn [app]. assert (pKeyword r ["index"; "by"]%string = (false, r)) as ->; [|done].
      subst r. destruct f as [e|]; [reflexivity|]. by destruct l as [[n [m|]]|]. }
  unfold pScan. rewrite E1, bind_ok. clear E1.
  set (node2 := with_filter node match f with Some e => node_of e | None => no_node end).
  assert (match pKeyword (print_filter f ++ print_limit l) ["filter"%string] with
    | (true, p) => '(e, p) ← pExprOr fuel p; Ok (with_filter node e, p)
    | (false, p) => Ok (node, p) end = Ok (node2, print_limit l)) as ->.
  { destruct f as [e|]; cbn [print_filter].
    - rewrite <-app_assoc. change (pKeyword (str " FILTER " ++ print e ++ print_limit l) ["filter"%string]) with
        (true, [32] ++ print e ++ print_limit l). cbv iota beta. destruct (stops_limit l) as (Hs1 & Hs2 & _).
      rewrite print_or; [done|done|by right|done|done|lia].
    - cbn [app]. by destruct l as [[n [m|]]|]. }
  rewrite bind_ok. cbv zeta. destruct l as [[n [m|]]|]; cbn [print_limit].
  - apply andb_true_iff in Hl as [Hn%i64_ok_iff Hm%i64_ok_iff].
    change (pKeyword (str " LIMIT " ++ dec n ++ str " OFFSET " ++ dec m) ["limit"%string]) with
      (true, 32 :: dec n ++ str " OFFSET " ++ dec m). cbv iota beta. unfold pLimit.
    destruct (pNum_dec n (str " OFFSET " ++ dec m) Hn) as [_ E]; [by right|]. rewrite pNum_space, E.
    change (pKeyword (str " OFFSET " ++ dec m) ["offset"%string]) with (true, 32 :: dec m). cbv iota beta.
    destruct (pNum_dec m [] Hm) as [_ E2]; [by left|]. rewrite app_nil_r in E2. rewrite pNum_space, E2. done.
  - apply andb_true_iff in Hl as [Hn%i64_ok_iff _].
    change (pKeyword (str " LIMIT " ++ dec n) ["limit"%string]) with (true, 32 :: dec n). cbv iota beta. unfold pLimit.
    destruct (pNum_dec n [] Hn) as [_ E]; [by left|]. rewrite app_nil_r in E. rewrite pNum_space, E. done.
  - reflexivity.
Qed.

(** * Lists *)

(** The first of a list separated by commas, and what follows it. *)
Lemma sep_case (x : bytes) (l : list bytes) r : exists q, sep (x :: l) ++ r = x ++ q /\
  ((l = [] /\ q = r) \/ (l <> [] /\ q = 44 :: 32 :: sep l ++ r)).
Proof.
  destruct l as [|y l]; [exists r; auto|]. rewrite sep_cons. exists (44 :: 32 :: sep (y :: l) ++ r).
  split; [by rewrite <-!app_assoc|]. by right.
Qed.

Lemma not_kw_app kw s r : not_kw kw s = true -> Forall (fun c => 97 <= c <= 122) (str kw) ->
  (r = [] \/ is_sym (peek r) = false) -> at_token (s ++ r) -> pKeyword (s ++ r) [kw] = (false, s ++ r) /\
  forall kws, pKeyword (s ++ r) (kw :: kws) = (false, s ++ r).
Proof.
  intros Hn Hk Hr Ht. unfold not_kw in Hn. apply negb_true_iff, bool_decide_eq_false in Hn.
  assert (match_kw (s ++ r) (str kw) = None) as E by (apply match_kw_app; [done|done|by apply eq_None_not_Some]).
  unfold pKeyword. rewrite skipComments_token by done. cbn [fmap list_fmap match_kws].
  rewrite skipWS_token, E by done. done.
Qed.

(** The columns of a table, up to the primary key. *)
Lemma pType_print c r : (r = 44 :: 32 :: next (next r)) -> pType (32 :: type_text c ++ r) = (type_code c, r).
Proof. intros ->. destruct c; reflexivity. Qed.

Lemma cols_loop_print pkeys (cols : list (bytes * coltype)) : cols <> [] ->
  forallb (fun c => ident_ok c.1 && not_kw "primary" c.1) cols = true ->
  pkeys <> [] -> forallb ident_ok pkeys = true ->
  forall fuel acc sp, (sp = [] \/ sp = [32]) -> (List.length cols + List.length pkeys + 1 <= fuel)%nat ->
  cols_loop fuel acc [] (sp ++ sep (print_col <$> cols) ++ str ", PRIMARY KEY (" ++ sep pkeys ++ str "))") =
    Ok (acc ++ ((fun c => mkColSpec c.1 (type_code c.2)) <$> cols), pkeys, str ")").
Proof.
  intros Hne Hcols Hpk Hpks. revert Hne Hcols.
  set (tail := str ", PRIMARY KEY (" ++ sep pkeys ++ str "))").
  induction cols as [|[c ty] cols IH]; [done|]. intros _ Hcols fuel acc sp Hsp Hf. cbn [forallb] in Hcols. cbn [List.length] in Hf.
  apply andb_true_iff in Hcols as [[Hc Hk]%andb_true_iff Hcols]. cbn [fst] in Hc, Hk.
  destruct fuel as [|fuel]; [lia|]. rewrite fmap_cons.
  destruct (sep_case (print_col (c, ty)) (print_col <$> cols) tail) as (q & Eq & Hq).
  assert (q = 44 :: 32 :: next (next q)) as Hq2 by (destruct Hq as [[_ ->]|[_ ->]]; reflexivity).
  rewrite Eq. unfold print_col. cbn [fst snd]. rewrite <-!app_assoc. cbn [app].
  destruct (ident_token c (32 :: type_text ty ++ q) Hc) as (Ht & _ & _ & Hm); [by right|].
  destruct (not_kw_app "primary" c (32 :: type_text ty ++ q) Hk) as [_ Hnk];
    [by repeat constructor|by right|exact Ht|].
  cbn [cols_loop].
  assert (pKeyword (sp ++ c ++ 32 :: type_text ty ++ q) ["primary"; "key"]%string =
    (false, sp ++ c ++ 32 :: type_text ty ++ q)) as ->.
  { destruct Hsp as [-> | ->]; cbn [app]; [apply Hnk|]. by rewrite pKeyword_space, Hnk. }
  assert (pMustSym (sp ++ c ++ 32 :: type_text ty ++ q) = (c, 32 :: type_text ty ++ q)) as ->
    by (destruct Hsp as [-> | ->]; cbn [app]; rewrite ?pMustSym_space; exact Hm).
  rewrite pType_print by done. rewrite Hq2 at 1.
  change (pKeyword (44 :: 32 :: next (next q)) [","%string]) with (true, 32 :: next (next q)). cbv iota beta zeta.
  destruct Hq as [[Hnil ->]|[Hnn ->]].
  - apply fmap_nil_inv in Hnil as ->. clear IH Eq Hq2. destruct fuel as [|fuel]; [cbn in Hf; lia|]. cbn [cols_loop].
    change (32 :: next (next tail)) with (str " PRIMARY KEY (" ++ sep pkeys ++ str "))").
    change (pKeyword (str " PRIMARY KEY (" ++ sep pkeys ++ str "))") ["primary"; "key"]%string) with
      (true, str " (" ++ sep pkeys ++ str "))"). cbv iota beta.
    change (pExpect (str " (" ++ sep pkeys ++ str "))") "(") with (true, sep pkeys ++ str "))"). cbv iota beta.
    change (sep pkeys ++ str "))") with ([] ++ sep pkeys ++ 41 :: str ")").
    rewrite sym_list_sep; [|done|done|by left|cbn in Hf; lia]. rewrite bind_ok. reflexivity.
  - cbn [next]. destruct cols as [|c2 cols]; [done|].
    change (32 :: sep (print_col <$> c2 :: cols) ++ tail) with ([32] ++ sep (print_col <$> c2 :: cols) ++ tail).
    rewrite IH; [|done|done|by right|lia]. rewrite <-app_assoc. done.
Qed.

(** The outputs of a SELECT. *)
Lemma pSelectExpr_print n sp q node : (sp = [] \/ sp = [32]) ->
  match n with Some n => ident_ok n = true | None => True end ->
  ((exists q', q = 44 :: q') \/ exists q', q = str " FROM " ++ q') ->
  pSelectExpr (sp ++ print_name n ++ q) node = (add_output node (print_name n), q).
Proof.
  intros Hsp Hn Hq. unfold pSelectExpr. destruct n as [n|].
  - change (print_name (Some n)) with n. assert (q = [] \/ is_sym (peek q) = false) as Hr by (destruct Hq as [[q' ->]|[q' ->]]; by right).
    destruct (ident_token n q Hn Hr) as (Ht & Hy & _ & Hm).
    assert (pKeyword (n ++ q) ["*"%string] = (false, n ++ q)) as Hk.
    { apply (no_keyword _ "*" 42 []); [done|done|]. unfold lower. intros E. unfold is_sym in Hy.
      assert (peek (n ++ q) = 42 \/ peek (n ++ q) = 10) as [E'|E'].
      { destruct ((65 <=? peek (n ++ q)) && (peek (n ++ q) <=? 90)); lia. }
      all: rewrite E' in Hy; discriminate Hy. }
    assert (pKeyword (sp ++ n ++ q) ["*"%string] = (false, sp ++ n ++ q)) as ->.
    { destruct Hsp as [-> | ->]; cbn [app]; [done|]. by rewrite pKeyword_space, Hk. }
    assert (pMustSym (sp ++ n ++ q) = (n, q)) as -> by (destruct Hsp as [-> | ->]; cbn [app]; rewrite ?pMustSym_space; done).
    assert (pKeyword q ["as"%string] = (false, q)) as -> by (by destruct Hq as [[q' ->]|[q' ->]]). done.
  - by destruct Hsp as [-> | ->].
Qed.

Lemma add_outputs names : forall node,
  foldl (fun s n => add_output s (print_name n)) node names =
  mkSelect (sel_Scan node) (sel_Names node ++ (print_name <$> names))
    (Output node ++ (str_node QLIdent ∘ print_name <$> names)).
Proof.
  induction names as [|n names IH]; intros node; cbn [foldl fmap list_fmap].
  - rewrite !app_nil_r. by destruct node.
  - rewrite IH. cbn [add_output sel_Scan sel_Names Output]. by rewrite <-!app_assoc.
Qed.

Lemma select_list_print q' names : names <> [] ->
  forallb (fun n => match n with Some n => ident_ok n | None => true end) names = true ->
  forall fuel node sp, (sp = [] \/ sp = [32]) -> (List.length names <= fuel)%nat ->
  pSelectExprList fuel (sp ++ sep (print_name <$> names) ++ str " FROM " ++ q') node =
    Ok (foldl (fun s n => add_output s (print_name n)) node names, str " FROM " ++ q').
Proof.
  set (tail := str " FROM " ++ q').
  induction names as [|n names IH]; [done|]. intros _ Hns fuel node sp Hsp Hf. cbn [forallb] in Hns. cbn [List.length] in Hf.
  apply andb_true_iff in Hns as [Hn Hns]. rewrite fmap_cons. cbn [foldl].
  destruct (sep_case (print_name n) (print_name <$> names) tail) as (q & Eq & Hq). rewrite Eq.
  unfold pSelectExprList. rewrite pSelectExpr_print; [|done|by destruct n|].
  2: { destruct Hq as [[_ ->]|[_ ->]]; [right|left]; by eexists. }
  destruct fuel as [|fuel]; [lia|]. destruct Hq as [[Hnil ->]|[Hnn ->]].
  - apply fmap_nil_inv in Hnil as ->. reflexivity.
  - destruct names as [|n2 names]; [done|]. set (t := sep (print_name <$> n2 :: names) ++ tail).
    cbn [select_loop]. change (pKeyword (44 :: 32 :: t) [","%string]) with (true, 32 :: t). cbv iota beta.
    specialize (IH ltac:(done) Hns fuel (add_output node (print_name n)) [32] ltac:(by right) ltac:(simpl in *; lia)).
    unfold pSelectExprList in IH. exact IH.
Qed.

(** The assignments of an UPDATE. *)
Definition need_sets (l : list (bytes * expr)) : nat := foldr (fun x n => need x.2 + 11 + n)%nat 0%nat l.

Lemma stops_where r : follow (str " WHERE" ++ r) /\ ends (str " WHERE" ++ r).
Proof. split; [split; [by right|reflexivity]|]. split_and!; reflexivity. Qed.

Lemma set_loop_print q' sets : sets <> [] -> forallb (fun x => ident_ok x.1 && expr_ok x.2) sets = true ->
  forall fuel ns vs sp, (sp = [] \/ sp = [32]) -> (need_sets sets <= fuel)%nat ->
  set_loop fuel ns vs (sp ++ sep (print_set <$> sets) ++ str " WHERE" ++ q') =
    Ok (ns ++ sets.*1, vs ++ (node_of <$> sets.*2), str " WHERE" ++ q').
Proof.
  set (tail := str " WHERE" ++ q').
  induction sets as [|[n e] sets IH]; [done|]. intros _ Hs fuel ns vs sp Hsp Hf. cbn [forallb] in Hs.
  apply andb_true_iff in Hs as [[Hn He]%andb_true_iff Hs]. cbn [fst snd] in *.
  change (need_sets ((n, e) :: sets)) with (need e + 11 + need_sets sets)%nat in Hf.
  destruct fuel as [|fuel]; [lia|]. rewrite !fmap_cons.
  destruct (sep_case (print_set (n, e)) (print_set <$> sets) tail) as (q & Eq & Hq). rewrite Eq.
  unfold print_set. cbn [fst snd]. rewrite <-!app_assoc. cbn [set_loop].
  destruct (ident_token n (str " = " ++ print e ++ q) Hn) as (_ & _ & _ & Hm); [by right|].
  assert (pMustSym (sp ++ n ++ str " = " ++ print e ++ q) = (n, str " = " ++ print e ++ q)) as ->
    by (destruct Hsp as [-> | ->]; cbn [app]; rewrite ?pMustSym_space; exact Hm).
  change (pExpect (str " = " ++ print e ++ q) "=") with (true, [32] ++ print e ++ q). cbv iota beta.
  assert (follow q /\ ends q) as [Hfo Hen].
  { destruct Hq as [[_ ->]|[_ ->]]; [apply stops_where|split; [apply follow_comma|apply ends_comma]]. }
  rewrite print_or; [|done|by right|done|done|lia]. rewrite bind_ok.
  destruct Hq as [[Hnil ->]|[Hnn ->]].
  - apply fmap_nil_inv in Hnil as ->. reflexivity.
  - destruct sets as [|s2 sets]; [done|]. set (t := sep (print_set <$> s2 :: sets) ++ tail) in *.
    change (pKeyword (44 :: 32 :: t) [","%string]) with (true, [32] ++ t). cbv iota beta. subst t.
    rewrite IH; [|done|done|by right|lia]. by rewrite <-!app_assoc.
Qed.

(** * Fuel *)

Lemma scan_need_print s : scan_ok s = true -> (scan_need s <= 10 * List.length (print_scan s))%nat.
Proof.
  destruct s as [k f l]. unfold scan_ok, scan_need, print_scan. cbn [sc_keys sc_filter sc_limit].
  intros [[Hk Hf]%andb_true_iff _]%andb_true_iff. rewrite !length_app.
  assert (match k with Some (e, o) => need e + 6 + match o with Some e => need e + 6 | None => 0 end | None => 0 end <=
    10 * List.length (print_keys k))%nat.
  { destruct k as [[e [e'|]]|]; cbn [print_keys]; [| |lia]; apply andb_true_iff in Hk as [He He'];
      pose proof (need_print e He); rewrite !length_app; [pose proof (need_print e' He')|];
      change (List.length (str " INDEX BY ")) with 10%nat; lia. }
  assert (match f with Some e => need e + 10 | None => 0 end <= 10 * List.length (print_filter f))%nat; [|lia].
  destruct f as [e|]; cbn [print_filter]; [|lia]. pose proof (need_print e Hf). rewrite length_app.
  change (List.length (str " FILTER ")) with 8%nat. lia.
Qed.

Lemma need_sets_print l : forallb (fun x => ident_ok x.1 && expr_ok x.2) l = true ->
  (need_sets l <= 10 * List.length (sep (print_set <$> l)) + 11)%nat.
Proof.
  induction l as [|[n e] l IH]; [simpl; lia|]. cbn [forallb]. intros [[Hn He]%andb_true_iff Hl]%andb_true_iff.
  cbn [fst snd] in *. specialize (IH Hl). pose proof (need_print e He).
  change (need_sets ((n, e) :: l)) with (need e + 11 + need_sets l)%nat.
  assert (List.length (print e) <= List.length (print_set (n, e)))%nat
    by (unfold print_set; cbn [fst snd]; rewrite !length_app; lia).
  destruct l as [|x l]; [cbn in *; lia|]. rewrite !fmap_cons in *. rewrite sep_cons, !length_app. cbn [List.length]. lia.
Qed.

Lemma length_sep_le (l : list bytes) : Forall (fun x => x <> []) l -> (List.length l <= List.length (sep l))%nat.
Proof.
  induction 1 as [|x l Hx Hl IH]; [simpl; lia|]. assert (0 < List.length x)%nat by (destruct x; [done|simpl; lia]).
  destruct l as [|y l]; [simpl in *; lia|]. rewrite sep_cons, !length_app. cbn [List.length] in *. lia.
Qed.

(** * Each statement *)

Lemma pCreateTable_print t cols pkeys fuel : stmt_ok (SCreateTable t cols pkeys) = true ->
  (List.length cols + List.length pkeys + 1 <= fuel)%nat ->
  pCreateTable fuel (32 :: t ++ str " (" ++ sep (print_col <$> cols) ++ str ", PRIMARY KEY (" ++ sep pkeys ++ str "))") =
    Ok (mkCreateTable t ((fun c => mkColSpec c.1 (type_code c.2)) <$> cols) pkeys, []).
Proof.
  cbn [stmt_ok]. rewrite !andb_true_iff, !negb_true_iff, !bool_decide_eq_false.
  intros ((((Ht & Hc) & Hcn) & Hp) & Hpn) Hf. unfold pCreateTable. rewrite pMustSym_space.
  set (q := sep (print_col <$> cols) ++ str ", PRIMARY KEY (" ++ sep pkeys ++ str "))").
  destruct (ident_token t (str " (" ++ q) Ht) as (_ & _ & _ & ->); [by right|]. cbv iota beta.
  change (pExpect (str " (" ++ q) "(") with (true, q). cbv iota beta. subst q.
  pose proof (cols_loop_print pkeys cols Hcn Hc Hpn Hp fuel [] [] ltac:(by left) Hf) as E. cbn [app] in E.
  rewrite E, bind_ok. reflexivity.
Qed.

Lemma pCreateIndex_print unique name t keys fuel : stmt_ok (SCreateIndex unique name t keys) = true ->
  (List.length keys <= fuel)%nat ->
  pCreateIndex fuel (32 :: (if unique then str "UNIQUE " else []) ++ name ++ str " ON " ++ t ++ str " (" ++ sep keys ++ str ")") =
    Ok (mkCreateIndex t name keys unique, []).
Proof.
  cbn [stmt_ok]. rewrite !andb_true_iff, !negb_true_iff, !bool_decide_eq_false.
  intros ((((Hn & Hu) & Ht) & Hk) & Hkn) Hf. set (q := t ++ str " (" ++ sep keys ++ str ")").
  destruct (ident_token name (str " ON " ++ q) Hn) as (Htok & _ & _ & Hm); [by right|].
  assert (pKeyword (32 :: (if unique then str "UNIQUE " else []) ++ name ++ str " ON " ++ q) ["unique"%string] =
    (unique, 32 :: name ++ str " ON " ++ q)) as E.
  { destruct unique; [reflexivity|]. cbn [app]. rewrite pKeyword_space.
    destruct (not_kw_app "unique" name (str " ON " ++ q) Hu) as [-> _]; [by repeat constructor|by right|exact Htok|done]. }
  unfold pCreateIndex. rewrite E, pMustSym_space, Hm.
  change (pExpect (str " ON " ++ q) "on") with (true, 32 :: q). cbv iota beta. rewrite pMustSym_space. subst q.
  destruct (ident_token t (str " (" ++ sep keys ++ str ")") Ht) as (_ & _ & _ & ->); [by right|]. cbv iota beta.
  change (pExpect (str " (" ++ sep keys ++ str ")") "(") with (true, sep keys ++ str ")"). cbv iota beta.
  change (sep keys ++ str ")") with ([] ++ sep keys ++ 41 :: []).
  rewrite sym_list_sep; [|done|done|by left|done]. rewrite bind_ok. reflexivity.
Qed.

(** What follows the name of a table. *)
Lemma scan_start s : print_scan s = [] \/ is_sym (peek (print_scan s)) = false.
Proof.
  destruct s as [[[e [e'|]]|] [f|] [[n [m|]]|]]; unfold print_scan; cbn; auto.
Qed.

Lemma pSelect_print names t s fuel : stmt_ok (SSelect names t s) = true ->
  (List.length names <= fuel)%nat -> (scan_need s <= fuel)%nat ->
  pSelect fuel (32 :: sep (print_name <$> names) ++ str " FROM " ++ t ++ print_scan s) =
    Ok (mkSelect (scan_of t s) (print_name <$> names) (str_node QLIdent ∘ print_name <$> names), []).
Proof.
  cbn [stmt_ok]. rewrite !andb_true_iff, !negb_true_iff, !bool_decide_eq_false.
  intros (((Hn & Hne) & Ht) & Hs) Hf1 Hf2. unfold pSelect.
  change (32 :: sep (print_name <$> names) ++ str " FROM " ++ t ++ print_scan s) with
    ([32] ++ sep (print_name <$> names) ++ str " FROM " ++ t ++ print_scan s).
  rewrite select_list_print; [|done|done|by right|done]. rewrite bind_ok, add_outputs.
  change (pExpect (str " FROM " ++ t ++ print_scan s) "from") with (true, 32 :: t ++ print_scan s). cbv iota beta.
  rewrite pMustSym_space. destruct (ident_token t (print_scan s) Ht (scan_start s)) as (_ & _ & _ & ->).
  cbn [sel_Scan sel_Names Output app]. rewrite pScan_print by done. done.
Qed.

Lemma pUpdate_print t sets s fuel : stmt_ok (SUpdate t sets s) = true ->
  (need_sets sets <= fuel)%nat -> (scan_need s <= fuel)%nat ->
  pUpdate fuel (32 :: t ++ str " SET " ++ sep (print_set <$> sets) ++ str " WHERE" ++ print_scan s) =
    Ok (mkUpdate (scan_of t s) sets.*1 (node_of <$> sets.*2), []).
Proof.
  cbn [stmt_ok]. rewrite !andb_true_iff, !negb_true_iff, !bool_decide_eq_false.
  intros (((Ht & Hx) & Hne) & Hs) Hf1 Hf2. unfold pUpdate. rewrite pMustSym_space.
  set (q := sep (print_set <$> sets) ++ str " WHERE" ++ print_scan s).
  destruct (ident_token t (str " SET " ++ q) Ht) as (_ & _ & _ & ->); [by right|]. cbv iota beta.
  change (pExpect (str " SET " ++ q) "set") with (true, [32] ++ q). cbv iota beta. subst q.
  rewrite set_loop_print; [|done|done|by right|done]. rewrite bind_ok. cbn [app]. cbv iota beta.
  change (pExpect (str " WHERE" ++ print_scan s) "where") with (true, print_scan s). cbv iota beta.
  by rewrite pScan_print.
Qed.

Lemma pDelete_print t s fuel : stmt_ok (SDelete t s) = true ->
  (match s with Some s => scan_need s | None => 0 end <= fuel)%nat ->
  pDelete fuel (32 :: t ++ match s with Some s => str " WHERE" ++ print_scan s | None => [] end) =
    Ok (mkDelete match s with Some s => scan_of t s | None => with_table empty_scan t end, []).
Proof.
  cbn [stmt_ok]. rewrite andb_true_iff. intros [Ht Hs] Hf. unfold pDelete. rewrite pMustSym_space.
  destruct s as [s|].
  - destruct (ident_token t (str " WHERE" ++ print_scan s) Ht) as (_ & _ & _ & ->); [by right|]. cbv iota beta.
    change (pKeyword (str " WHERE" ++ print_scan s) ["where"%string]) with (true, print_scan s). cbv iota beta.
    by rewrite pScan_print.
  - destruct (ident_token t [] Ht) as (_ & _ & _ & ->); [by left|]. reflexivity.
Qed.

(** * The round trip *)

Lemma Parse_wrapped {A} (f : A -> Stmt) text (r : res (A * Parser)) x :
  pStmt (parse_fuel text) text = wrap f r -> r = Ok (x, []) -> Parse text = Ok (inr (f x)).
Proof. intros E ->. unfold Parse. by rewrite E. Qed.

Lemma Parse_print s : stmt_ok s = true -> Parse (print_stmt s) = Ok (inr (stmt_of s)).
Proof.
  intros Hok. destruct s as [t cols pkeys|u name t keys|names t s|t names vals|t sets s|t s]; cbn [print_stmt stmt_of].
  - eapply Parse_wrapped; [reflexivity|]. apply pCreateTable_print; [done|]. cbn [stmt_ok] in Hok.
    rewrite !andb_true_iff in Hok. destruct Hok as ((((Ht & Hc) & Hcn) & Hp) & Hpn).
    pose proof (length_sep pkeys Hp). pose proof (length_sep_le (print_col <$> cols)) as Hl. rewrite length_fmap in Hl.
    assert (List.length cols <= List.length (sep (print_col <$> cols)))%nat.
    { apply Hl, Forall_fmap, Forall_forall. intros [c ty] _. unfold print_col. cbn. by destruct c. }
    unfold parse_fuel. rewrite !length_app. lia.
  - eapply Parse_wrapped; [reflexivity|]. apply pCreateIndex_print; [done|]. cbn [stmt_ok] in Hok.
    rewrite !andb_true_iff in Hok. destruct Hok as ((((Hn & Hu) & Ht) & Hk) & Hkn).
    pose proof (length_sep keys Hk). unfold parse_fuel. rewrite !length_app. lia.
  - eapply Parse_wrapped; [reflexivity|]. apply pSelect_print; [done|..]; cbn [stmt_ok] in Hok;
      rewrite !andb_true_iff in Hok; destruct Hok as (((Hn & Hne) & Ht) & Hs).
    + pose proof (length_sep_le (print_name <$> names)) as Hl. rewrite length_fmap in Hl.
      assert (List.length names <= List.length (sep (print_name <$> names)))%nat.
      { apply Hl, Forall_fmap, Forall_forall. intros [n|] Hin%list_elem_of_In; [|done]. rewrite forallb_forall in Hn.
        apply Hn in Hin. cbn. by intros ->. }
      unfold parse_fuel. rewrite !length_app. lia.
    + pose proof (scan_need_print s Hs). unfold parse_fuel. rewrite !length_app. lia.
  - eapply Parse_wrapped; [reflexivity|]. cbn [stmt_ok] in Hok.
    rewrite !andb_true_iff, !negb_true_iff, !bool_decide_eq_false in Hok. destruct Hok as ((((Ht & Hn) & Hne) & Hv) & Hvn).
    apply pInsert_print; try done.
    + pose proof (length_sep names Hn). unfold parse_fuel, print_insert. cbn [ins_Table ins_Names]. rewrite !length_app. lia.
    + pose proof (need_list_sep vals Hv). unfold parse_fuel, print_insert. cbn [ins_Table ins_Names]. rewrite !length_app. lia.
  - eapply Parse_wrapped; [reflexivity|]. apply pUpdate_print; [done|..]; cbn [stmt_ok] in Hok;
      rewrite !andb_true_iff in Hok; destruct Hok as (((Ht & Hx) & Hne) & Hs).
    + pose proof (need_sets_print sets Hx). unfold parse_fuel. rewrite !length_app. lia.
    + pose proof (scan_need_print s Hs). unfold parse_fuel. rewrite !length_app. lia.
  - eapply Parse_wrapped; [reflexivity|]. apply pDelete_print; [done|]. cbn [stmt_ok] in Hok.
    apply andb_true_iff in Hok as [Ht Hs]. destruct s as [s|]; [|lia].
    pose proof (scan_need_print s Hs). unfold parse_fuel. rewrite !length_app. lia.
Qed.

(** C12: parsing the text of a statement gives the statement back: CREATE TABLE,
    CREATE INDEX, SELECT, INSERT, UPDATE and DELETE, printed with capital keywords
    and parenthesised operators, with non-empty lists of names and columns,
    expressions of all operators, integers over the whole 64-bit range, strings
    of any bytes, and the keys, the filter and the limits of a scan, each present
    or not; for names made of letters, digits, underscores and at-signs that do
    not begin with a digit, and that do not begin with NOT where they stand in an
    expression, with PRIMARY as a column of CREATE TABLE, or with UNIQUE as the
    name of an index, in upper or lower case: the parser takes such a beginning
    for the keyword ([keywords_have_no_end]). *)
Theorem Parse_statement_roundtrip s : stmt_ok s = true -> Parse (print_stmt s) = Ok (inr (stmt_of s)).
Proof. apply Parse_print. Qed.

Lemma Parse_statement_roundtrip_witness :
  Parse (print_stmt (SSelect [None; Some (str "name")] (str "users")
    (mkScanOf (Some (EBin OEq (EIdent (str "id")) (EInt 1), None)) (Some (EBin OLt (EIdent (str "age")) (EInt 30)))
      (Some (5, Some 2))))) =
  Ok (inr (StSelect (mkSelect (mkScan (str "users")
    (op_node QLEQ [str_node QLIdent (str "id"); int_node 1]) no_node
    (op_node QLLT [str_node QLIdent (str "age"); int_node 30]) 2 5 [] [])
    [str "*"; str "name"] [str_node QLIdent (str "*"); str_node QLIdent (str "name")]))).
Proof.
  apply (Parse_statement_roundtrip (SSelect [None; Some (str "name")] (str "users")
    (mkScanOf (Some (EBin OEq (EIdent (str "id")) (EInt 1), None)) (Some (EBin OLt (EIdent (str "age")) (EInt 30)))
      (Some (5, Some 2))))). reflexivity.
Defined.
