(* ===== verification/Executor.v ===== *)
(** The SQL executor: src/internal/sql/executor.go.

    A statement runs against a relational database over any [Storage]. The
    results are rows, a text or nothing; the loop over the rows of a scan is
    bounded by fuel, one unit per row. *)
From Stdlib Require Import Ascii String.
From S2P Require Import Prelude Keys KVList Node Encoding KV Storage Relational RelSpec Ast Parser.
#[local] Open Scope Z_scope.

(** * The code *)

Inductive sql_error :=
| ErrTrailing (rest : bytes) | ErrUnknownStmt (rest : bytes) | ErrNoTable (t : bytes) | ErrRel (e : rel_error).

Inductive result := RNone | RRows (l : list Rec) | RText.

Definition evalNode (n : QLNode) : Value :=
  if n_Type n =? QLI64 then Int64 (n_I64 n)
  else if (n_Type n =? QLStr) || (n_Type n =? QLIdent) then Bytes (n_Str n)
  else no_value.

Definition evalNodes (nodes : list QLNode) : list Value := evalNode <$> nodes.

Definition sqlTypeToColType (t : Z) : Z :=
  if t =? QLI64 then TInt64
  else if t =? QLStr then TBytes
  else if t =? QLAnd then TBool
  else if t =? 999 then TFloat64
  else TBytes.

(** * Aggregates *)

Definition agg_names : list bytes := [str "count"; str "sum"; str "avg"; str "min"; str "max"].

Definition isAggregate (stmt : QLSelect) : bool :=
  existsb (fun o => (n_Type o =? QLFunc) && bool_decide (n_Str o ∈ agg_names)) (Output stmt).

(** The columns of one row: those of the name that have a value. *)
Fixpoint row_sum (col : bytes) (cols : list bytes) (vals : list Value) (sum : Z) : Z :=
  match cols, vals with
  | c :: cols, v :: vals =>
      row_sum col cols vals
        (if bool_decide (c = col) && (v_type v =? TypeInt64) then i64 (sum + v_i64 v) else sum)
  | _, _ => sum
  end.

Definition aggregateSum (col : bytes) (rows : list Rec) : Value :=
  Int64 (foldl (fun sum r => row_sum col (r_Cols r) (r_Vals r) sum) 0 rows).

Definition valCompare (a b : Value) : Z :=
  if negb (v_type a =? v_type b) then v_type a - v_type b
  else if v_type a =? TypeInt64 then
    if v_i64 a <? v_i64 b then -1 else if v_i64 b <? v_i64 a then 1 else 0
  else if v_type a =? TypeBytes then
    if cmp (v_str a) (v_str b) <? 0 then -1 else if 0 <? cmp (v_str a) (v_str b) then 1 else 0
  else 0.

(** [None] until the first value is seen. *)
Fixpoint row_best (col : bytes) (dir : Z) (cols : list bytes) (vals : list Value) (best : option Value)
    : option Value :=
  match cols, vals with
  | c :: cols, v :: vals =>
      row_best col dir cols vals
        (if bool_decide (c = col) then
           match best with
           | None => Some v
           | Some b =>
               if ((dir <? 0) && (valCompare v b <? 0)) || ((0 <? dir) && (0 <? valCompare v b))
               then Some v else best
           end
         else best)
  | _, _ => best
  end.

Definition aggregateMinMax (col : bytes) (rows : list Rec) (dir : Z) : Value :=
  default no_value (foldl (fun best r => row_best col dir (r_Cols r) (r_Vals r) best) None rows).

(** The name and the value of one output of an aggregate query, if it is one.
    [o.Kids[0]] panics without an argument; [/] truncates. *)
Definition aggregate_one (o : QLNode) (rows : list Rec) : res (option (bytes * Value)) :=
  if negb (n_Type o =? QLFunc) then Ok None
  else
    k ← index (n_Kids o) 0;
    let name := n_Str o in
    let colName := n_Str k in
    let label := name ++ str "(" ++ colName ++ str ")" in
    let n := len rows in
    Ok (if bool_decide (name = str "count") then Some (str "count", Int64 (i64 n))
        else if bool_decide (name = str "sum") then Some (label, aggregateSum colName rows)
        else if bool_decide (name = str "avg") then
          Some (label, if 0 <? n then Int64 (i64 (Z.quot (v_i64 (aggregateSum colName rows)) n)) else Int64 0)
        else if bool_decide (name = str "min") then Some (label, aggregateMinMax colName rows (-1))
        else if bool_decide (name = str "max") then Some (label, aggregateMinMax colName rows 1)
        else None).

Fixpoint aggregate_loop (l : list QLNode) (rows : list Rec) : res (list (bytes * Value)) :=
  match l with
  | [] => Ok []
  | o :: l =>
      x ← aggregate_one o rows; xs ← aggregate_loop l rows;
      Ok (match x with Some x => x :: xs | None => xs end)
  end.

Definition computeAggregates (stmt : QLSelect) (rows : list Rec) : res (list Rec) :=
  l ← aggregate_loop (Output stmt) rows; Ok [mkRec l.*1 l.*2].

(** * Statements *)

Section code.
Context {S : Type} `{Storage S}.
Implicit Types db : DB S.

Definition execCreateTable db (stmt : QLCreateTable) : option sql_error * DB S :=
  let tdef := mkTable (ct_Table stmt)
    ((fun c => mkCol (cs_Name c) (sqlTypeToColType (cs_Type c))) <$> ct_Cols stmt)
    (len (ct_PKeys stmt)) [] 0 in
  let '(e, db) := CreateTable db tdef in (option_map ErrRel e, db).

Definition execCreateIndex db (stmt : QLCreateIndex) : option sql_error * DB S :=
  match tables db !! ci_Table stmt with
  | None => (Some (ErrNoTable (ci_Table stmt)), db)
  | Some t =>
      let idx := mkIndex (ci_Name stmt) (ci_Keys stmt) (ci_Unique stmt) in
      let t := mkTable (t_Name t) (t_Cols t) (PKeys t) (Indexes t ++ [idx]) (Prefix t) in
      (None, mkDB (db_kv db) (<[ci_Table stmt := t]> (tables db)))
  end.

(** [Insert] reports an existing row as [false], which is dropped. *)
Definition execInsert db (stmt : QLInsert) : res (option sql_error * DB S) :=
  match tables db !! ins_Table stmt with
  | None => Ok (Some (ErrNoTable (ins_Table stmt)), db)
  | Some _ =>
      '(r, db) ← Insert db (ins_Table stmt) (mkRec (ins_Names stmt) (evalNodes (ins_Values stmt)));
      Ok (match r with inl e => Some (ErrRel e) | inr _ => None end, db)
  end.

(** The loop over the rows: [count] also counts the rows skipped. *)
Fixpoint select_rows (fuel : nat) db (sc : Scanner S) (offset limit count : Z) : res (list Rec) :=
  ok ← Scanner_Valid sc;
  if negb ok then Ok []
  else
    match fuel with
    | O => OutOfFuel
    | Datatypes.S fuel =>
        if count <? offset then
          sc ← Scanner_Next db sc; select_rows fuel db sc offset limit (count + 1)
        else if i64 (offset + limit) <=? count then Ok []
        else
          r ← Scanner_Record sc;
          sc ← Scanner_Next db sc;
          rs ← select_rows fuel db sc offset limit (count + 1);
          Ok (r :: rs)
    end.

(** The filter of the statement is not used. *)
Definition execSelect (fuel : nat) db (stmt : QLSelect) : res (sql_error + list Rec) :=
  let scan := sel_Scan stmt in
  match tables db !! s_Table scan with
  | None => Ok (inl (ErrNoTable (s_Table scan)))
  | Some tdef =>
      let start := if negb (n_Type (Key1 scan) =? 0) then evalNodes (n_Kids (Key1 scan)) else [] in
      let stop := if negb (n_Type (Key2 scan) =? 0) then evalNodes (n_Kids (Key2 scan)) else [] in
      sc ← Scan db tdef start stop 0 0;
      rows ← select_rows fuel db sc (Offset scan) (Limit scan) 0;
      if isAggregate stmt then l ← computeAggregates stmt rows; Ok (inr l)
      else Ok (inr rows)
  end.

(** The select of an update or a deletion: all columns. *)
Definition select_all (scan : QLScan) : QLSelect :=
  mkSelect scan [str "*"] [str_node QLIdent (str "*")].

(** The first column of the name is set. *)
Fixpoint set_col (cols : list bytes) (vals : list Value) (j : nat) (name : bytes) (v : Value) : res (list Value) :=
  match cols with
  | [] => Ok vals
  | c :: cols =>
      if bool_decide (c = name) then if (j <? List.length vals)%nat then Ok (<[j := v]> vals) else Panic
      else set_col cols vals (Datatypes.S j) name v
  end.

Fixpoint set_cols (cols : list bytes) (vals : list Value) (names : list bytes) (nodes : list QLNode) (i : Z)
    : res (list Value) :=
  match names with
  | [] => Ok vals
  | name :: names =>
      vals ← (if bool_decide (name ∈ cols) then n ← index nodes i; set_col cols vals 0 name (evalNode n)
              else Ok vals);
      set_cols cols vals names nodes (i + 1)
  end.

Fixpoint update_rows db (table : bytes) (names : list bytes) (nodes : list QLNode) (l : list Rec)
    : res (option sql_error * DB S) :=
  match l with
  | [] => Ok (None, db)
  | rec :: l =>
      vals ← set_cols (r_Cols rec) (r_Vals rec) names nodes 0;
      '(r, db) ← Update db table (mkRec (r_Cols rec) vals);
      match r with
      | inl e => Ok (Some (ErrRel e), db)
      | inr _ => update_rows db table names nodes l
      end
  end.

Definition execUpdate (fuel : nat) db (stmt : QLUpdate) : res (option sql_error * DB S) :=
  let t := s_Table (upd_Scan stmt) in
  match tables db !! t with
  | None => Ok (Some (ErrNoTable t), db)
  | Some _ =>
      r ← execSelect fuel db (select_all (upd_Scan stmt));
      match r with
      | inl e => Ok (Some e, db)
      | inr l => update_rows db t (upd_Names stmt) (upd_Values stmt) l
      end
  end.

Fixpoint delete_rows db (table : bytes) (l : list Rec) : res (option sql_error * DB S) :=
  match l with
  | [] => Ok (None, db)
  | rec :: l =>
      '(r, db) ← Delete db table rec;
      match r with
      | inl e => Ok (Some (ErrRel e), db)
      | inr _ => delete_rows db table l
      end
  end.

Definition execDelete (fuel : nat) db (stmt : QLDelete) : res (option sql_error * DB S) :=
  let t := s_Table (del_Scan stmt) in
  match tables db !! t with
  | None => Ok (Some (ErrNoTable t), db)
  | Some _ =>
      r ← execSelect fuel db (select_all (del_Scan stmt));
      match r with
      | inl e => Ok (Some e, db)
      | inr l => delete_rows db t l
      end
  end.

Definition nothing (r : res (option sql_error * DB S)) : res ((sql_error + result) * DB S) :=
  '(e, db) ← r; Ok (match e with Some e => inl e | None => inr RNone end, db).

Definition Execute (fuel : nat) db (stmt : Stmt) : res ((sql_error + result) * DB S) :=
  match stmt with
  | StCreateTable s => nothing (Ok (execCreateTable db s))
  | StCreateIndex s => nothing (Ok (execCreateIndex db s))
  | StInsert s => nothing (execInsert db s)
  | StSelect s =>
      r ← execSelect fuel db s; Ok (match r with inl e => inl e | inr l => inr (RRows l) end, db)
  | StUpdate s => nothing (execUpdate fuel db s)
  | StDelete s => nothing (execDelete fuel db s)
  | StText _ | StExplain _ => Ok (inr RText, db)
  | StUnknown r => Ok (inl (ErrUnknownStmt r), db)
  end.

Definition ExecuteRaw (fuel : nat) db (input : bytes) : res ((sql_error + result) * DB S) :=
  r ← Parse input;
  match r with
  | inl rest => Ok (inl (ErrTrailing rest), db)
  | inr stmt => Execute fuel db stmt
  end.
End code.

(** * Selecting *)

Lemma kv_sorted_NoDup l : kv_sorted l -> NoDup (fst <$> l).
Proof.
  induction l as [|[k v] l IH]; [constructor|]. intros [Hs Hg]%kv_sorted_cons. rewrite fmap_cons.
  constructor; [|by apply IH]. intros ([k' v'] & Ek & Hin)%list_elem_of_fmap. simpl in Ek. subst k'.
  unfold all_gt in Hg. rewrite Forall_forall in Hg. apply Hg in Hin. by apply key_lt_irrefl in Hin.
Qed.

(** A map has one sorted list of pairs. *)
Lemma kv_sorted_unique l l' : kv_sorted l -> kv_sorted l' -> kv_map l = kv_map l' -> l = l'.
Proof.
  intros Hs Hs' E. apply (list_to_map_inj (M := gmap bytes)) in E; [|by apply kv_sorted_NoDup..].
  assert (forall l, kv_sorted l -> StronglySorted (fun a b : bytes * bytes => key_lt a.1 b.1) l) as Hss.
  { intros m. induction m as [|[k v] m IH]; [constructor|]. intros [H1 H2]%kv_sorted_cons.
    constructor; [by apply IH|exact H2]. }
  eapply StronglySorted_unique_strong; [|by apply Hss..|done]. intros x y _ _ H1 H2.
  exfalso. apply (key_lt_irrefl x.1). by apply (key_lt_trans _ y.1).
Qed.

Section select.
Context {S : Type} `{ScanOK S}.
Implicit Types (db : DB S) (d : TableDef).

(** A pair that is a row of the table, with the values [vs]. *)
Definition row_pair d (kv : bytes * bytes) (vs : list Value) : Prop :=
  (exists r, r <> [] /\ kv.1 = be_bytes 4 (Prefix d) ++ r) /\ DecodeValues kv.2 [] = Ok vs.

(** A pair of a table or an index with a larger prefix. *)
Definition later_pair d (kv : bytes * bytes) : Prop :=
  exists q r, Prefix d < q < 2 ^ 32 /\ kv.1 = be_bytes 4 q ++ r.

Definition row_rec d (vs : list Value) : Rec := mkRec (names (t_Cols d)) vs.

Lemma be_prefix q r : 0 <= q < 2 ^ 32 -> slice_to (be_bytes 4 q ++ r) 4 = Ok (be_bytes 4 q) /\
  be_uint 4 (be_bytes 4 q) = Ok q.
Proof.
  intros Hq. split; [by apply slice_to_app|]. unfold be_uint. rewrite len_be_bytes.
  rewrite (proj2 (Z.leb_le _ _)) by lia. rewrite take_ge by (pose proof (len_be_bytes 4 q) as E; unfold len in E; lia).
  by rewrite be_val_bytes by (change (256 ^ Z.of_nat 4) with (2 ^ 32); lia).
Qed.

Lemma valid_row s d kv vs l it : table_ok d -> row_pair d kv vs -> st_at s (kv :: l) it ->
  Scanner_Valid (mkScanner d it []) = Ok true /\ Scanner_Record (mkScanner d it []) = Ok (row_rec d vs).
Proof.
  intros Hd ((r & Hr & Ek) & Ev) Hat. destruct kv as [k v]. cbn [fst snd] in *. subst k.
  destruct (st_at_cons _ _ _ _ _ Hat) as (E1 & E2 & E3 & _).
  destruct (be_prefix (Prefix d) r (to_prefix _ Hd)) as [P1 P2].
  unfold Scanner_Valid, Scanner_Record. cbn [sc_iter sc_stop sc_tdef]. rewrite E1, bind_ok. cbn [negb].
  change (0 <? len []) with false. cbv iota. rewrite bind_ok, E2, bind_ok, P1, bind_ok, P2, bind_ok, Z.eqb_refl.
  split; [done|]. by rewrite E3, bind_ok, Ev, bind_ok.
Qed.

Lemma valid_end s d l it : table_ok d -> Forall (later_pair d) l -> st_at s l it ->
  Scanner_Valid (mkScanner d it []) = Ok false.
Proof.
  intros Hd Hl Hat. unfold Scanner_Valid. cbn [sc_iter sc_stop sc_tdef]. pose proof (to_prefix _ Hd).
  destruct l as [|[k v] l]; [by rewrite (st_at_nil _ _ Hat)|].
  apply Forall_cons in Hl as [(q & r & Hq & Ek) _]. cbn [fst] in Ek. subst k.
  destruct (st_at_cons _ _ _ _ _ Hat) as (E1 & E2 & _ & _).
  destruct (be_prefix q r ltac:(lia)) as [P1 P2].
  rewrite E1, bind_ok. cbn [negb]. change (0 <? len []) with false. cbv iota.
  rewrite bind_ok, E2, bind_ok, P1, bind_ok, P2, bind_ok. by rewrite (proj2 (Z.eqb_neq _ _)) by lia.
Qed.

Lemma select_rows_spec db d offset limit l2 : table_ok d -> 0 <= offset -> 0 <= limit -> offset + limit < 2 ^ 63 ->
  Forall (later_pair d) l2 -> forall l1 vss, Forall2 (row_pair d) l1 vss ->
  forall fuel it count, (List.length l1 <= fuel)%nat -> 0 <= count -> st_at (db_kv db) (l1 ++ l2) it ->
  select_rows fuel db (mkScanner d it []) offset limit count =
    Ok (take (Z.to_nat (offset + limit - Z.max offset count)) (drop (Z.to_nat (offset - count)) (row_rec d <$> vss))).
Proof.
  intros Hd Ho Hl Hsum Hl2 l1 vss Hrows. induction Hrows as [|kv vs l1 vss Hkv Hrows IH]; intros fuel it count Hf Hc Hat.
  - simpl in Hat. assert (Scanner_Valid (mkScanner d it []) = Ok false) as Ev by (by eapply valid_end).
    destruct fuel; cbn [select_rows]; rewrite Ev, bind_ok; cbn [fmap list_fmap]; by rewrite drop_nil, take_nil.
  - simpl in Hf. destruct fuel as [|fuel]; [lia|]. simpl in Hat. destruct kv as [k v].
    destruct (valid_row _ d (k, v) vs _ it Hd Hkv Hat) as [Ev Er]. destruct (st_at_cons _ _ _ _ _ Hat) as (_ & _ & _ & it' & En & Hat').
    assert (Scanner_Next db (mkScanner d it []) = Ok (mkScanner d it' [])) as Enx.
    { unfold Scanner_Next. cbn [sc_iter sc_tdef sc_stop]. by rewrite En, bind_ok. }
    cbn [select_rows]. rewrite Ev, bind_ok. cbn [negb]. rewrite fmap_cons.
    destruct (Z.ltb_spec count offset) as [Hlt|Hge].
    + rewrite Enx, bind_ok, IH by (done || lia). do 2 f_equal; [f_equal; lia|].
      replace (Z.to_nat (offset - count)) with (Datatypes.S (Z.to_nat (offset - (count + 1)))) by lia. done.
    + rewrite i64_id by lia. replace (Z.to_nat (offset - count)) with 0%nat by lia. cbn [drop].
      destruct (Z.leb_spec (offset + limit) count) as [Hd2|Hd2].
      * replace (Z.to_nat (offset + limit - Z.max offset count)) with 0%nat by lia. done.
      * rewrite Er, bind_ok, Enx, bind_ok, IH, bind_ok by (done || lia).
        replace (Z.to_nat (offset + limit - Z.max offset count)) with
          (Datatypes.S (Z.to_nat (offset + limit - Z.max offset (count + 1)))) by lia.
        replace (Z.to_nat (offset - (count + 1))) with 0%nat by lia. done.
Qed.

(** A query without keys and aggregates, with its limits. *)
Definition plain (stmt : QLSelect) : Prop :=
  n_Type (Key1 (sel_Scan stmt)) = 0 /\ n_Type (Key2 (sel_Scan stmt)) = 0 /\ isAggregate stmt = false /\
  0 <= Offset (sel_Scan stmt) /\ 0 <= Limit (sel_Scan stmt) /\
  Offset (sel_Scan stmt) + Limit (sel_Scan stmt) < 2 ^ 63.

Lemma execSelect_rows fuel db d stmt l1 l2 vss :
  tables db !! s_Table (sel_Scan stmt) = Some d -> table_ok d -> plain stmt ->
  st_rep 0 (db_kv db) (kv_map (l1 ++ l2)) -> kv_sorted (l1 ++ l2) ->
  Forall2 (row_pair d) l1 vss -> Forall (later_pair d) l2 -> (List.length l1 <= fuel)%nat ->
  execSelect fuel db stmt =
    Ok (inr (take (Z.to_nat (Limit (sel_Scan stmt))) (drop (Z.to_nat (Offset (sel_Scan stmt))) (row_rec d <$> vss)))).
Proof.
  intros Ht Hd (K1 & K2 & Hag & Ho & Hl & Hsum) Hst Hs Hrows Hl2 Hf. unfold execSelect. rewrite Ht, K1, K2.
  change (0 =? 0) with true. cbn [negb]. unfold Scan. change (0 <? len []) with false. cbv iota.
  unfold EncodeKey. cbn [EncodeValues]. rewrite app_nil_l, !bind_ok.
  destruct (st_Seek_ok _ _ _ (be_bytes 4 (Prefix d)) Hst) as (l & i & it & Hsl & Hml & Hi & -> & Hat).
  apply kv_sorted_unique in Hml as ->; [|done..]. rewrite bind_ok.
  assert (drop i (l1 ++ l2) = l1 ++ l2) as Edrop.
  { destruct (l1 ++ l2) as [|kv l] eqn:El; [by rewrite drop_nil|].
    destruct (Hi ltac:(done)) as [[->|(k & Hk & Hle)] _]; [done|]. exfalso.
    rewrite <-El in Hk. apply list_lookup_fmap_Some in Hk as (kv' & -> & Hk%list_elem_of_lookup_2).
    apply (key_lt_not_le (be_bytes 4 (Prefix d)) kv'.1); [|done].
    pose proof (to_prefix _ Hd) as Hp. apply elem_of_app in Hk as [Hk|Hk].
    - apply list_elem_of_lookup in Hk as [j Hj]. destruct (Forall2_lookup_l _ _ _ _ _ Hrows Hj) as (vs & _ & (r & Hr & ->) & _).
      unfold key_lt. rewrite <-(app_nil_r (be_bytes 4 _)) at 1. rewrite cmp_app, cmp_refl by done.
      destruct r as [|c r]; [done|]. by rewrite cmp_nil_cons.
    - rewrite Forall_forall in Hl2. apply Hl2 in Hk as (q & r & Hq & ->).
      unfold key_lt. rewrite <-(app_nil_r (be_bytes 4 (Prefix d))).
      rewrite cmp_app by (by rewrite !len_be_bytes).
      rewrite cmp_be by (change (256 ^ Z.of_nat 4) with (2 ^ 32); lia).
      unfold zcmp. rewrite (proj2 (Z.ltb_lt _ _)) by lia. done. }
  rewrite Edrop in Hat. rewrite bind_ok, (select_rows_spec db d _ _ l2 Hd Ho Hl Hsum Hl2 l1 vss Hrows) by (done || lia).
  rewrite bind_ok, Hag. do 3 f_equal; f_equal; lia.
Qed.

(** C32: a SELECT without INDEX BY and without aggregates, with an offset and a
    limit that are not negative and whose sum is below 2^63, on the table with the
    smallest prefix of a store that keeps its contract: it returns one record for
    each pair of the table, in the order of the keys, without the first [Offset]
    and at most [Limit] of them; a record has the names of all columns and the
    values that the pair holds, which are those after the primary key. (INDEX BY
    is another matter: [index_by_encodes_the_name].) *)
Theorem select_returns_rows fuel db d stmt l1 l2 vss :
  tables db !! s_Table (sel_Scan stmt) = Some d -> table_ok d -> plain stmt ->
  st_rep 0 (db_kv db) (kv_map (l1 ++ l2)) -> kv_sorted (l1 ++ l2) ->
  Forall2 (row_pair d) l1 vss -> Forall (later_pair d) l2 -> (List.length l1 <= fuel)%nat ->
  execSelect fuel db stmt =
    Ok (inr (take (Z.to_nat (Limit (sel_Scan stmt))) (drop (Z.to_nat (Offset (sel_Scan stmt))) (row_rec d <$> vss)))).
Proof. intros Ht Hd Hp Hst Hs Hrows Hl2 Hf. by eapply execSelect_rows. Qed.
End select.

(** * Updating and deleting rows *)

(** A record as a scan gives it, fewer values than names, does not pass
    [checkRecord]: reading the missing values panics. *)
Lemma short_record_panics tdef vs n : table_ok tdef -> len vs < len (t_Cols tdef) ->
  checkRecord tdef (row_rec tdef vs) n = Panic.
Proof.
  intros Ht Hl. unfold checkRecord, row_rec. cbn [r_Cols r_Vals].
  assert (forall ns i vals, (forall m, m ∈ ns -> m ∈ names (t_Cols tdef)) -> 0 <= i -> i <= len vs ->
    len vs < i + len ns -> fill tdef ns vs i vals = Panic) as Hfill; [|rewrite Hfill; [done|done|lia| |]].
  - induction ns as [|m ns IH]; intros i vals Hin Hi Hv Hn; [rewrite len_nil in Hn; lia|]. rewrite len_cons in Hn.
    cbn [fill]. destruct (find_col_In _ m (Hin m ltac:(left))) as [j ->]. unfold index.
    rewrite (proj2 (Z.leb_le _ _)) by lia. destruct (vs !! Z.to_nat i) as [v|] eqn:E; cbn [of_option]; [|done].
    apply lookup_lt_Some in E. rewrite bind_ok. apply IH; [|lia|unfold len; lia|lia].
    intros x Hx. apply Hin. by right.
  - pose proof (len_nonneg vs). lia.
  - unfold names, len in *. rewrite length_fmap. lia.
Qed.

(** The assignments of an UPDATE keep the number of values, or panic. *)
Lemma set_col_length cols : forall vals j name v,
  set_col cols vals j name v = Panic \/
  exists vals', set_col cols vals j name v = Ok vals' /\ List.length vals' = List.length vals.
Proof.
  induction cols as [|c cols IH]; intros vals j name v; cbn [set_col]; [by right; exists vals|].
  case_bool_decide; [|apply IH]. destruct (j <? _)%nat; [right|by left].
  eexists. split; [done|]. by rewrite length_insert.
Qed.

Lemma set_cols_length cols names : forall vals nodes i,
  set_cols cols vals names nodes i = Panic \/
  exists vals', set_cols cols vals names nodes i = Ok vals' /\ List.length vals' = List.length vals.
Proof.
  induction names as [|m names IH]; intros vals nodes i; cbn [set_cols]; [by right; exists vals|].
  case_bool_decide; [|apply IH]. unfold index.
  destruct (if 0 <=? i then _ else _) as [n| |] eqn:En; [|by left|].
  2:{ destruct (0 <=? i); [by destruct (nodes !! _)|done]. }
  rewrite bind_ok. destruct (set_col_length cols vals 0 m (evalNode n)) as [->|(vals1 & -> & <-)]; [by left|].
  apply IH.
Qed.

Abbreviation key_cols d := (take (Z.to_nat (PKeys d)) (t_Cols d)).
Abbreviation rest_cols d := (drop (Z.to_nat (PKeys d)) (t_Cols d)).

(** A row as the relational layer stores it: the encoded key and the encoded
    columns after it. *)
Definition stored_row (d : TableDef) (kv : bytes * bytes) (vs : list Value) : Prop :=
  exists pk, typed (key_cols d) pk /\ typed (rest_cols d) vs /\ kv = (key_of d pk, encs vs).

Lemma stored_row_pair d kv vs : table_ok d -> stored_row d kv vs -> row_pair d kv vs.
Proof.
  intros Hd (pk & Hpk & Hvs & ->). split; cbn [fst snd]; [|by eapply decode_encs].
  exists (encs pk). split; [|done]. intros En. pose proof (to_keys _ Hd) as Hk.
  assert (pk = []) as -> by (eapply (encs_inj _ []); [exact Hpk|constructor|done]).
  inversion Hpk as [Hnil|]. apply (f_equal List.length) in Hnil. rewrite length_take in Hnil. unfold len in Hk. cbn in Hnil. lia.
Qed.

Lemma stored_row_short d kv vs : table_ok d -> stored_row d kv vs -> len vs < len (t_Cols d).
Proof.
  intros Hd (pk & _ & Hvs & _). pose proof (to_keys _ Hd) as Hk. apply Forall2_length in Hvs.
  unfold len in *. rewrite length_drop in Hvs. lia.
Qed.


(** * Aggregates *)

(** The 64-bit values of a column in a row, and in rows. *)
Fixpoint col_ints (col : bytes) (cols : list bytes) (vals : list Value) : list Z :=
  match cols, vals with
  | c :: cols, v :: vals =>
      (if bool_decide (c = col) && (v_type v =? TypeInt64) then [v_i64 v] else []) ++ col_ints col cols vals
  | _, _ => []
  end.

Fixpoint col_vals (col : bytes) (cols : list bytes) (vals : list Value) : list Value :=
  match cols, vals with
  | c :: cols, v :: vals => (if bool_decide (c = col) then [v] else []) ++ col_vals col cols vals
  | _, _ => []
  end.

Definition zsum (l : list Z) : Z := foldr Z.add 0 l.

Lemma i64_add_l a b : i64 (i64 a + b) = i64 (a + b).
Proof.
  unfold i64, u64. assert (((if a mod 18446744073709551616 <? 9223372036854775808 then a mod 18446744073709551616
    else a mod 18446744073709551616 - 18446744073709551616) + b) mod 18446744073709551616 =
    (a + b) mod 18446744073709551616) as ->; [|done].
  destruct (_ <? _); [by rewrite Zplus_mod_idemp_l|].
  replace (a mod 18446744073709551616 - 18446744073709551616 + b) with
    (a mod 18446744073709551616 + b + (-1) * 18446744073709551616) by lia.
  rewrite Z_mod_plus_full. by rewrite Zplus_mod_idemp_l.
Qed.

Lemma row_sum_spec col cols : forall vals sum,
  i64 (row_sum col cols vals sum) = i64 (sum + zsum (col_ints col cols vals)).
Proof.
  induction cols as [|c cols IH]; intros [|v vals] sum; cbn [row_sum col_ints];
    try (cbn [zsum foldr]; by rewrite Z.add_0_r).
  rewrite IH. destruct (bool_decide (c = col) && (v_type v =? TypeInt64)); [|done].
  rewrite i64_add_l. cbn [app zsum foldr]. by rewrite Z.add_assoc.
Qed.

Lemma zsum_app a b : zsum (a ++ b) = zsum a + zsum b.
Proof. unfold zsum. induction a as [|x a IH]; simpl; lia. Qed.

Definition int_col (col : bytes) (rows : list Rec) : list Z :=
  concat ((fun r => col_ints col (r_Cols r) (r_Vals r)) <$> rows).
Definition val_col (col : bytes) (rows : list Rec) : list Value :=
  concat ((fun r => col_vals col (r_Cols r) (r_Vals r)) <$> rows).

Lemma row_sum_range col cols : forall vals sum, -2 ^ 63 <= sum < 2 ^ 63 ->
  -2 ^ 63 <= row_sum col cols vals sum < 2 ^ 63.
Proof.
  induction cols as [|c cols IH]; intros [|v vals] sum Hs; cbn [row_sum]; try done. apply IH.
  destruct (_ && _); [|done]. unfold i64. pose proof (u64_range (sum + v_i64 v)).
  destruct (Z.ltb_spec (u64 (sum + v_i64 v)) 9223372036854775808); lia.
Qed.

Lemma aggregateSum_spec col rows : aggregateSum col rows = Int64 (i64 (zsum (int_col col rows))).
Proof.
  unfold aggregateSum, int_col. f_equal.
  assert (forall rows sum, -2 ^ 63 <= sum < 2 ^ 63 ->
    foldl (fun s r => row_sum col (r_Cols r) (r_Vals r) s) sum rows =
    i64 (sum + zsum (concat ((fun r => col_ints col (r_Cols r) (r_Vals r)) <$> rows)))) as Hg.
  { clear rows. induction rows as [|r rows IH]; intros sum Hs; simpl.
    - rewrite Z.add_0_r. symmetry. by apply i64_id.
    - rewrite IH by (by apply row_sum_range). rewrite zsum_app, Z.add_assoc.
      rewrite <-(i64_add_l (row_sum _ _ _ _)), row_sum_spec, i64_add_l. done. }
  rewrite Hg by lia. f_equal.
Qed.

(** The better of two values, the first on ties. *)
Definition better (dir : Z) (best : option Value) (v : Value) : option Value :=
  match best with
  | None => Some v
  | Some b => if ((dir <? 0) && (valCompare v b <? 0)) || ((0 <? dir) && (0 <? valCompare v b)) then Some v else best
  end.

Lemma aggregateMinMax_fold col rows dir :
  aggregateMinMax col rows dir = default no_value (foldl (better dir) None (val_col col rows)).
Proof.
  unfold aggregateMinMax, val_col. f_equal. generalize (@None Value).
  assert (forall cols vals best, row_best col dir cols vals best = foldl (better dir) best (col_vals col cols vals)) as Hr.
  { induction cols as [|c cols IH]; intros [|v vals] best; cbn [row_best col_vals]; try done.
    rewrite IH. by case_bool_decide. }
  induction rows as [|r rows IH]; intros best; simpl; [done|]. by rewrite foldl_app, IH, Hr.
Qed.

(** On values of one type the comparison is the order of the integers. *)
Lemma better_ints dir (l : list Z) : forall b, dir <> 0 ->
  exists m, foldl (better dir) (Some (Int64 b)) (Int64 <$> l) = Some (Int64 m) /\ m ∈ b :: l /\
    forall x, x ∈ b :: l -> (dir < 0 -> m <= x) /\ (0 < dir -> x <= m).
Proof.
  induction l as [|x l IH]; intros b Hd.
  - exists b. split; [done|]. split; [left|]. intros y ->%list_elem_of_singleton. lia.
  - rewrite fmap_cons. cbn [foldl better].
    change (valCompare (Int64 x) (Int64 b)) with (if x <? b then -1 else if b <? x then 1 else 0).
    destruct (Z.ltb_spec dir 0), (Z.ltb_spec 0 dir), (Z.ltb_spec x b), (Z.ltb_spec b x); try lia; cbn [andb orb Z.ltb Z.compare];
      match goal with |- context [foldl _ (Some (Int64 ?a)) _] => destruct (IH a Hd) as (m & -> & Hm & Hall) end;
      exists m; (split; [done|]); (split; [set_solver|]);
      intros y Hy; pose proof (Hall _ ltac:(left)) as Hb; (apply elem_of_cons in Hy as [->|Hy]; [lia|]);
      (apply elem_of_cons in Hy as [->|Hy]; [lia|]); apply Hall; by right.
Qed.

(** C33: the aggregates of a column: SUM adds the integers of the column over all
    rows and wraps around at 64 bits, and when all its values are integers MIN
    and MAX are a least and a greatest one of them. *)
Theorem aggregates_correct col rows :
  aggregateSum col rows = Int64 (i64 (zsum (int_col col rows))) /\
  forall x l, val_col col rows = Int64 <$> x :: l ->
    (exists m, aggregateMinMax col rows (-1) = Int64 m /\ m ∈ x :: l /\ forall y, y ∈ x :: l -> m <= y) /\
    (exists m, aggregateMinMax col rows 1 = Int64 m /\ m ∈ x :: l /\ forall y, y ∈ x :: l -> y <= m).
Proof.
  split; [apply aggregateSum_spec|]. intros x l E. rewrite !aggregateMinMax_fold, E, fmap_cons. cbn [foldl better].
  destruct (better_ints (-1) l x) as (m & -> & Hm & Hall); [done|].
  destruct (better_ints 1 l x) as (m' & -> & Hm' & Hall'); [done|].
  split; [exists m|exists m']; (split; [done|]; split; [done|]); intros y Hy.
  - apply Hall in Hy. lia.
  - apply Hall' in Hy. lia.
Qed.

(** * Runs *)

(** Statements one after the other; the result of the last one. *)
Fixpoint run_sql (db : DB mapStore) (l : list string) : res ((sql_error + result) * DB mapStore) :=
  match l with
  | [] => Ok (inr RNone, db)
  | [s] => ExecuteRaw 10 db (str s)
  | s :: l => '(_, db) ← ExecuteRaw 10 db (str s); run_sql db l
  end.

Definition fresh_db : DB mapStore := OpenDB (mkMap ∅).

Definition sql_result (l : list string) : res (sql_error + result) := fst <$> run_sql fresh_db l.

Definition create_users : string := "CREATE TABLE users (id INT64, name BYTES, age INT64, PRIMARY KEY (id))".
Definition insert_bob : string := "INSERT INTO users (id, name, age) VALUES (2, 'Bob', 25)".
Definition insert_alice : string := "INSERT INTO users (age, name, id) VALUES (30, 'Alice', 1)".

(** The statements of the integration test, the rows inserted out of order. *)
Example create_insert_select :
  sql_result [create_users; insert_bob; insert_alice; "SELECT * FROM users"%string] =
    Ok (inr (RRows [full [Bytes (str "Alice"); Int64 30]; full [Bytes (str "Bob"); Int64 25]])).
Proof. vm_compute. reflexivity. Qed.

Definition two_rows : kvs :=
  [(be_bytes 4 (hashTableName users) ++ encs [Int64 1], encs [Bytes (str "Alice"); Int64 30]);
   (be_bytes 4 (hashTableName users) ++ encs [Int64 2], encs [Bytes (str "Bob"); Int64 25])].

Lemma two_rows_sorted : kv_sorted (two_rows ++ []).
Proof.
  rewrite app_nil_r. apply kv_sorted_cons. split; [|apply Forall_singleton; by vm_compute].
  apply kv_sorted_cons. split; constructor.
Qed.

Definition select_users : QLSelect :=
  mkSelect (mkScan users no_node no_node no_node 1 5 [] []) [str "*"] [str_node QLIdent (str "*")].

Lemma select_returns_rows_witness :
  execSelect 2 (mkDB (mkMap (kv_map two_rows)) users_tables) select_users =
    Ok (inr [full [Bytes (str "Bob"); Int64 25]]).
Proof.
  apply (select_returns_rows 2 (mkDB (mkMap (kv_map two_rows)) users_tables) (table users []) select_users two_rows []
    [[Bytes (str "Alice"); Int64 30]; [Bytes (str "Bob"); Int64 25]]).
  - reflexivity.
  - exact users_ok.
  - split_and!; vm_compute; congruence.
  - reflexivity.
  - exact two_rows_sorted.
  - constructor; [|constructor; [|constructor]]; (split; [eexists; split; [|reflexivity]; done|vm_compute; reflexivity]).
  - constructor.
  - simpl. lia.
Defined.

Definition all_users : QLScan := mkScan users no_node no_node no_node 0 MaxInt64 [] [].


Lemma aggregates_correct_witness :
  let rows := [full [Int64 9223372036854775807]; full [Int64 1]] in
  aggregateSum c_id rows = Int64 (-9223372036854775808) /\
  exists m, aggregateMinMax c_id rows (-1) = Int64 m /\ m ∈ [9223372036854775807; 1] /\
    forall y, y ∈ [9223372036854775807; 1] -> m <= y.
Proof.
  intros rows. destruct (aggregates_correct c_id rows) as [H1 H2]. split; [exact H1|].
  apply (H2 9223372036854775807 [1]). reflexivity.
Defined.

(** Only one table can be read: a query on a table whose prefix is not the
    smallest starts on the last row before the table, and ends there. *)
Theorem second_table_reads_empty :
  let stmts := [create_users; "CREATE TABLE a (id INT64, PRIMARY KEY (id))";
    insert_alice; "INSERT INTO a (id) VALUES (7)"; "SELECT * FROM users"]%string in
  sql_result stmts = Ok (inr (RRows [])) /\
  ('(_, db) ← run_sql fresh_db stmts; Get db users (by_id 1)) =
    Ok (inr true, full [Bytes (str "Alice"); Int64 30]).
Proof. split; vm_compute; reflexivity. Qed.

(** A deletion without WHERE has the limit zero and deletes nothing; the filter
    of a query is parsed and not applied. *)
Theorem filter_ignored :
  sql_result [create_users; insert_alice; "DELETE FROM users"; "SELECT * FROM users"]%string =
    Ok (inr (RRows [full [Bytes (str "Alice"); Int64 30]])) /\
  sql_result [create_users; insert_alice; "SELECT * FROM users FILTER age = 99"]%string =
    Ok (inr (RRows [full [Bytes (str "Alice"); Int64 30]])).
Proof. split; vm_compute; reflexivity. Qed.

(** A computed value has no type, and encoding it panics. *)
Theorem computed_value_panics :
  sql_result [create_users; "INSERT INTO users (id, age) VALUES (1, 1 + 2)"]%string = Panic.
Proof. vm_compute. reflexivity. Qed.

(** The key of INDEX BY is encoded with the name of the column in front of the
    value: asking for the row with [id] one gives the last row of the table. *)
Theorem index_by_encodes_the_name :
  sql_result [create_users; insert_alice; insert_bob;
    "SELECT * FROM users INDEX BY id = 1 AND id = 1"]%string =
  Ok (inr (RRows [full [Bytes (str "Bob"); Int64 25]])).
Proof. vm_compute. reflexivity. Qed.
