(* ===== verification/SqlSpec.v ===== *)
(** SQL from text to rows: the parser, the executor, the tables and the encoding
    together, over every store that keeps its contract.

    A script creates a table and inserts rows, as text; a SELECT, as text, then
    returns the rows in the order of their primary keys. *)
From Stdlib Require Import Ascii String.
From S2P Require Import Prelude Keys KVList Encoding KV Storage Relational RelSpec Ast Parser ParserSpec StmtSpec Executor.
#[local] Open Scope Z_scope.

(** * Scripts *)

(** Statements one after the other: their results and the database. *)
Fixpoint script {S : Type} `{Storage S} (fuel : nat) (db : DB S) (l : list bytes)
    : res (list (sql_error + result) * DB S) :=
  match l with
  | [] => Ok ([], db)
  | text :: l =>
      '(r, db) ← ExecuteRaw fuel db text;
      '(rs, db) ← script fuel db l;
      Ok (r :: rs, db)
  end.

(** The table that a CREATE TABLE makes. *)
Definition table_of (t : bytes) (cols : list (bytes * coltype)) (pkeys : list bytes) : TableDef :=
  mkTable t ((fun c => mkCol c.1 (sqlTypeToColType (type_code c.2))) <$> cols) (len pkeys) [] (hashTableName t).

(** The record of an INSERT, and what it does to the rows of the table: the first
    row with a primary key stays. *)
Definition ins_rec (i : list bytes * list expr) : Rec := mkRec i.1 (evalNode ∘ node_of <$> i.2).

Definition ins_row (d : TableDef) (R : rows_map) (i : list bytes * list expr) : rows_map :=
  match R !! pk_of d (ins_rec i) with
  | Some _ => R
  | None => <[pk_of d (ins_rec i) := rest_of d (ins_rec i)]> R
  end.

Definition no_scan : scan := mkScanOf None None None.

(** * The table *)

Lemma hash_range name : 0 <= hashTableName name < 2 ^ 32.
Proof.
  unfold hashTableName. assert (forall l h, 0 <= h < 2 ^ 32 -> 0 <= foldl hash_byte h l < 2 ^ 32) as Hl; [|by apply Hl].
  induction l as [|c l IH]; intros h Hh; [done|]. apply IH. unfold hash_byte, u32. by apply Z.mod_pos_bound.
Qed.

Lemma table_of_ok t cols pkeys : NoDup cols.*1 -> 1 <= len pkeys <= len cols -> table_ok (table_of t cols pkeys).
Proof.
  intros Hnd Hp. split; cbn [table_of t_Cols PKeys Prefix].
  - assert (names ((fun c => mkCol c.1 (sqlTypeToColType (type_code c.2))) <$> cols) = cols.*1) as ->; [|done].
    unfold names. rewrite <-list_fmap_compose. done.
  - apply Forall_fmap, Forall_forall. intros [c ty] _. by destruct ty.
  - unfold len in *. rewrite length_fmap. done.
  - apply hash_range.
Qed.

Section script.
Context {S : Type} `{ScanOK S}.
Implicit Types db : DB S.

Lemma create_runs fuel (kv : S) t cols pkeys : stmt_ok (SCreateTable t cols pkeys) = true ->
  ExecuteRaw fuel (OpenDB kv) (print_stmt (SCreateTable t cols pkeys)) =
    Ok (inr RNone, mkDB kv {[ t := table_of t cols pkeys ]}).
Proof.
  intros Hok. unfold ExecuteRaw. rewrite Parse_print, bind_ok by done. cbn [stmt_of Execute].
  assert (1 <= len pkeys) as Hp.
  { cbn [stmt_ok] in Hok. rewrite !andb_true_iff, !negb_true_iff, !bool_decide_eq_false in Hok. destruct Hok as [_ Hne].
    destruct pkeys; [done|]. rewrite len_cons. pose proof (len_nonneg pkeys). lia. }
  unfold execCreateTable, CreateTable. cbn [ct_Table ct_Cols ct_PKeys t_Name PKeys t_Cols Indexes].
  change (tables (OpenDB kv)) with (∅ : gmap bytes TableDef). rewrite lookup_empty, (proj2 (Z.ltb_ge _ _)) by lia.
  unfold nothing. rewrite bind_ok. cbn [option_map]. unfold set_table, table_of. cbn [t_Name db_kv OpenDB tables].
  rewrite <-list_fmap_compose. done.
Qed.

(** One INSERT of a row of the table [t]. *)
Definition ins_ok (t : bytes) (d : TableDef) (i : list bytes * list expr) : Prop :=
  stmt_ok (SInsert t i.1 i.2) = true /\ rec_ok d (ins_rec i) /\ rec_typed d (ins_rec i) /\
  st_fits (key_of d (pk_of d (ins_rec i))) (encs (rest_of d (ins_rec i))).

Lemma insert_runs n fuel db A t d i : rel_rep (Datatypes.S n) db A -> tables db = {[ t := d ]} -> ins_ok t d i ->
  exists db', ExecuteRaw fuel db (print_stmt (SInsert t i.1 i.2)) = Ok (inr RNone, db') /\ tables db' = {[ t := d ]} /\
    rel_rep n db' (set_rows A t (ins_row d (rows A t) i)).
Proof.
  intros HR HT (Hok & Hr & Hty & Hfit). assert (tables db !! t = Some d) as Ht by (rewrite HT; apply lookup_singleton_eq).
  destruct (rel_step_spec n db A (RInsert t (ins_rec i)) d HR Ht Hr Hty) as (db' & E & Et & HR').
  { cbn. intros d' Hd'. by assert (d' = d) as -> by congruence. }
  exists db'. split; [|split; [congruence|]].
  - unfold ExecuteRaw. rewrite Parse_print, bind_ok by done. cbn [stmt_of Execute]. unfold execInsert.
    cbn [ins_Table ins_Names ins_Values]. rewrite Ht. unfold evalNodes. rewrite <-list_fmap_compose. fold (ins_rec i).
    cbn [rel_step op_table op_rec] in E. destruct (Insert db t (ins_rec i)) as [[[e|b] db1]| |]; cbn in E; try done.
    injection E as _ <-. done.
  - cbn [rel_spec op_table op_rec] in HR'. unfold ins_row. destruct (rows A t !! pk_of d (ins_rec i)); exact HR'.
Qed.

Lemma inserts_run fuel t d l : forall db A, rel_rep (List.length l) db A -> tables db = {[ t := d ]} ->
  Forall (ins_ok t d) l ->
  exists db' A', script fuel db ((fun i => print_stmt (SInsert t i.1 i.2)) <$> l) =
      Ok (replicate (List.length l) (inr RNone), db') /\ tables db' = {[ t := d ]} /\
    rel_rep 0 db' A' /\ rows A' t = foldl (ins_row d) (rows A t) l.
Proof.
  induction l as [|i l IH]; intros db A HR HT Hl; [by exists db, A|]. apply Forall_cons in Hl as [Hi Hl].
  destruct (insert_runs (List.length l) fuel db A t d i HR HT Hi) as (db1 & E1 & HT1 & HR1).
  destruct (IH db1 _ HR1 HT1 Hl) as (db' & A' & E & HT' & HR' & Hrows). exists db', A'.
  rewrite fmap_cons. cbn [script]. rewrite E1, bind_ok, E, bind_ok. split; [done|]. split; [done|]. split; [done|].
  rewrite Hrows. unfold rows at 1, set_rows. by rewrite lookup_insert_eq.
Qed.

(** * The rows *)

(** The pairs of the store, in order, are the rows. *)
Lemma store_rows (t : bytes) (d : TableDef) (R : rows_map) (M : gmap bytes bytes) (A : abs_db) : table_ok d -> rows A t = R -> holds {[ t := d ]} A M -> covered {[ t := d ]} A M ->
  exists pks, StronglySorted (fun a b => key_lt (key_of d a) (key_of d b)) pks /\ (forall pk, pk ∈ pks <-> is_Some (R !! pk)) /\
    Forall2 (row_pair d) (sorted_kvs M) ((fun pk => default [] (R !! pk)) <$> pks).
Proof.
  intros Hd HR HM HO. destruct (HM t d (lookup_singleton_eq _ _)) as [HM1 HM2]. rewrite HR in HM1, HM2.
  destruct (sorted_kvs_spec M) as [Hs Hm].
  assert (forall l, kv_sorted l -> (forall k v, (k, v) ∈ l -> M !! k = Some v) ->
    exists pks, Forall2 (fun kv pk => kv.1 = key_of d pk /\ exists vs, R !! pk = Some vs /\ kv.2 = encs vs) l pks) as Hpks.
  { clear Hs Hm. intros l Hs. induction l as [|[k v] l IH]; intros Hin; [by exists []|].
    apply kv_sorted_cons in Hs as [Hs _]. destruct IH as [pks Hpks]; [done|intros; apply Hin; by right|].
    destruct (HO k v (Hin k v ltac:(left))) as (t' & d' & pk & vs & Ht' & Hr & -> & ->).
    apply lookup_singleton_Some in Ht' as [<- <-]. rewrite HR in Hr. exists (pk :: pks). constructor; [|done].
    split; [done|]. by exists vs. }
  destruct (Hpks (sorted_kvs M) Hs) as [pks Hp].
  { intros k v Hin. rewrite <-Hm. by apply elem_of_list_to_map_1; [apply kv_sorted_NoDup|]. }
  exists pks. split_and!.
  - clear -Hs Hp. induction Hp as [|[k v] pk l pks [Hk _] Hp IH]; [constructor|]. apply kv_sorted_cons in Hs as [Hs Hg].
    constructor; [by apply IH|]. cbn in Hk. subst k. clear -Hp Hg.
    induction Hp as [|[k v'] pk' l pks [Hk _] Hp IH]; [constructor|]. apply Forall_cons in Hg as [Hg1 Hg].
    constructor; [cbn in *; by subst k|by apply IH].
  - intros pk. split.
    + intros [j Hj]%list_elem_of_lookup. destruct (Forall2_lookup_r _ _ _ _ _ Hp Hj) as ([k v] & _ & _ & vs & E & _). eauto.
    + intros [vs E]. destruct (HM2 _ _ E) as [Hpk _]. pose proof (HM1 _ Hpk) as Ek. rewrite E in Ek. cbn in Ek.
      rewrite <-Hm in Ek. apply elem_of_list_to_map_2 in Ek. apply list_elem_of_lookup in Ek as [j Hj].
      destruct (Forall2_lookup_l _ _ _ _ _ Hp Hj) as (pk' & Hj' & Ek & vs' & E' & _). cbn in Ek.
      destruct (HM2 _ _ E') as [Hpk' _]. assert (pk = pk') as -> by (by eapply (key_of_inj d d)).
      by eapply list_elem_of_lookup_2.
  - apply Forall2_fmap_r. eapply Forall2_impl; [exact Hp|]. intros [k v] pk (Ek & vs & E & Ev). cbn in *. subst k v.
    rewrite E. cbn. destruct (HM2 _ _ E) as [Hpk Hvs]. apply stored_row_pair; [done|]. by exists pk.
Qed.

(** At most one row for each INSERT. *)
Lemma ins_rows_size (d : TableDef) l : forall R : rows_map, (stdpp.base.size (foldl (ins_row d) R l) <= stdpp.base.size R + List.length l)%nat.
Proof.
  induction l as [|i l IH]; intros R; cbn [foldl List.length]; [lia|]. etrans; [apply IH|]. unfold ins_row.
  destruct (R !! _) eqn:E; [lia|]. rewrite map_size_insert_None by done. lia.
Qed.

Lemma sorted_keys_length (d : TableDef) (R : rows_map) (pks : list (list Value)) : StronglySorted (fun a b => key_lt (key_of d a) (key_of d b)) pks ->
  (forall pk, pk ∈ pks <-> is_Some (R !! pk)) -> List.length pks = stdpp.base.size R.
Proof.
  intros Hs Hd. assert (NoDup pks) as Hnd.
  { clear Hd. induction Hs as [|pk pks Hs IH Hall]; constructor; [|done]. intros Hin. rewrite Forall_forall in Hall.
    apply Hall in Hin. by apply key_lt_irrefl in Hin. }
  rewrite <-(size_dom R). rewrite <-(size_list_to_set (C := gset (list Value)) pks Hnd). f_equal. apply set_eq. intros pk.
  by rewrite elem_of_list_to_set, elem_of_dom.
Qed.

Lemma select_all_rows fuel db A t (d : TableDef) : rel_rep 0 db A -> tables db = {[ t := d ]} -> ident_ok t = true ->
  (stdpp.base.size (rows A t) <= fuel)%nat -> Z.of_nat (stdpp.base.size (rows A t)) < 2 ^ 63 ->
  exists pks, StronglySorted (fun a b => key_lt (key_of d a) (key_of d b)) pks /\
    (forall pk, pk ∈ pks <-> is_Some (rows A t !! pk)) /\
    ExecuteRaw fuel db (print_stmt (SSelect [None] t no_scan)) =
      Ok (inr (RRows (row_rec d <$> ((fun pk => default [] (rows A t !! pk)) <$> pks))), db).
Proof.
  intros ([HT _] & M & Hst & HM & HO) Et Ht Hf Hsz. rewrite Et in *.
  destruct (HT t d (lookup_singleton_eq _ _)) as [Hd _].
  destruct (store_rows t d (rows A t) M A Hd eq_refl HM HO) as (pks & Hs & Hin & Hrows). exists pks.
  split; [done|]. split; [done|]. pose proof (sorted_keys_length d (rows A t) pks Hs Hin) as Hlen.
  pose proof (Forall2_length _ _ _ Hrows) as Hl. rewrite length_fmap in Hl.
  unfold ExecuteRaw. rewrite Parse_print, bind_ok by (cbn [stmt_ok forallb]; by rewrite Ht). cbn [stmt_of Execute].
  destruct (sorted_kvs_spec M) as [Hs1 Hm1].
  rewrite (execSelect_rows fuel db d _ (sorted_kvs M) [] ((fun pk => default [] (rows A t !! pk)) <$> pks)).
  - rewrite bind_ok. cbn [sel_Scan scan_of no_scan sc_limit Limit Offset]. change (Z.to_nat 0) with 0%nat. rewrite drop_0.
    rewrite take_ge; [done|]. rewrite !length_fmap, Hlen. unfold MaxInt64. lia.
  - cbn. rewrite Et. apply lookup_singleton_eq.
  - done.
  - by split_and!.
  - by rewrite app_nil_r, Hm1.
  - by rewrite app_nil_r.
  - done.
  - constructor.
  - lia.
Qed.

Lemma table_of_rec t cols pkeys vs : row_rec (table_of t cols pkeys) vs = mkRec cols.*1 vs.
Proof. unfold row_rec, table_of, names. cbn [t_Cols]. by rewrite <-list_fmap_compose. Qed.

Lemma sql_script_rows_lemma fuel (kv : S) t cols pkeys (l : list (list bytes * list expr)) :
  let d := table_of t cols pkeys in
  let R := foldl (ins_row d) ∅ l in
  stmt_ok (SCreateTable t cols pkeys) = true -> NoDup cols.*1 -> pkeys = take (List.length pkeys) cols.*1 ->
  st_rep (List.length l) kv ∅ -> Forall (ins_ok t d) l -> (List.length l <= fuel)%nat -> len l < 2 ^ 63 ->
  exists db pks,
    script fuel (OpenDB kv)
      (print_stmt (SCreateTable t cols pkeys) :: ((fun i => print_stmt (SInsert t i.1 i.2)) <$> l)) =
      Ok (replicate (Datatypes.S (List.length l)) (inr RNone), db) /\
    StronglySorted (fun a b => key_lt (key_of d a) (key_of d b)) pks /\
    (forall pk, pk ∈ pks <-> is_Some (R !! pk)) /\
    ExecuteRaw fuel db (print_stmt (SSelect [None] t no_scan)) =
      Ok (inr (RRows ((fun pk => mkRec cols.*1 (default [] (R !! pk))) <$> pks)), db).
Proof.
  intros d R Hok Hnd Hpk Hst Hl Hf Hsz.
  assert (len pkeys <= len cols) as Hp.
  { unfold len. rewrite Hpk, length_take, length_fmap. lia. }
  assert (ident_ok t = true /\ 1 <= len pkeys) as [Ht Hp1].
  { cbn [stmt_ok] in Hok. rewrite !andb_true_iff, !negb_true_iff, !bool_decide_eq_false in Hok. split; [tauto|].
    destruct Hok as [_ Hne]. clear Hpk. destruct pkeys; [done|]. rewrite len_cons. pose proof (len_nonneg pkeys). lia. }
  assert (tables_ok {[ t := d ]}) as HT.
  { split.
    - intros t' d' [_ <-]%lookup_singleton_Some. split; [by apply table_of_ok|done].
    - intros t1 t2 d1 d2 [<- _]%lookup_singleton_Some [<- _]%lookup_singleton_Some _. done. }
  destruct (inserts_run fuel t d l (mkDB kv {[ t := d ]}) ∅ (rel_rep_empty _ _ _ Hst HT) eq_refl Hl)
    as (db & A & E & Et & HR & Hrows).
  change (rows ∅ t) with (∅ : rows_map) in Hrows. fold R in Hrows.
  pose proof (ins_rows_size d l ∅) as Hsize. rewrite map_size_empty in Hsize. fold R in Hsize.
  destruct (select_all_rows fuel db A t d HR Et Ht) as (pks & Hs & Hin & Es).
  - rewrite Hrows. lia.
  - rewrite Hrows. unfold len in Hsz. lia.
  - exists db, pks. rewrite Hrows in *. split; [|split; [done|split; [done|]]].
    + cbn [script]. rewrite create_runs by done. rewrite bind_ok. fold d. by rewrite E, bind_ok.
    + rewrite Es, <-list_fmap_compose. do 4 f_equal. apply list_fmap_ext. intros i pk _. apply table_of_rec.
Qed.

(** C13: an SQL script as text, over every store that keeps its contract and has
    room for it. The script creates a table whose PRIMARY KEY names its first
    columns in their order (other names are ignored, [primary_key_names_ignored])
    and inserts any number of rows, in statements that name columns of the table,
    each once, with constants of their types that the store takes. No statement
    fails. [SELECT * FROM] the table then returns exactly one record for each
    primary key inserted, for the row inserted first with it, in the order of the
    encoded keys. As the code has it, a record lists the names of all columns and
    only the values of the columns after the primary key. *)
Theorem sql_script_rows fuel (kv : S) t cols pkeys (l : list (list bytes * list expr)) :
  let d := table_of t cols pkeys in
  let R := foldl (ins_row d) ∅ l in
  stmt_ok (SCreateTable t cols pkeys) = true -> NoDup cols.*1 -> pkeys = take (List.length pkeys) cols.*1 ->
  st_rep (List.length l) kv ∅ -> Forall (ins_ok t d) l -> (List.length l <= fuel)%nat -> len l < 2 ^ 63 ->
  exists db pks,
    script fuel (OpenDB kv)
      (print_stmt (SCreateTable t cols pkeys) :: ((fun i => print_stmt (SInsert t i.1 i.2)) <$> l)) =
      Ok (replicate (Datatypes.S (List.length l)) (inr RNone), db) /\
    StronglySorted (fun a b => key_lt (key_of d a) (key_of d b)) pks /\
    (forall pk, pk ∈ pks <-> is_Some (R !! pk)) /\
    ExecuteRaw fuel db (print_stmt (SSelect [None] t no_scan)) =
      Ok (inr (RRows ((fun pk => mkRec cols.*1 (default [] (R !! pk))) <$> pks)), db).
Proof. apply sql_script_rows_lemma. Qed.
End script.

(** * A script *)

Definition user_columns : list (bytes * coltype) := [(c_id, CInt); (c_name, CBytes); (c_age, CInt)].
Definition user_inserts : list (list bytes * list expr) :=
  [([c_id; c_name; c_age], [EInt 2; EStr (str "Bob"); EInt 25]);
   ([c_age; c_name; c_id], [EInt 30; EStr (str "Alice"); EInt 1]);
   ([c_id; c_name], [EInt 2; EStr (str "Carol")])].

Lemma user_inserts_ok : Forall (ins_ok (S:=mapStore) users (table_of users user_columns [c_id])) user_inserts.
Proof.
  change (table_of users user_columns [c_id]) with (table users []).
  apply Forall_forall. intros i Hi. unfold user_inserts in Hi. rewrite !elem_of_cons in Hi.
  destruct Hi as [->|[->|[->|Hi]]]; [| | |by apply not_elem_of_nil in Hi];
    (split; [reflexivity|]; split; [apply users_rec_ok; reflexivity|]; split; [apply users_rec_typed; reflexivity|exact I]).
Qed.

Lemma sql_script_rows_witness :
  let d := table_of users user_columns [c_id] in
  let R := foldl (ins_row d) ∅ user_inserts in
  R !! [Int64 2] = Some [Bytes (str "Bob"); Int64 25] /\
  exists db pks,
    script 3 (OpenDB (mkMap ∅)) (print_stmt (SCreateTable users user_columns [c_id]) ::
      ((fun i => print_stmt (SInsert users i.1 i.2)) <$> user_inserts)) =
      Ok ([inr RNone; inr RNone; inr RNone; inr RNone], db) /\
    StronglySorted (fun a b => key_lt (key_of d a) (key_of d b)) pks /\
    (forall pk, pk ∈ pks <-> is_Some (R !! pk)) /\
    ExecuteRaw 3 db (print_stmt (SSelect [None] users no_scan)) =
      Ok (inr (RRows ((fun pk => mkRec [c_id; c_name; c_age] (default [] (R !! pk))) <$> pks)), db).
Proof.
  intros d R. split; [vm_compute; reflexivity|].
  apply (sql_script_rows 3 (mkMap ∅) users user_columns [c_id] user_inserts).
  - reflexivity.
  - apply (bool_decide_unpack _). vm_compute. exact I.
  - reflexivity.
  - reflexivity.
  - exact user_inserts_ok.
  - simpl. lia.
  - reflexivity.
Defined.

(** The names of the primary key are not looked at, only their number: the key of
    a table is its first columns. Here the key is declared to be [b], and two
    rows with the same [b] are both kept, while a second row with the same [a]
    is dropped. *)
Theorem primary_key_names_ignored :
  ('(_, db) ← script 9 (OpenDB (mkMap ∅)) (str <$> ["CREATE TABLE t (a INT64, b INT64, PRIMARY KEY (b))";
     "INSERT INTO t (a, b) VALUES (1, 7)"; "INSERT INTO t (a, b) VALUES (2, 7)"; "INSERT INTO t (a, b) VALUES (1, 8)"]%string);
   '(r, _) ← ExecuteRaw 9 db (str "SELECT * FROM t"); Ok r) =
  Ok (inr (RRows [mkRec [str "a"; str "b"] [Int64 7]; mkRec [str "a"; str "b"] [Int64 7]])).
Proof. vm_compute. reflexivity. Qed.
