(* ===== verification/SqlTree.v ===== *)
(** SQL over the B+tree: all layers between the text of a statement and the bytes
    of the pages put together.

    The iterator of the tree is right on trees of at most two levels. A tree
    grows a third level only when the entries of its root do not fit in a page,
    which takes more pairs than [pairs_cap]; up to that many pairs the tree, seen
    through the interface [Storage], keeps the contracts [StorageOK] and [ScanOK]
    both, and the theorems about SQL hold over it. *)
From Stdlib Require Import Ascii String.
From S2P Require Import Prelude Keys KVList Node Tree TreeRep TreeInsert TreeDelete TreeSpec Iter.
From S2P Require Import Encoding KV Storage Relational RelSpec TreeStore Ast Parser ParserSpec StmtSpec Executor SqlSpec.
#[local] Open Scope Z_scope.

(** * Pairs and levels *)

(** Pairs with keys of [L] bytes that a tree of two levels surely takes: one entry
    of the root for each of them fits in a page. *)
Definition pairs_cap (L : Z) : nat := Z.to_nat ((BTREE_PAGE_SIZE - HEADER) / (14 + L)).

Section small.
Context {S : Type} `{PageStoreOK S} (fuel : nat) (L : Z).
Context (Hfuel : (2 <= fuel)%nat) (HL : 0 <= L).
Abbreviation ts := (treeStore S fuel L).
Implicit Types (s : ts) (m : kvs) (M : gmap bytes bytes).

(** Every kid holds a pair, and its key has [L] bytes. *)
Lemma kids_nsize pg h es m F : kids_rep pg (stored pg h) es m F -> same_len L m ->
  nsize es <= HEADER + (14 + L) * len m.
Proof.
  intros Hk Hm. assert (len es <= len m /\ kvsum es <= (4 + L) * len es) as [H1 H2].
  { induction Hk as [|p b m F es m' F' _ Hb _ _ _ IH]; [rewrite len_nil; split; [done|]; change (kvsum []) with 0; lia|].
    apply Forall_app in Hm as [Hm Hm']. destruct (IH Hm') as [IH1 IH2]. pose proof (stored_nonempty _ _ _ _ _ Hb) as Hne.
    rewrite kvsum_cons, len_cons, len_app. unfold ksize. cbn [e_key e_val]. rewrite (same_len_first L m Hm Hne), len_nil.
    destruct m as [|kv m]; [done|]. rewrite len_cons. pose proof (len_nonneg m). split; lia. }
  unfold nsize. pose proof (len_nonneg es). nia.
Qed.

Lemma kv_map_size m : kv_sorted m -> stdpp.base.size (kv_map m) = List.length m.
Proof.
  intros Hs. unfold kv_map. apply map_size_list_to_map. by apply kv_sorted_NoDup.
Qed.

(** * The contracts *)

(** A tree of at most two levels, with room for [n] more pairs and for the pages
    of [n] more operations. *)
Definition small_rep (n : nat) s M : Prop :=
  exists h, tree_map L h (ts_tree s) M /\ (h <= 1)%nat /\ (stdpp.base.size M + n <= pairs_cap L)%nat /\
    (stdpp.base.size (pages (store (ts_tree s))) + 5 * n <= page_cap)%nat.

Lemma small_set n s M k v : small_rep (Datatypes.S n) s M -> kv_ok (k, v) -> len k = L ->
  exists t, Tree.Insert fuel (ts_tree s) k v = Ok t /\ small_rep n (mkTS fuel L t) (<[k := v]> M).
Proof.
  intros (h & (m & Ht & Hm & <-) & Hh & Hn & Hc) Hkv Hk.
  pose proof (same_len_insert L k v m Hk Hm) as Hm'. pose proof (kv_insert_sorted k v m (proj1 Ht)) as Hs'.
  destruct (Insert_grow_spec h fuel (ts_tree s) m k v Ht Hkv) as (h' & t & E & Ht' & _ & Hh' & Hsz & Hg); [lia|lia|].
  exists t. split; [done|]. exists h'. rewrite <-kv_map_insert. split; [by exists (kv_insert k v m)|].
  assert (stdpp.base.size (kv_map (kv_insert k v m)) <= Datatypes.S (stdpp.base.size (kv_map m)))%nat as Hsz'.
  { rewrite kv_map_insert. destruct (kv_map m !! k) as [w|] eqn:Ew.
    - rewrite map_size_insert_Some by (by eexists). lia.
    - rewrite map_size_insert_None by done. lia. }
  split_and!; [|lia|cbn [ts_tree]; lia].
  destruct (decide (h' <= 1)%nat) as [|Hbig]; [done|]. exfalso. assert (h = 1%nat) as -> by lia.
  destruct Hg as (pg & es & F & He & Hns); [lia|]. rewrite erep_S in He.
  pose proof (kids_nsize _ _ _ _ _ He Hm') as Hle. rewrite kv_map_size in Hsz' by done.
  assert (len (kv_insert k v m) <= (BTREE_PAGE_SIZE - HEADER) / (14 + L)) as Hlen by (unfold pairs_cap, len in *; lia).
  pose proof (Z.mul_div_le (BTREE_PAGE_SIZE - HEADER) (14 + L) ltac:(lia)). nia.
Qed.

Lemma small_del n s M k : small_rep (Datatypes.S n) s M ->
  exists t, Tree.Delete fuel (ts_tree s) k = Ok (bool_decide (is_Some (M !! k)), t) /\
    small_rep n (mkTS fuel L t) (delete k M).
Proof.
  intros (h & (m & Ht & Hm & <-) & Hh & Hn & Hc).
  destruct (Delete_spec L h fuel (ts_tree s) m k Ht Hm) as (h' & t & E & Ht' & Hh' & Hsz); [lia|lia|].
  exists t. rewrite kv_map_lookup. split; [done|]. exists h'. rewrite <-kv_map_delete by apply Ht.
  split; [by exists (kv_delete k m); split_and!; [|apply kv_delete_Forall|]|].
  assert (stdpp.base.size (delete k (kv_map m)) <= stdpp.base.size (kv_map m))%nat by (apply map_subseteq_size, delete_subseteq).
  rewrite kv_map_delete by apply Ht. cbn [ts_tree]. lia.
Qed.

Definition small_ok : StorageOK ts.
Proof.
  refine {| st_rep := small_rep; st_fits k v := kv_ok (k, v) /\ len k = L |}.
  - intros n m s M Hle (h & ? & ? & ? & ?). exists h. split_and!; (done || lia).
  - intros n s M k (h & (m & Ht & _ & <-) & Hh & _). rewrite kv_map_lookup. apply (Get_spec h); [done|lia].
  - intros n s M k v Hr [Hkv Hk]. destruct (small_set n s M k v Hr Hkv Hk) as (t & E & Hr').
    exists (mkTS fuel L t). cbn [st_Set tree_storage]. by rewrite E.
  - intros n s M k Hr. destruct (small_del n s M k Hr) as (t & E & Hr').
    exists (mkTS fuel L t). cbn [st_Del tree_storage]. by rewrite E.
Defined.

(** The iterator has the pairs [l] before it. *)
Definition small_at s (l : kvs) (it : BIter) : Prop :=
  (l = [] /\ it = mkIter [] []) \/
  (exists m i, iter_at (ts_tree s) m i it /\ (i < List.length m)%nat /\ l = drop i m).

Lemma small_seek n s M k : small_rep n s M -> exists l i it, kv_sorted l /\ kv_map l = M /\
  (l <> [] -> is_le (fst <$> l) k i) /\ SeekLE fuel (ts_tree s) k = Ok it /\ small_at s (drop i l) it.
Proof.
  intros (h & (m & Ht & _ & <-) & Hh & _). exists m. destruct (decide (m = [])) as [->|Hne].
  - exists 0%nat, (mkIter [] []). split; [constructor|]. split; [done|]. split; [done|]. split; [|by left].
    destruct Ht as (_ & _ & [(Hr & _)|[_ Hk]]); [unfold SeekLE; by rewrite Hr|].
    by apply (erep_first _ (Datatypes.S h)) in Hk as [? _].
  - destruct (SeekLE_spec h fuel (ts_tree s) m k Ht Hh) as (it & i & E & Hat & Hle); [lia|done|].
    exists i, it. split; [apply Ht|]. split; [done|]. split; [done|]. split; [done|]. right. exists m, i.
    split; [done|]. split; [|done]. destruct Hle as [[->|(k' & Hk' & _)] _]; [destruct m; [done|cbn; lia]|].
    apply lookup_lt_Some in Hk'. by rewrite length_fmap in Hk'.
Qed.

Lemma small_next s k v l it : small_at s ((k, v) :: l) it ->
  Valid it = Ok true /\ Key it = Ok k /\ Val it = Ok v /\
  exists it', Next fuel (ts_tree s) it = Ok it' /\ small_at s l it'.
Proof.
  intros [[? _]|(m & i & Hat & Hi & El)]; [done|]. destruct (lookup_lt_is_Some_2 m i Hi) as [[k' v'] Hm].
  rewrite (drop_S m (k', v')) in El by done. injection El as -> -> ->.
  destruct (iter_at_val _ _ _ _ _ _ Hat Hm) as (E1 & E2 & E3). split_and!; [done..|].
  destruct (Next_spec fuel (ts_tree s) m i it ltac:(lia) Hat) as (it' & E & Hat'). exists it'. split; [done|].
  destruct (decide _) as [Hlt|Hge]; [right; by exists m, (Datatypes.S i)|left]. split; [|done]. by rewrite drop_ge by lia.
Qed.

Definition small_scan_ok : @ScanOK ts _ small_ok.
Proof.
  refine {| st_at := (small_at : ts -> kvs -> st_iter (Storage := tree_storage fuel L) -> Prop) |}.
  - exact small_seek.
  - intros s it [[_ ->]|(m & i & _ & Hi & El)]; [done|]. symmetry in El. apply drop_nil_inv in El. lia.
  - exact small_next.
Defined.

Lemma small_rep_empty n t : Root t = 0 -> pages (store t) = ∅ -> (n <= pairs_cap L)%nat -> (5 * n <= page_cap)%nat ->
  small_rep n (mkTS fuel L t) ∅.
Proof.
  intros Hr Hp Hn Hc. exists 0%nat. cbn [ts_tree]. rewrite Hp, !map_size_empty. split; [|lia].
  exists []. split_and!; [|constructor|done]. split_and!; [constructor|constructor|by left].
Qed.
End small.

(** * SQL scripts *)

(** An INSERT of a row whose encoded columns fit beside its key of 13 bytes. *)
Definition ins_small (t : bytes) (d : TableDef) (i : list bytes * list expr) : Prop :=
  stmt_ok (SInsert t i.1 i.2) = true /\ rec_ok d (ins_rec i) /\ rec_typed d (ins_rec i) /\
  len (encs (rest_of d (ins_rec i))) <= 987.

Section sql.
Context {S : Type} `{PageStoreOK S}.

Lemma key_bytes : 0 <= 13.
Proof. done. Qed.

Lemma ins_small_ok (fuel : nat) (Hfuel : (2 <= fuel)%nat) (t : bytes) (d : TableDef) i : table_ok d -> int_key d ->
  ins_small t d i -> @ins_ok (treeStore S fuel 13) _ (small_ok fuel 13 Hfuel key_bytes) t d i.
Proof.
  intros Hd Hk (H1 & H2 & H3 & H4). split_and!; [done..|]. cbn [st_fits small_ok].
  pose proof (int_key_len d _ Hk (pk_typed d _ Hd H3)) as Hl. split; [|done]. unfold kv_ok. cbn [fst snd]. rewrite Hl. lia.
Qed.

(** C2: SQL text over the pages of a B+tree, over every page store that keeps its
    laws and has room, from an empty tree. The script creates a table whose first
    column is an integer and its PRIMARY KEY, and inserts up to 151 rows, in
    statements that name columns of the table, each once, with constants of their
    types and at most 987 bytes of encoded columns after the key. No statement
    fails. [SELECT * FROM] the table then returns exactly one record for each key
    inserted, for the row inserted first with it, in the order of the encoded
    keys. As the code has it, a record lists the names of all columns and only
    the values of the columns after the key. *)
Theorem sql_over_btree (fuel sfuel : nat) (tr : BTree S) t c cols (l : list (list bytes * list expr)) :
  let d := table_of t ((c, CInt) :: cols) [c] in
  let R := foldl (ins_row d) ∅ l in
  Root tr = 0 -> pages (store tr) = ∅ -> (5 * List.length l <= page_cap)%nat -> (2 <= fuel)%nat ->
  stmt_ok (SCreateTable t ((c, CInt) :: cols) [c]) = true -> NoDup (c :: cols.*1) ->
  (List.length l <= 151)%nat -> (List.length l <= sfuel)%nat -> Forall (ins_small t d) l ->
  exists db pks,
    script sfuel (OpenDB (mkTS fuel 13 tr))
      (print_stmt (SCreateTable t ((c, CInt) :: cols) [c]) :: ((fun i => print_stmt (SInsert t i.1 i.2)) <$> l)) =
      Ok (replicate (Datatypes.S (List.length l)) (inr RNone), db) /\
    StronglySorted (fun a b => key_lt (key_of d a) (key_of d b)) pks /\
    (forall p, p ∈ pks <-> is_Some (R !! p)) /\
    ExecuteRaw sfuel db (print_stmt (SSelect [None] t no_scan)) =
      Ok (inr (RRows ((fun p => mkRec (c :: cols.*1) (default [] (R !! p))) <$> pks)), db).
Proof.
  intros d R Hr Hp Hc Hf Hok Hnd Hl Hs Hi.
  apply (@sql_script_rows_lemma (treeStore S fuel 13) _ (small_ok fuel 13 Hf key_bytes) (small_scan_ok _ _ _ _)
    sfuel (mkTS fuel 13 tr) t ((c, CInt) :: cols) [c] l); [done|done|done| | |done|unfold len; lia].
  - by apply small_rep_empty.
  - assert (1 <= len ((c, CInt) :: cols)) as Hlen by (rewrite len_cons; pose proof (len_nonneg cols); lia).
    eapply Forall_impl; [exact Hi|]. intros i. apply ins_small_ok; [by apply table_of_ok|done].
Qed.
End sql.

Lemma user_inserts_small : Forall (ins_small users (table_of users user_columns [c_id])) user_inserts.
Proof.
  assert (Forall (fun i => len (encs (rest_of (table_of users user_columns [c_id]) (ins_rec i))) <= 987) user_inserts)
    as Hl by (repeat constructor; vm_compute; discriminate).
  eapply Forall_impl; [apply Forall_and; split; [exact user_inserts_ok|exact Hl]|].
  intros i [(H1 & H2 & H3 & _) H4]. by split_and!.
Qed.

Lemma sql_over_btree_witness :
  let d := table_of users user_columns [c_id] in
  let R := foldl (ins_row d) ∅ user_inserts in
  exists db pks,
    script 3 (OpenDB (mkTS 2 13 empty_tree)) (print_stmt (SCreateTable users user_columns [c_id]) ::
      ((fun i => print_stmt (SInsert users i.1 i.2)) <$> user_inserts)) =
      Ok ([inr RNone; inr RNone; inr RNone; inr RNone], db) /\
    StronglySorted (fun a b => key_lt (key_of d a) (key_of d b)) pks /\
    (forall p, p ∈ pks <-> is_Some (R !! p)) /\
    ExecuteRaw 3 db (print_stmt (SSelect [None] users no_scan)) =
      Ok (inr (RRows ((fun p => mkRec [c_id; c_name; c_age] (default [] (R !! p))) <$> pks)), db).
Proof.
  intros d R. apply (sql_over_btree 2 3 empty_tree users c_id [(c_name, CBytes); (c_age, CInt)] user_inserts).
  - reflexivity.
  - reflexivity.
  - apply mem_page_cap. vm_compute. discriminate.
  - lia.
  - reflexivity.
  - apply (bool_decide_unpack _). vm_compute. exact I.
  - simpl. lia.
  - simpl. lia.
  - exact user_inserts_small.
Defined.
