(* ===== verification/Server.v ===== *)
(** The sessions of the server: src/internal/server/server.go.

    A session is one call of [handleConn] on one client. What reaches the server
    is a list of runs of bytes, each arriving at once, and of failures; a read
    takes at most the length of its buffer from the first run, and the messages
    written to the client are collected. The store is shared by the relational
    database and by the transaction manager of the pool: the state holds it
    once, in the manager. The sessions of several clients are in [ServerLoop]. *)
From Stdlib Require Import Ascii String.
From S2P Require Import Prelude Keys KVList Encoding KV Protocol Storage Tx Shard Pool Relational RelSpec Ast Parser ParserSpec.
From S2P Require Import Executor.
#[local] Open Scope Z_scope.

(** * Printing values *)

(** [%g] of a float, by its bits, is the part of [fmt] that is a parameter. *)
Definition valToString (fmt_g : Z -> bytes) (v : Value) : bytes :=
  if v_type v =? TypeInt64 then dec (v_i64 v)
  else if v_type v =? TypeBytes then v_str v
  else if v_type v =? TypeBool then if v_bool v then str "true" else str "false"
  else if v_type v =? TypeFloat64 then fmt_g (v_f64 v)
  else str "NULL".

(** The loop over the columns of a record: [rec.Vals[i]] panics out of range. *)
Fixpoint row_strings (fmt_g : Z -> bytes) (cols : list bytes) (vals : list Value) (i : Z) (row : gmap bytes bytes)
    : res (gmap bytes bytes) :=
  match cols with
  | [] => Ok row
  | c :: cols => v ← index vals i; row_strings fmt_g cols vals (i + 1) (<[c := valToString fmt_g v]> row)
  end.

(** The columns of the last record and the rows. *)
Fixpoint result_rows (fmt_g : Z -> bytes) (l : list Rec) (cols : list bytes) (rows : list (gmap bytes bytes))
    : res (list bytes * list (gmap bytes bytes)) :=
  match l with
  | [] => Ok (cols, rows)
  | rec :: l =>
      row ← row_strings fmt_g (r_Cols rec) (r_Vals rec) 0 ∅;
      result_rows fmt_g l (r_Cols rec) (rows ++ [row])
  end.

(** * Reading from a connection *)

(** [conn.Read] on a buffer of [cap] bytes: what does not fit stays. *)
Definition conn_read (cap : Z) (input : list (option bytes)) : option bytes * list (option bytes) :=
  match input with
  | [] => (None, [])
  | None :: input => (None, input)
  | Some d :: input =>
      if len d <=? cap then (Some d, input)
      else (Some (take (Z.to_nat cap) d), Some (drop (Z.to_nat cap) d) :: input)
  end.

(** All reads of a loop: a run of bytes is cut into pieces of [cap] bytes. *)
Fixpoint cut (fuel : nat) (cap : Z) (d : bytes) : list (option bytes) :=
  match fuel with
  | O => []
  | Datatypes.S fuel =>
      if len d <=? cap then [Some d] else Some (take (Z.to_nat cap) d) :: cut fuel cap (drop (Z.to_nat cap) d)
  end.

Fixpoint reads_of (cap : Z) (input : list (option bytes)) : list (option bytes) :=
  match input with
  | [] => []
  | None :: input => None :: reads_of cap input
  | Some d :: input => cut (Datatypes.S (length d)) cap d ++ reads_of cap input
  end.

Lemma cut_fuel cap fuel : forall fuel' d, 0 < cap -> (length d < fuel)%nat -> (length d < fuel')%nat ->
  cut fuel cap d = cut fuel' cap d.
Proof.
  induction fuel as [|fuel IH]; intros [|fuel'] d Hc H1 H2; try lia. cbn [cut].
  destruct (Z.leb_spec (len d) cap) as [|Hl]; [done|]. unfold len in Hl. f_equal. apply IH; [done|..]; rewrite length_drop; lia.
Qed.

(** The reads of the loop are those of [conn_read], one after the other. *)
Lemma reads_conn_read cap input : 0 < cap -> input <> [] ->
  reads_of cap input = (conn_read cap input).1 :: reads_of cap (conn_read cap input).2.
Proof.
  intros Hc Hi. destruct input as [|[d|] input]; [done| |done]. cbn [reads_of conn_read cut].
  destruct (Z.leb_spec (len d) cap) as [|Hl]; [done|]. cbn [fst snd reads_of app]. f_equal. f_equal.
  unfold len in Hl. apply cut_fuel; [done|..]; rewrite length_drop; lia.
Qed.

Lemma reads_of_fits cap input : Forall (fun r => if r is Some d then len d <= cap else True) input ->
  reads_of cap input = input.
Proof.
  induction 1 as [|[d|] input Hd _ IH]; cbn [reads_of cut]; [done| |by rewrite IH].
  rewrite (proj2 (Z.leb_le _ _)) by done. cbn [app]. by rewrite IH.
Qed.

(** * The server *)

(** What is reported to a client. *)
Inductive srv_error :=
| ErrSql (e : sql_error) | ErrConn (e : conn_error) | ErrPool (e : pool_error)
| ErrInvalidMessage | ErrUnknownType (t : Z).

Section code.
Context {S : Type} `{Storage S}.
(** [%g], and the text of an error, as [fmt] prints it. *)
Variables (fmt_g : Z -> bytes) (err_text : srv_error -> bytes).
(** The rows that one query may read. *)
Variable fuel : nat.

(** The struct [Config], and the listener of the server. *)
Record SrvConfig := mkSrvConfig {
  ListenAddr : bytes; DBPath : bytes; cfg_SyncMode : SyncMode; AuthToken : bytes; cfg_MaxConns : Z;
  TLSCert : bytes; TLSKey : bytes }.

Inductive Listener := NoListener | Listening | ListenerClosed.

Record Server := mkServer {
  srv_config : SrvConfig; srv_tables : gmap bytes TableDef; srv_pool : Pool S; listener : Listener;
  shutdown : bool }.

Definition token (s : Server) : bytes := AuthToken (srv_config s).

Definition srv_store (s : Server) : S := m_kv (p_mgr (srv_pool s)).

Definition set_store (m : Manager S) (kv : S) : Manager S :=
  mkMgr kv (m_version m) (ongoing m) (history m) (minVer m).

(** The relational database, and the server after it has changed. *)
Definition srv_db (s : Server) : DB S := Relational.mkDB (srv_store s) (srv_tables s).
Definition set_db (s : Server) (db : DB S) : Server :=
  mkServer (srv_config s) (tables db)
    (set_mgr (srv_pool s) (set_store (p_mgr (srv_pool s)) (db_kv db))) (listener s) (shutdown s).
Definition set_pool (s : Server) (p : Pool S) : Server :=
  mkServer (srv_config s) (srv_tables s) p (listener s) (shutdown s).

(** [NewServer] once the store is open. *)
Definition new_server (cfg : SrvConfig) (store : S) (clock : nat -> Z * Z) : Server :=
  mkServer cfg (tables (OpenDB store))
    (NewPool store (mkConf (cfg_MaxConns cfg) 2 (10 * Minute) 0 SessionMode) clock) NoListener false.

Definition sendError (e : srv_error) : bytes := EncodeMessage MsgError (err_text e).
Definition sendReady : bytes := EncodeMessage MsgReady (str "READY").

Definition handleQuery (s : Server) (query : bytes) : res (bytes * Server) :=
  '(r, db) ← ExecuteRaw fuel (srv_db s) query;
  let s := set_db s db in
  match r with
  | inl e => Ok (sendError (ErrSql e), s)
  | inr (RRows l) => '(cols, rows) ← result_rows fmt_g l [] []; Ok (EncodeResult cols rows, s)
  | inr _ => Ok (sendReady, s)
  end.

(** The connection [pc] after a call of one of its methods. *)
Definition with_conn (s : Server) (pc : Z) (c : Conn) (m : Manager S) : Server :=
  set_pool s (set_mgr (set_conn (srv_pool s) pc c) m).

Definition reply (e : option conn_error) : bytes :=
  match e with Some e => sendError (ErrConn e) | None => sendReady end.

Definition handleMessage (s : Server) (pc : Z) (msgType : Z) (payload : bytes) : res (bytes * Server) :=
  c ← of_option (heap (srv_pool s) !! pc);
  let m := p_mgr (srv_pool s) in
  if msgType =? MsgQuery then handleQuery s payload
  else if msgType =? MsgBegin then
    let '(e, c, m) := ConnBegin m c 0 in Ok (reply e, with_conn s pc c m)
  else if msgType =? MsgCommit then
    '(e, c, m) ← ConnCommit m c; Ok (reply e, with_conn s pc c m)
  else if msgType =? MsgAbort then
    let '(c, m) := ConnAbort m c in Ok (sendReady, with_conn s pc c m)
  else Ok (sendError (ErrUnknownType msgType), s).

(** One round of the loop of a session, on the bytes of one read. *)
Definition session_step (s : Server) (pc : Z) (data : bytes) : res (bytes * Server) :=
  m ← DecodeMessage data;
  match m with
  | None => Ok (sendError ErrInvalidMessage, s)
  | Some (msgType, payload) => handleMessage s pc msgType payload
  end.

(** The loop over the reads: [None] is a failed read, the end of the list too. *)
Fixpoint session (s : Server) (pc : Z) (reads : list (option bytes)) : res (list bytes * Server) :=
  match reads with
  | [] | None :: _ => Ok ([], s)
  | Some data :: reads =>
      '(o, s) ← session_step s pc data; '(out, s) ← session s pc reads; Ok (o :: out, s)
  end.

(** The token is the first line, empty when no line ends in the bytes read. *)
Fixpoint first_line (data : bytes) : option bytes :=
  match data with
  | [] => None
  | c :: data => if (c =? 10) || (c =? 13) then Some [] else cons c <$> first_line data
  end.

Definition auth_failed : bytes := EncodeMessage MsgError (str "authentication failed").
Definition authenticated : bytes := EncodeMessage MsgReady (str "AUTHENTICATED").

(** After the authentication: a connection of the pool is held for the session. *)
Definition serve_conn (s : Server) (reads : list (option bytes)) (now t1 t2 t3 : Z) : res (list bytes * Server) :=
  match Acquire (srv_pool s) now t1 t2 with
  | (Ok (inl e), p) => Ok ([sendError (ErrPool e)], set_pool s p)
  | (Ok (inr pc), p) =>
      '(out, s) ← session (set_pool s p) pc reads;
      p ← Release (srv_pool s) pc t3; Ok (out, set_pool s p)
  | (Panic, _) => Panic
  | (OutOfFuel, _) => OutOfFuel
  end.

(** [handleConn]: the buffer is of 512 bytes for the token, of 4096 afterwards. *)
Definition handleConn (s : Server) (input : list (option bytes)) (now t1 t2 t3 : Z) : res (list bytes * Server) :=
  if bool_decide (token s = []) then serve_conn s (reads_of 4096 input) now t1 t2 t3
  else
    match conn_read 512 input with
    | (None, _) => Ok ([], s)
    | (Some data, input) =>
        if bool_decide (default [] (first_line data) = token s) then
          '(out, s) ← serve_conn s (reads_of 4096 input) now t1 t2 t3; Ok (authenticated :: out, s)
        else Ok ([auth_failed], s)
    end.

(** The steps of [Shutdown]: the flag is set and the listener closed, which panics
    when there is none; the error of closing the store is dropped. *)
Definition close_listener (s : Server) : res Server :=
  match listener s with
  | NoListener => Panic
  | _ => Ok (mkServer (srv_config s) (srv_tables s) (srv_pool s) ListenerClosed true)
  end.
Definition close_pool (s : Server) : Server := set_pool s (PoolClose (srv_pool s)).
Definition close_store (s : Server) : Server :=
  let p := srv_pool s in
  set_pool s (set_mgr p (set_store (p_mgr p) (st_Close (m_kv (p_mgr p))).2)).

Definition Shutdown (s : Server) : res Server :=
  if shutdown s then Ok s else s ← close_listener s; Ok (close_store (close_pool s)).
End code.
Arguments Server _ : clear implicits.

(** * Sessions *)

Section proofs.
Context {S : Type} `{Storage S}.
Variables (fmt_g : Z -> bytes) (err_text : srv_error -> bytes) (fuel : nat).
Implicit Types s : Server S.

Abbreviation run_conn := (handleConn fmt_g err_text fuel).
Abbreviation run_session := (session fmt_g err_text fuel).
Abbreviation run_step := (session_step fmt_g err_text fuel).
Abbreviation run_message := (handleMessage fmt_g err_text fuel).
Abbreviation run_query := (handleQuery fmt_g err_text fuel).

(** C11: with a token configured, a client whose first line is not the token gets
    at most the message that the authentication failed, and nothing of the
    server changes: no query runs and no connection is taken. *)
Theorem authentication_required s input now t1 t2 t3 :
  token s <> [] ->
  (forall data, (conn_read 512 input).1 = Some data -> default [] (first_line data) <> token s) ->
  run_conn s input now t1 t2 t3 = Ok (if (conn_read 512 input).1 is Some _ then [auth_failed] else [], s).
Proof.
  intros Ht Hd. unfold Server.handleConn. rewrite bool_decide_false by done.
  destruct (conn_read 512 input) as [[data|] rest]; cbn [fst] in *; [|done].
  by rewrite bool_decide_false by (by apply Hd).
Qed.

(** The reads of a session that deliver bytes, up to the first failure. *)
Fixpoint delivered (reads : list (option bytes)) : nat :=
  match reads with Some _ :: reads => Datatypes.S (delivered reads) | _ => 0 end.

Lemma session_length reads : forall s pc out s', run_session s pc reads = Ok (out, s') -> List.length out = delivered reads.
Proof.
  induction reads as [|[data|] reads IH]; intros s pc out s'; cbn [Server.session delivered]; try by intros [= <- <-].
  intros ([o s1] & _ & E)%bind_ok_inv. apply bind_ok_inv in E as ([out1 s2] & E1 & [= <- <-]).
  simpl. by rewrite (IH _ _ _ _ E1).
Qed.

(** What a message can change: the database, or the connection of the session. *)
Inductive message_effect s (pc : Z) : Server S -> Prop :=
| effect_none : message_effect s pc s
| effect_db db : message_effect s pc (set_db s db)
| effect_conn c c' m' : heap (srv_pool s) !! pc = Some c -> conn_call (p_mgr (srv_pool s)) c m' c' ->
    message_effect s pc (with_conn s pc c' m').

Lemma handleMessage_effect s pc ty pl o s' : run_message s pc ty pl = Ok (o, s') -> message_effect s pc s'.
Proof.
  unfold Server.handleMessage. intros (c & Hc & E)%bind_ok_inv.
  destruct (heap (srv_pool s) !! pc) as [c0|] eqn:Hpc; [|done]. injection Hc as ->.
  destruct (ty =? MsgQuery).
  { unfold Server.handleQuery in E. apply bind_ok_inv in E as ([r db] & _ & E).
    destruct r as [e|[|l|]]; [by injection E as <- <-; constructor|by injection E as <- <-; constructor|
      |by injection E as <- <-; constructor].
    apply bind_ok_inv in E as ([cols rows] & _ & [= <- <-]). constructor. }
  destruct (ty =? MsgBegin).
  { destruct (ConnBegin _ c 0) as [[e c'] m'] eqn:Eb. injection E as <- <-. eapply effect_conn; [done|]. by eapply call_Begin. }
  destruct (ty =? MsgCommit).
  { apply bind_ok_inv in E as ([[e c'] m'] & Ec & E). injection E as <- <-. eapply effect_conn; [done|]. by eapply call_Commit. }
  destruct (ty =? MsgAbort).
  { destruct (ConnAbort _ c) as [c' m'] eqn:Ea. injection E as <- <-. eapply effect_conn; [done|]. by eapply call_Abort. }
  injection E as <- <-. constructor.
Qed.

Lemma session_step_effect s pc data o s' : run_step s pc data = Ok (o, s') -> message_effect s pc s'.
Proof.
  unfold Server.session_step. intros (m & _ & E)%bind_ok_inv. destruct m as [[ty pl]|].
  - by eapply handleMessage_effect.
  - injection E as <- <-. constructor.
Qed.

Lemma effect_inv s pc s' held : message_effect s pc s' -> pool_inv (srv_pool s) held -> pool_inv (srv_pool s') held.
Proof.
  intros [|db|c c' m' Hc Hcall] HI; [done|by split; apply HI|]. cbn [srv_pool with_conn set_pool].
  eapply inv_update; [done..|]. by eapply conn_call_inUse.
Qed.

Lemma session_inv reads : forall s pc out s' held, run_session s pc reads = Ok (out, s') ->
  pool_inv (srv_pool s) held -> pool_inv (srv_pool s') held.
Proof.
  induction reads as [|[data|] reads IH]; intros s pc out s' held; cbn [Server.session]; try by intros [= <- <-].
  intros ([o s1] & Eh & E)%bind_ok_inv HI. apply bind_ok_inv in E as ([out1 s2] & E1 & [= <- <-]).
  eapply IH; [done|]. by eapply effect_inv; [eapply session_step_effect|].
Qed.

Lemma serve_conn_inv s reads now t1 t2 t3 out s' held : pool_inv (srv_pool s) held ->
  nextID (srv_pool s) < 2 ^ 64 - 1 ->
  serve_conn fmt_g err_text fuel s reads now t1 t2 t3 = Ok (out, s') -> pool_inv (srv_pool s') held.
Proof.
  intros HI Hn. unfold serve_conn. destruct (Acquire (srv_pool s) now t1 t2) as [[[e|pc]| |] p] eqn:Ea; try done.
  - intros [= <- <-]. by rewrite (inv_Acquire_error _ _ _ _ _ _ _ HI Hn Ea).
  - destruct (Acquire_takes _ _ _ _ _ _ _ HI Hn Ea) as [HI1 Hnew].
    intros ([out1 s1] & Es & E)%bind_ok_inv. apply bind_ok_inv in E as (p2 & Er & [= <- <-]).
    pose proof (session_inv _ _ _ _ _ _ Es HI1) as HI2.
    assert (pc ∈ {[pc]} ∪ held) as Hpc by set_solver. apply (pi_held _ _ HI2) in Hpc as (o & Ho2 & Hu).
    destruct (Release_held _ _ pc o t3 HI2 Ho2 Hu) as (p3 & o' & Er2 & HI3 & _). rewrite Er in Er2.
    injection Er2 as <-. cbn [srv_pool set_pool]. by replace held with (({[pc]} ∪ held) ∖ {[pc]}) by set_solver.
Qed.

(** A session gives its connection back, whatever the client sends: when it
    has ended, the connections in use are those that were in use before it, and
    the invariant of the pool holds. *)
Theorem session_releases_connection s input now t1 t2 t3 out s' held :
  pool_inv (srv_pool s) held -> nextID (srv_pool s) < 2 ^ 64 - 1 ->
  run_conn s input now t1 t2 t3 = Ok (out, s') -> pool_inv (srv_pool s') held.
Proof.
  intros HI Hn. unfold Server.handleConn. case_bool_decide; [by apply serve_conn_inv|].
  destruct (conn_read 512 input) as [[data|] rest]; [|by intros [= <- <-]].
  case_bool_decide; [|by intros [= <- <-]]. intros ([out1 s1] & E & [= <- <-])%bind_ok_inv.
  by eapply serve_conn_inv.
Qed.

(** The first read of a run of bytes, and what is left for the later ones. *)
Lemma reads_short d input : len d <= 4096 -> reads_of 4096 (Some d :: input) = Some d :: reads_of 4096 input.
Proof. intros Hd. rewrite reads_conn_read by done. cbn [conn_read]. by rewrite (proj2 (Z.leb_le _ _)). Qed.

Lemma reads_long d more input : len d = 4096 -> more <> [] ->
  reads_of 4096 (Some (d ++ more) :: input) = Some d :: reads_of 4096 (Some more :: input).
Proof.
  intros Hd Hm. rewrite reads_conn_read by done. cbn [conn_read].
  assert (0 < len more) by (destruct more; [done|rewrite len_cons; pose proof (len_nonneg more); lia]).
  rewrite len_app, (proj2 (Z.leb_gt _ _)) by lia. cbn [fst snd].
  assert (Z.to_nat 4096 = List.length d) as -> by (unfold len in Hd; lia).
  by rewrite take_app_length, drop_app_length.
Qed.

Lemma step_message s pc t payload rest : len payload < 4294967291 ->
  run_step s pc (EncodeMessage t payload ++ rest) = run_message s pc t payload.
Proof. intros Hp. unfold Server.session_step. by rewrite DecodeMessage_encoded, bind_ok. Qed.

Lemma step_prefix s pc t payload n : len payload < 4294967291 -> (n < List.length (EncodeMessage t payload))%nat ->
  run_step s pc (take n (EncodeMessage t payload)) = Ok (sendError err_text ErrInvalidMessage, s).
Proof. intros Hp Hn. unfold Server.session_step. by rewrite DecodeMessage_prefix, bind_ok. Qed.

Lemma session_cons s pc data reads : run_session s pc (Some data :: reads) =
  '(o, s') ← run_step s pc data; '(out, s') ← run_session s' pc reads; Ok (o :: out, s').
Proof. done. Qed.

(** C38: the messages of a session and the reads that deliver them, for a payload
    of fewer than 2^32 - 5 bytes; what [conn.Read] gets at once is a run of bytes,
    read in pieces of 4096. A message that fits the first piece of its run is
    handled, the bytes that follow it in that piece are dropped, and bytes beyond
    the piece are read next as if they had arrived by themselves. When only a
    part of a message has arrived, of at most 4096 bytes, it is answered with an
    error, and the rest is read as a message of its own. A message longer than
    4096 bytes is refused even when it arrives in one run, and its bytes from the
    4097th on are read as a message of their own. *)
Theorem message_framing s pc t payload input : len payload < 4294967291 ->
  (forall rest, 5 + len payload + len rest <= 4096 ->
    run_session s pc (reads_of 4096 (Some (EncodeMessage t payload ++ rest) :: input)) =
      ('(o, s') ← run_message s pc t payload;
       '(out, s') ← run_session s' pc (reads_of 4096 input); Ok (o :: out, s'))) /\
  (forall rest more, 5 + len payload + len rest = 4096 -> more <> [] ->
    run_session s pc (reads_of 4096 (Some ((EncodeMessage t payload ++ rest) ++ more) :: input)) =
      ('(o, s') ← run_message s pc t payload;
       '(out, s') ← run_session s' pc (reads_of 4096 (Some more :: input)); Ok (o :: out, s'))) /\
  (forall a b more, b <> [] -> a ++ b = EncodeMessage t payload -> len a <= 4096 ->
    run_session s pc (reads_of 4096 (Some a :: Some (b ++ more) :: input)) =
      ('(out, s') ← run_session s pc (reads_of 4096 (Some (b ++ more) :: input));
       Ok (sendError err_text ErrInvalidMessage :: out, s'))) /\
  (forall pre msg more, payload = pre ++ msg -> len pre = 4091 -> msg <> [] ->
    run_session s pc (reads_of 4096 (Some (EncodeMessage t payload ++ more) :: input)) =
      ('(out, s') ← run_session s pc (reads_of 4096 (Some (msg ++ more) :: input));
       Ok (sendError err_text ErrInvalidMessage :: out, s'))).
Proof.
  intros Hp.
  assert (forall a b, b <> [] -> a ++ b = EncodeMessage t payload ->
    run_step s pc a = Ok (sendError err_text ErrInvalidMessage, s)) as Hpart.
  { intros a b Hb Hab. rewrite <-(take_app_length a b), Hab. apply step_prefix; [done|].
    rewrite <-Hab, length_app. destruct b; [done|simpl; lia]. }
  split_and!.
  - intros rest Hr. rewrite reads_short by (rewrite len_app, len_EncodeMessage; lia). by rewrite session_cons, step_message.
  - intros rest more Hr Hm. rewrite reads_long by (done || rewrite len_app, len_EncodeMessage; lia).
    by rewrite session_cons, step_message.
  - intros a b more Hb Hab Hla. rewrite (reads_short a) by done. by rewrite session_cons, (Hpart a b), bind_ok.
  - intros pre msg more Epay Hpre Hm. set (m := EncodeMessage t payload) in *.
    assert (len m = 4096 + len msg) as Hl by (unfold m; rewrite len_EncodeMessage, Epay, len_app; lia).
    assert (drop (Z.to_nat 4096) m = msg) as Hd by (unfold m; rewrite Epay; apply drop_EncodeMessage; lia).
    assert (take (Z.to_nat 4096) m ++ msg = m) as Htd by (rewrite <-Hd at 1; apply take_drop).
    rewrite <-Htd at 1. rewrite <-app_assoc, reads_long; [|unfold len in *; rewrite length_take; lia|by destruct msg].
    by rewrite session_cons, (Hpart _ msg), bind_ok.
Qed.

(** A query that selects a row takes the server down: a record holds fewer
    values than names, and printing it reads past the end of the values. *)
Theorem selected_row_panics s query d vs l db :
  table_ok d -> len vs < len (t_Cols d) ->
  ExecuteRaw fuel (srv_db s) query = Ok (inr (RRows (row_rec d vs :: l)), db) -> run_query s query = Panic.
Proof.
  intros Hd Hl E. unfold Server.handleQuery. rewrite E, bind_ok. cbn [result_rows row_rec r_Cols r_Vals].
  assert (forall cols i row, 0 <= i -> i <= len vs -> len vs < i + len cols ->
    row_strings fmt_g cols vs i row = Panic) as Hr.
  { induction cols as [|c cols IH]; intros i row H0 H1 H2; [rewrite len_nil in H2; lia|]. rewrite len_cons in H2.
    cbn [row_strings]. unfold index. rewrite (proj2 (Z.leb_le _ _)) by lia.
    destruct (vs !! Z.to_nat i) eqn:Ev; [|done]. apply lookup_lt_Some in Ev. cbn [of_option]. rewrite bind_ok.
    apply IH; unfold len in *; lia. }
  rewrite Hr; [done|lia| |].
  - pose proof (len_nonneg vs). lia.
  - unfold names, len in *. rewrite length_fmap. lia.
Qed.
End proofs.

(** * Runs *)

Definition no_g (u : Z) : bytes := [].
Definition err_code (e : srv_error) : bytes := [69].
Definition config0 (token : bytes) : SrvConfig := mkSrvConfig (str ":8080") (str "./data.db") SyncFull token 10 [] [].
Definition server0 : Server mapStore := new_server (config0 (str "secret")) (mkMap ∅) (fun _ => (0, 0)).
Definition open_server : Server mapStore := new_server (config0 []) (mkMap ∅) (fun _ => (0, 0)).

Lemma authentication_required_witness :
  handleConn no_g err_code 10 server0 [Some (str "guess" ++ [10]); Some (EncodeMessage MsgQuery (str "SELECT * FROM t"))] 1 1 1 2
    = Ok ([auth_failed], server0).
Proof.
  apply (authentication_required no_g err_code 10 server0
    [Some (str "guess" ++ [10]); Some (EncodeMessage MsgQuery (str "SELECT * FROM t"))] 1 1 1 2).
  - discriminate.
  - intros data [= <-]. discriminate.
Defined.

(** A session: the token is right, a table is made, a message is no message. *)
Definition reads0 : list (option bytes) :=
  [Some (str "secret" ++ [10]); Some (EncodeMessage MsgQuery (str create_users)); Some [1; 2]; None].

Lemma session_releases_connection_witness : exists out s,
  handleConn no_g err_code 10 server0 reads0 1 1 1 2 = Ok (out, s) /\ pool_inv (srv_pool s) ∅ /\
  List.length out = 3%nat.
Proof.
  destruct (handleConn no_g err_code 10 server0 reads0 1 1 1 2) as [[out s]| |] eqn:E;
    [|vm_compute in E; discriminate E|vm_compute in E; discriminate E].
  exists out, s. split; [reflexivity|]. split.
  - apply (session_releases_connection no_g err_code 10 server0 reads0 1 1 1 2 out s ∅).
    + by apply NewPool_inv.
    + reflexivity.
    + exact E.
  - apply (f_equal (fun r => match r with Ok (o, _) => List.length o | _ => 0%nat end)) in E.
    vm_compute in E. symmetry. exact E.
Defined.

(** A query of 4091 spaces that carries a second message: the statement in it is run. *)
Definition smuggled : bytes := replicate 4091 32 ++ EncodeMessage MsgQuery (str create_users).

Lemma message_framing_witness :
  ('(out, s) ← session no_g err_code 10 open_server 1 (reads_of 4096 [Some (EncodeMessage MsgQuery smuggled)]);
   Ok (out, names ∘ t_Cols <$> srv_tables s !! users)) =
  Ok ([sendError err_code ErrInvalidMessage; sendReady], Some (names user_cols)).
Proof.
  destruct (message_framing no_g err_code 10 open_server 1 MsgQuery smuggled []) as (_ & _ & _ & H).
  - vm_compute. reflexivity.
  - rewrite <-(app_nil_r (EncodeMessage MsgQuery smuggled)).
    rewrite (H (replicate 4091 32) (EncodeMessage MsgQuery (str create_users)) []).
    + vm_compute. reflexivity.
    + reflexivity.
    + reflexivity.
    + discriminate.
Defined.

Definition server_with (M : gmap bytes bytes) : Server mapStore :=
  mkServer (config0 []) users_tables (NewPool (mkMap M) (mkConf 10 2 0 0 SessionMode) (fun _ => (0, 0))) Listening false.

Lemma selected_row_panics_witness :
  handleQuery no_g err_code 10 (server_with (kv_map two_rows)) (str "SELECT * FROM users") = Panic.
Proof.
  destruct (ExecuteRaw 10 (srv_db (server_with (kv_map two_rows))) (str "SELECT * FROM users")) as [[r db]| |] eqn:E;
    [|vm_compute in E; discriminate E|vm_compute in E; discriminate E].
  assert (r = inr (RRows [full [Bytes (str "Alice"); Int64 30]; full [Bytes (str "Bob"); Int64 25]])) as Er.
  { apply (f_equal (fun x => match x with Ok (r, _) => r | _ => inr RNone end)) in E. rewrite <-E.
    vm_compute. reflexivity. }
  rewrite Er in E.
  apply (selected_row_panics no_g err_code 10 (server_with (kv_map two_rows)) (str "SELECT * FROM users")
    (table users []) [Bytes (str "Alice"); Int64 30] [full [Bytes (str "Bob"); Int64 25]] db).
  - exact users_ok.
  - reflexivity.
  - exact E.
Defined.

(** A transaction does not cover the queries of its session: a row inserted
    between the begin and the abort of a transaction is in the store afterwards. *)
Theorem abort_keeps_rows :
  ('(out, s) ← handleConn no_g err_code 10 (server_with ∅)
     [Some (EncodeMessage MsgBegin []); Some (EncodeMessage MsgQuery (str insert_alice)); Some (EncodeMessage MsgAbort [])] 1 1 1 2;
   '(found, _) ← Relational.Get (srv_db s) users (by_id 1); Ok (out, found)) =
  Ok ([sendReady; sendReady; sendReady], inr true).
Proof. vm_compute. reflexivity. Qed.
