(* ===== verification/ServerLoop.v ===== *)
(** The running server: [NewServer], [Start], [serve] and [Shutdown] of
    src/internal/server/server.go, with a session for each client.

    The accept loop, the goroutine that waits for a signal and the goroutines of
    the sessions are interleaved: the state holds the server and where each of
    them stands, and [sys_step] lets one of them go on. A step of a session is
    one read with what it causes, up to the next read. The mutexes of the pool
    and of the server make [Acquire], [Release] and the steps of [Shutdown]
    atomic; that a message is handled from its read to its answer without a step
    of another session in between is an assumption of the model: the code runs
    the queries of two sessions at the same time and does not lock the tables.
    The goroutines live as long as the process. svacara-server ends when [Start]
    returns, so there a run ends with the return of the accept loop; in another
    program that calls [Start] the sessions go on. *)
From Stdlib Require Import Ascii String.
From S2P Require Import Prelude Keys KVList Encoding KV Protocol Storage Tx Shard Pool Relational RelSpec Ast Parser ParserSpec.
From S2P Require Import Executor Server.
#[local] Open Scope Z_scope.

(** * Starting *)

Inductive start_error := ErrOpenDB (e : shard_error) | ErrTlsCert | ErrListen.

Section start.
Context {S : Type} `{Storage S}.

(** [NewServer]; [OpenDB] reports no error. *)
Definition NewServer (kvOpen : bytes -> SyncMode -> res (kv_error + S)) (stat : option bool)
    (entries : option (list (bytes * bool))) (cfg : SrvConfig) (clock : nat -> Z * Z)
    : res (start_error + Server (Shard.DB S)) :=
  r ← Shard.Open kvOpen (DBPath cfg) (cfg_SyncMode cfg) stat entries;
  match r with
  | inl e => Ok (inl (ErrOpenDB e))
  | inr store => Ok (inr (new_server cfg store clock))
  end.

Definition set_listener (s : Server S) (l : Listener) : Server S :=
  mkServer (srv_config s) (srv_tables s) (srv_pool s) l (shutdown s).

(** [Start] up to the call of [serve]: [keyPair] and [listen] tell whether
    [LoadX509KeyPair] and [Listen] succeed. With TLS the error of [Listen] is
    assigned to the [err] of the inner block, and the listener is [nil]. *)
Definition Start (keyPair listen : bool) (s : Server S) : start_error + Server S :=
  let ln := if listen then Listening else NoListener in
  if negb (bool_decide (TLSCert (srv_config s) = [])) && negb (bool_decide (TLSKey (srv_config s) = [])) then
    if negb keyPair then inl ErrTlsCert else inr (set_listener s ln)
  else if negb listen then inl ErrListen
  else inr (set_listener s ln).
End start.

(** * The goroutines *)

(** Where a session stands: before the token, before [Acquire], in its loop, ended. *)
Inductive phase := PAuth | PAcquire | PServing (pc : Z) | PDone.

(** A session with what it has read and written. *)
Record client := mkClient { cl_phase : phase; cl_reads : list (option bytes); cl_out : list bytes }.

(** The accept loop runs, has returned, or the process is gone by a panic. *)
Inductive serving := Accepting | Returned | Crashed.

(** The goroutine of the signal: what it has done last. *)
Inductive signal := SigWait | SigListener | SigPool | SigStore | SigCancelled.

#[global] Instance serving_eq_dec : EqDecision serving.
Proof. solve_decision. Defined.
#[global] Instance signal_eq_dec : EqDecision signal.
Proof. solve_decision. Defined.

Inductive event := EvRead (r : option bytes) (t : Z) | EvAcquire (now t1 t2 : Z).

Section system.
Context {S : Type} `{Storage S}.
Variables (fmt_g : Z -> bytes) (err_text : srv_error -> bytes) (fuel : nat).
Implicit Types s : Server S.

(** [go s.handleConn(conn)]. *)
Definition new_client s : client := mkClient (if bool_decide (token s = []) then PAcquire else PAuth) [] [].

Definition cl_go (c : client) (p : phase) (r : list (option bytes)) (o : list bytes) : client :=
  mkClient p (cl_reads c ++ r) (cl_out c ++ o).

(** One step of [handleConn]; [None] when the event is not the next one. *)
Definition client_step s (c : client) (e : event) : option (res (client * Server S)) :=
  match cl_phase c, e with
  | PAuth, EvRead None _ => Some (Ok (cl_go c PDone [None] [], s))
  | PAuth, EvRead (Some data) _ =>
      if negb (len data <=? 512) then None
      else if bool_decide (default [] (first_line data) = token s)
      then Some (Ok (cl_go c PAcquire [Some data] [authenticated], s))
      else Some (Ok (cl_go c PDone [Some data] [auth_failed], s))
  | PAcquire, EvAcquire now t1 t2 =>
      Some match Acquire (srv_pool s) now t1 t2 with
        | (Ok (inl e), p) => Ok (cl_go c PDone [] [sendError err_text (ErrPool e)], set_pool s p)
        | (Ok (inr pc), p) => Ok (cl_go c (PServing pc) [] [], set_pool s p)
        | (Panic, _) => Panic
        | (OutOfFuel, _) => OutOfFuel
        end
  | PServing pc, EvRead None t =>
      Some (p ← Release (srv_pool s) pc t; Ok (cl_go c PDone [None] [], set_pool s p))
  | PServing pc, EvRead (Some data) _ =>
      if negb (len data <=? 4096) then None
      else Some ('(o, s) ← session_step fmt_g err_text fuel s pc data;
                 Ok (cl_go c (PServing pc) [Some data] [o], s))
  | _, _ => None
  end.

(** One step of the goroutine of [serve]: the signal arrives and [Shutdown] runs,
    then the context is cancelled. *)
Definition signal_step s (g : signal) : option (res (Server S * signal)) :=
  match g with
  | SigWait => Some (if shutdown s then Ok (s, SigStore) else s ← close_listener s; Ok (s, SigListener))
  | SigListener => Some (Ok (close_pool s, SigPool))
  | SigPool => Some (Ok (close_store s, SigStore))
  | SigStore => Some (Ok (s, SigCancelled))
  | SigCancelled => None
  end.

Record Sys := mkSys {
  sys_srv : Server S; sys_clients : gmap nat client; sys_serve : serving; sys_sig : signal }.

Definition set_serve (x : Sys) (v : serving) : Sys := mkSys (sys_srv x) (sys_clients x) v (sys_sig x).

(** [serve] begins. *)
Definition sys0 s : Sys := mkSys s ∅ Accepting SigWait.

(** A failed [Accept] ends the loop when the context is cancelled. A panic takes
    the process down: in [Accept] and in [Shutdown] on a [nil] listener, and in a
    session. A message is handled in one step. Fewer than 2^64 connections are
    ever made. *)
Inductive sys_step : Sys -> Sys -> Prop :=
| step_accept x n :
    sys_serve x = Accepting -> listener (sys_srv x) = Listening -> sys_clients x !! n = None ->
    sys_step x (mkSys (sys_srv x) (<[n := new_client (sys_srv x)]> (sys_clients x)) Accepting (sys_sig x))
| step_accept_error x :
    sys_serve x = Accepting -> listener (sys_srv x) <> NoListener ->
    sys_step x (set_serve x (if decide (sys_sig x = SigCancelled) then Returned else Accepting))
| step_accept_nil x :
    sys_serve x = Accepting -> listener (sys_srv x) = NoListener -> sys_step x (set_serve x Crashed)
| step_client x n c e c' s' :
    sys_serve x <> Crashed -> sys_clients x !! n = Some c ->
    (cl_phase c = PAcquire -> nextID (srv_pool (sys_srv x)) < 2 ^ 64 - 1) ->
    client_step (sys_srv x) c e = Some (Ok (c', s')) ->
    sys_step x (mkSys s' (<[n := c']> (sys_clients x)) (sys_serve x) (sys_sig x))
| step_panic x n c e :
    sys_serve x <> Crashed -> sys_clients x !! n = Some c -> client_step (sys_srv x) c e = Some Panic ->
    sys_step x (set_serve x Crashed)
| step_signal x s' g' :
    sys_serve x <> Crashed -> signal_step (sys_srv x) (sys_sig x) = Some (Ok (s', g')) ->
    sys_step x (mkSys s' (sys_clients x) (sys_serve x) g')
| step_signal_panic x :
    sys_serve x <> Crashed -> signal_step (sys_srv x) (sys_sig x) = Some Panic ->
    sys_step x (set_serve x Crashed).

(** The signal's goroutine runs [Shutdown]: to its end when there is a listener,
    into the panic when there is none. *)
Lemma signal_runs_Shutdown s : shutdown s = false ->
  (forall s', Shutdown s = Ok s' -> exists s1 s2, signal_step s SigWait = Some (Ok (s1, SigListener)) /\
    signal_step s1 SigListener = Some (Ok (s2, SigPool)) /\ signal_step s2 SigPool = Some (Ok (s', SigStore))) /\
  (Shutdown s = Panic <-> signal_step s SigWait = Some Panic).
Proof.
  intros Hs. unfold signal_step, Shutdown. rewrite Hs. destruct (close_listener s) as [s1| |]; split; try done.
  intros s' [= <-]. by eexists _, _.
Qed.

(** What a step of the signal has done. *)
Lemma signal_step_wait s s' g' : signal_step s SigWait = Some (Ok (s', g')) ->
  shutdown s = true /\ s' = s /\ g' = SigStore \/
  shutdown s = false /\ g' = SigListener /\ listener s <> NoListener /\
  s' = mkServer (srv_config s) (srv_tables s) (srv_pool s) ListenerClosed true.
Proof.
  cbn [signal_step]. intros E. apply (f_equal (default OutOfFuel)) in E. cbn in E.
  destruct (shutdown s); [by injection E as <- <-; left|]. unfold close_listener in E.
  destruct (listener s); [done|..]; injection E as <- <-; by right.
Qed.

(** * The invariant *)

Definition serves (cs : gmap nat client) (n : nat) (pc : Z) : Prop :=
  exists c, cs !! n = Some c /\ cl_phase c = PServing pc.

(** The first read of the client began with the line of the token. *)
Definition presented (tok : bytes) (c : client) : Prop :=
  exists data rest, cl_reads c = Some data :: rest /\ default [] (first_line data) = tok.

(** What a session has done, by where it stands: one message for each read, and
    without the token none but the refusal. *)
Definition client_ok (tok : bytes) (c : client) : Prop :=
  match cl_phase c with
  | PAuth => tok <> [] /\ cl_reads c = [] /\ cl_out c = []
  | PAcquire | PServing _ => (tok <> [] -> presented tok c) /\ List.length (cl_out c) = List.length (cl_reads c)
  | PDone =>
      (tok <> [] -> presented tok c \/ cl_out c = [] \/ cl_out c = [auth_failed]) /\
      (List.length (cl_out c) <= Datatypes.S (List.length (cl_reads c)))%nat
  end.

(** How far the shutdown has come, and what has been closed. *)
Definition signal_ok (x : Sys) : Prop :=
  match sys_sig x with
  | SigWait => shutdown (sys_srv x) = false
  | SigListener => shutdown (sys_srv x) = true /\ listener (sys_srv x) = ListenerClosed
  | _ => shutdown (sys_srv x) = true /\ listener (sys_srv x) = ListenerClosed /\ p_closed (srv_pool (sys_srv x)) = true
  end.

Record sys_inv (tok : bytes) (x : Sys) : Prop := {
  si_held : exists held, pool_inv (srv_pool (sys_srv x)) held /\
    forall pc, pc ∈ held <-> exists n, serves (sys_clients x) n pc;
  si_distinct : forall n m pc, serves (sys_clients x) n pc -> serves (sys_clients x) m pc -> n = m;
  si_token : token (sys_srv x) = tok;
  si_clients : map_Forall (fun _ => client_ok tok) (sys_clients x);
  si_signal : signal_ok x;
  si_returned : sys_serve x = Returned -> sys_sig x = SigCancelled }.

(** What the steps of a session leave alone. *)
Definition same_frame s s' : Prop :=
  srv_config s' = srv_config s /\ listener s' = listener s /\ shutdown s' = shutdown s /\
  (p_closed (srv_pool s) = true -> p_closed (srv_pool s') = true).

Lemma effect_frame s pc s' : message_effect s pc s' -> same_frame s s'.
Proof. by intros [|db|c c' m' Hc Hcall]. Qed.

Lemma Release_closed (p : Pool S) c t p' : Release p c t = Ok p' -> p_closed p' = p_closed p.
Proof.
  unfold Release. intros (o & _ & E)%bind_ok_inv. destruct (negb (inUse o)); [by injection E as <-|].
  destruct (c_tx o) as [tx|]; [|by injection E as <-]. by destruct (_ =? _); injection E as <-.
Qed.

Lemma Acquire_closed (p : Pool S) now t1 t2 : p_closed p = true ->
  Acquire p now t1 t2 = (Ok (inl ErrPoolClosed), p).
Proof. intros Hc. unfold Acquire. by rewrite Hc. Qed.

(** What one step does to the server, as the sessions' use of the pool sees it. *)
Inductive step_effect s (c c' : client) s' : Prop :=
| eff_same : (forall pc, cl_phase c <> PServing pc) -> (forall pc, cl_phase c' <> PServing pc) -> s' = s ->
    step_effect s c c' s'
| eff_acquire now t1 t2 pc p : cl_phase c = PAcquire -> cl_phase c' = PServing pc ->
    Acquire (srv_pool s) now t1 t2 = (Ok (inr pc), p) -> s' = set_pool s p -> step_effect s c c' s'
| eff_refused now t1 t2 e p : cl_phase c = PAcquire -> cl_phase c' = PDone ->
    Acquire (srv_pool s) now t1 t2 = (Ok (inl e), p) -> s' = set_pool s p -> step_effect s c c' s'
| eff_message pc : cl_phase c = PServing pc -> cl_phase c' = PServing pc -> message_effect s pc s' ->
    step_effect s c c' s'
| eff_release pc t p : cl_phase c = PServing pc -> cl_phase c' = PDone ->
    Release (srv_pool s) pc t = Ok p -> s' = set_pool s p -> step_effect s c c' s'.

Lemma presented_go tok c p r o : presented tok c -> presented tok (cl_go c p r o).
Proof. intros (d & rest & E & Hd). exists d, (rest ++ r). cbn. by rewrite E. Qed.

(** A step after the authentication. *)
Lemma client_ok_go tok c p r o : (tok <> [] -> presented tok c) -> List.length (cl_out c) = List.length (cl_reads c) ->
  match p with
  | PAuth => False
  | PDone => (List.length o <= Datatypes.S (List.length r))%nat
  | _ => List.length o = List.length r
  end -> client_ok tok (cl_go c p r o).
Proof.
  intros Hp Hl Hr. pose proof (fun Hne => presented_go tok c p r o (Hp Hne)).
  destruct p; unfold client_ok; cbn [cl_phase cl_go cl_reads cl_out] in *; rewrite ?length_app; try done;
    (split; [auto|lia]).
Qed.

Lemma client_step_effect s c e c' s' : client_step s c e = Some (Ok (c', s')) ->
  step_effect s c c' s' /\ (client_ok (token s) c -> client_ok (token s) c').
Proof.
  unfold client_step, client_ok at 1. destruct (cl_phase c) as [| |pc|] eqn:Hc, e as [[data|] t|now t1 t2]; try done.
  - destruct (negb _); [done|]. case_bool_decide as Ht; intros [= <- <-];
      (split; [apply eff_same; [by rewrite Hc|done|done]|]); intros (H1 & H2 & H3); unfold client_ok; cbn; rewrite H2, H3.
    + split; [|done]. intros _. exists data, []. cbn. by rewrite H2.
    + split; [auto|simpl; lia].
  - intros [= <- <-]. split; [apply eff_same; [by rewrite Hc|done|done]|]. intros (H1 & H2 & H3).
    unfold client_ok; cbn; rewrite H2, H3. split; [auto|simpl; lia].
  - destruct (Acquire _ _ _ _) as [[[e|pc]| |] p] eqn:Ea; try done; intros [= <- <-];
      (split; [by econstructor|]); intros [H1 H2]; apply client_ok_go; simpl; (done || lia).
  - destruct (negb _); [done|]. intros E. apply (f_equal (default OutOfFuel)) in E. cbn in E.
    apply bind_ok_inv in E as ([o s1] & Es & [= <- <-]).
    split; [apply (eff_message _ _ _ _ pc); [done|done|by eapply session_step_effect]|].
    intros [H1 H2]; by apply client_ok_go.
  - intros E. apply (f_equal (default OutOfFuel)) in E. cbn in E. apply bind_ok_inv in E as (p & Er & [= <- <-]).
    split; [by econstructor|]. intros [H1 H2]; apply client_ok_go; simpl; (done || lia).
Qed.

Lemma step_effect_frame s c c' s' : step_effect s c c' s' -> same_frame s s'.
Proof.
  intros [_ _ ->|now t1 t2 pc p _ _ Ea ->|now t1 t2 e p _ _ Ea ->|pc _ _ Hm|pc t p _ _ Er ->].
  - by split_and!.
  - split_and!; try done. intros Hcl. rewrite Acquire_closed in Ea by done. done.
  - split_and!; try done. intros Hcl. rewrite Acquire_closed in Ea by done. by injection Ea as _ <-.
  - by eapply effect_frame.
  - split_and!; try done. intros Hcl. cbn. by rewrite (Release_closed _ _ _ _ Er).
Qed.

(** The connections in use after a step of session [n]. *)
Lemma step_effect_held s c c' s' cs n held : step_effect s c c' s' -> cs !! n = Some c ->
  (cl_phase c = PAcquire -> nextID (srv_pool s) < 2 ^ 64 - 1) -> pool_inv (srv_pool s) held ->
  (forall pc, pc ∈ held <-> exists m, serves cs m pc) ->
  (forall m m' pc, serves cs m pc -> serves cs m' pc -> m = m') ->
  (exists held', pool_inv (srv_pool s') held' /\ forall pc, pc ∈ held' <-> exists m, serves (<[n := c']> cs) m pc) /\
  (forall m m' pc, serves (<[n := c']> cs) m pc -> serves (<[n := c']> cs) m' pc -> m = m').
Proof.
  intros He Hn Hid HI Hheld Hdist.
  assert (forall m pc, serves (<[n := c']> cs) m pc <-> (m = n /\ cl_phase c' = PServing pc) \/ (m <> n /\ serves cs m pc)) as Hs.
  { intros m pc. unfold serves. destruct (decide (m = n)) as [->|Hne].
    - rewrite lookup_insert_eq. split; [intros (x & [= <-] & ?); by left|intros [[_ ?]|[? _]]; [eauto|done]].
    - rewrite lookup_insert_ne by done. split; [auto|]. by intros [[? _]|[_ ?]]. }
  assert (forall pc, serves cs n pc <-> cl_phase c = PServing pc) as Hsn.
  { intros pc. unfold serves. rewrite Hn. split; [by intros (x & [= <-] & ?)|by exists c]. }
  assert ((forall pc, cl_phase c' <> PServing pc) -> forall m m' pc, serves (<[n := c']> cs) m pc ->
    serves (<[n := c']> cs) m' pc -> m = m') as Hleft.
  { intros H0 m m' q. rewrite !Hs. intros [[-> E]|[Hne Hq]] [[-> E']|[Hne' Hq']];
      [done|by apply H0 in E|by apply H0 in E'|by eapply Hdist]. }
  destruct He as [H1 H2 ->|now t1 t2 pc p H1 H2 Ea ->|now t1 t2 e p H1 H2 Ea ->|pc H1 H2 Hm|pc t p H1 H2 Er ->].
  - split; [exists held; split; [done|]|by apply Hleft]. intros pc. rewrite Hheld. setoid_rewrite Hs. split.
    + intros [m Hm]. exists m. right. split; [|done]. intros ->. apply Hsn in Hm. by eapply H1.
    + intros (m & [[-> E]|[_ Hm]]); [by apply H2 in E|by exists m].
  - destruct (Acquire_takes _ _ _ _ _ _ _ HI (Hid H1) Ea) as [HI' Hnew].
    split; [exists ({[pc]} ∪ held); split; [done|]|].
    + intros q. rewrite elem_of_union, elem_of_singleton, Hheld. setoid_rewrite Hs. split.
      * intros [->|[m Hm]]; [exists n; auto|]. exists m. right. split; [|done]. intros ->. apply Hsn in Hm. congruence.
      * intros (m & [[-> E]|[_ Hm]]); [left; congruence|right; by exists m].
    + intros m m' q. rewrite !Hs. intros [[-> E]|[Hne Hm]] [[-> E']|[Hne' Hm']]; try done; [..|by eapply Hdist];
        exfalso; apply Hnew, Hheld; assert (q = pc) as <- by congruence; eauto.
  - rewrite (inv_Acquire_error _ _ _ _ _ _ _ HI (Hid H1) Ea). split; [exists held; split; [done|]|by apply Hleft; rewrite H2].
    intros q. rewrite Hheld. setoid_rewrite Hs. split.
    + intros [m Hm]. exists m. right. split; [|done]. intros ->. apply Hsn in Hm. congruence.
    + intros (m & [[-> E]|[_ Hm]]); [congruence|by exists m].
  - split; [exists held; split; [by eapply effect_inv|]|].
    + intros q. rewrite Hheld. setoid_rewrite Hs. split.
      * intros [m Hq]. exists m. destruct (decide (m = n)) as [->|]; [left|by right]. apply Hsn in Hq. split; congruence.
      * intros (m & [[-> E]|[_ Hq]]); [exists n; apply Hsn; congruence|by exists m].
    + assert (serves cs n pc) as Hpc by (by apply Hsn).
      intros m m' q. rewrite !Hs. intros [[-> E]|[Hne Hq]] [[-> E']|[Hne' Hq']]; try done; [..|by eapply Hdist];
        (assert (q = pc) as -> by congruence); (exfalso; eauto).
  - assert (pc ∈ held) as Hpc by (apply Hheld; exists n; by apply Hsn).
    apply (pi_held _ _ HI) in Hpc as (o & Ho & Hu).
    destruct (Release_held _ _ pc o t HI Ho Hu) as (p2 & o' & Er2 & HI2 & _). rewrite Er in Er2. injection Er2 as <-.
    split; [exists (held ∖ {[pc]}); split; [done|]|by apply Hleft; rewrite H2].
    intros q. rewrite elem_of_difference, elem_of_singleton, Hheld. setoid_rewrite Hs. split.
    + intros [[m Hq] Hne]. exists m. right. split; [|done]. intros ->. apply Hsn in Hq. congruence.
    + intros (m & [[-> E]|[Hne Hq]]); [congruence|]. split; [by exists m|]. intros ->.
      apply Hne. eapply Hdist; [done|]. by apply Hsn.
Qed.

(** The steps of the signal keep the pool's invariant and the configuration. *)
Lemma signal_step_keeps s g s' g' held : signal_step s g = Some (Ok (s', g')) -> pool_inv (srv_pool s) held ->
  pool_inv (srv_pool s') held /\ token s' = token s.
Proof.
  intros E HI. destruct g; [|cbn [signal_step] in E; try done..].
  - by apply signal_step_wait in E as [(_ & -> & _)|(_ & _ & _ & ->)].
  - injection E as <- <-. split; [|done]. apply (pool_step_inv (srv_pool s, held) (PoolClose (srv_pool s), held)); [constructor|done].
  - injection E as <- <-. split; [|done]. by split; apply HI.
  - by injection E as <- <-.
Qed.

(** The steps that are left to the goroutine of the signal. *)
Definition signal_left (g : signal) : nat :=
  match g with SigWait => 4 | SigListener => 3 | SigPool => 2 | SigStore => 1 | SigCancelled => 0 end.

Lemma signal_step_ok x s' g' cs v : signal_ok x -> signal_step (sys_srv x) (sys_sig x) = Some (Ok (s', g')) ->
  signal_ok (mkSys s' cs v g') /\ signal_left (sys_sig x) = Datatypes.S (signal_left g') /\
  (listener (sys_srv x) <> NoListener -> listener s' <> NoListener).
Proof.
  unfold signal_ok. cbn [sys_srv sys_sig]. intros Hok E. destruct (sys_sig x); [|cbn [signal_step] in E; try done..].
  - apply signal_step_wait in E as [(Ht & _)|(_ & -> & _ & ->)]; [congruence|done].
  - destruct Hok as [H1 H2]. by injection E as <- <-.
  - destruct Hok as (H1 & H2 & H3). by injection E as <- <-.
  - destruct Hok as (H1 & H2 & H3). by injection E as <- <-.
Qed.

Lemma frame_signal x s' cs : same_frame (sys_srv x) s' -> signal_ok x -> signal_ok (mkSys s' cs (sys_serve x) (sys_sig x)).
Proof.
  intros (_ & E1 & E2 & E3). unfold signal_ok. cbn [sys_sig sys_srv]. rewrite E1, E2. destruct (sys_sig x); naive_solver.
Qed.

Lemma sys_step_inv tok x y : sys_step x y -> sys_inv tok x -> sys_inv tok y.
Proof.
  intros Hs [(held & HI & Hheld) Hd Ht Hc Hg Hr].
  destruct Hs as [x n Ha Hl Hn|x Ha Hl|x Ha Hl|x n c e c' s' Ha Hn Hid E|x n c e Ha Hn E|x s' g' Ha E|x Ha E].
  - assert (forall m pc, serves (<[n := new_client (sys_srv x)]> (sys_clients x)) m pc <-> serves (sys_clients x) m pc) as Hs.
    { intros m pc. unfold serves. destruct (decide (m = n)) as [->|Hne]; [|by rewrite lookup_insert_ne].
      rewrite lookup_insert_eq, Hn. split; [|by intros (c & ? & _)]. intros (c & [= <-] & E). revert E.
      unfold new_client. by case_bool_decide. }
    split; cbn [sys_srv sys_clients sys_serve sys_sig]; try done.
    + exists held. split; [done|]. by setoid_rewrite Hs.
    + intros m m' pc. rewrite !Hs. apply Hd.
    + apply map_Forall_insert_2; [|done]. rewrite <-Ht. unfold new_client, client_ok. by case_bool_decide.
  - split; cbn [set_serve sys_srv sys_clients sys_serve sys_sig]; try done; [by exists held|]. by case_decide.
  - split; cbn [set_serve sys_srv sys_clients sys_serve sys_sig]; try done. by exists held.
  - destruct (client_step_effect _ _ _ _ _ E) as [He Hok].
    destruct (step_effect_held _ _ _ _ _ _ _ He Hn Hid HI Hheld Hd) as [H1 H2].
    pose proof (step_effect_frame _ _ _ _ He) as Hf.
    split; cbn [sys_srv sys_clients sys_serve sys_sig]; try done.
    + unfold token in *. by rewrite (proj1 Hf).
    + apply map_Forall_insert_2; [|done]. rewrite <-Ht. apply Hok. rewrite Ht. by apply (Hc n).
    + by apply (frame_signal x).
  - split; cbn [set_serve sys_srv sys_clients sys_serve sys_sig]; try done. by exists held.
  - destruct (signal_step_keeps _ _ _ _ _ E HI) as [HI' Ht']. split; cbn [sys_srv sys_clients sys_serve sys_sig]; try done.
    + by exists held.
    + congruence.
    + by eapply signal_step_ok.
    + intros Hret. rewrite (Hr Hret) in E. done.
  - split; cbn [set_serve sys_srv sys_clients sys_serve sys_sig]; try done. by exists held.
Qed.

Lemma sys_inv_reachable tok x y : rtc sys_step x y -> sys_inv tok x -> sys_inv tok y.
Proof. induction 1; [done|]. eauto using sys_step_inv. Qed.

Lemma sys_inv_start cfg (store : S) clock keyPair listen s :
  Start keyPair listen (new_server cfg store clock) = inr s -> sys_inv (AuthToken cfg) (sys0 s).
Proof.
  intros E. assert (exists l, s = set_listener (new_server cfg store clock) l) as [l ->].
  { unfold Start in E. destruct (_ && _); [destruct (negb keyPair)|destruct (negb listen)]; try done; injection E as <-; eauto. }
  split; cbn [sys0 sys_srv sys_clients sys_serve sys_sig]; try done.
  - exists ∅. split; [by apply NewPool_inv|]. intros pc. split; [set_solver|]. intros (n & c & Hc & _). by rewrite lookup_empty in Hc.
  - intros n m pc (c & Hc & _). by rewrite lookup_empty in Hc.
Qed.

(** C9: whatever the clients send and however the sessions, the accept loop and
    the signal are interleaved, in every state a started server reaches: the
    connections in use are exactly those of the running sessions, no two
    sessions share one, each read of a session was answered by one message, a
    session that has not sent the token has got at most the refusal, and the
    accept loop returns only after the listener and the pool have been closed. *)
Theorem server_invariant cfg (store : S) clock keyPair listen s x :
  Start keyPair listen (new_server cfg store clock) = inr s -> rtc sys_step (sys0 s) x ->
  sys_inv (AuthToken cfg) x.
Proof. intros E Hr. by eapply sys_inv_reachable, sys_inv_start. Qed.

(** * Shutdown *)

Definition pool_closed (x : Sys) : Prop := p_closed (srv_pool (sys_srv x)) = true.

Lemma closed_step x y : sys_step x y -> pool_closed x -> pool_closed y /\
  forall n pc, serves (sys_clients y) n pc -> serves (sys_clients x) n pc.
Proof.
  unfold pool_closed. intros Hs Hcl.
  destruct Hs as [x n Ha Hl Hn|x Ha Hl|x Ha Hl|x n c e c' s' Ha Hn Hid E|x n c e Ha Hn E|x s' g' Ha E|x Ha E];
    cbn [set_serve sys_srv sys_clients] in *; try done.
  - split; [done|]. intros m pc (c & Hc & Hp). exists c. split; [|done].
    destruct (decide (m = n)) as [->|Hne]; [|by rewrite lookup_insert_ne in Hc].
    rewrite lookup_insert_eq in Hc. injection Hc as <-. revert Hp. unfold new_client. by case_bool_decide.
  - destruct (client_step_effect _ _ _ _ _ E) as [He _]. split; [by apply (step_effect_frame _ _ _ _ He)|].
    intros m pc (d & Hd & Hp). destruct (decide (m = n)) as [->|Hne]; [|rewrite lookup_insert_ne in Hd by done; by exists d].
    rewrite lookup_insert_eq in Hd. injection Hd as <-. exists c. split; [done|].
    destruct He as [H1 H2 _|now t1 t2 q p H1 H2 Ea _|now t1 t2 e' p H1 H2 Ea _|q H1 H2 _|q t p H1 H2 _ _]; try congruence.
    by rewrite Acquire_closed in Ea.
  - split; [|done]. destruct (sys_sig x); [|cbn [signal_step] in E; try done; by injection E as <- <-..].
    by apply signal_step_wait in E as [(_ & -> & _)|(_ & _ & _ & ->)].
Qed.

Lemma closed_run x y : rtc sys_step x y -> pool_closed x -> pool_closed y /\
  forall n pc, serves (sys_clients y) n pc -> serves (sys_clients x) n pc.
Proof.
  induction 1 as [x|x y z Hxy _ IH]; [done|]. intros Hcl. destruct (closed_step _ _ Hxy Hcl) as [Hy Hs].
  destruct (IH Hy) as [Hz Hs']. auto.
Qed.

Lemma listener_kept x y : rtc sys_step x y -> listener (sys_srv x) <> NoListener -> listener (sys_srv y) <> NoListener.
Proof.
  induction 1 as [x|x y z Hs _ IH]; [done|]. intros Hl. apply IH. clear IH.
  destruct Hs as [x n Ha _ Hn|x Ha _|x Ha _|x n c e c' s' Ha Hn Hid E|x n c e Ha Hn E|x s' g' Ha E|x Ha E]; try done; cbn [sys_srv].
  - destruct (client_step_effect _ _ _ _ _ E) as [He _]. apply step_effect_frame in He as (_ & -> & _). done.
  - destruct (sys_sig x); [|cbn [signal_step] in E; try done; by injection E as <- <-..].
    by apply signal_step_wait in E as [(_ & -> & _)|(_ & _ & _ & ->)].
Qed.

(** With a listener the goroutine of the signal always has its next step. *)
Lemma signal_step_total s g : listener s <> NoListener -> g <> SigCancelled ->
  exists s' g', signal_step s g = Some (Ok (s', g')).
Proof.
  intros Hl Hg. destruct g; cbn [signal_step]; try done; eauto.
  destruct (shutdown s); [eauto|]. unfold close_listener. destruct (listener s); [done|..]; by eexists _, _.
Qed.

(** The signal's goroutine and the accept loop end by themselves. *)
Lemma shutdown_runs n : forall x, signal_left (sys_sig x) = n -> sys_serve x = Accepting -> signal_ok x ->
  listener (sys_srv x) <> NoListener ->
  exists y, rtc sys_step x y /\ sys_serve y = Returned /\ sys_clients y = sys_clients x.
Proof.
  induction n as [|n IH]; intros x Hn Ha Hok Hl.
  - eexists. split; [apply rtc_once; by apply step_accept_error|]. split; [|done]. cbn.
    rewrite decide_True; [done|]. by destruct (sys_sig x).
  - destruct (signal_step_total (sys_srv x) (sys_sig x) Hl) as (s' & g' & E); [by destruct (sys_sig x)|].
    destruct (signal_step_ok _ _ _ (sys_clients x) (sys_serve x) Hok E) as (Hok' & Hleft & Hl').
    destruct (IH (mkSys s' (sys_clients x) (sys_serve x) g')) as (y & Hy & H1 & H2); cbn [sys_sig sys_serve sys_srv]; auto; [lia|].
    exists y. split; [|done]. eapply rtc_l; [|exact Hy]. apply step_signal; [by rewrite Ha|done].
Qed.

(** C37: shutting down a server that was started with a listener. From every state
    it reaches while its accept loop runs, there is a run to a state in which the
    loop has returned and every session stands where it stood: the loop waits for
    no session. In every state in which the loop has returned the pool is closed,
    and once the pool is closed a session holds a connection only if it held the
    same one before. *)
Theorem shutdown_drains cfg (store : S) clock s x :
  Start true true (new_server cfg store clock) = inr s -> rtc sys_step (sys0 s) x ->
  (sys_serve x = Accepting ->
     exists y, rtc sys_step x y /\ sys_serve y = Returned /\ sys_clients y = sys_clients x) /\
  (sys_serve x = Returned -> pool_closed x) /\
  (pool_closed x -> forall y, rtc sys_step x y ->
     forall n pc, serves (sys_clients y) n pc -> serves (sys_clients x) n pc).
Proof.
  intros E Hr. pose proof (sys_inv_reachable _ _ _ Hr (sys_inv_start _ _ _ _ _ _ E)) as HI. split_and!.
  - intros Ha. eapply shutdown_runs; [done|done|apply HI|]. eapply listener_kept; [exact Hr|].
    unfold Start in E. cbn [negb] in E. destruct (_ && _) in E; by injection E as <-.
  - intros Hret. pose proof (si_signal _ _ HI) as Hg. unfold signal_ok in Hg. rewrite (si_returned _ _ HI Hret) in Hg. apply Hg.
  - intros Hcl y Hy. by apply closed_run.
Qed.

(** * One session after the other *)

Lemma cut_bounded cap k : forall d, 0 <= cap -> Forall (fun r => if r is Some d then len d <= cap else True) (cut k cap d).
Proof.
  induction k as [|k IH]; intros d Hc; cbn [cut]; [constructor|].
  destruct (Z.leb_spec (len d) cap); repeat constructor; [done| |by apply IH]. unfold len. rewrite length_take. lia.
Qed.

Lemma reads_of_bounded cap input : 0 <= cap -> Forall (fun r => if r is Some d then len d <= cap else True) (reads_of cap input).
Proof.
  intros Hc. induction input as [|[d|] input IH]; cbn [reads_of]; [constructor| |by constructor].
  apply Forall_app. split; [by apply cut_bounded|done].
Qed.

Lemma step_client' s cs v g n c e c' s' : v <> Crashed -> cs !! n = Some c ->
  (cl_phase c = PAcquire -> nextID (srv_pool s) < 2 ^ 64 - 1) -> client_step s c e = Some (Ok (c', s')) ->
  sys_step (mkSys s cs v g) (mkSys s' (<[n := c']> cs) v g).
Proof. intros Hv Hn Hid E. by apply (step_client (mkSys s cs v g) n c e c' s'). Qed.

(** The loop of a session, up to a failed read and the release. *)
Lemma session_runs reads : forall s pc out s1 cs v g n c t p,
  Forall (fun r => if r is Some d then len d <= 4096 else True) reads -> v <> Crashed ->
  cs !! n = Some c -> cl_phase c = PServing pc ->
  session fmt_g err_text fuel s pc reads = Ok (out, s1) -> Release (srv_pool s1) pc t = Ok p ->
  exists rs, rtc sys_step (mkSys s cs v g) (mkSys (set_pool s1 p) (<[n := mkClient PDone rs (cl_out c ++ out)]> cs) v g).
Proof.
  assert (forall s pc s1 out cs v g n c t p, v <> Crashed -> cs !! n = Some c -> cl_phase c = PServing pc ->
    Ok ([], s) = Ok (out, s1) -> Release (srv_pool s1) pc t = Ok p ->
    exists rs, rtc sys_step (mkSys s cs v g) (mkSys (set_pool s1 p) (<[n := mkClient PDone rs (cl_out c ++ out)]> cs) v g)) as Hend.
  { intros s pc s1 out cs v g n c t p Hv Hn Hc [= <- <-] Er. exists (cl_reads c ++ [None]). apply rtc_once.
    apply (step_client' _ _ _ _ n c (EvRead None t)); [done|done|by rewrite Hc|].
    unfold client_step. rewrite Hc, Er, bind_ok. unfold cl_go. done. }
  induction reads as [|[data|] reads IH]; intros s pc out s1 cs v g n c t p Hb Hv Hn Hc E Er; [by eapply Hend| |by eapply Hend].
  apply Forall_cons in Hb as [Hd Hb]. cbn [session] in E. apply bind_ok_inv in E as ([o s2] & E1 & E).
  apply bind_ok_inv in E as ([out2 s3] & E2 & [= <- <-]).
  set (c' := cl_go c (PServing pc) [Some data] [o]).
  destruct (IH s2 pc out2 s3 (<[n := c']> cs) v g n c' t p Hb Hv) as (rs & Hr); [apply lookup_insert_eq|done|done|done|].
  rewrite insert_insert_eq in Hr. exists rs. replace (cl_out c ++ o :: out2) with (cl_out c' ++ out2)
    by (cbn; by rewrite <-app_assoc). eapply rtc_l; [|exact Hr].
  apply (step_client' _ _ _ _ n c (EvRead (Some data) 0)); [done|done|by rewrite Hc|].
  unfold client_step. rewrite Hc, (proj2 (Z.leb_le _ _)) by done. cbn [negb]. by rewrite E1, bind_ok.
Qed.

Lemma serve_conn_runs s reads now t1 t2 t3 out s' cs v g n c :
  Forall (fun r => if r is Some d then len d <= 4096 else True) reads -> v <> Crashed ->
  nextID (srv_pool s) < 2 ^ 64 - 1 -> cs !! n = Some c -> cl_phase c = PAcquire ->
  serve_conn fmt_g err_text fuel s reads now t1 t2 t3 = Ok (out, s') ->
  exists rs, rtc sys_step (mkSys s cs v g) (mkSys s' (<[n := mkClient PDone rs (cl_out c ++ out)]> cs) v g).
Proof.
  intros Hb Hv Hid Hn Hc. unfold serve_conn.
  destruct (Acquire (srv_pool s) now t1 t2) as [[[e|pc]| |] p] eqn:Ea; try done.
  - intros [= <- <-]. exists (cl_reads c ++ []). apply rtc_once.
    apply (step_client' _ _ _ _ n c (EvAcquire now t1 t2)); [done..|]. unfold client_step. by rewrite Hc, Ea.
  - intros ([out1 s1] & Es & E)%bind_ok_inv. apply bind_ok_inv in E as (p2 & Er & [= <- <-]).
    set (c' := cl_go c (PServing pc) [] []).
    destruct (session_runs reads (set_pool s p) pc out1 s1 (<[n := c']> cs) v g n c' t3 p2) as (rs & Hr);
      [done|done|apply lookup_insert_eq|done|done|done|].
    rewrite insert_insert_eq in Hr. exists rs. cbn [cl_out c' cl_go] in Hr. rewrite app_nil_r in Hr.
    eapply rtc_l; [|exact Hr]. apply (step_client' _ _ _ _ n c (EvAcquire now t1 t2)); [done..|].
    unfold client_step. by rewrite Hc, Ea.
Qed.

(** [handleConn] run to its end is a run of the system in which only its session
    takes steps. *)
Theorem handleConn_runs s input now t1 t2 t3 out s' cs v g n : v <> Crashed -> nextID (srv_pool s) < 2 ^ 64 - 1 ->
  cs !! n = Some (new_client s) -> handleConn fmt_g err_text fuel s input now t1 t2 t3 = Ok (out, s') ->
  exists rs, rtc sys_step (mkSys s cs v g) (mkSys s' (<[n := mkClient PDone rs out]> cs) v g).
Proof.
  intros Hv Hid Hn. unfold handleConn, new_client in *. case_bool_decide as Ht.
  - intros E. apply (serve_conn_runs _ _ _ _ _ _ _ _ cs v g n (mkClient PAcquire [] [])) in E;
      [exact E|by apply reads_of_bounded|done..].
  - set (c := mkClient PAuth [] []) in *.
    assert (forall data rest, conn_read 512 input = (Some data, rest) -> len data <= 512) as Hr.
    { intros data rest. destruct input as [|[d|] l]; cbn [conn_read]; try done.
      destruct (Z.leb_spec (len d) 512); intros [= <- _]; [done|]. unfold len. rewrite length_take. lia. }
    destruct (conn_read 512 input) as [[data|] rest].
    + specialize (Hr _ _ eq_refl). case_bool_decide as Hd.
      * intros ([out1 s1] & E & [= <- <-])%bind_ok_inv.
        set (c' := cl_go c PAcquire [Some data] [authenticated]).
        eapply (serve_conn_runs _ _ _ _ _ _ _ _ (<[n := c']> cs) v g n c') in E as (rs & Hrun);
          [|by apply reads_of_bounded|done|done|apply lookup_insert_eq|done].
        rewrite insert_insert_eq in Hrun. exists rs. eapply rtc_l; [|exact Hrun].
        apply (step_client' _ _ _ _ n c (EvRead (Some data) 0)); [done..|]. unfold client_step. cbn [cl_phase c].
        rewrite (proj2 (Z.leb_le _ _)) by done. cbn [negb]. by rewrite bool_decide_true.
      * intros [= <- <-]. exists [Some data]. apply rtc_once.
        apply (step_client' _ _ _ _ n c (EvRead (Some data) 0)); [done..|]. unfold client_step. cbn [cl_phase c].
        rewrite (proj2 (Z.leb_le _ _)) by done. cbn [negb]. by rewrite bool_decide_false.
    + intros [= <- <-]. exists [None]. apply rtc_once. by apply (step_client' _ _ _ _ n c (EvRead None 0)).
Qed.
End system.

(** * Starting, case by case *)

(** [Start] on every branch: a certificate that does not load and, without TLS, a
    port that cannot be bound are reported as errors; with TLS a port that cannot
    be bound is not, and the accept loop or the signal panics on the missing
    listener: there is no other first step. *)
Theorem start_cases {S : Type} `{Storage S} fmt_g err_text fuel (cfg : SrvConfig) (store : S) clock keyPair listen :
  let tls := negb (bool_decide (TLSCert cfg = [])) && negb (bool_decide (TLSKey cfg = [])) in
  let s := new_server cfg store clock in
  (tls = true -> keyPair = false -> Start keyPair listen s = inl ErrTlsCert) /\
  (tls = false -> listen = false -> Start keyPair listen s = inl ErrListen) /\
  (listen = true -> (tls = true -> keyPair = true) -> Start keyPair listen s = inr (set_listener s Listening)) /\
  (tls = true -> keyPair = true -> listen = false -> exists s',
     Start keyPair listen s = inr s' /\
     sys_step fmt_g err_text fuel (sys0 s') (set_serve (sys0 s') Crashed) /\
     forall x, sys_step fmt_g err_text fuel (sys0 s') x -> sys_serve x = Crashed).
Proof.
  intros tls s. unfold Start. change (srv_config s) with cfg. fold tls. split_and!.
  - by intros -> ->.
  - by intros -> ->.
  - intros -> Hk. destruct tls; [by rewrite Hk|done].
  - intros -> -> ->. eexists. split; [done|]. split; [by apply step_accept_nil|].
    intros x Hs. inversion Hs as [y n Ha Hl Hn|y Ha Hl|y Ha Hl|y n c e c' s' Ha Hn Hid E|y n c e Ha Hn E|y s' g' Ha E|y Ha E]; subst.
    + done.
    + by destruct Hl.
    + done.
    + cbn [sys0 sys_clients] in Hn. by rewrite lookup_empty in Hn.
    + cbn [sys0 sys_clients] in Hn. by rewrite lookup_empty in Hn.
    + done.
    + done.
Qed.

(** The store's error is reported; no server is made. *)
Lemma NewServer_error {S : Type} `{Storage S} kvOpen stat entries cfg clock e :
  Shard.Open (S:=S) kvOpen (DBPath cfg) (cfg_SyncMode cfg) stat entries = Ok (inl e) ->
  NewServer kvOpen stat entries cfg clock = Ok (inl (ErrOpenDB e)).
Proof. intros E. unfold NewServer. by rewrite E, bind_ok. Qed.

(** * A run *)

Abbreviation run_sys := (sys_step (S:=mapStore) no_g err_code 10).

Definition started (tok : bytes) : Server mapStore := set_listener (new_server (config0 tok) (mkMap ∅) (fun _ => (0, 0))) Listening.

(** Two clients connect; one sends the token and holds a connection, the other one is refused. *)
Definition line (s : string) : bytes := str s ++ [10].
Definition client1 : client := mkClient (PServing 1) [Some (line "secret")] [authenticated].
Definition client2 : client := mkClient PDone [Some (line "guess")] [auth_failed].
Definition busy (s : Server mapStore) : Sys := mkSys s (<[2%nat := client2]> (<[1%nat := client1]> ∅)) Accepting SigWait.

Lemma busy_reachable : exists s, rtc run_sys (sys0 (started (str "secret"))) (busy s).
Proof.
  set (s := started (str "secret")). set (p := (Acquire (srv_pool s) 1 1 1).2).
  exists (set_pool s p).
  eapply rtc_l; [by apply (step_accept _ _ _ _ 1)|].
  eapply rtc_l; [by apply (step_accept _ _ _ _ 2)|].
  eapply rtc_l; [apply (step_client' _ _ _ _ _ _ _ 1 (new_client s) (EvRead (Some (line "secret")) 0)
    (cl_go (new_client s) PAcquire [Some (line "secret")] [authenticated]) s); done|].
  eapply rtc_l; [eapply (step_client' _ _ _ _ _ _ _ 2 (new_client s) (EvRead (Some (line "guess")) 0) client2 s); done|].
  apply rtc_once. eassert (busy (set_pool s p) = _) as ->; [|
    eapply (step_client' _ _ _ _ _ _ _ 1 _ (EvAcquire 1 1 1) client1 (set_pool s p)); [done|reflexivity|done|reflexivity]].
  unfold busy. cbn [sys0 sys_srv sys_clients sys_serve sys_sig]. f_equal.
Qed.

Lemma server_invariant_witness : exists s, rtc run_sys (sys0 (started (str "secret"))) (busy s) /\
  sys_inv (str "secret") (busy s) /\ serves (sys_clients (busy s)) 1 1.
Proof.
  destruct busy_reachable as [s Hs]. exists s. split; [exact Hs|]. split; [|exists client1; split; reflexivity].
  apply (server_invariant no_g err_code 10 (config0 (str "secret")) (mkMap ∅) (fun _ => (0, 0)) true true
    (started (str "secret")) (busy s)); [reflexivity|exact Hs].
Defined.

Lemma shutdown_drains_witness : exists s y, rtc run_sys (sys0 (started (str "secret"))) (busy s) /\
  rtc run_sys (busy s) y /\ sys_serve y = Returned /\ serves (sys_clients y) 1 1.
Proof.
  destruct busy_reachable as [s Hs].
  destruct (shutdown_drains no_g err_code 10 (config0 (str "secret")) (mkMap ∅) (fun _ => (0, 0))
    (started (str "secret")) (busy s)) as (H1 & _ & _); [reflexivity|exact Hs|].
  destruct (H1 eq_refl) as (y & Hy & Hret & Hc). exists s, y. split; [exact Hs|]. split; [exact Hy|].
  split; [exact Hret|]. rewrite Hc. exists client1. split; reflexivity.
Defined.

Definition tls_config : SrvConfig := mkSrvConfig (str ":8080") (str "./data.db") SyncFull [] 10 (str "cert.pem") (str "key.pem").

Lemma start_cases_witness : exists s', Start true false (new_server tls_config (mkMap ∅) (fun _ => (0, 0))) = inr s' /\
  run_sys (sys0 s') (set_serve (sys0 s') Crashed).
Proof.
  destruct (start_cases no_g err_code 10 tls_config (mkMap ∅) (fun _ => (0, 0)) true false) as (_ & _ & _ & H).
  destruct (H eq_refl eq_refl eq_refl) as (s' & E & Hs & _). exists s'. split; [exact E|exact Hs].
Defined.

(** A session alone: the token, a table, the end. *)
Definition input0 : list (option bytes) := [Some (line "secret"); Some (EncodeMessage MsgQuery (str create_users))].

Lemma handleConn_runs_witness : exists out s' rs,
  handleConn no_g err_code 10 (started (str "secret")) input0 1 1 1 2 = Ok (out, s') /\
  rtc run_sys (mkSys (started (str "secret")) {[ 1%nat := new_client (started (str "secret")) ]} Accepting SigWait)
    (mkSys s' (<[1%nat := mkClient PDone rs out]> {[ 1%nat := new_client (started (str "secret")) ]}) Accepting SigWait).
Proof.
  destruct (handleConn no_g err_code 10 (started (str "secret")) input0 1 1 1 2) as [[out s']| |] eqn:E;
    [|vm_compute in E; discriminate E|vm_compute in E; discriminate E].
  destruct (handleConn_runs no_g err_code 10 (started (str "secret")) input0 1 1 1 2 out s'
    {[ 1%nat := new_client (started (str "secret")) ]} Accepting SigWait 1) as (rs & Hr);
    [discriminate|reflexivity|reflexivity|exact E|].
  exists out, s', rs. split; [reflexivity|exact Hr].
Defined.
