(* ===== verification/Client.v ===== *)
(** The command-line client, src/cmd/svacara-cli/main.go, and its conversation
    with a session of the server.

    The input is what standard input holds; the other side of the connection is
    a function from its state and a message to what it sends back, so that the
    loop can be run against the server's session and against anything else. *)
From Stdlib Require Import Ascii String.
From S2P Require Import Prelude Keys KVList Encoding KV Protocol Storage Tx Shard Pool Relational RelSpec Ast Parser ParserSpec.
From S2P Require Import Executor Server.
#[local] Open Scope Z_scope.

(** * Lines *)

(** Up to the newline, and what follows it. *)
Fixpoint split_line (d : bytes) : bytes * option bytes :=
  match d with
  | [] => ([], None)
  | c :: d => if c =? 10 then ([], Some d) else let '(l, r) := split_line d in (c :: l, r)
  end.

Definition dropCR (l : bytes) : bytes :=
  match reverse l with c :: r => if c =? 13 then reverse r else l | [] => l end.

(** The lines that [scanner.Scan] delivers: a line of 64 KiB or more ends the
    scan. Each turn takes at least one byte. *)
Fixpoint scan_loop (fuel : nat) (d : bytes) : list bytes :=
  match fuel, d with
  | O, _ | _, [] => []
  | Datatypes.S fuel, _ =>
      let '(l, rest) := split_line d in
      if 65536 <=? len l then []
      else dropCR l :: match rest with Some d => scan_loop fuel d | None => [] end
  end.

Definition scan_lines (d : bytes) : list bytes := scan_loop (Datatypes.S (List.length d)) d.

(** [unicode.IsSpace] on the encodings of one, two and three bytes. *)
Definition space1 (c : Z) : bool := (c =? 32) || ((9 <=? c) && (c <=? 13)).
Definition space2 (c d : Z) : bool := (c =? 194) && ((d =? 133) || (d =? 160)).
Definition space3 (c d e : Z) : bool :=
  ((c =? 225) && (d =? 154) && (e =? 128)) ||
  ((c =? 226) && (d =? 128) && (((128 <=? e) && (e <=? 138)) || (e =? 168) || (e =? 169) || (e =? 175))) ||
  ((c =? 226) && (d =? 129) && (e =? 159)) ||
  ((c =? 227) && (d =? 128) && (e =? 128)).

Fixpoint trim_left (l : bytes) : bytes :=
  match l with
  | [] => []
  | c :: l1 =>
      if space1 c then trim_left l1
      else match l1 with
        | [] => l
        | d :: l2 =>
            if space2 c d then trim_left l2
            else match l2 with
              | [] => l
              | e :: l3 => if space3 c d e then trim_left l3 else l
              end
        end
  end.

(** The same from the end, on the reversed bytes. *)
Fixpoint trim_rev (l : bytes) : bytes :=
  match l with
  | [] => []
  | c :: l1 =>
      if space1 c then trim_rev l1
      else match l1 with
        | [] => l
        | d :: l2 =>
            if space2 d c then trim_rev l2
            else match l2 with
              | [] => l
              | e :: l3 => if space3 e d c then trim_rev l3 else l
              end
        end
  end.

Definition TrimSpace (l : bytes) : bytes := reverse (trim_rev (reverse (trim_left l))).

Definition upper (c : Z) : Z := if (97 <=? c) && (c <=? 122) then c - 32 else c.

(** [strings.ToUpper(l) == w] for a word [w] of ASCII letters without K and S:
    the dotless i (U+0131) is the one other letter whose upper case is one. *)
Fixpoint upper_is (l w : bytes) : bool :=
  match w with
  | [] => bool_decide (l = [])
  | x :: w =>
      match l with
      | [] => false
      | c :: l1 =>
          if upper c =? x then upper_is l1 w
          else if x =? 73 then
            match l1 with d :: l2 => (c =? 196) && (d =? 177) && upper_is l2 w | [] => false end
          else false
      end
  end.

Definition is_exit (l : bytes) : bool := upper_is l (str "EXIT") || upper_is l (str "QUIT").

(** * The loop *)

(** The message for one line of input. *)
Definition cli_request (line : bytes) : bytes := 1 :: be_bytes 4 (u32 (len line)) ++ line.

(** How the loop ends. *)
Inductive cli_end := EndInput | EndExit | EndWrite | EndRead | EndBody.

(** Reading one response: the header, then the body; reading past the end of the
    stream is an error. *)
Definition cli_read (stream : bytes) : cli_end + Z * bytes * bytes :=
  if len stream <? 5 then inl EndRead
  else
    let length := be_val (take 4 (drop 1 stream)) in
    let rest := drop 5 stream in
    if len rest <? length then inl EndBody
    else inr (peek stream, take (Z.to_nat length) rest, drop (Z.to_nat length) rest).

Inductive shown := ShowTable (t : option (list bytes * list (list bytes))) | ShowError (msg : bytes) | ShowOK | ShowUnknown (t : Z).

Definition cli_show (fuel : nat) (msgType : Z) (body : bytes) : res shown :=
  if msgType =? MsgResult then t ← printResult fuel body; Ok (ShowTable t)
  else if msgType =? MsgError then Ok (ShowError body)
  else if msgType =? MsgReady then Ok ShowOK
  else Ok (ShowUnknown msgType).

Section loop.
Context {St : Type}.
(** What the other side sends after a message has reached it, [None] when the
    message cannot be written; and the rows that one result may have. *)
Variables (peer : St -> bytes -> res (option (bytes * St))) (fuel : nat).

(** [unread] is what has arrived and was not read. *)
Fixpoint cli_loop (lines : list bytes) (st : St) (unread : bytes) : res (list shown * cli_end) :=
  match lines with
  | [] => Ok ([], EndInput)
  | l :: lines =>
      let line := TrimSpace l in
      if bool_decide (line = []) then cli_loop lines st unread
      else if is_exit line then Ok ([], EndExit)
      else
        r ← peer st (cli_request line);
        match r with
        | None => Ok ([], EndWrite)
        | Some (answer, st) =>
            match cli_read (unread ++ answer) with
            | inl e => Ok ([], e)
            | inr (msgType, body, unread) =>
                x ← cli_show fuel msgType body;
                '(xs, e) ← cli_loop lines st unread; Ok (x :: xs, e)
            end
        end
  end.

(** [main]: the exit code and what is shown; [dial] is the connection. *)
Definition cli_main (args : list bytes) (dial : option St) (stdin : bytes) : res (Z * list shown) :=
  if len args <? 2 then Ok (1, [])
  else
    match dial with
    | None => Ok (1, [])
    | Some st => '(xs, _) ← cli_loop (scan_lines stdin) st []; Ok (0, xs)
    end.
End loop.

(** * Reading what the server writes *)

Lemma cli_read_message t body rest : len body < 4294967296 ->
  cli_read (EncodeMessage t body ++ rest) = inr (t, body, rest).
Proof.
  intros Hl. pose proof (len_nonneg body). pose proof (len_nonneg rest). unfold EncodeMessage. rewrite u32_id by lia.
  set (h := be_bytes 4 (len body)). assert (List.length h = 4%nat) as Hh.
  { pose proof (len_be_bytes 4 (len body)) as E. unfold len in E at 1. subst h. lia. }
  unfold cli_read. cbn [app]. rewrite <-app_assoc, len_cons, !len_app.
  assert (len h = 4) as -> by (unfold len; lia). rewrite (proj2 (Z.ltb_ge _ _)) by lia.
  change (drop 1 (t :: h ++ body ++ rest)) with (h ++ body ++ rest).
  change (drop 5 (t :: h ++ body ++ rest)) with (drop 4 (h ++ body ++ rest)). cbv zeta.
  assert (take 4 (h ++ body ++ rest) = h) as -> by (rewrite <-Hh; apply take_app_length).
  assert (drop 4 (h ++ body ++ rest) = body ++ rest) as -> by (rewrite <-Hh; apply drop_app_length). subst h.
  rewrite be_val_bytes by (change (256 ^ Z.of_nat 4) with 4294967296; lia).
  rewrite len_app, (proj2 (Z.ltb_ge _ _)) by lia. unfold len. rewrite Nat2Z.id.
  by rewrite take_app_length, drop_app_length.
Qed.

(** * The client and the server *)

Section conversation.
Context {S : Type} `{Storage S}.
Variables (fmt_g : Z -> bytes) (err_text : srv_error -> bytes) (fuel pfuel : nat).
Implicit Types s : Server S.

(** The session on connection [pc] as the other side: a message arrives at once. *)
Definition session_peer (pc : Z) s (msg : bytes) : res (option (bytes * Server S)) :=
  '(out, s) ← session fmt_g err_text fuel s pc (reads_of 4096 [Some msg]); Ok (Some (concat out, s)).

(** What the user is to see of the result of a statement. *)
Inductive answer : sql_error + result -> shown -> Prop :=
| ans_error e : len (err_text (ErrSql e)) < 4294967296 -> answer (inl e) (ShowError (err_text (ErrSql e)))
| ans_none : answer (inr RNone) ShowOK
| ans_text : answer (inr RText) ShowOK
| ans_empty : answer (inr (RRows [])) (ShowTable (Some ([], [])))
| ans_rows l cols rows : result_rows fmt_g l [] [] = Ok (cols, rows) ->
    (0 < List.length cols)%nat -> len cols <= 255 -> Forall str_ok cols ->
    Forall (fun row => Forall (fun c => str_ok (row_get row c)) cols) rows -> (List.length rows <= pfuel)%nat ->
    len (result_body cols rows) < 4294967296 ->
    answer (inr (RRows l)) (ShowTable (Some (cols, (fun row => row_get row <$> cols) <$> rows))).

(** The statements of the lines run on the database, one after the other up to
    EXIT or QUIT; blank lines are left out, and no statement exceeds 4091 bytes. *)
Inductive converses : Server S -> list bytes -> list shown -> Prop :=
| conv_nil s : converses s [] []
| conv_blank s l lines xs : TrimSpace l = [] -> converses s lines xs -> converses s (l :: lines) xs
| conv_exit s l lines : TrimSpace l <> [] -> is_exit (TrimSpace l) = true -> converses s (l :: lines) []
| conv_query s l lines r db x xs :
    TrimSpace l <> [] -> is_exit (TrimSpace l) = false -> len (TrimSpace l) <= 4091 ->
    ExecuteRaw fuel (srv_db s) (TrimSpace l) = Ok (r, db) -> answer r x ->
    converses (set_db s db) lines xs -> converses s (l :: lines) (x :: xs).

(** The answer of the server to a statement, read and shown by the client. *)
Lemma query_shown s q r db x : ExecuteRaw fuel (srv_db s) q = Ok (r, db) -> answer r x ->
  exists t body, handleQuery fmt_g err_text fuel s q = Ok (EncodeMessage t body, set_db s db) /\
    len body < 4294967296 /\ cli_show pfuel t body = Ok x.
Proof.
  intros E Ha. unfold handleQuery. rewrite E, bind_ok. cbv zeta.
  destruct Ha as [e Hl| | | |l cols rows Er H0 H255 Hc Hr Hf Hb].
  - by eexists MsgError, _.
  - by eexists MsgReady, _.
  - by eexists MsgReady, _.
  - cbn [result_rows]. rewrite bind_ok. exists MsgResult, [0]. split; [done|]. split; [done|]. by destruct pfuel.
  - rewrite Er, bind_ok. exists MsgResult, (result_body cols rows). split; [done|]. split; [done|].
    unfold cli_show. rewrite Z.eqb_refl, printResult_body, bind_ok by done. done.
Qed.

Lemma peer_query s pc c q : heap (srv_pool s) !! pc = Some c -> len q <= 4091 ->
  session_peer pc s (cli_request q) = '(o, s) ← handleQuery fmt_g err_text fuel s q; Ok (Some (o, s)).
Proof.
  intros Hc Hl. unfold session_peer. change (cli_request q) with (EncodeMessage MsgQuery q).
  rewrite reads_short by (rewrite len_EncodeMessage; lia). rewrite session_cons, <-(app_nil_r (EncodeMessage _ _)).
  rewrite step_message by lia. unfold handleMessage. rewrite Hc. cbn [of_option]. rewrite bind_ok.
  change (MsgQuery =? MsgQuery) with true. cbv iota.
  destruct (handleQuery _ _ _ s q) as [[o s']| |]; [|done|done]. rewrite bind_ok. cbn [reads_of session concat]. rewrite !bind_ok. cbn [concat]. by rewrite app_nil_r.
Qed.

Lemma loop_converses pc s lines xs : converses s lines xs -> is_Some (heap (srv_pool s) !! pc) ->
  exists e, cli_loop (session_peer pc) pfuel lines s [] = Ok (xs, e) /\ (e = EndInput \/ e = EndExit).
Proof.
  induction 1 as [s|s l lines xs Hl _ IH|s l lines Hne Hex|s l lines r db x xs Hne Hex Hlen E Ha _ IH]; intros Hpc; cbn [cli_loop].
  - eauto.
  - rewrite bool_decide_true by done. by apply IH.
  - rewrite bool_decide_false, Hex by done. eauto.
  - rewrite bool_decide_false, Hex by done. destruct Hpc as [c Hc]. rewrite (peer_query s pc c) by done.
    destruct (query_shown s _ r db x E Ha) as (t & body & -> & Hb & Hs). rewrite !bind_ok.
    rewrite app_nil_l, <-(app_nil_r (EncodeMessage t body)), cli_read_message, Hs, bind_ok by done.
    destruct IH as (e & -> & He); [by exists c|]. rewrite bind_ok. eauto.
Qed.

(** C10: the client against a session of the server, when each line of its input is,
    without the space around it, empty, EXIT or QUIT, or a statement of at most
    4091 bytes that runs on the database without a panic and whose result can be
    sent (no rows, or rows with a value for each of at most 255 columns, with
    texts below 64 kilobytes): the client shows for each statement the text of
    its error, OK, or the table of its result, each statement run on the database
    that the ones before it left, and ends with code 0 at the end of the input, at
    EXIT or at QUIT. (A row that the program itself has inserted lacks the values
    of its primary key, so that a SELECT that finds it is not such a statement:
    it panics, [selected_row_panics].) *)
Theorem client_shows_results pc s stdin xs args :
  is_Some (heap (srv_pool s) !! pc) -> converses s (scan_lines stdin) xs -> 2 <= len args ->
  cli_main (session_peer pc) pfuel args (Some s) stdin = Ok (0, xs).
Proof.
  intros Hpc Hc Ha. unfold cli_main. rewrite (proj2 (Z.ltb_ge _ _)) by lia. destruct (loop_converses pc s _ xs Hc Hpc) as (e & -> & _). by rewrite bind_ok.
Qed.

(** The client sends no token: every message starts with the byte of a query, so
    a server with a token that does not refuses the first one. *)
Theorem client_cannot_authenticate s q input now t1 t2 t3 x rest : token s = x :: rest -> x <> 1 ->
  handleConn fmt_g err_text fuel s (Some (cli_request q) :: input) now t1 t2 t3 = Ok ([auth_failed], s).
Proof.
  intros Ht Hx. unfold handleConn. rewrite bool_decide_false by (by rewrite Ht).
  destruct (conn_read 512 _) as [r input'] eqn:E.
  assert (exists d, r = Some (1 :: d)) as [d ->].
  { cbn [conn_read] in E. destruct (_ <=? _); injection E as <- _; unfold cli_request; [by eexists|].
    change (Z.to_nat 512) with (Datatypes.S 511). cbn [take]. by eexists. }
  rewrite bool_decide_false; [done|]. cbn [first_line]. change ((1 =? 10) || (1 =? 13)) with false. cbv iota. rewrite Ht.
  destruct (first_line d); cbn; congruence.
Qed.
End conversation.

(** * A conversation *)

Definition nl (s : string) : bytes := str s ++ [10].
Definition stdin0 : bytes :=
  nl create_users ++ nl "  " ++ nl "SELECT * FROM users" ++ nl insert_bob ++ nl "SELECT" ++ str " quit ".

Definition shown0 : list shown := [ShowOK; ShowTable (Some ([], [])); ShowOK; ShowError [69]].

(** A statement whose result is not a table with rows. *)
Lemma converses_query (s : Server mapStore) l lines x xs :
  bool_decide (TrimSpace l = []) = false -> is_exit (TrimSpace l) = false -> (len (TrimSpace l) <=? 4091) = true ->
  match ExecuteRaw 10 (srv_db s) (TrimSpace l) with
  | Ok (r, db) => answer no_g err_code 10 r x /\ converses no_g err_code 10 10 (set_db s db) lines xs
  | _ => False
  end -> converses no_g err_code 10 10 s (l :: lines) (x :: xs).
Proof.
  intros H1%bool_decide_eq_false H2 H3. destruct (ExecuteRaw 10 (srv_db s) (TrimSpace l)) as [[r db]| |] eqn:E; try done.
  intros [Ha Hc]. apply (conv_query _ _ _ _ s l lines r db); try done. lia.
Qed.

(** A store with a pair that has a value for every column of the table. *)
Definition full_row : gmap bytes bytes :=
  {[ be_bytes 4 (hashTableName users) ++ encs [Int64 1] := encs [Int64 1; Bytes (str "Al"); Int64 30] ]}.
Definition full_server : Server mapStore :=
  set_pool (server_with full_row) (Acquire (srv_pool (server_with full_row)) 1 1 1).2.
Definition full_table : list shown :=
  [ShowTable (Some ([c_id; c_name; c_age], [[str "1"; str "Al"; str "30"]]))].

Lemma full_table_shown : converses no_g err_code 10 10 full_server [str "SELECT * FROM users"] full_table.
Proof.
  apply converses_query; [reflexivity|reflexivity|reflexivity|].
  destruct (ExecuteRaw 10 (srv_db full_server) (TrimSpace (str "SELECT * FROM users"))) as [[r db]| |] eqn:E;
    [|vm_compute in E; discriminate E|vm_compute in E; discriminate E].
  assert (r = inr (RRows [full [Int64 1; Bytes (str "Al"); Int64 30]])) as ->.
  { apply (f_equal (fun x => match x with Ok (r, _) => r | _ => inr RNone end)) in E. rewrite <-E.
    vm_compute. reflexivity. }
  split; [|constructor].
  set (rows := match result_rows no_g [full [Int64 1; Bytes (str "Al"); Int64 30]] [] [] with Ok (_, rows) => rows | _ => [] end).
  replace [[str "1"; str "Al"; str "30"]] with ((fun row => row_get row <$> [c_id; c_name; c_age]) <$> rows)
    by (vm_compute; reflexivity).
  apply (ans_rows _ _ _ _ [c_id; c_name; c_age] rows); [vm_compute; reflexivity|simpl; lia|vm_compute; discriminate|..].
  - repeat constructor; vm_compute; congruence.
  - repeat constructor; vm_compute; congruence.
  - simpl. lia.
  - vm_compute. reflexivity.
Qed.

Lemma client_shows_results_witness :
  cli_main (session_peer no_g err_code 10 1) 10 [str "svacara-cli"; str "localhost:8080"] (Some open_server) stdin0 =
    Ok (0, shown0) /\
  cli_main (session_peer no_g err_code 10 1) 10 [str "svacara-cli"; str "localhost:8080"] (Some full_server)
    (str "SELECT * FROM users") = Ok (0, full_table).
Proof.
  split.
  - apply (client_shows_results no_g err_code 10 10 1 open_server stdin0 shown0 [str "svacara-cli"; str "localhost:8080"]).
    + eexists. reflexivity.
    + change (scan_lines stdin0) with ([str create_users; str "  "; str "SELECT * FROM users"; str insert_bob; str "SELECT"; str " quit "]).
      apply converses_query; [reflexivity|reflexivity|reflexivity|]. vm_compute. split; [constructor|].
      apply conv_blank; [reflexivity|].
      apply converses_query; [reflexivity|reflexivity|reflexivity|]. vm_compute. split; [constructor|].
      apply converses_query; [reflexivity|reflexivity|reflexivity|]. vm_compute. split; [constructor|].
      apply converses_query; [reflexivity|reflexivity|reflexivity|]. vm_compute. split; [constructor; reflexivity|].
      apply conv_exit; [discriminate|reflexivity].
    + vm_compute. discriminate.
  - apply (client_shows_results no_g err_code 10 10 1 full_server (str "SELECT * FROM users") full_table).
    + eexists. reflexivity.
    + exact full_table_shown.
    + vm_compute. discriminate.
Defined.

Lemma client_cannot_authenticate_witness :
  handleConn no_g err_code 10 server0 [Some (cli_request (str "secret"))] 1 1 1 2 = Ok ([auth_failed], server0).
Proof.
  apply (client_cannot_authenticate no_g err_code 10 server0 (str "secret") [] 1 1 1 2 115 (str "ecret"));
    [reflexivity|discriminate].
Defined.

(** The commands that the client announces are sent as queries: they are answered
    with OK, and no transaction is begun, committed or aborted. *)
Theorem commands_do_nothing {S : Type} `{Storage S} fmt_g err_text fuel (s : Server S) w :
  w ∈ [str "BEGIN"; str "COMMIT"; str "ABORT"] ->
  handleQuery fmt_g err_text fuel s w = Ok (sendReady, set_db s (srv_db s)).
Proof. set_unfold. by intros [->|[->|[->|[]]]]. Qed.
