(* ===== verification/SrvMain.v ===== *)
(** The server program: [main] of src/cmd/svacara-server/main.go, with the
    parsing of its flags by the [flag] package. *)
From Stdlib Require Import Ascii String.
From S2P Require Import Prelude Keys KVList Encoding KV Protocol Storage Tx Shard Pool Relational RelSpec Ast Parser ParserSpec.
From S2P Require Import Executor Server ServerLoop.
#[local] Open Scope Z_scope.

(** * Integers of the command line: [strconv.ParseInt(s, 0, 64)] *)

Definition lower_c (c : Z) : Z := Z.lor c 32.

Definition digit_of (c : Z) : option Z :=
  if (48 <=? c) && (c <=? 57) then Some (c - 48)
  else if (97 <=? lower_c c) && (lower_c c <=? 122) then Some (lower_c c - 97 + 10)
  else None.

(** The base, and the digits after the prefix. *)
Definition int_base (s : bytes) : Z * bytes :=
  match s with
  | z :: r =>
      if z =? 48 then
        match r with
        | c :: ((_ :: _) as d) =>
            if lower_c c =? 98 then (2, d) else if lower_c c =? 111 then (8, d)
            else if lower_c c =? 120 then (16, d) else (8, r)
        | _ => (8, r)
        end
      else (10, s)
  | [] => (10, s)
  end.

(** The loop over the digits; underscores are skipped. *)
Fixpoint int_digits (base n : Z) (s : bytes) : option Z :=
  match s with
  | [] => Some n
  | c :: s =>
      if c =? 95 then int_digits base n s
      else match digit_of c with
        | Some d => if base <=? d then None else int_digits base (n * base + d) s
        | None => None
        end
  end.

(** [underscoreOK]: [prev] tells whether the last character was a digit (0), an
    underscore (1) or neither (2). *)
Fixpoint underscore_loop (hex : bool) (prev : Z) (s : bytes) : bool :=
  match s with
  | [] => negb (prev =? 1)
  | c :: s =>
      if ((48 <=? c) && (c <=? 57)) || (hex && (97 <=? lower_c c) && (lower_c c <=? 102)) then underscore_loop hex 0 s
      else if c =? 95 then if prev =? 0 then underscore_loop hex 1 s else false
      else if prev =? 1 then false else underscore_loop hex 2 s
  end.

Definition underscoreOK (s : bytes) : bool :=
  match s with
  | z :: c :: r =>
      if (z =? 48) && ((lower_c c =? 98) || (lower_c c =? 111) || (lower_c c =? 120))
      then underscore_loop (lower_c c =? 120) 0 r
      else underscore_loop false 2 s
  | _ => underscore_loop false 2 s
  end.

(** Without a sign; the bound of 64 bits is that of [ParseInt]. *)
Definition ParseUint (s : bytes) : option Z :=
  if bool_decide (s = []) then None
  else
    let '(base, d) := int_base s in
    match int_digits base 0 d with
    | Some n => if bool_decide (95 ∈ d) && negb (underscoreOK s) then None else Some n
    | None => None
    end.

Definition ParseInt (s : bytes) : option Z :=
  match s with
  | [] => None
  | c :: r =>
      let neg := c =? 45 in
      match ParseUint (if (c =? 43) || neg then r else s) with
      | Some n =>
          if negb neg && (9223372036854775808 <=? n) then None
          else if neg && (9223372036854775808 <? n) then None
          else Some (if neg then - n else n)
      | None => None
      end
  end.

(** * Flags *)

Record Flags := mkFlags { f_listen : bytes; f_data : bytes; f_sync : bytes; f_token : bytes; f_conns : Z }.

Definition default_flags : Flags := mkFlags (str ":8080") (str "./data.db") (str "full") [] 50.

(** [flag.Value.Set] of the flag with this name: [None] when there is no such
    flag, [Some None] when the value is not a number. *)
Definition set_flag (f : Flags) (name value : bytes) : option (option Flags) :=
  if bool_decide (name = str "listen") then Some (Some (mkFlags value (f_data f) (f_sync f) (f_token f) (f_conns f)))
  else if bool_decide (name = str "data") then Some (Some (mkFlags (f_listen f) value (f_sync f) (f_token f) (f_conns f)))
  else if bool_decide (name = str "sync") then Some (Some (mkFlags (f_listen f) (f_data f) value (f_token f) (f_conns f)))
  else if bool_decide (name = str "auth-token") then
    Some (Some (mkFlags (f_listen f) (f_data f) (f_sync f) value (f_conns f)))
  else if bool_decide (name = str "max-conns") then
    Some (n ← ParseInt value; Some (mkFlags (f_listen f) (f_data f) (f_sync f) (f_token f) n))
  else None.

(** A name with the value after the equals sign, which cannot be first. *)
Fixpoint split_eq (s : bytes) : bytes * option bytes :=
  match s with
  | [] => ([], None)
  | c :: s => if c =? 61 then ([], Some s) else let '(n, v) := split_eq s in (c :: n, v)
  end.

(** The name of an argument that is a flag, without the dashes. *)
Inductive arg := ArgFlag (name : bytes) | ArgBad | ArgEnd.

Definition flag_arg (s : bytes) : arg :=
  match s with
  | c :: r =>
      if negb (c =? 45) || bool_decide (r = []) || bool_decide (r = [45]) then ArgEnd
      else
        match (if peek r =? 45 then next r else r) with
        | [] => ArgBad
        | (x :: _) as name => if (x =? 45) || (x =? 61) then ArgBad else ArgFlag name
        end
  | [] => ArgEnd
  end.

(** [flag.Parse]: the flags, or the exit code: 0 for help, 2 for an error. *)
Fixpoint flag_Parse (args : list bytes) (f : Flags) : Z + Flags :=
  match args with
  | [] => inr f
  | s :: args =>
      match flag_arg s with
      | ArgEnd => inr f
      | ArgBad => inl 2
      | ArgFlag name =>
          let '(name, value) := match name with c :: n => let '(n, v) := split_eq n in (c :: n, v) | [] => ([], None) end in
          match set_flag f name [] with
          | None => inl (if bool_decide (name = str "help") || bool_decide (name = str "h") then 0 else 2)
          | Some _ =>
              match value, args with
              | Some v, _ => match set_flag f name v with Some (Some f) => flag_Parse args f | _ => inl 2 end
              | None, v :: args => match set_flag f name v with Some (Some f) => flag_Parse args f | _ => inl 2 end
              | None, [] => inl 2
              end
          end
      end
  end.

(** * The program *)

Definition sync_mode (s : bytes) : option SyncMode :=
  if bool_decide (s = str "full") then Some SyncFull
  else if bool_decide (s = str "normal") then Some SyncNormal
  else if bool_decide (s = str "off") then Some SyncOff
  else None.

Definition flag_config (f : Flags) (mode : SyncMode) : SrvConfig :=
  mkSrvConfig (f_listen f) (f_data f) mode (f_token f) (f_conns f) [] [].

(** The program exits with a code or serves. *)
Inductive main_result (S : Type) := Exit (code : Z) | Serves (x : Sys (S:=S)).
Arguments Exit {S} code.
Arguments Serves {S} x.

Section main.
Context {S : Type} `{Storage S}.
Variables (kvOpen : bytes -> SyncMode -> res (kv_error + S)) (stat : option bool)
  (entries : option (list (bytes * bool))) (clock : nat -> Z * Z) (keyPair listen : bool).

(** [args] are those after the name of the program. *)
Definition server_main (args : list bytes) : res (main_result (Shard.DB S)) :=
  match flag_Parse args default_flags with
  | inl code => Ok (Exit code)
  | inr f =>
      match sync_mode (f_sync f) with
      | None => Ok (Exit 1)
      | Some mode =>
          r ← NewServer kvOpen stat entries (flag_config f mode) clock;
          match r with
          | inl _ => Ok (Exit 1)
          | inr s =>
              match Start keyPair listen s with
              | inl _ => Ok (Exit 1)
              | inr s => Ok (Serves (sys0 s))
              end
          end
      end
  end.
End main.

(** * Settings *)

(** A flag with its value. *)
Inductive setting := SListen (v : bytes) | SData (v : bytes) | SSync (v : bytes) | SToken (v : bytes) | SConns (n : Z).

Definition setting_name (x : setting) : bytes :=
  match x with
  | SListen _ => str "listen" | SData _ => str "data" | SSync _ => str "sync"
  | SToken _ => str "auth-token" | SConns _ => str "max-conns"
  end.

Definition setting_value (x : setting) : bytes :=
  match x with SListen v | SData v | SSync v | SToken v => v | SConns n => dec n end.

(** How a flag is written: with one dash or two, and with the value after an
    equals sign or as an argument of its own. *)
Record spelling := mkSpelling { two_dashes : bool; equals_sign : bool }.

Definition render (x : spelling * setting) : list bytes :=
  let name := (if two_dashes x.1 then [45; 45] else [45]) ++ setting_name x.2 in
  if equals_sign x.1 then [name ++ 61 :: setting_value x.2] else [name; setting_value x.2].

Definition setting_ok (x : setting) : Prop :=
  match x with SConns n => -9223372036854775808 <= n < 9223372036854775808 | _ => True end.

Definition apply_setting (f : Flags) (x : setting) : Flags :=
  match x with
  | SListen v => mkFlags v (f_data f) (f_sync f) (f_token f) (f_conns f)
  | SData v => mkFlags (f_listen f) v (f_sync f) (f_token f) (f_conns f)
  | SSync v => mkFlags (f_listen f) (f_data f) v (f_token f) (f_conns f)
  | SToken v => mkFlags (f_listen f) (f_data f) (f_sync f) v (f_conns f)
  | SConns n => mkFlags (f_listen f) (f_data f) (f_sync f) (f_token f) n
  end.

(** Decimal digits are read back. *)
Lemma int_digits_dec l : forall n, Forall (fun c => is_digit c = true) l ->
  int_digits 10 n l = Some (foldl (fun n c => 10 * n + (c - 48)) n l).
Proof.
  induction l as [|c l IH]; intros n Hl; [done|]. apply Forall_cons in Hl as [Hc Hl]. cbn [int_digits foldl].
  unfold is_digit in Hc. apply andb_true_iff in Hc as [H1%Z.leb_le H2%Z.leb_le].
  rewrite (proj2 (Z.eqb_neq _ _)) by lia. unfold digit_of. rewrite !(proj2 (Z.leb_le _ _)) by lia. cbn [andb].
  rewrite (proj2 (Z.leb_gt _ _)) by lia. rewrite IH by done. f_equal. f_equal. lia.
Qed.

Lemma digits_head fuel : forall n, 0 < n < 10 ^ Z.of_nat fuel -> (0 < fuel)%nat ->
  exists c l, digits fuel n = c :: l /\ 49 <= c <= 57.
Proof.
  induction fuel as [|fuel IH]; intros n Hn Hf; [lia|].
  change (digits (Datatypes.S fuel) n) with (if n <? 10 then [48 + n] else digits fuel (n / 10) ++ [48 + n mod 10]).
  destruct (Z.ltb_spec n 10); [eexists _, _; split; [done|lia]|].
  rewrite Nat2Z.inj_succ, Z.pow_succ_r in Hn by lia.
  destruct (IH (n / 10)) as (c & l & -> & Hc); [dlia|destruct fuel; [simpl in Hn; lia|lia]|].
  eexists _, _. split; [done|done].
Qed.

Lemma ParseUint_digits n : 0 <= n <= 9223372036854775808 -> ParseUint (digits 20 n) = Some n /\
  exists c l, digits 20 n = c :: l /\ 48 <= c <= 57.
Proof.
  intros Hn. destruct (decide (n = 0)) as [->|Hz]; [split; [reflexivity|by exists 48, []]|].
  assert (10 ^ Z.of_nat 20 = 100000000000000000000) as Ep by reflexivity.
  destruct (digits_head 20 n) as (c & l & E & Hc); [lia|lia|].
  destruct (digits_ok 20 n) as (Hd & _ & Hv); [lia|lia|]. rewrite E in *.
  assert (int_base (c :: l) = (10, c :: l)) as Hb.
  { unfold int_base. by rewrite (proj2 (Z.eqb_neq _ _)) by lia. }
  split; [|exists c, l; split; [done|lia]].
  unfold ParseUint. rewrite bool_decide_false by done. rewrite Hb, int_digits_dec by done.
  rewrite bool_decide_false; [by unfold dec_val in Hv; rewrite Hv|].
  intros Hin. rewrite Forall_forall in Hd. by apply Hd in Hin.
Qed.

Lemma ParseInt_dec n : -9223372036854775808 <= n < 9223372036854775808 -> ParseInt (dec n) = Some n.
Proof.
  intros Hn. unfold dec. destruct (Z.ltb_spec n 0) as [Hneg|Hpos].
  - destruct (ParseUint_digits (- n)) as (E & _); [lia|]. unfold ParseInt. cbn [Z.eqb Pos.eqb orb]. rewrite E. cbn [negb andb].
    rewrite (proj2 (Z.ltb_ge _ _)) by lia. cbn. f_equal. lia.
  - destruct (ParseUint_digits n) as (E & c & l & El & Hc); [lia|]. rewrite El in *. unfold ParseInt.
    rewrite (proj2 (Z.eqb_neq c 45)), (proj2 (Z.eqb_neq c 43)) by lia. cbn [orb negb andb]. rewrite E.
    rewrite (proj2 (Z.leb_gt _ _)) by lia. done.
Qed.

Lemma Parse_max_conns f n args : setting_ok (SConns n) ->
  match set_flag f (str "max-conns") (dec n) with Some (Some f) => flag_Parse args f | _ => inl 2 end =
  flag_Parse args (apply_setting f (SConns n)).
Proof.
  intros Hn. cbn in Hn. change (set_flag f (str "max-conns") (dec n)) with
    (Some (n ← ParseInt (dec n); Some (mkFlags (f_listen f) (f_data f) (f_sync f) (f_token f) n))).
  by rewrite ParseInt_dec.
Qed.

Lemma Parse_setting f x args : setting_ok x.2 -> flag_Parse (render x ++ args) f = flag_Parse args (apply_setting f x.2).
Proof.
  destruct x as [[two eq] [v|v|v|v|n]]; intros Hx; [destruct two, eq; reflexivity..|].
  cbn [snd] in *. rewrite <-Parse_max_conns by done. destruct two, eq; reflexivity.
Qed.

(** The settings are read up to the first argument that does not begin with a dash. *)
Definition no_flag (rest : list bytes) : Prop := match rest with (c :: _) :: _ => c <> 45 | _ => True end.

Lemma Parse_render rest l : forall f, Forall (fun x => setting_ok x.2) l -> no_flag rest ->
  flag_Parse (concat (render <$> l) ++ rest) f = inr (foldl apply_setting f l.*2).
Proof.
  induction l as [|x l IH]; intros f Hl Hr.
  - destruct rest as [|[|c s] rest]; [done..|]. cbn [fmap list_fmap concat app flag_Parse flag_arg].
    by rewrite (proj2 (Z.eqb_neq c 45)).
  - apply Forall_cons in Hl as [Hx Hl]. rewrite !fmap_cons. cbn [concat foldl].
    by rewrite <-app_assoc, Parse_setting, IH.
Qed.

(** The value of a flag: the last one that is given, or the default. *)
Definition get_listen (x : setting) : option bytes := if x is SListen v then Some v else None.
Definition get_data (x : setting) : option bytes := if x is SData v then Some v else None.
Definition get_sync (x : setting) : option bytes := if x is SSync v then Some v else None.
Definition get_token (x : setting) : option bytes := if x is SToken v then Some v else None.
Definition get_conns (x : setting) : option Z := if x is SConns n then Some n else None.

Definition last_given {A} (get : setting -> option A) (dflt : A) (l : list setting) : A := default dflt (last (omap get l)).

Lemma last_given_cons {A} (get : setting -> option A) dflt x l :
  last_given get dflt (x :: l) = last_given get (default dflt (get x)) l.
Proof.
  unfold last_given. cbn [omap list_omap]. destruct (get x) as [v|]; [|done]. rewrite last_cons. cbn.
  fold (omap get l). by destruct (last (omap get l)).
Qed.

Lemma foldl_settings l : forall f, foldl apply_setting f l =
  mkFlags (last_given get_listen (f_listen f) l) (last_given get_data (f_data f) l) (last_given get_sync (f_sync f) l)
    (last_given get_token (f_token f) l) (last_given get_conns (f_conns f) l).
Proof.
  induction l as [|x l IH]; intros f; [by destruct f|]. cbn [foldl]. rewrite IH, !last_given_cons. by destruct x.
Qed.

Section cases.
Context {S : Type} `{Storage S}.

(** C39: the server program on a command line of its five flags, repeated or left
    out, in any order and each in any of its four spellings ([-name v], [--name v],
    [-name=v], [--name=v]; the number of connections in decimal, within 64 bits),
    and of arguments that are ignored from the first one without a dash on. The
    address, the path, the token and the number of connections are the last ones
    given, by default [:8080], [./data.db], none and 50. A sync mode other than
    full, normal and off ends the program with code 1 before the store is opened;
    a store that reports an error and a port that cannot be bound end it with
    code 1; otherwise it serves, without TLS, with exactly this configuration. *)
Theorem server_program kvOpen stat entries clock keyPair listen (l : list (spelling * setting)) rest :
  Forall (fun x => setting_ok x.2) l -> no_flag rest ->
  let path := last_given get_data (str "./data.db") l.*2 in
  let sync := last_given get_sync (str "full") l.*2 in
  let config mode := mkSrvConfig (last_given get_listen (str ":8080") l.*2) path mode
    (last_given get_token [] l.*2) (last_given get_conns 50 l.*2) [] [] in
  let main := server_main (S:=S) kvOpen stat entries clock keyPair listen (concat (render <$> l) ++ rest) in
  (sync <> str "full" -> sync <> str "normal" -> sync <> str "off" -> main = Ok (Exit 1)) /\
  forall mode, (sync, mode) ∈ [(str "full", SyncFull); (str "normal", SyncNormal); (str "off", SyncOff)] ->
    (forall e, Shard.Open kvOpen path mode stat entries = Ok (inl e) -> main = Ok (Exit 1)) /\
    (forall store, Shard.Open kvOpen path mode stat entries = Ok (inr store) ->
       main = Ok (if listen then Serves (sys0 (set_listener (new_server (config mode) store clock) Listening)) else Exit 1)) /\
    (Shard.Open kvOpen path mode stat entries = Panic -> main = Panic).
Proof.
  intros Hl Hr path sync config main. subst main. unfold server_main. rewrite Parse_render, foldl_settings by done.
  cbn [f_listen f_data f_sync f_token f_conns default_flags]. fold path sync.
  split.
  { intros H1 H2 H3. unfold sync_mode. by rewrite !bool_decide_false. }
  intros mode Hmode. assert (sync_mode sync = Some mode) as ->.
  { rewrite !elem_of_cons in Hmode. destruct Hmode as [[= E ->]|[[= E ->]|[[= E ->]|Hm%elem_of_nil]]]; [by rewrite E..|done]. }
  unfold NewServer. cbn [DBPath cfg_SyncMode flag_config f_data]. split_and!.
  - intros e ->. done.
  - intros store ->. rewrite !bind_ok. unfold Start. cbn [srv_config new_server flag_config TLSCert TLSKey]. by destruct listen.
  - by intros ->.
Qed.
End cases.

(** The command line of the README, with the number of connections given twice. *)
Definition two : spelling := mkSpelling true false.
Definition readme_args : list (spelling * setting) :=
  [(two, SListen (str ":8080")); (two, SData (str "./mydb.db")); (two, SSync (str "full"));
   (mkSpelling false true, SConns 10); (mkSpelling true true, SConns 20)].

Lemma server_program_witness : exists x,
  concat (render <$> readme_args) = [str "--listen"; str ":8080"; str "--data"; str "./mydb.db"; str "--sync"; str "full";
    str "-max-conns=10"; str "--max-conns=20"] /\
  server_main (kv_open ∅) None None (fun _ => (0, 0)) false true (concat (render <$> readme_args) ++ [str "extra"]) = Ok (Serves x) /\
  srv_config (sys_srv x) = mkSrvConfig (str ":8080") (str "./mydb.db") SyncFull [] 20 [] [].
Proof.
  destruct (server_program (kv_open ∅) None None (fun _ => (0, 0)) false true readme_args [str "extra"]) as [_ H].
  { by repeat constructor. }
  { discriminate. }
  destruct (H SyncFull) as (_ & H2 & _); [left|].
  eexists. split; [reflexivity|]. split; [apply H2; reflexivity|reflexivity].
Defined.

Example main_exits :
  server_main (kv_open ∅) None None (fun _ => (0, 0)) false true [str "-sync=fast"] = Ok (Exit 1) /\
  server_main (kv_open ∅) None None (fun _ => (0, 0)) false true [str "-max-conns"; str "many"] = Ok (Exit 2) /\
  server_main (kv_open ∅) None None (fun _ => (0, 0)) false true [str "--tls-cert"; str "c"] = Ok (Exit 2) /\
  server_main (kv_open ∅) None None (fun _ => (0, 0)) false true [str "-h"] = Ok (Exit 0) /\
  ParseInt (str "0x1_0") = Some 16 /\ ParseInt (str "1__0") = None /\ ParseInt (str "010") = Some 8 /\
  ParseInt (str "-0b11") = Some (-3) /\ ParseInt (str "0x") = None.
Proof. by vm_compute. Qed.
